(* ===== verification/_CoqProject ===== *)
-Q . S2P
Prelude.v
GoBytes.v
GoStrings.v
GoNetip.v
GoErrors.v
SocksProto.v
SocksDial.v
SocksUdp.v
SocksSession.v
SocksServer.v
SocksSnapshot.v
Params.v
ConfValues.v
ConfScan.v
TextDecode.v
TunnelConf.v
AppConf.v
AppSave.v
Resolver.v
AwgStats.v
AwgTunnel.v
Supervise.v
BatchTun.v
Redact.v
Logging.v
Ipc.v
PipeServer.v
NetWatch.v
HostConflict.v
Acl.v
Version.v
HostDisk.v
DiskRules.v
Manager.v
ManagerParts.v
ManagerInv.v
ManagerSpec.v
ManagerProps.v
ManagerRefines.v
ServiceControl.v
Installer.v
InstallerRules.v
InstallerSafety.v
InstallerRepair.v
InstallerDisk.v
GoFlags.v
StatusText.v
StatusProps.v
CommandLine.v
CommandProps.v
Usage.v
NetLoop.v
LogText.v
ManagerLocks.v
ManagerSafety.v
