(* ===== verification/Prelude.v ===== *)
(** AWGSocks: a SOCKS5 front end over a userspace AmneziaWG tunnel.

    The program runs as a Windows service.  Local applications connect to its SOCKS5
    listener; every connection and datagram they ask for leaves the machine inside an
    AmneziaWG tunnel that lives in the process, over a userspace network stack.  When
    the tunnel is down nothing may leave by any other way.  This library models the Go
    packages under src/internal and src/cmd and proves that they do what they are for.

    * Conventions

    A Go function is a function on explicit state.  [result] (below) is a pair of a
    value and an [error]; a struct is a record, assigned with [x <| f := v |>]; a map is
    a [gmap]; a goroutine, a critical section and a channel operation are steps of an
    inductive relation, and invariants hold by induction on its runs.  Integers are [Z]
    with the bounds that the code checks or the wrapping that it relies on; bytes are
    [Byte.byte], strings are byte strings.  Code outside the repository (the device and
    its stack, the upstream configuration parser, the operating system, JSON syntax) is
    a class, a record or an argument.  What a function writes to the log is left out
    outside of [Logging]: it changes no state that the program reads.

    * Files

    This file holds the results, the field assignment and the lemmas on counting that
    the others share.  [GoBytes], [GoStrings], [GoNetip] and [GoErrors] are the parts of
    Go's standard library that the program uses: big-endian integers, [strings] and
    [strconv], [net/netip] and the error chains of [fmt] and [errors].

    SOCKS5 (src/internal/socks5):
    - [SocksProto]: the wire format of server.go ([negotiate], [readRequest], [reply])
      and of udp.go ([parseUDPHeader], [buildUDPHeader]), against the grammar of RFC
      1928 given as relations: the parsers accept exactly the grammar, and round trips.
    - [SocksDial]: the interface [Dialer] between the server and the tunnel, its law
      [DialerLaws] (a tunnel that is down refuses everything), [connect] and the reply
      codes of errors.go.  [connect] returns the first candidate that answers.
    - [SocksUdp]: the relay of one UDP association.  Its owner and the datagrams of
      others are kept apart, sockets are neither leaked nor opened twice, and every
      datagram is counted once.
    - [SocksSession]: [handle] from the greeting to the end.  A session over a tunnel
      that is down sends nothing; what it sends otherwise goes to a target that its
      client named, never to an unspecified address; a CONNECT session relays all bytes
      of both directions.
    - [SocksServer]: [Start], [acceptLoop] and [Stop] as one machine with the sessions:
      loopback only, at most [maxConns] at once, and nothing left after [Stop].
    - [SocksSnapshot]: [Stats], read counter by counter while the server runs.

    Configuration (src/internal/config):
    - [Params] (params.go and the MTU arithmetic), [ConfValues] (base64.go and the value
      checks of tunnel.go), [ConfScan] (scanning and validation), [TextDecode] (the
      encodings), [TunnelConf] ([ParseTunnel] and the derived fields): what is accepted,
      that scanning inverts printing, that a parsed tunnel is well formed and that its
      derived MTU is the largest safe one.
    - [AppConf] (app.go): loading, defaults and normalisation; what is saved is loaded
      back as it was.  [AppSave]: [Save] and the paths of the data directory; the file
      holds the old settings or the new ones in full, wherever a save is interrupted.
      (The same calls on a disk with access rights are in [HostDisk].)

    Tunnel (src/internal/awg, src/internal/dns, src/internal/localdns):
    - [Resolver]: [dns.Resolver] as a machine of lookups, its cache bounds and where
      the answers come from; [localdns.Lookup].
    - [AwgStats]: stats.go; secrets do not reach the status, and a device's document is
      read in full.
    - [AwgTunnel]: tunnel.go and dryrun.go over the class [Upstream]: [Start], [Stop],
      readiness, dialing, lookups, supervision and [Reload], each operation as one
      function.  Between two operations one device is open while the tunnel runs and none
      otherwise, and within one never more than two; a configuration that fails leaves the
      previous one in force, or the state says Failed; and the tunnel is an instance of
      [Dialer] with its law, so the theorems on sessions hold of it.  The critical sections
      that [WaitReady] depends on are also steps ([wait_sys]): waiters are woken, as long
      as no two calls of [Start] overlap.
    - [Supervise]: the loop of [supervise] beside everything else that happens to the
      tunnel: it never gives up and keeps its pace.
    - [BatchTun] (netstack.go, bind.go): the reader that reads ahead of the device, the
      bounded queue and the batched [Read] as one machine.  The device gets the packets in
      order, each once, and no buffer is used in two places.

    Log and management (src/internal/logging, src/internal/ipc, src/internal/version):
    - [Redact] (redact.go): the three patterns as regular expressions with Go's leftmost
      matching; no key of a named field survives.  [Logging] (logging.go, device.go):
      levels, the file with its rotation and pruning over a directory whose calls may
      fail; everything that is written went through [Redact].
    - [Ipc] (protocol.go, the two ends of a call): the commands and their [dispatch] over
      the interface [Handler], and what a caller can rely on.  [PipeServer]
      (server_windows.go): the accept loop, the connections, the calls that they make on
      the service, each of many steps that interleave, and [Stop] as one machine: one
      answer for each request, and [Stop] waits for all of them.  [Version]: version.go.

    The runtime (src/internal/service):
    - [HostConflict] (conflict.go): when an adapter holds the tunnel's address.
      [NetWatch] (winsys/netchange_windows.go): no address change is lost.  [NetLoop]
      (startNetworkWatcher in manager.go): the goroutine that takes the changes, with its
      timer: a check for each, one settling for a burst that is two seconds quiet.
    - [Manager] (manager.go): every operation of the service over the interfaces
      [TunnelOps] and [ProxyOps], whose laws are what it relies on; [ManagerParts] gives
      both from [AwgTunnel] and [SocksServer].  An operation runs by itself here.
      [ManagerInv] has the invariant and the lemmas of each operation, [ManagerProps]
      what the operations mean: what a start, a reload, a conflict check and a round of
      retries come to, for every file and adapter they find.
    - [ManagerSpec] is the abstract machine, a phase (off, idle, retrying, up, paused) and
      whether somebody wants the tunnel; [ManagerRefines] shows that every operation is
      one of its steps, and with it that a stop is respected until somebody asks for the
      tunnel again.
    - [ManagerLocks] and [ManagerSafety]: the same file, seen as goroutines (the retry
      loops, the network watcher, the requests, [Stop]) whose steps are the critical
      sections of its three mutexes.  The tunnel stays down during a pause and one device
      is built at a time, as long as no reload rebuilds the tunnel, which it does outside
      of the lock; [Stop] ends whatever runs beside it, with every goroutine gone.  Two
      interleavings that the locks do not exclude are shown as reachable.
    - [ServiceControl] (service_windows.go): [Execute] with the service manager's requests
      and the reports to it, over the runtime.

    Installation (src/internal/service/control_windows.go, src/internal/winsys):
    - [Acl] (security_windows.go, pipesec_windows.go, servicesid.go): the descriptors as
      the code writes them, what they allow and to whom, and the SID of the service, with
      SHA-1 spelled out.
    - [Installer]: the commands as effects on a machine that may refuse each of them.
      [InstallerRules] is a small Hoare logic for them: rules that every effect of a trace
      obeys, given what was done before it.  [InstallerSafety]: the key is closed before
      the service exists and stays so, whatever fails.  [InstallerRepair]: what removing
      and repairing guarantee, and that waiting for a state ends.
    - [HostDisk]: security_windows.go, [copyFile] and [Save] as system calls on a disk of
      files with access rights, each of which may be refused or stop half way, over the
      class [Windows] with what is relied upon in [WindowsLaws].  [DiskRules]: triples with
      an invariant of every state that is passed through, and what [copyFile] and
      [ProtectTree] guarantee.  [InstallerDisk] carries the effects of [Installer] out on
      the disk: between any two calls nobody can read the copied configuration but those
      it is for and those who could read a file that was there under its name.

    The command line (src/cmd/awgsocks):
    - [GoFlags]: the part of Go's package flag that main.go uses.  [CommandLine]
      (main.go): the commands from arguments to exit codes, over the installer, the pipe
      and the manager, with the runtimes that a service and a foreground run start;
      [CommandProps]: what an exit code says, that a command touches only what it is for,
      and that no command line leaves anything running.  [Usage]: the usage text names what
      is understood.
    - [StatusText] (status.go): the report line by line, with float64 as rationals rounded
      to 53 bits; [StatusProps]: units, percentages and the order of a map.  [LogText]: the
      texts that tunnel.go and server.go make for the log.

    * Fuel and bounds

    [TrimLeft_fuel] and [copy_loop] take the length of their input as fuel, which every
    step shortens; [copyBuffer_copies] proves that all bytes are copied.  The IPv6 parser
    takes eight, the number of groups, as the loop of Go's does.  The replacement of
    [Redact] takes the length of its text, which every match and every step shortens.
    [copy_attempts] makes the twenty attempts of the code.  [io_Copy] takes one round more
    than the source has bytes, each reading at least one, which [triple_io_Copy] proves
    enough.  [waitForState] takes a
    hundred and one rounds, which [waitForState_ends] proves enough for a clock that
    advances by the pause between two queries; [unit_of] takes seven, which
    [humanBytes_spec] proves enough for every 64-bit count; [read_multiSZ] takes one round
    more than there are strings.  Every other recursion is structural.  Counters of int64
    and uint64 are unbounded integers: no run reaches their bounds; the sums and the
    divisor of the status report wrap as theirs do.

    * What is not modelled

    The calls into Windows themselves: the service control manager, ACLs, pipes, the
    console, the address notifications.  They are effects, parameters or steps of the
    environment: what [svc.Run] does with [Execute] is an argument with a law.
    [IsWindowsService] only forwards to such a call, and so do [IsElevated],
    [currentProcessSID] and [OwnsConsole].  The lines that the installer and a foreground
    run print are left out.  On the disk, other programs do nothing while the installer runs,
    and links are there only as paths that name one file.  The methods of [batchTun] that
    pass on to the wrapped device are left out.  JSON syntax is [encoding/json]'s; how
    objects become settings is modelled.  Times are what the
    environment says; how long a blocking call takes is not modelled, only the order of
    what happens. *)

From stdpp Require Export base gmap strings list option numbers pretty.
From Stdlib Require Export ZArith Lia.
From Stdlib Require Export Strings.Byte.
From Stdlib Require Export Ascii.

#[global] Set Default Proof Using "Type".
#[global] Open Scope string_scope.
#[global] Open Scope list_scope.
#[global] Open Scope Z_scope.

Declare Scope go_scope.
Delimit Scope go_scope with go.
#[global] Open Scope go_scope.

(** ** Go's two-valued results

    A Go function returning [(T, error)] is a function to [result E T]: the
    error value is [Err e], and the other results of the call are then unused
    by every caller that the model covers. *)

Inductive result (E A : Type) : Type :=
| Ok (a : A)
| Err (e : E).
Arguments Ok {E A} a.
Arguments Err {E A} e.

Section Result.
Context {E : Type}.

#[global] Instance result_ret : MRet (result E) := fun A a => Ok a.

#[global] Instance result_bind : MBind (result E) := fun A B f r =>
  match r with
  | Ok a => f a
  | Err e => Err e
  end.

#[global] Instance result_fmap : FMap (result E) := fun A B f r =>
  match r with
  | Ok a => Ok (f a)
  | Err e => Err e
  end.

Definition is_ok {A} (r : result E A) : bool :=
  match r with Ok _ => true | Err _ => false end.

Definition ok_opt {A} (r : result E A) : option A :=
  match r with Ok a => Some a | Err _ => None end.

Lemma bind_Ok {A B} (r : result E A) (f : A -> result E B) b :
  r ≫= f = Ok b <-> exists a, r = Ok a /\ f a = Ok b.
Proof.
  destruct r as [a|e]; unfold mbind; simpl; split.
  - intros H. exists a. by split.
  - intros (a' & [= ->] & H). done.
  - done.
  - by intros (a' & H & _).
Qed.

Lemma bind_Err {A B} (r : result E A) (f : A -> result E B) e :
  r ≫= f = Err e <-> r = Err e \/ exists a, r = Ok a /\ f a = Err e.
Proof.
  destruct r as [a|e']; unfold mbind; simpl; split.
  - intros H. right. exists a. by split.
  - by intros [H|(a' & [= ->] & H)].
  - intros H. left. congruence.
  - intros [H|(a0 & H & _)]; congruence.
Qed.

#[global] Instance result_eq_dec {A} `{EqDecision E, EqDecision A} :
  EqDecision (result E A).
Proof. solve_decision. Defined.
End Result.

(** The error of a call, renamed by the caller that wraps it. *)
Definition map_err {E F A} (f : E -> F) (r : result E A) : result F A :=
  match r with Ok a => Ok a | Err e => Err (f e) end.

Lemma map_err_Ok {E F A} (f : E -> F) (r : result E A) a :
  map_err f r = Ok a <-> r = Ok a.
Proof. destruct r; simpl; naive_solver. Qed.

Lemma is_ok_map_err {E F A} (f : E -> F) (r : result E A) :
  is_ok (map_err f r) = is_ok r.
Proof. by destruct r. Qed.

(** An early return guarded by a condition: [if cond { return err }]. *)
Definition guard_err {E} (cond : bool) (e : E) : result E unit :=
  if cond then Err e else Ok tt.

Lemma guard_err_Ok {E} c (e : E) u : guard_err c e = Ok u <-> c = false.
Proof. destruct u, c; simpl; naive_solver. Qed.

(** ** Field assignment

    [x <| f := v |>] is Go's [x.f = v] on a copy of [x].  A record type joins by
    giving its eta expansion as an instance of [Fields]; the setter of each
    projection is then found by abstracting the projection from it. *)

Class Fields (R : Type) := eta_fields : R -> R.

Class Setter {R T : Type} (p : R -> T) := set_field : (T -> T) -> R -> R.
Arguments set_field {R T} p {_} _ !_ /.

Ltac solve_setter p :=
  let R := match type of p with ?R -> _ => R end in
  let eta := eval hnf in (@eta_fields R _) in
  match eta with context [p] => idtac end;
  match eval pattern p in eta with
  | ?G _ => let s := eval cbv beta in (fun f => G (fun r => f (p r))) in exact s
  end.

#[export] Hint Extern 0 (Setter ?p) => solve_setter p : typeclass_instances.

Notation "x <| f := v |>" := (set_field f (fun _ => v) x)
  (at level 1, left associativity, f at next level,
   format "x  <| f  :=  v |>") : go_scope.
Notation "x <| f ::= g |>" := (set_field f g x)
  (at level 1, left associativity, f at next level,
   format "x  <| f  ::=  g |>") : go_scope.

(** ** Counting the entries of a map that satisfy a predicate *)

Definition one_if (P : Prop) `{Decision P} : Z := if decide P then 1 else 0.

Lemma one_if_bounds P `{Decision P} : 0 <= one_if P <= 1.
Proof. unfold one_if. destruct (decide P); lia. Qed.

Lemma one_if_iff P Q `{Decision P, Decision Q} : (P <-> Q) -> one_if P = one_if Q.
Proof. unfold one_if. intros HPQ. destruct (decide P), (decide Q); tauto. Qed.

Lemma one_if_false P `{Decision P} : ~ P -> one_if P = 0.
Proof. unfold one_if. by destruct (decide P). Qed.

Lemma size_filter_delete {K A} `{Countable K} (P : K * A -> Prop) `{forall p, Decision (P p)} (m : gmap K A) c x :
  m !! c = Some x ->
  Z.of_nat (size (filter P (delete c m))) = Z.of_nat (size (filter P m)) - one_if (P (c, x)).
Proof.
  intros Hc. rewrite map_filter_delete. unfold one_if. destruct (decide (P (c, x))) as [Hp|Hp].
  - assert (filter P m !! c = Some x) as Hf by (by apply map_lookup_filter_Some).
    assert (size (<[c := x]> (delete c (filter P m))) = S (size (delete c (filter P m)))) as Hs
      by (apply map_size_insert_None, lookup_delete_eq).
    rewrite insert_delete_id in Hs by done. lia.
  - rewrite delete_id; [lia|]. apply map_lookup_filter_None. right. intros y Hy. congruence.
Qed.

Lemma size_filter_insert {K A} `{Countable K} (P : K * A -> Prop) `{forall p, Decision (P p)} (m : gmap K A) c x :
  Z.of_nat (size (filter P (<[c := x]> m)))
  = Z.of_nat (size (filter P (delete c m))) + one_if (P (c, x)).
Proof.
  rewrite <-insert_delete_eq, map_filter_insert. unfold one_if.
  rewrite delete_delete_eq. destruct (decide (P (c, x))) as [Hp|Hp]; [|lia].
  rewrite map_size_insert_None; [lia|]. apply map_lookup_filter_None. left. apply lookup_delete_eq.
Qed.

Lemma size_filter_new {K A} `{Countable K} (P : K * A -> Prop) `{forall p, Decision (P p)} (m : gmap K A) c x :
  m !! c = None ->
  Z.of_nat (size (filter P (<[c := x]> m))) = Z.of_nat (size (filter P m)) + one_if (P (c, x)).
Proof. intros Hc. by rewrite size_filter_insert, delete_id. Qed.

Lemma size_filter_update {K A} `{Countable K} (P : K * A -> Prop) `{forall p, Decision (P p)} (m : gmap K A) c x y :
  m !! c = Some x ->
  Z.of_nat (size (filter P (<[c := y]> m)))
  = Z.of_nat (size (filter P m)) - one_if (P (c, x)) + one_if (P (c, y)).
Proof. intros Hc. by rewrite size_filter_insert, (size_filter_delete P m c x). Qed.
