(* ===== verification/GoBytes.v ===== *)
(** Bytes and big-endian integers: Go's [[]byte] and [encoding/binary]. *)

From S2P Require Import Prelude.
From Stdlib Require String.

#[global] Instance byte_eq_dec : EqDecision byte.
Proof. intros x y. destruct (Byte.byte_eq_dec x y); [by left|by right]. Defined.

Definition byte_val (b : byte) : Z := Z.of_N (Byte.to_N b).

(** Go's conversion [byte(z)], which keeps the low eight bits. *)
Definition byte_of (z : Z) : byte :=
  match Byte.of_N (Z.to_N (z mod 256)) with Some b => b | None => x00 end.

Lemma byte_val_bounds b : 0 <= byte_val b < 256.
Proof. unfold byte_val. pose proof (Byte.to_N_bounded b). lia. Qed.

Lemma byte_of_val b : byte_of (byte_val b) = b.
Proof.
  unfold byte_of. rewrite Z.mod_small by apply byte_val_bounds.
  unfold byte_val. by rewrite N2Z.id, Byte.of_to_N.
Qed.

Lemma byte_val_of z : byte_val (byte_of z) = z mod 256.
Proof.
  unfold byte_of, byte_val.
  assert (0 <= z mod 256 < 256) by (apply Z.mod_pos_bound; lia).
  destruct (Byte.of_N (Z.to_N (z mod 256))) eqn:E.
  - apply Byte.to_of_N in E. rewrite E. lia.
  - apply Byte.of_N_None_iff in E. lia.
Qed.

(** ** Big-endian integers *)

(** The value of a byte string, most significant byte first. *)
Definition be_uint (l : list byte) : Z := foldl (fun acc b => acc * 256 + byte_val b) 0 l.

(** The [n] low bytes of [v], most significant byte first. *)
Fixpoint be_bytes (n : nat) (v : Z) : list byte :=
  match n with
  | O => []
  | S n' => be_bytes n' (v / 256) ++ [byte_of v]
  end.

Lemma length_be_bytes n v : length (be_bytes n v) = n.
Proof. revert v. induction n as [|n IH]; intros v; [done|]. simpl. rewrite length_app, IH. simpl. lia. Qed.

Lemma be_uint_snoc l b : be_uint (l ++ [b]) = be_uint l * 256 + byte_val b.
Proof. unfold be_uint. by rewrite foldl_app. Qed.

Lemma be_uint_bounds l : 0 <= be_uint l < 256 ^ Z.of_nat (length l).
Proof.
  induction l as [|b l IH] using rev_ind; [unfold be_uint; simpl; lia|].
  rewrite be_uint_snoc, length_app, Nat2Z.inj_add, Z.pow_add_r by lia.
  pose proof (byte_val_bounds b). simpl. nia.
Qed.

Lemma be_bytes_uint l : be_bytes (length l) (be_uint l) = l.
Proof.
  induction l as [|b l IH] using rev_ind; [done|].
  rewrite be_uint_snoc, length_app, Nat.add_comm. simpl.
  pose proof (byte_val_bounds b).
  rewrite Z.div_add_l, Z.div_small, Z.add_0_r by lia. rewrite IH. do 2 f_equal.
  rewrite <-(byte_of_val b) at 2. unfold byte_of. do 2 f_equal.
  rewrite Z.add_comm, Z.mod_add, (Z.mod_small (byte_val b)) by lia. done.
Qed.

Lemma be_uint_bytes n v : be_uint (be_bytes n v) = v mod 256 ^ Z.of_nat n.
Proof.
  revert v. induction n as [|n IH]; intros v; [by rewrite Z.mod_1_r|].
  cbn [be_bytes]. rewrite be_uint_snoc, IH, byte_val_of.
  replace (Z.of_nat (S n)) with (1 + Z.of_nat n) by lia.
  rewrite Z.pow_add_r, Z.pow_1_r, Z.rem_mul_r by lia. lia.
Qed.

Lemma be_uint_bytes_small n v :
  0 <= v < 256 ^ Z.of_nat n -> be_uint (be_bytes n v) = v.
Proof. intros Hv. rewrite be_uint_bytes. by apply Z.mod_small. Qed.

Create Rewrite HintDb bytes.
#[export] Hint Rewrite length_be_bytes byte_of_val : bytes.

(** ** Strings and byte slices *)

(** Go's conversions [string(b)] and [[]byte(s)]. *)
Definition string_of (l : list byte) : string := String.string_of_list_byte l.

Definition bytes_of (s : string) : list byte := String.list_byte_of_string s.

Lemma string_of_bytes_of s : string_of (bytes_of s) = s.
Proof. apply String.string_of_list_byte_of_string. Qed.

Lemma bytes_of_string_of l : bytes_of (string_of l) = l.
Proof. apply String.list_byte_of_string_of_list_byte. Qed.

Lemma length_bytes_of s : length (bytes_of s) = String.length s.
Proof.
  unfold bytes_of, String.list_byte_of_string. rewrite List.length_map.
  induction s as [|c s IH]; simpl; congruence.
Qed.
