(* ===== verification/GoStrings.v ===== *)
(** Go's [strings] and [strconv], as far as the program uses them.

    A Go [string] is a byte string: it is Rocq's [string], whose characters are
    the 256 byte values.  Go's [[]byte] is [list byte].  [strings.TrimSpace] is
    exact, its Unicode white space included.  [strings.ToLower] lower-cases ASCII
    letters and the two other code points whose lower case is an ASCII letter;
    the remaining code points stay as they are, which no comparison of the
    program with an ASCII name can tell from Go's result. *)

From S2P Require Import Prelude.



(** ** Characters *)

Definition code (c : ascii) : Z := Z.of_N (N_of_ascii c).

Definition chr (z : Z) : ascii := ascii_of_N (Z.to_N z).

Definition is_digit (c : ascii) : bool := (48 <=? code c) && (code c <=? 57).

Definition digit_val (c : ascii) : Z := code c - 48.

Definition is_upper (c : ascii) : bool := (65 <=? code c) && (code c <=? 90).

Definition is_lower (c : ascii) : bool := (97 <=? code c) && (code c <=? 122).

Definition is_ascii_space (c : ascii) : bool :=
  ((9 <=? code c) && (code c <=? 13)) || (code c =? 32).

Definition lower_char (c : ascii) : ascii := if is_upper c then chr (code c + 32) else c.

Definition upper_char (c : ascii) : ascii := if is_lower c then chr (code c - 32) else c.

(** The line feed, as a character and as a string. *)
Definition nl : ascii := "010"%char.

(** ** Searching and cutting *)

(** [strings.Cut(s, sep)] with a one-byte separator. *)
Fixpoint Cut (sep : ascii) (s : string) : option (string * string) :=
  match s with
  | EmptyString => None
  | String c r =>
      if decide (c = sep) then Some ("", r)
      else match Cut sep r with
           | Some (a, b) => Some (String c a, b)
           | None => None
           end
  end.

(** [s[:i], s[i+1:]] for [i = strings.LastIndexByte(s, sep)]. *)
Fixpoint CutLast (sep : ascii) (s : string) : option (string * string) :=
  match s with
  | EmptyString => None
  | String c r =>
      match CutLast sep r with
      | Some (a, b) => Some (String c a, b)
      | None => if decide (c = sep) then Some ("", r) else None
      end
  end.

(** [s[:p]] for [p = strings.IndexByte(s, sep)], and [s] when there is none. *)
Definition before_byte (sep : ascii) (s : string) : string :=
  match Cut sep s with Some (a, _) => a | None => s end.

(** [strings.Split(s, sep)] with a one-byte separator: never empty. *)
Fixpoint Split (sep : ascii) (s : string) : list string :=
  match s with
  | EmptyString => [""]
  | String c r =>
      if decide (c = sep) then "" :: Split sep r
      else match Split sep r with
           | [] => [String c ""]
           | x :: xs => String c x :: xs
           end
  end.

(** [strings.Join]. *)
Fixpoint Join (l : list string) (sep : string) : string :=
  match l with
  | [] => ""
  | [x] => x
  | x :: xs => x +:+ sep +:+ Join xs sep
  end.

Fixpoint HasPrefix (s p : string) : bool :=
  match p, s with
  | EmptyString, _ => true
  | String c p', String d s' => if decide (c = d) then HasPrefix s' p' else false
  | String _ _, EmptyString => false
  end.

(** The rest of [s] after the prefix [p]. *)
Fixpoint CutPrefix (s p : string) : option string :=
  match p, s with
  | EmptyString, _ => Some s
  | String c p', String d s' => if decide (c = d) then CutPrefix s' p' else None
  | String _ _, EmptyString => None
  end.

Fixpoint Contains (s sub : string) : bool :=
  HasPrefix s sub || match s with EmptyString => false | String _ r => Contains r sub end.

Fixpoint in_chars (c : ascii) (chars : string) : bool :=
  match chars with
  | EmptyString => false
  | String d r => if decide (c = d) then true else in_chars c r
  end.

Fixpoint ContainsAny (s chars : string) : bool :=
  match s with
  | EmptyString => false
  | String c r => in_chars c chars || ContainsAny r chars
  end.

Fixpoint all_chars (p : ascii -> bool) (s : string) : bool :=
  match s with
  | EmptyString => true
  | String c r => p c && all_chars p r
  end.

Fixpoint last_char (s : string) : option ascii :=
  match s with
  | EmptyString => None
  | String c EmptyString => Some c
  | String _ r => last_char r
  end.

Definition HasSuffixChar (s : string) (c : ascii) : bool := bool_decide (last_char s = Some c).

(** [s] without its last character. *)
Fixpoint init (s : string) : string :=
  match s with
  | EmptyString => ""
  | String _ EmptyString => ""
  | String c r => String c (init r)
  end.

(** [len(s)] in bytes. *)
Definition len (s : string) : Z := Z.of_nat (String.length s).

(** ** White space *)

(** The multi-byte encodings of the code points with the White_Space property
    (U+0085, U+00A0, U+1680, U+2000 to U+200A, U+2028, U+2029, U+202F, U+205F,
    U+3000).  One encoding is never a suffix of another and starts with a byte
    that no encoding continues with, so trimming them byte-wise from either end
    is trimming the runes. *)
Definition bytes_str (l : list Z) : string := String.string_of_list_ascii (chr <$> l).

Definition unicode_spaces : list string :=
  (bytes_str <$> [[194; 133]; [194; 160]; [225; 154; 128]; [226; 128; 168]; [226; 128; 169];
                  [226; 128; 175]; [226; 129; 159]; [227; 128; 128]])
  ++ ((fun k => bytes_str [226; 128; 128 + Z.of_nat k]) <$> seq 0 11).

(** The rest of [s] after one leading white space rune. *)
Definition space_prefix (s : string) : option string :=
  match s with
  | EmptyString => None
  | String c r =>
      if is_ascii_space c then Some r
      else if code c <? 128 then None
      else head (omap (CutPrefix s) unicode_spaces)
  end.

Fixpoint TrimLeft_fuel (n : nat) (s : string) : string :=
  match n with
  | O => s
  | S n' => match space_prefix s with Some r => TrimLeft_fuel n' r | None => s end
  end.

(** Each step consumes a byte, so the length of [s] is fuel enough. *)
Definition TrimLeftSpace (s : string) : string := TrimLeft_fuel (String.length s) s.

Definition all_space (s : string) : bool := bool_decide (TrimLeftSpace s = "").

(** The longest prefix of [s] that leaves only white space behind it. *)
Fixpoint TrimRightSpace (s : string) : string :=
  match s with
  | EmptyString => ""
  | String c r => if all_space s then "" else String c (TrimRightSpace r)
  end.

(** [strings.TrimSpace]. *)
Definition TrimSpace (s : string) : string := TrimRightSpace (TrimLeftSpace s).

(** [strings.TrimRight(s, cutset)]. *)
Fixpoint TrimRightChars (s cutset : string) : string :=
  match s with
  | EmptyString => ""
  | String c r =>
      if all_chars (fun d => in_chars d cutset) s then "" else String c (TrimRightChars r cutset)
  end.

Fixpoint TrimLeftChars (s cutset : string) : string :=
  match s with
  | EmptyString => ""
  | String c r => if in_chars c cutset then TrimLeftChars r cutset else s
  end.

(** [strings.Trim(s, cutset)]. *)
Definition Trim (s cutset : string) : string := TrimRightChars (TrimLeftChars s cutset) cutset.

(** ** Case *)

(** U+0130 and U+212A are the code points outside ASCII whose lower case is in it. *)
Fixpoint ToLower (s : string) : string :=
  match s with
  | EmptyString => ""
  | String c1 r =>
      match r with
      | String c2 r2 =>
          if (code c1 =? 196) && (code c2 =? 176) then String "i" (ToLower r2)
          else match r2 with
               | String c3 r3 =>
                   if (code c1 =? 226) && (code c2 =? 132) && (code c3 =? 170)
                   then String "k" (ToLower r3)
                   else String (lower_char c1) (ToLower r)
               | EmptyString => String (lower_char c1) (ToLower r)
               end
      | EmptyString => String (lower_char c1) ""
      end
  end.

(** [strings.ToUpper] on the ASCII names it is applied to. *)
Fixpoint ToUpper (s : string) : string :=
  match s with
  | EmptyString => ""
  | String c r => String (upper_char c) (ToUpper r)
  end.

(** ** Numbers *)

(** The value of [s] read as decimal digits after [acc]. *)
Fixpoint digits_val (acc : Z) (s : string) : option Z :=
  match s with
  | EmptyString => Some acc
  | String c r => if is_digit c then digits_val (acc * 10 + digit_val c) r else None
  end.

(** [strconv.ParseUint(s, 10, bits)]. *)
Definition ParseUint (s : string) (bits : Z) : option Z :=
  match s with
  | EmptyString => None
  | _ => v ← digits_val 0 s; if v <? 2 ^ bits then Some v else None
  end.

(** [strconv.Atoi], which is [ParseInt(s, 10, 64)] on the target platform. *)
Definition Atoi (s : string) : option Z :=
  let '(neg, d) :=
    match s with
    | String "-" r => (true, r)
    | String "+" r => (false, r)
    | _ => (false, s)
    end in
  match d with
  | EmptyString => None
  | _ => v ← digits_val 0 d;
         let n := if neg : bool then - v else v in
         if (- 2 ^ 63 <=? n) && (n <? 2 ^ 63) then Some n else None
  end.

(** The decimal rendering of [fmt]'s [%d] on a non-negative integer. *)
Definition Itoa (n : Z) : string := pretty (Z.to_N n).

(** [strconv.ParseInt(s, 10, 64)] when its error is ignored: zero for a syntax
    error, the nearest bound for a range error. *)
Definition ParseInt_value (s : string) : Z :=
  let '(neg, d) :=
    match s with
    | String "-" r => (true, r)
    | String "+" r => (false, r)
    | _ => (false, s)
    end in
  match d with
  | EmptyString => 0
  | _ =>
      match digits_val 0 d with
      | None => 0
      | Some v =>
          let n := if neg : bool then - v else v in
          if n <? - 2 ^ 63 then - 2 ^ 63 else if 2 ^ 63 <=? n then 2 ^ 63 - 1 else n
      end
  end.

(** [strconv.ParseUint(s, 10, 64)] when its error is ignored. *)
Definition ParseUint_value (s : string) : Z :=
  match s with
  | EmptyString => 0
  | _ => match digits_val 0 s with
         | None => 0
         | Some v => if v <? 2 ^ 64 then v else 2 ^ 64 - 1
         end
  end.

(** [strconv.AppendUint(_, n, 16)] for a 16-bit [n]. *)
Definition hex_digit (n : Z) : string := String (chr (if n <? 10 then 48 + n else 87 + n)) "".

Definition hex16 (n : Z) : string :=
  let d i := hex_digit (Z.land (Z.shiftr n (4 * i)) 15) in
  if n <? 16 then d 0
  else if n <? 256 then d 1 +:+ d 0
  else if n <? 4096 then d 2 +:+ d 1 +:+ d 0
  else d 3 +:+ d 2 +:+ d 1 +:+ d 0.
