(* ===== verification/GoNetip.v ===== *)
(** Go's [net/netip] and [net.SplitHostPort], as far as the program uses them:
    the address type, its classification, the parsers of addresses, prefixes and
    address-port pairs, and their printing. *)

From S2P Require Import Prelude GoStrings GoBytes.

Create HintDb netip.
Create Rewrite HintDb netip.

(** [netip.Addr]: the zero value, an IPv4 address, or an IPv6 address with its
    zone, empty when it has none.  Addresses are the integers of their bytes. *)
Inductive Addr : Type :=
| AddrZero
| Addr4 (v : Z)
| Addr6 (v : Z) (zone : string).

#[global] Instance Addr_eq_dec : EqDecision Addr.
Proof. solve_decision. Defined.

(** The invariant of the type: the value has the width of the family. *)
Definition Addr_wf (a : Addr) : Prop :=
  match a with
  | AddrZero => True
  | Addr4 v => 0 <= v < 2 ^ 32
  | Addr6 v _ => 0 <= v < 2 ^ 128
  end.

(** [netip.AddrPort]. *)
Record AddrPort := AddrPortFrom { ap_addr : Addr; ap_port : Z }.

#[global] Instance AddrPort_eq_dec : EqDecision AddrPort.
Proof. solve_decision. Defined.

Definition AddrPort_zero : AddrPort := AddrPortFrom AddrZero 0.

(** [netip.Prefix]; the bits of an invalid prefix are -1. *)
Record Prefix := MkPrefix { p_addr : Addr; p_bits : Z }.

#[global] Instance Prefix_eq_dec : EqDecision Prefix.
Proof. solve_decision. Defined.

(** ** Classification *)

Definition Is4 (a : Addr) : bool := match a with Addr4 _ => true | _ => false end.

Definition Is6 (a : Addr) : bool := match a with Addr6 _ _ => true | _ => false end.

Definition IsValid (a : Addr) : bool := match a with AddrZero => false | _ => true end.

Definition AddrPort_IsValid (ap : AddrPort) : bool := IsValid (ap_addr ap).

(** An IPv4-mapped IPv6 address, ::ffff:a.b.c.d. *)
Definition Is4In6 (a : Addr) : bool :=
  match a with Addr6 v _ => v / 2 ^ 32 =? 65535 | _ => false end.

Definition Unmap (a : Addr) : Addr :=
  match a with
  | Addr6 v _ => if Is4In6 a then Addr4 (v mod 2 ^ 32) else a
  | _ => a
  end.

Definition IsLoopback (a : Addr) : bool :=
  match Unmap a with
  | AddrZero => false
  | Addr4 v => v / 2 ^ 24 =? 127
  | Addr6 v _ => v =? 1
  end.

Definition IsUnspecified (a : Addr) : bool :=
  bool_decide (a = Addr4 0) || bool_decide (a = Addr6 0 "").

(** ** Bytes *)

Definition AddrFrom4 (b : list byte) : Addr := Addr4 (be_uint b).

Definition AddrFrom16 (b : list byte) : Addr := Addr6 (be_uint b) "".

Definition AddrFromSlice (b : list byte) : option Addr :=
  match length b with
  | 4%nat => Some (AddrFrom4 b)
  | 16%nat => Some (AddrFrom16 b)
  | _ => None
  end.

(** [As4] of an IPv4 address; the program calls it on nothing else. *)
Definition As4 (a : Addr) : list byte :=
  match a with Addr4 v => be_bytes 4 v | Addr6 v _ => be_bytes 4 v | AddrZero => [] end.

Definition As16 (a : Addr) : list byte :=
  match a with
  | AddrZero => be_bytes 16 0
  | Addr4 v => be_bytes 16 (65535 * 2 ^ 32 + v)
  | Addr6 v _ => be_bytes 16 v
  end.

(** ** Parsing addresses *)

(** One octet of a dotted quad: no empty field, no leading zero, at most 255. *)
Definition parse_octet (s : string) : option Z :=
  match s with
  | EmptyString => None
  | String "0" (String _ _) => None
  | _ => v ← digits_val 0 s; if v <=? 255 then Some v else None
  end.

Definition parse_ipv4_fields (s : string) : option Z :=
  match Split "." s with
  | [a; b; c; d] =>
      a ← parse_octet a; b ← parse_octet b; c ← parse_octet c; d ← parse_octet d;
      Some (((a * 256 + b) * 256 + c) * 256 + d)
  | _ => None
  end.

Definition hex_val (c : ascii) : option Z :=
  if is_digit c then Some (code c - 48)
  else if (97 <=? code c) && (code c <=? 102) then Some (code c - 87)
  else if (65 <=? code c) && (code c <=? 70) then Some (code c - 55)
  else None.

(** The hexadecimal digits at the front of [s], at most [n] of them: their value,
    how many there are, and the rest; [None] when there are more. *)
Fixpoint parse_hextet (n : nat) (acc : Z) (s : string) : option (Z * nat * string) :=
  match s with
  | EmptyString => Some (acc, 0%nat, "")
  | String c r =>
      match hex_val c with
      | None => Some (acc, 0%nat, s)
      | Some d =>
          match n with
          | O => None
          | S n' => '(v, k, rest) ← parse_hextet n' (acc * 16 + d) r; Some (v, S k, rest)
          end
      end
  end.

(** The loop of [parseIPv6], on 16-bit groups: the groups read so far, the
    position of the ellipsis, and the text left.  Every round reads a group, so
    eight rounds are enough. *)
Fixpoint parse_ipv6_loop (fuel : nat) (gs : list Z) (ellipsis : option nat) (s : string) :
    option (list Z * option nat * string) :=
  match fuel with
  | O => Some (gs, ellipsis, s)
  | S fuel' =>
      if (8 <=? length gs)%nat then Some (gs, ellipsis, s) else
      '(v, k, rest) ← parse_hextet 4 0 s;
      if (k =? 0)%nat then None else
      match rest with
      | String "." _ =>
          if bool_decide (ellipsis = None) && negb (length gs =? 6)%nat then None
          else if (8 <? length gs + 2)%nat then None
          else q ← parse_ipv4_fields s;
               Some (gs ++ [q / 65536; q mod 65536], ellipsis, "")
      | EmptyString => Some (gs ++ [v], ellipsis, "")
      | String ":" (String c r) =>
          let gs' := gs ++ [v] in
          if decide (c = ":"%char) then
            match ellipsis, r with
            | Some _, _ => None
            | None, EmptyString => Some (gs', Some (length gs'), "")
            | None, _ => parse_ipv6_loop fuel' gs' (Some (length gs')) r
            end
          else parse_ipv6_loop fuel' gs' ellipsis (String c r)
      | _ => None
      end
  end.

Definition groups_val (gs : list Z) : Z := foldl (fun acc g => acc * 65536 + g) 0 gs.

Definition expand_ellipsis (gs : list Z) (ellipsis : option nat) : option (list Z) :=
  if (length gs <? 8)%nat then
    i ← ellipsis; Some (take i gs ++ replicate (8 - length gs) 0 ++ drop i gs)
  else match ellipsis with None => Some gs | Some _ => None end.

Definition parse_ipv6 (s0 : string) : option Addr :=
  '(s, zone) ← match Cut "%" s0 with
               | Some (_, EmptyString) => None
               | Some (s, zone) => Some (s, zone)
               | None => Some (s0, "")
               end;
  let '(ellipsis, s) :=
    match s with
    | String ":" (String ":" r) => (Some 0%nat, r)
    | _ => (None, s)
    end in
  if decide (ellipsis = Some 0%nat /\ s = "") then Some (Addr6 0 zone) else
  '(gs, e, rest) ← parse_ipv6_loop 8 [] ellipsis s;
  if decide (rest = "") then gs' ← expand_ellipsis gs e; Some (Addr6 (groups_val gs') zone)
  else None.

(** The first of the bytes '.', ':' and '%' decides the family. *)
Fixpoint addr_kind (s : string) : option ascii :=
  match s with
  | EmptyString => None
  | String c r => if in_chars c ".:%" then Some c else addr_kind r
  end.

(** [netip.ParseAddr]. *)
Definition ParseAddr (s : string) : option Addr :=
  match addr_kind s with
  | Some "." => Addr4 <$> parse_ipv4_fields s
  | Some ":" => parse_ipv6 s
  | _ => None
  end%char.

(** ** Printing *)

Definition string4 (v : Z) : string :=
  let d i := Itoa (Z.land (Z.shiftr v (8 * i)) 255) in
  d 3 +:+ "." +:+ d 2 +:+ "." +:+ d 1 +:+ "." +:+ d 0.

(** The [i]-th 16-bit group. *)
Definition group16 (v : Z) (i : nat) : Z := Z.land (Z.shiftr v (16 * (7 - Z.of_nat i))) 65535.

(** How many groups from the [i]-th on are zero, among [n]. *)
Fixpoint zero_run (v : Z) (i n : nat) : nat :=
  match n with
  | O => O
  | S n => if group16 v i =? 0 then S (zero_run v (S i) n) else O
  end.

(** The first of the longest runs of at least two zero groups. *)
Fixpoint longest_zeros (v : Z) (i n : nat) (best : nat * nat) : nat * nat :=
  match n with
  | O => best
  | S n =>
      let l := zero_run v i (S n) in
      let best := if (2 <=? l)%nat && (best.2 - best.1 <? l)%nat then (i, i + l)%nat else best in
      longest_zeros v (S i) n best
  end.

Fixpoint string6_groups (v : Z) (zs ze : nat) (i n : nat) : string :=
  match n with
  | O => ""
  | S n =>
      if (i =? zs)%nat && (zs <? ze)%nat then
        "::" +:+ (if (ze <? 8)%nat then hex16 (group16 v ze) else "") +:+ string6_groups v zs ze (S i) n
      else if (zs <? i)%nat && (i <=? ze)%nat && (zs <? ze)%nat then string6_groups v zs ze (S i) n
      else (if (0 <? i)%nat then ":" else "") +:+ hex16 (group16 v i) +:+ string6_groups v zs ze (S i) n
  end.

Definition string6 (v : Z) : string :=
  let '(zs, ze) := longest_zeros v 0 8 (0, 0)%nat in string6_groups v zs ze 0 8.

(** [Addr.String]. *)
Definition Addr_String (a : Addr) : string :=
  match a with
  | AddrZero => "invalid IP"
  | Addr4 v => string4 v
  | Addr6 v z =>
      (if Is4In6 a then "::ffff:" +:+ string4 (Z.land v (2 ^ 32 - 1)) else string6 v) +:+
      (if bool_decide (z = "") then "" else "%" +:+ z)
  end.

(** [AddrPort.String]. *)
Definition AddrPort_String (ap : AddrPort) : string :=
  match ap_addr ap with
  | AddrZero => "invalid AddrPort"
  | Addr4 v => string4 v +:+ ":" +:+ Itoa (ap_port ap)
  | a => "[" +:+ Addr_String a +:+ "]:" +:+ Itoa (ap_port ap)
  end.

(** ** Prefixes and ports *)

Definition BitLen (a : Addr) : Z :=
  match a with AddrZero => 0 | Addr4 _ => 32 | Addr6 _ _ => 128 end.

Definition without_zone (a : Addr) : Addr :=
  match a with Addr6 v _ => Addr6 v "" | _ => a end.

(** [netip.PrefixFrom]. *)
Definition PrefixFrom (a : Addr) (bits : Z) : Prefix :=
  if IsValid a && (0 <=? bits) && (bits <=? BitLen a)
  then MkPrefix (without_zone a) bits else MkPrefix (without_zone a) (-1).

Definition Prefix_IsValid (p : Prefix) : bool := 0 <=? p_bits p.

Definition has_zone (a : Addr) : bool :=
  match a with Addr6 _ z => bool_decide (z <> "") | _ => false end.

(** [netip.ParsePrefix]. *)
Definition ParsePrefix (s : string) : option Prefix :=
  '(ip, bits) ← CutLast "/" s;
  a ← ParseAddr ip;
  if has_zone a then None else
  let bad := match bits with
             | String c (String _ _) => (code c <? 49) || (57 <? code c)
             | _ => false
             end in
  if bad then None else
  n ← Atoi bits;
  if (n <? 0) || (BitLen a <? n) then None else Some (PrefixFrom a n).

(** [netip.ParseAddrPort]. *)
Definition ParseAddrPort (s : string) : option AddrPort :=
  '(ip, port) ← CutLast ":" s;
  if bool_decide (ip = "") || bool_decide (port = "") then None else
  '(ip, v6) ← match ip with
              | String "[" r => if HasSuffixChar r "]" then Some (init r, true) else None
              | _ => Some (ip, false)
              end;
  p ← ParseUint port 16;
  a ← ParseAddr ip;
  if (v6 && Is4 a) || (negb v6 && Is6 a) then None else Some (AddrPortFrom a p).

(** [net.SplitHostPort]. *)
Definition SplitHostPort (s : string) : option (string * string) :=
  '(host, port) ← CutLast ":" s;
  match host with
  | String "[" r =>
      (* the first ']' has to be the last byte before the last ':' *)
      '(inner, rest) ← Cut "]" r;
      if decide (rest = "") then
        if in_chars "[" inner || in_chars "]" port || in_chars "[" port then None
        else Some (inner, port)
      else None
  | _ =>
      if in_chars ":" host || in_chars "[" s || in_chars "]" s then None else Some (host, port)
  end.

(** ** Lemmas *)

Lemma Is4In6_Unmap a : Addr_wf a -> Is4In6 (Unmap a) = false.
Proof.
  destruct a as [|v|v z]; intros Hwf; try done. unfold Unmap.
  destruct (Is4In6 (Addr6 v z)) eqn:E; done.
Qed.

Lemma Unmap_idemp a : Unmap (Unmap a) = Unmap a.
Proof.
  destruct a as [|v|v z]; try done. unfold Unmap at 2 3.
  destruct (Is4In6 (Addr6 v z)) eqn:E; [done|]. unfold Unmap. by rewrite E.
Qed.

Lemma Unmap_wf a : Addr_wf a -> Addr_wf (Unmap a).
Proof.
  destruct a as [|v|v z]; try done. unfold Unmap.
  destruct (Is4In6 (Addr6 v z)); [|done]. intros _. apply Z.mod_pos_bound. lia.
Qed.

Lemma IsLoopback_Unmap a : IsLoopback (Unmap a) = IsLoopback a.
Proof. unfold IsLoopback. by rewrite Unmap_idemp. Qed.

Lemma IsValid_Unmap a : IsValid (Unmap a) = IsValid a.
Proof. destruct a as [|v|v z]; try done. unfold Unmap. by destruct (Is4In6 _). Qed.

Lemma loopback_not_unspecified a : IsLoopback a = true -> IsUnspecified a = false.
Proof.
  unfold IsUnspecified. intros H. apply orb_false_intro; apply bool_decide_eq_false;
    intros ->; unfold IsLoopback, Unmap in H; simpl in H; done.
Qed.

Lemma loopback_valid a : IsLoopback a = true -> IsValid a = true.
Proof. by destruct a. Qed.

Lemma AddrFrom4_wf b : length b = 4%nat -> Addr_wf (AddrFrom4 b).
Proof. intros H. simpl. pose proof (be_uint_bounds b) as Hb. rewrite H in Hb. lia. Qed.

Lemma AddrFrom16_wf b : length b = 16%nat -> Addr_wf (AddrFrom16 b).
Proof. intros H. simpl. pose proof (be_uint_bounds b) as Hb. rewrite H in Hb. lia. Qed.

Lemma As4_From4 b : length b = 4%nat -> As4 (AddrFrom4 b) = b.
Proof. intros H. unfold As4, AddrFrom4. rewrite <-H. apply be_bytes_uint. Qed.

Lemma From4_As4 v : 0 <= v < 2 ^ 32 -> AddrFrom4 (As4 (Addr4 v)) = Addr4 v.
Proof. intros H. unfold AddrFrom4. f_equal. by apply be_uint_bytes_small. Qed.

Lemma From16_As16 v z : 0 <= v < 2 ^ 128 -> AddrFrom16 (As16 (Addr6 v z)) = Addr6 v "".
Proof. intros H. unfold AddrFrom16. f_equal. by apply be_uint_bytes_small. Qed.

Lemma length_As16 a : length (As16 a) = 16%nat.
Proof. destruct a; apply length_be_bytes. Qed.

Lemma digits_val_nonneg s acc v : 0 <= acc -> digits_val acc s = Some v -> acc <= v.
Proof.
  revert acc. induction s as [|c s IH]; simpl; intros acc Hacc H; [simplify_eq; lia|].
  destruct (is_digit c) eqn:E; [|done].
  unfold is_digit in E. unfold digit_val in H.
  apply IH in H; lia.
Qed.

Lemma ParseUint_bounds s bits v : ParseUint s bits = Some v -> 0 <= v < 2 ^ bits.
Proof.
  unfold ParseUint. destruct s as [|c s]; [done|].
  intros (v' & Hv & H)%bind_Some.
  apply digits_val_nonneg in Hv; [|done]. case_match; simplify_eq; lia.
Qed.

Lemma parse_octet_bounds s v : parse_octet s = Some v -> 0 <= v < 256.
Proof.
  intros H. assert ((v' ← digits_val 0 s; if v' <=? 255 then Some v' else None) = Some v) as H'.
  { unfold parse_octet in H. repeat case_match; try done. }
  apply bind_Some in H' as (v' & Hv & H').
  apply digits_val_nonneg in Hv; [|done]. case_match; simplify_eq; lia.
Qed.

Lemma parse_ipv4_fields_bounds s v : parse_ipv4_fields s = Some v -> 0 <= v < 2 ^ 32.
Proof.
  unfold parse_ipv4_fields.
  destruct (Split "." s) as [|a [|b [|c [|d [|]]]]]; try done. intros H.
  apply bind_Some in H as (a' & ?%parse_octet_bounds & H).
  apply bind_Some in H as (b' & ?%parse_octet_bounds & H).
  apply bind_Some in H as (c' & ?%parse_octet_bounds & H).
  apply bind_Some in H as (d' & ?%parse_octet_bounds & H). simplify_eq. lia.
Qed.

Lemma ParseAddrPort_bounds s ap : ParseAddrPort s = Some ap -> 0 <= ap_port ap < 2 ^ 16.
Proof.
  unfold ParseAddrPort. intros ([ip port] & _ & H)%bind_Some.
  case_match; [done|]. apply bind_Some in H as ([ip' v6] & _ & H).
  apply bind_Some in H as (p & Hp%ParseUint_bounds & H).
  apply bind_Some in H as (a & _ & H). case_match; [done|]. by simplify_eq.
Qed.

#[export] Hint Resolve Unmap_wf AddrFrom4_wf AddrFrom16_wf ParseUint_bounds : netip.
#[export] Hint Rewrite Unmap_idemp IsLoopback_Unmap IsValid_Unmap length_As16 : netip.
