(* ===== verification/GoErrors.v ===== *)
(** Go's [error] values: sentinels, messages and the chains [fmt.Errorf] builds
    with the verb [%w], with [errors.Is] and [Error()].

    The sentinels are those the program declares or compares with.  A name server
    failure is Go's [net.DNSError], which the retry policy of the tunnel inspects. *)

From S2P Require Import Prelude GoStrings.

Inductive sentinel : Type :=
| ErrTunnelDown
| ErrNotReady
| ErrNoDNS
| ErrNoRoute
| DeadlineExceeded
| Canceled.

#[global] Instance sentinel_eq_dec : EqDecision sentinel.
Proof. solve_decision. Defined.

Definition sentinel_msg (s : sentinel) : string :=
  match s with
  | ErrTunnelDown => "the AmneziaWG tunnel is not running"
  | ErrNotReady => "the AmneziaWG handshake has not completed"
  | ErrNoDNS => "the configuration names no DNS server, so a hostname cannot be resolved inside the tunnel"
  | ErrNoRoute => "the tunnel carries no address of that family"
  | DeadlineExceeded => "context deadline exceeded"
  | Canceled => "context canceled"
  end.

(** [net.DNSError]: its text, the text of its [Err] field, its two flags, and what
    [Unwrap] returns. *)
Inductive error : Type :=
| ESentinel (s : sentinel)
| EMsg (msg : string)
| ETimeout (msg : string)
| EWrap (msg : string) (inner : error)
| EDNS (msg err_text : string) (is_not_found is_timeout : bool) (unwrap : option sentinel).

(** [err.Error()]. *)
Definition Error (e : error) : string :=
  match e with
  | ESentinel s => sentinel_msg s
  | EMsg m => m
  | ETimeout m => m
  | EWrap m _ => m
  | EDNS m _ _ _ _ => m
  end.

(** [errors.Is(err, s)]. *)
Fixpoint Is (e : error) (s : sentinel) : bool :=
  match e with
  | ESentinel s' => bool_decide (s' = s)
  | EMsg _ | ETimeout _ => false
  | EWrap _ e' => Is e' s
  | EDNS _ _ _ _ u => bool_decide (u = Some s)
  end.

(** [errors.As] to [*net.DNSError]: the [Err] text and the flags of the first one. *)
Fixpoint AsDNS (e : error) : option (string * bool * bool) :=
  match e with
  | EDNS _ t nf to _ => Some (t, nf, to)
  | EWrap _ e' => AsDNS e'
  | _ => None
  end.

(** [errors.As] to an error with a method [Timeout]: what it answers. *)
Fixpoint AsTimeout (e : error) : option bool :=
  match e with
  | ETimeout _ => Some true
  | ESentinel DeadlineExceeded => Some true
  | EDNS _ _ _ to _ => Some to
  | EWrap _ e' => AsTimeout e'
  | _ => None
  end.

(** [fmt.Errorf(prefix + ": %w", err)]. *)
Definition Wrapf (prefix : string) (e : error) : error :=
  EWrap (prefix +:+ ": " +:+ Error e) e.

Lemma Is_Wrapf p e s : Is (Wrapf p e) s = Is e s.
Proof. done. Qed.

(** [fmt.Errorf("%w: " + suffix, err)]. *)
Definition WrapfBefore (e : error) (suffix : string) : error :=
  EWrap (Error e +:+ ": " +:+ suffix) e.
