(* ===== verification/SocksProto.v ===== *)
(** The SOCKS5 wire protocol: src/internal/socks5/server.go ([negotiate],
    [readRequest], [reply], [writeReply]) and the UDP header of udp.go
    ([parseUDPHeader], [buildUDPHeader]).

    A client connection is its byte stream, what was written to it, and its two
    deadlines; the handlers run in a state monad over it.  The grammar of RFC 1928
    is given as relations, and the parsers are proved to decide them. *)

From S2P Require Import Prelude GoStrings GoBytes GoNetip GoErrors.

(** ** Constants *)

Definition socksVersion : byte := byte_of 5.

Definition methodNoAuth : byte := byte_of 0.
Definition methodNoAcceptable : byte := byte_of 255.

Definition cmdConnect : byte := byte_of 1.
Definition cmdBind : byte := byte_of 2.
Definition cmdUDPAssociate : byte := byte_of 3.

Definition atypIPv4 : byte := byte_of 1.
Definition atypDomain : byte := byte_of 3.
Definition atypIPv6 : byte := byte_of 4.

Definition repSuccess : byte := byte_of 0.
Definition repGeneralFailure : byte := byte_of 1.
Definition repNetworkUnreachable : byte := byte_of 3.
Definition repHostUnreachable : byte := byte_of 4.
Definition repConnectionRefused : byte := byte_of 5.
Definition repCommandNotSupported : byte := byte_of 7.
Definition repAddrTypeNotSupported : byte := byte_of 8.

(** Durations are in nanoseconds, as in Go's [time.Duration]. *)
Definition Second : Z := 1000000000.
Definition handshakeTimeout : Z := 10 * Second.
Definition dialTimeout : Z := 15 * Second.
Definition resolveTimeout : Z := 20 * Second.
Definition replyTimeout : Z := 10 * Second.

(** ** Connections *)

(** A client connection: the bytes that will still arrive before the peer closes
    or a read deadline expires, the writes that went out, whether each of the
    next writes fails (those after the list succeed), the deadlines in force, the
    clock, and whether the connection, or its write side, was closed here. *)
Record Conn := MkConn {
  c_remote : string;
  c_in : list byte;
  c_out : list (list byte);
  c_write_fails : list bool;
  c_set_fails : bool;
  c_read_deadline : option Z;
  c_write_deadline : option Z;
  c_now : Z;
  c_write_closed : bool;
  c_closed : bool;
}.

#[export] Instance Conn_fields : Fields Conn := fun r =>
  MkConn (c_remote r) (c_in r) (c_out r) (c_write_fails r) (c_set_fails r)
         (c_read_deadline r) (c_write_deadline r) (c_now r) (c_write_closed r) (c_closed r).

(** Handlers over a connection: an error keeps what was done to it. *)
Definition connM (A : Type) : Type := Conn -> result error A * Conn.

#[global] Instance connM_ret : MRet connM := fun A a c => (Ok a, c).

#[global] Instance connM_bind : MBind connM := fun A B f m c =>
  match m c with
  | (Ok a, c') => f a c'
  | (Err e, c') => (Err e, c')
  end.

Definition throw {A} (e : error) : connM A := fun c => (Err e, c).

(** A call whose error the caller drops. *)
Definition ignore_err {A} (m : connM A) : connM unit := fun c => (Ok tt, snd (m c)).

(** The error of a call under the caller's message, [fmt.Errorf("msg: %w", err)]. *)
Definition wrapping {A} (msg : string) (m : connM A) : connM A := fun c =>
  let '(r, c') := m c in (map_err (Wrapf msg) r, c').

(** [io.ReadFull] into a buffer of [n] bytes. *)
Definition ReadFull (n : nat) : connM (list byte) := fun c =>
  if (n <=? length (c_in c))%nat
  then (Ok (take n (c_in c)), c <| c_in ::= drop n |>)
  else (Err (EMsg (if bool_decide (c_in c = []) then "EOF" else "unexpected EOF")),
        c <| c_in := [] |>).

(** [c.Write]. *)
Definition Write (b : list byte) : connM unit := fun c =>
  match c_write_fails c with
  | true :: fs => (Err (EMsg "write: broken pipe"), c <| c_write_fails := fs |>)
  | fs => (Ok tt, c <| c_out ::= (fun o => o ++ [b]) |> <| c_write_fails := tail fs |>)
  end.

(** [c.SetDeadline(t)]; the zero time clears both deadlines. *)
Definition SetDeadline (t : option Z) : connM unit := fun c =>
  if c_set_fails c then (Err (EMsg "set deadline: use of closed network connection"), c)
  else (Ok tt, c <| c_read_deadline := t |> <| c_write_deadline := t |>).

Definition SetWriteDeadline (t : option Z) : connM unit := fun c =>
  if c_set_fails c then (Err (EMsg "set deadline: use of closed network connection"), c)
  else (Ok tt, c <| c_write_deadline := t |>).

(** [time.Now().Add(d)]. *)
Definition after (d : Z) : connM Z := fun c => (Ok (c_now c + d), c).

(** ** Replies *)

(** The bytes of a SOCKS5 reply; the zero [bound] of a failure is sent as 0.0.0.0:0. *)
Definition reply_bytes (rep : byte) (bound : AddrPort) : list byte :=
  let addr := ap_addr bound in
  [socksVersion; rep; byte_of 0]
  ++ (if Is4 addr then atypIPv4 :: As4 addr
      else if Is6 addr then atypIPv6 :: As16 addr
      else atypIPv4 :: replicate 4 (byte_of 0))
  ++ be_bytes 2 (ap_port bound).

Definition writeReply (rep : byte) (bound : AddrPort) : connM unit :=
  Write (reply_bytes rep bound).

Definition reply (rep : byte) (bound : AddrPort) : connM unit :=
  t ← after replyTimeout;
  _ ← ignore_err (SetWriteDeadline (Some t));
  ((fun c =>
      let '(err, c1) := writeReply rep bound c in
      let '(_, c2) := SetWriteDeadline None c1 in
      (err, c2)) : connM unit).

(** ** Method negotiation *)

Definition negotiate : connM unit :=
  header ← wrapping "could not read the greeting" (ReadFull 2);
  match header with
  | [v; n] =>
      if negb (bool_decide (v = socksVersion)) then throw (EMsg "unsupported SOCKS version")
      else if byte_val n =? 0 then throw (EMsg "the client offered no authentication method")
      else
        methods ← wrapping "could not read the method list" (ReadFull (Z.to_nat (byte_val n)));
        if bool_decide (methodNoAuth ∈ methods) then Write [socksVersion; methodNoAuth]
        else
          _ ← ignore_err (Write [socksVersion; methodNoAcceptable]);
          throw (EMsg "the client does not support connecting without authentication")
  | _ => throw (EMsg "unreachable")
  end.

(** ** Requests *)

(** A parsed request target; when [host] is empty, [addr] is used. *)
Record destination := MkDest { host : string; addr : Addr; port : Z }.

#[export] Instance destination_fields : Fields destination := fun r =>
  MkDest (host r) (addr r) (port r).

#[global] Instance destination_eq_dec : EqDecision destination.
Proof. solve_decision. Defined.

(** An IP address sent in the domain field is treated as an address. *)
Definition domain_target (name : list byte) : string * Addr :=
  let h := string_of name in
  match ParseAddr h with
  | Some a => ("", Unmap a)
  | None => (h, AddrZero)
  end.

(** The address part of a request, for each address type. *)
Definition readAddress (atyp : byte) : connM (string * Addr) :=
  if bool_decide (atyp = atypIPv4) then
    buf ← wrapping "could not read the IPv4 destination" (ReadFull 4);
    mret ("", AddrFrom4 buf)
  else if bool_decide (atyp = atypIPv6) then
    buf ← wrapping "could not read the IPv6 destination" (ReadFull 16);
    mret ("", AddrFrom16 buf)
  else if bool_decide (atyp = atypDomain) then
    lenBuf ← wrapping "could not read the domain name length" (ReadFull 1);
    let n := be_uint lenBuf in
    if n =? 0 then throw (EMsg "empty domain name") else
    name ← wrapping "could not read the domain name" (ReadFull (Z.to_nat n));
    mret (domain_target name)
  else
    _ ← ignore_err (writeReply repAddrTypeNotSupported AddrPort_zero);
    throw (EMsg "unsupported address type").

Definition readRequest : connM (byte * destination) :=
  header ← wrapping "could not read the request header" (ReadFull 4);
  match header with
  | [v; cmd; _; atyp] =>
      if negb (bool_decide (v = socksVersion)) then throw (EMsg "unsupported SOCKS version") else
      '(h, a) ← readAddress atyp;
      portBuf ← wrapping "could not read the port" (ReadFull 2);
      mret (cmd, MkDest h a (be_uint portBuf))
  | _ => throw (EMsg "unreachable")
  end.

(** ** UDP headers *)

(** The errors of [parseUDPHeader]. *)
Inductive udp_err : Type :=
| UDPShort | UDPReserved | errUDPFragmented | UDPTruncated4 | UDPTruncated6
| UDPTruncatedDomain | UDPEmptyDomain | UDPAddrType (t : byte) | UDPPortZero.

(** The port and payload after the address. *)
Definition udp_port (h : string) (a : Addr) (rest : list byte) : result udp_err (destination * list byte) :=
  let p := be_uint (take 2 rest) in
  if p =? 0 then Err UDPPortZero else Ok (MkDest h a p, drop 2 rest).

Definition parseUDPHeader (b : list byte) : result udp_err (destination * list byte) :=
  match b with
  | b0 :: b1 :: b2 :: b3 :: rest =>
      if negb (byte_val b0 =? 0) || negb (byte_val b1 =? 0) then Err UDPReserved
      else if negb (byte_val b2 =? 0) then Err errUDPFragmented
      else if bool_decide (b3 = atypIPv4) then
        if (length rest <? 4 + 2)%nat then Err UDPTruncated4
        else udp_port "" (AddrFrom4 (take 4 rest)) (drop 4 rest)
      else if bool_decide (b3 = atypIPv6) then
        if (length rest <? 16 + 2)%nat then Err UDPTruncated6
        else udp_port "" (AddrFrom16 (take 16 rest)) (drop 16 rest)
      else if bool_decide (b3 = atypDomain) then
        match rest with
        | [] => Err UDPTruncatedDomain
        | l0 :: rest' =>
            let l := Z.to_nat (byte_val l0) in
            if (l =? 0)%nat then Err UDPEmptyDomain
            else if (length rest <? 1 + l + 2)%nat then Err UDPTruncatedDomain
            else let '(h, a) := domain_target (take l rest') in udp_port h a (drop l rest')
        end
      else Err (UDPAddrType b3)
  | _ => Err UDPShort
  end.

Definition buildUDPHeader (dst : list byte) (src : AddrPort) : list byte :=
  let a := Unmap (ap_addr src) in
  dst ++ [byte_of 0; byte_of 0; byte_of 0]
  ++ (if Is4 a then atypIPv4 :: As4 a else atypIPv6 :: As16 a)
  ++ be_bytes 2 (ap_port src).

(** ** The wire grammar of RFC 1928

    The address part shared by requests, replies and UDP headers. *)

Inductive wire_addr : list byte -> string -> Addr -> Prop :=
| wire_v4 b : length b = 4%nat -> wire_addr (atypIPv4 :: b) "" (AddrFrom4 b)
| wire_v6 b : length b = 16%nat -> wire_addr (atypIPv6 :: b) "" (AddrFrom16 b)
| wire_domain l name h a :
    length name = Z.to_nat (byte_val l) -> name <> [] ->
    domain_target name = (h, a) ->
    wire_addr (atypDomain :: l :: name) h a.

Inductive socks_request : list byte -> byte -> destination -> Prop :=
| socks_request_intro cmd rsv w h a p2 :
    wire_addr w h a -> length p2 = 2%nat ->
    socks_request (socksVersion :: cmd :: rsv :: w ++ p2) cmd (MkDest h a (be_uint p2)).

Inductive udp_datagram : list byte -> destination -> list byte -> Prop :=
| udp_datagram_intro w h a p2 payload :
    wire_addr w h a -> length p2 = 2%nat -> be_uint p2 <> 0 ->
    udp_datagram ([byte_of 0; byte_of 0; byte_of 0] ++ w ++ p2 ++ payload)
                 (MkDest h a (be_uint p2)) payload.

(** ** Lemmas on the monad *)

Create HintDb conn.
Create Rewrite HintDb conn.

Lemma connM_bind_Ok {A B} (m : connM A) (f : A -> connM B) c b c2 :
  (m ≫= f) c = (Ok b, c2) <-> exists a c1, m c = (Ok a, c1) /\ f a c1 = (Ok b, c2).
Proof.
  unfold mbind, connM_bind. destruct (m c) as [[a|e] c1]; split.
  - intros H. by exists a, c1.
  - intros (a' & c1' & H1 & H2). by simplify_eq.
  - done.
  - intros (a' & c1' & H1 & H2). by simplify_eq.
Qed.

Lemma wrapping_Ok {A} msg (m : connM A) c a c1 :
  wrapping msg m c = (Ok a, c1) <-> m c = (Ok a, c1).
Proof.
  unfold wrapping. destruct (m c) as [r c'].
  split; intros [= Hr ->]; [apply map_err_Ok in Hr as ->|rewrite Hr]; done.
Qed.

Lemma ReadFull_Ok n c l c1 :
  ReadFull n c = (Ok l, c1) <->
  length l = n /\ exists rest, c_in c = l ++ rest /\ c1 = c <| c_in := rest |>.
Proof.
  unfold ReadFull. destruct (n <=? length (c_in c))%nat eqn:E.
  - apply Nat.leb_le in E. split.
    + intros [= <- <-]. split; [rewrite length_take; lia|].
      exists (drop n (c_in c)). by rewrite take_drop.
    + intros (Hl & rest & Hc & ->). subst n. rewrite Hc, take_app_length. f_equal.
      unfold set_field. simpl. by rewrite Hc, drop_app_length.
  - apply Nat.leb_gt in E. split; [done|]. intros (Hl & rest & Hc & _).
    rewrite Hc, length_app in E. lia.
Qed.

Lemma throw_Ok {A} e c (a : A) c1 : throw e c = (Ok a, c1) <-> False.
Proof. done. Qed.

Lemma mret_Ok {A} (x a : A) c c1 : (mret x : connM A) c = (Ok a, c1) <-> x = a /\ c = c1.
Proof. unfold mret, connM_ret. split; [by intros [= -> ->]|by intros [-> ->]]. Qed.

Lemma drop_length_app {A} (l k : list A) n : length l = n -> drop n (l ++ k) = k.
Proof. intros <-. by rewrite drop_app_length. Qed.

Lemma take_length_app {A} (l k : list A) n : length l = n -> take n (l ++ k) = l.
Proof. intros <-. by rewrite take_app_length. Qed.

Lemma split_at {A} n (l : list A) :
  (n <= length l)%nat -> exists l1 l2, l = l1 ++ l2 /\ length l1 = n.
Proof. intros H. exists (take n l), (drop n l). rewrite take_drop, length_take. split; [done|lia]. Qed.

Lemma byte_val_zero b : byte_val b = 0 -> b = byte_of 0.
Proof. intros H. by rewrite <-(byte_of_val b), H. Qed.

(** ** Requests *)

Lemma read_fixed_Ok {A} msg n (f : list byte -> A) c x c1 :
  (b ← wrapping msg (ReadFull n); mret (f b) : connM A) c = (Ok x, c1) <->
  exists b rest, length b = n /\ f b = x /\ c_in c = b ++ rest /\ c1 = c <| c_in := rest |>.
Proof.
  rewrite connM_bind_Ok. setoid_rewrite wrapping_Ok. setoid_rewrite ReadFull_Ok.
  setoid_rewrite mret_Ok. naive_solver.
Qed.

Lemma read_domain_Ok c h a c1 :
  readAddress atypDomain c = (Ok (h, a), c1) <->
  exists w rest, wire_addr (atypDomain :: w) h a /\ c_in c = w ++ rest /\ c1 = c <| c_in := rest |>.
Proof.
  unfold readAddress. rewrite !bool_decide_false, bool_decide_true by done.
  rewrite connM_bind_Ok. setoid_rewrite wrapping_Ok. setoid_rewrite ReadFull_Ok. split.
  - intros (lb & c' & (Hl & rest & Hin & ->) & Hk).
    destruct lb as [|l [|]]; try done. change (be_uint [l]) with (byte_val l) in Hk.
    destruct (Z.eqb_spec (byte_val l) 0) as [|Hnz]; [done|].
    apply read_fixed_Ok in Hk as (name & rest' & Hn & Hd & Hin' & ->).
    exists (l :: name), rest'. split.
    + constructor; [done| |done]. intros ->. pose proof (byte_val_bounds l). simpl in Hn. lia.
    + rewrite Hin. simpl in *. by rewrite Hin'.
  - intros (w & rest & Hw & Hin & ->). inversion Hw as [| |l name h' a' Hn Hne Hd]; subst.
    exists [l], (c <| c_in := name ++ rest |>).
    split; [split; [done|by exists (name ++ rest)]|].
    change (be_uint [l]) with (byte_val l).
    destruct (Z.eqb_spec (byte_val l) 0) as [Hz|Hnz].
    { rewrite Hz in Hn. by apply nil_length_inv in Hn. }
    apply read_fixed_Ok. by exists name, rest.
Qed.

Lemma readAddress_Ok atyp c h a c1 :
  readAddress atyp c = (Ok (h, a), c1) <->
  exists w rest, wire_addr (atyp :: w) h a /\ c_in c = w ++ rest /\ c1 = c <| c_in := rest |>.
Proof.
  destruct (decide (atyp = atypDomain)) as [->|Hd]; [apply read_domain_Ok|].
  unfold readAddress. repeat case_bool_decide; subst; try done.
  - rewrite read_fixed_Ok. split.
    + intros (b & rest & Hl & [= <- <-] & Hin & ->). exists b, rest. by repeat constructor.
    + intros (w & rest & Hw & Hin & ->). inversion Hw; subst. by exists w, rest.
  - rewrite read_fixed_Ok. split.
    + intros (b & rest & Hl & [= <- <-] & Hin & ->). exists b, rest. by repeat constructor.
    + intros (w & rest & Hw & Hin & ->). inversion Hw; subst. by exists w, rest.
  - split.
    + by intros (u & c' & _ & Hx)%connM_bind_Ok.
    + intros (w & rest & Hw & _). by inversion Hw; subst.
Qed.

Lemma readRequest_Ok c cmd d c' :
  readRequest c = (Ok (cmd, d), c') <->
  exists req rest, socks_request req cmd d /\ c_in c = req ++ rest /\ c' = c <| c_in := rest |>.
Proof.
  unfold readRequest. rewrite connM_bind_Ok. setoid_rewrite wrapping_Ok.
  setoid_rewrite ReadFull_Ok. split.
  - intros (hd & c1 & (Hl & rest & Hin & ->) & Hk).
    destruct hd as [|v [|cm [|rsv [|at_ [|]]]]]; try done.
    case_bool_decide as Hv; simpl in Hk; [subst v|done].
    apply connM_bind_Ok in Hk as ([h a] & c2 & Ha & Hk).
    apply readAddress_Ok in Ha as (w & rest' & Hw & Hin' & ->).
    apply connM_bind_Ok in Hk as (p2 & c3 & Hp & Hk).
    apply wrapping_Ok, ReadFull_Ok in Hp as (Hp & rest2 & Hin2 & ->).
    apply mret_Ok in Hk as [[= <- <-] <-]. simpl in *. subst.
    exists (socksVersion :: cm :: rsv :: (at_ :: w) ++ p2), rest2.
    split; [exact (socks_request_intro cm rsv (at_ :: w) h a p2 Hw Hp)|].
    split; [|done]. rewrite Hin. simpl. by rewrite <-app_assoc.
  - intros (req & rest & Hreq & Hin & ->). inversion Hreq as [cm rsv w h a p2 Hw Hp]; subst.
    destruct w as [|at_ w]; [inversion Hw|].
    exists [socksVersion; cmd; rsv; at_], (c <| c_in := w ++ p2 ++ rest |>). split.
    { split; [done|]. exists (w ++ p2 ++ rest). rewrite Hin. simpl. by rewrite <-app_assoc. }
    rewrite bool_decide_true by done. simpl.
    apply connM_bind_Ok. exists (h, a), (c <| c_in := p2 ++ rest |>). split.
    { apply readAddress_Ok. by exists w, (p2 ++ rest). }
    apply connM_bind_Ok. exists p2, (c <| c_in := rest |>). split; [|by apply mret_Ok].
    apply wrapping_Ok, ReadFull_Ok. split; [done|]. by exists rest.
Qed.

(** ** UDP datagrams *)

Lemma udp_port_Ok h a rest d pl :
  (2 <= length rest)%nat ->
  udp_port h a rest = Ok (d, pl) <->
  exists p2, length p2 = 2%nat /\ rest = p2 ++ pl /\ be_uint p2 <> 0 /\ d = MkDest h a (be_uint p2).
Proof.
  intros (p2 & r & -> & Hp)%split_at. unfold udp_port.
  rewrite take_length_app, drop_length_app by done.
  destruct (Z.eqb_spec (be_uint p2) 0) as [Hz|Hnz].
  - split; [done|]. intros (q2 & Hq & Heq & Hnz & _).
    apply app_inj_1 in Heq as [-> _]; [done|lia].
  - split.
    + intros [= <- <-]. by exists p2.
    + intros (q2 & Hq & Heq & _ & ->). apply app_inj_1 in Heq as [-> ->]; [done|lia].
Qed.

(** What follows the address type, for each type. *)
Lemma parse_fixed_Ok t n e f rest d pl :
  (forall b, length b = n -> wire_addr (t :: b) "" (f b)) ->
  (forall w h a, wire_addr (t :: w) h a -> h = "" /\ length w = n /\ a = f w) ->
  (if (length rest <? n + 2)%nat then Err e else udp_port "" (f (take n rest)) (drop n rest))
    = Ok (d, pl) <->
  exists w h a p2, wire_addr (t :: w) h a /\ length p2 = 2%nat /\ be_uint p2 <> 0 /\
    rest = w ++ p2 ++ pl /\ d = MkDest h a (be_uint p2).
Proof.
  intros Hi Hc. destruct (Nat.ltb_spec (length rest) (n + 2)) as [Hlt|Hge].
  - split; [done|]. intros (w & h & a & p2 & (-> & Hw & ->)%Hc & Hp & _ & -> & _).
    rewrite !length_app in Hlt. lia.
  - destruct (split_at n rest) as (w & r & -> & Hw); [lia|]. rewrite length_app in Hge.
    rewrite take_length_app, drop_length_app, udp_port_Ok by (done || lia). split.
    + intros (p2 & Hp & -> & Hnz & ->). exists w, "", (f w), p2.
      split; [by apply Hi|done].
    + intros (w' & h & a & p2 & (-> & Hw' & ->)%Hc & Hp & Hnz & Heq & ->).
      apply app_inj_1 in Heq as [<- ->]; [|lia]. by exists p2.
Qed.

Lemma wire_domain_inv w h a :
  wire_addr (atypDomain :: w) h a ->
  exists l name, w = l :: name /\ length name = Z.to_nat (byte_val l) /\ (0 < length name)%nat /\
    domain_target name = (h, a).
Proof.
  intros Hw. inversion Hw as [| |l name h' a' Hn Hne Hd]; subst.
  exists l, name. repeat split; [done| |done]. destruct name; [done|simpl; lia].
Qed.

(** A domain of a known length: the length byte [l] is not zero. *)
Lemma parse_name_Ok l rest d pl :
  Z.to_nat (byte_val l) <> 0%nat ->
  (if (length (l :: rest) <? S (Z.to_nat (byte_val l) + 2))%nat then Err UDPTruncatedDomain
   else let '(h, a) := domain_target (take (Z.to_nat (byte_val l)) rest) in
        udp_port h a (drop (Z.to_nat (byte_val l)) rest)) = Ok (d, pl) <->
  exists w h a p2, wire_addr (atypDomain :: w) h a /\ length p2 = 2%nat /\ be_uint p2 <> 0 /\
    l :: rest = w ++ p2 ++ pl /\ d = MkDest h a (be_uint p2).
Proof.
  intros Hz. destruct (Nat.ltb_spec (length (l :: rest)) (S (Z.to_nat (byte_val l) + 2))) as [Hlt|Hge].
  - split; [done|]. intros (w & h & a & p2 & (l' & name & -> & Hn & _)%wire_domain_inv & Hp & _ & Heq & _).
    simplify_eq/=. rewrite !length_app in Hlt. lia.
  - simpl in Hge. destruct (split_at (Z.to_nat (byte_val l)) rest) as (name & r & -> & Hn); [lia|].
    rewrite length_app in Hge. rewrite take_length_app, drop_length_app by done.
    destruct (domain_target name) as [h a] eqn:Hd. rewrite udp_port_Ok by lia. split.
    + intros (p2 & Hp & -> & Hpz & ->). exists (l :: name), h, a, p2.
      split; [|done]. constructor; [lia| |done]. by intros ->.
    + intros (w & h' & a' & p2 & (l' & name' & -> & Hn' & _ & Hd')%wire_domain_inv & Hp & Hpz & Heq & ->).
      injection Heq as <- Heq. apply app_inj_1 in Heq as [<- ->]; [|lia].
      rewrite Hd in Hd'. injection Hd' as <- <-. by exists p2.
Qed.

Lemma parseUDPHeader_Ok b d pl : parseUDPHeader b = Ok (d, pl) <-> udp_datagram b d pl.
Proof.
  assert (udp_datagram b d pl <-> exists t rest, b = x00 :: x00 :: x00 :: t :: rest /\
    exists w h a p2, wire_addr (t :: w) h a /\ length p2 = 2%nat /\ be_uint p2 <> 0 /\
      rest = w ++ p2 ++ pl /\ d = MkDest h a (be_uint p2)) as ->.
  { split.
    - intros [w h a p2 payload Hw Hp Hnz]. destruct w as [|t w]; [inversion Hw|].
      exists t, (w ++ p2 ++ payload). split; [done|]. by exists w, h, a, p2.
    - intros (t & rest & -> & w & h & a & p2 & Hw & Hp & Hnz & -> & ->).
      by apply (udp_datagram_intro (t :: w)). }
  destruct b as [|b0 [|b1 [|b2 [|t rest]]]]; try (split; [done|by intros (? & ? & ? & _)]).
  unfold parseUDPHeader.
  destruct (Z.eqb_spec (byte_val b0) 0) as [->%byte_val_zero|Hb0];
    [|split; [done|intros (? & ? & ? & _); simplify_eq; done]].
  destruct (Z.eqb_spec (byte_val b1) 0) as [->%byte_val_zero|Hb1];
    [|split; [done|intros (? & ? & ? & _); simplify_eq; done]].
  destruct (Z.eqb_spec (byte_val b2) 0) as [->%byte_val_zero|Hb2];
    [|split; [done|intros (? & ? & ? & _); simplify_eq; done]].
  transitivity (exists w h a p2, wire_addr (t :: w) h a /\ length p2 = 2%nat /\ be_uint p2 <> 0 /\
      rest = w ++ p2 ++ pl /\ d = MkDest h a (be_uint p2)); [|by naive_solver]. simpl.
  repeat case_bool_decide; subst.
  - apply (parse_fixed_Ok atypIPv4 4); [by constructor|]. intros w h a Hw. by inversion Hw.
  - apply (parse_fixed_Ok atypIPv6 16); [by constructor|]. intros w h a Hw. by inversion Hw.
  - destruct rest as [|l rest].
    { split; [done|]. by intros (w & h & a & p2 & (l' & name & -> & _)%wire_domain_inv & _ & _ & ? & _). }
    destruct (Nat.eqb_spec (Z.to_nat (byte_val l)) 0) as [Hz|Hz]; [|by apply parse_name_Ok].
    split; [done|].
    intros (w & h & a & p2 & (l' & name & -> & Hn & Hpos & _)%wire_domain_inv & _ & _ & Heq & _).
    simplify_eq/=. lia.
  - split; [done|]. intros (w & h & a & p2 & Hw & _). by inversion Hw; subst.
Qed.

(** ** Encoders *)

(** What an address is on the wire: no zone, and 0.0.0.0 for the zero address. *)
Definition wire_form (a : Addr) : Addr :=
  match a with AddrZero => Addr4 0 | _ => without_zone a end.

Lemma wire_addr_encode a :
  Addr_wf a -> a <> AddrZero ->
  wire_addr (if Is4 a then atypIPv4 :: As4 a else atypIPv6 :: As16 a) "" (wire_form a).
Proof.
  destruct a as [|v|v z]; intros Hwf Hz; [done| |].
  - replace (wire_form (Addr4 v)) with (AddrFrom4 (As4 (Addr4 v))) by (by apply From4_As4).
    constructor. apply length_be_bytes.
  - replace (wire_form (Addr6 v z)) with (AddrFrom16 (As16 (Addr6 v z))) by (by apply From16_As16).
    constructor. apply length_be_bytes.
Qed.

Lemma port_roundtrip p : 0 <= p < 2 ^ 16 -> be_uint (be_bytes 2 p) = p.
Proof. intros H. by apply be_uint_bytes_small. Qed.

Lemma reply_is_request rep bound :
  Addr_wf (ap_addr bound) -> 0 <= ap_port bound < 2 ^ 16 ->
  socks_request (reply_bytes rep bound) rep (MkDest "" (wire_form (ap_addr bound)) (ap_port bound)).
Proof.
  intros Hwf Hp. rewrite <-(port_roundtrip (ap_port bound)) at 1 by done.
  unfold reply_bytes. destruct (decide (ap_addr bound = AddrZero)) as [Hz|Hz].
  - rewrite Hz. change (wire_form AddrZero) with (AddrFrom4 (replicate 4 (byte_of 0))).
    apply (socks_request_intro rep (byte_of 0) (atypIPv4 :: replicate 4 (byte_of 0)));
      [by constructor|apply length_be_bytes].
  - replace (if Is4 (ap_addr bound) then _ else _)
      with (if Is4 (ap_addr bound) then atypIPv4 :: As4 (ap_addr bound)
            else atypIPv6 :: As16 (ap_addr bound)) by (by destruct (ap_addr bound)).
    exact (socks_request_intro rep (byte_of 0) _ _ _ _ (wire_addr_encode _ Hwf Hz)
             (length_be_bytes 2 _)).
Qed.

(** ** Negotiation *)

(** A greeting: the version, the number of methods, and the methods. *)
Inductive socks_greeting : list byte -> list byte -> Prop :=
| socks_greeting_intro n methods :
    length methods = Z.to_nat (byte_val n) -> methods <> [] ->
    socks_greeting (socksVersion :: n :: methods) methods.

Lemma ReadFull_app n l rest c :
  length l = n -> c_in c = l ++ rest -> ReadFull n c = (Ok l, c <| c_in := rest |>).
Proof. intros Hl Hin. apply ReadFull_Ok. split; [done|by exists rest]. Qed.

Lemma ReadFull_Err n c e c1 :
  ReadFull n c = (Err e, c1) -> (length (c_in c) < n)%nat /\ c_out c1 = c_out c.
Proof.
  unfold ReadFull. case_match eqn:E; [done|]. apply Nat.leb_gt in E. intros [= _ <-]. done.
Qed.

Lemma negotiate_greeting c g ms rest :
  c_write_fails c = [] -> socks_greeting g ms -> c_in c = g ++ rest ->
  exists c', c' = c <| c_in := rest |> /\
  if bool_decide (methodNoAuth ∈ ms)
  then negotiate c = (Ok tt, c' <| c_out ::= (fun o => o ++ [[socksVersion; methodNoAuth]]) |>)
  else is_ok (fst (negotiate c)) = false /\
       snd (negotiate c) = c' <| c_out ::= (fun o => o ++ [[socksVersion; methodNoAcceptable]]) |>.
Proof.
  intros Hw [n ms' Hn Hne] Hin. eexists. split; [reflexivity|].
  assert (byte_val n <> 0) as Hnz by (intros Hz; rewrite Hz in Hn; by apply nil_length_inv in Hn).
  destruct c as [rem inp out wf sf rd wd now wc cl]. simpl in Hw, Hin. subst.
  unfold negotiate, wrapping, mbind, connM_bind.
  rewrite (ReadFull_app 2 [socksVersion; n] (ms' ++ rest)) by done. simpl.
  destruct (Z.eqb_spec (byte_val n) 0) as [|_]; [done|].
  rewrite (ReadFull_app (Z.to_nat (byte_val n)) ms' rest) by done. simpl.
  by case_bool_decide.
Qed.

Lemma negotiate_no_greeting c :
  (forall g ms rest, socks_greeting g ms -> c_in c <> g ++ rest) ->
  is_ok (fst (negotiate c)) = false /\ c_out (snd (negotiate c)) = c_out c.
Proof.
  intros Hno. unfold negotiate, wrapping, mbind, connM_bind.
  destruct (ReadFull 2 c) as [[hd|e] c1] eqn:H1; [|by apply ReadFull_Err in H1 as [_ ?]].
  apply ReadFull_Ok in H1 as (Hl & rest & Hin & ->).
  destruct hd as [|v [|n [|]]]; try done. simpl.
  case_bool_decide as Hv; simpl; [subst v|done].
  destruct (Z.eqb_spec (byte_val n) 0) as [|Hnz]; [done|].
  destruct (ReadFull _ _) as [[ms|e] c2] eqn:H2; simpl.
  - apply ReadFull_Ok in H2 as (Hn & rest' & Hin' & ->). simpl in Hin'. exfalso.
    apply (Hno (socksVersion :: n :: ms) ms rest').
    + constructor; [done|]. intros ->. pose proof (byte_val_bounds n). simpl in Hn. lia.
    + rewrite Hin, Hin'. done.
  - by apply ReadFull_Err in H2 as [_ ?].
Qed.

(** ** Properties *)

(** C32: [parseUDPHeader] accepts exactly the datagrams of the RFC 1928 grammar
    (zero reserved and fragment bytes, a complete address, a non-zero port) and
    returns the destination and the payload that follow from it. *)
Theorem parseUDPHeader_grammar b d payload :
  parseUDPHeader b = Ok (d, payload) <-> udp_datagram b d payload.
Proof. apply parseUDPHeader_Ok. Qed.

(** A datagram that [buildUDPHeader] puts a header on is parsed back to the
    source it names, unmapped and without its zone, and to the same payload. *)
Theorem udp_header_roundtrip src payload :
  Addr_wf (ap_addr src) -> ap_addr src <> AddrZero -> 0 < ap_port src < 2 ^ 16 ->
  parseUDPHeader (buildUDPHeader [] src ++ payload)
  = Ok (MkDest "" (without_zone (Unmap (ap_addr src))) (ap_port src), payload).
Proof.
  intros Hwf Hz Hp. apply parseUDPHeader_Ok.
  unfold buildUDPHeader.
  replace (MkDest "" _ (ap_port src))
    with (MkDest "" (without_zone (Unmap (ap_addr src))) (be_uint (be_bytes 2 (ap_port src))))
    by (by rewrite port_roundtrip by lia).
  assert (Unmap (ap_addr src) <> AddrZero) as Hu.
  { intros Heq. pose proof (IsValid_Unmap (ap_addr src)) as Hv. rewrite Heq in Hv.
    by destruct (ap_addr src). }
  replace (without_zone _) with (wire_form (Unmap (ap_addr src)))
    by (by destruct (Unmap (ap_addr src))).
  rewrite app_nil_l, <-!app_assoc.
  refine (udp_datagram_intro _ _ _ _ _ (wire_addr_encode _ (Unmap_wf _ Hwf) Hu)
            (length_be_bytes 2 _) _).
  rewrite port_roundtrip; lia.
Qed.

Lemma udp_header_roundtrip_witness :
  (Addr_wf (Addr6 281470698652420 "") /\ 0 < 6881 < 2 ^ 16) /\
  parseUDPHeader (buildUDPHeader [] (AddrPortFrom (Addr6 281470698652420 "") 6881) ++ [x01; x02])
  = Ok (MkDest "" (without_zone (Unmap (Addr6 281470698652420 ""))) 6881, [x01; x02]).
Proof.
  split; [by vm_compute|].
  apply (udp_header_roundtrip (AddrPortFrom (Addr6 281470698652420 "") 6881)); by vm_compute.
Defined.

(** C33: [readRequest] succeeds exactly on the requests of the RFC 1928 grammar,
    consumes the request and nothing after it, and writes nothing. *)
Theorem readRequest_grammar c cmd d c' :
  readRequest c = (Ok (cmd, d), c') <->
  exists req rest, socks_request req cmd d /\ c_in c = req ++ rest /\ c' = c <| c_in := rest |>.
Proof. apply readRequest_Ok. Qed.

(** The reply [writeReply] sends is read back, by the reader of the same
    layout, as its code and bound address: 0.0.0.0 with port 0 for the zero value
    of a failure. *)
Theorem reply_roundtrip rep bound c rest :
  Addr_wf (ap_addr bound) -> 0 <= ap_port bound < 2 ^ 16 ->
  c_in c = reply_bytes rep bound ++ rest ->
  readRequest c = (Ok (rep, MkDest "" (wire_form (ap_addr bound)) (ap_port bound)),
                   c <| c_in := rest |>).
Proof.
  intros Hwf Hp Hin. apply readRequest_Ok. exists (reply_bytes rep bound), rest.
  split; [by apply reply_is_request|done].
Qed.

(** A fresh loopback connection that will send [inp]. *)
Definition conn_sending (inp : list byte) : Conn :=
  MkConn "127.0.0.1:50000" inp [] [] false None None 0 false false.

Lemma reply_roundtrip_witness :
  readRequest (conn_sending (reply_bytes repNetworkUnreachable AddrPort_zero ++ []))
  = (Ok (repNetworkUnreachable, MkDest "" (wire_form AddrZero) 0),
     (conn_sending (reply_bytes repNetworkUnreachable AddrPort_zero ++ [])) <| c_in := [] |>).
Proof. apply (reply_roundtrip repNetworkUnreachable AddrPort_zero); by vm_compute. Defined.

(** Method negotiation, on every input: a complete greeting that offers "no
    authentication" is answered 05 00 and accepted, one that does not is answered
    05 FF and refused, and anything else is refused with nothing written. *)
Theorem negotiate_outcomes c :
  c_write_fails c = [] ->
  (forall g ms rest, socks_greeting g ms -> c_in c = g ++ rest ->
     exists c', c' = c <| c_in := rest |> /\
     if bool_decide (methodNoAuth ∈ ms)
     then negotiate c = (Ok tt, c' <| c_out ::= (fun o => o ++ [[socksVersion; methodNoAuth]]) |>)
     else is_ok (fst (negotiate c)) = false /\
          snd (negotiate c)
          = c' <| c_out ::= (fun o => o ++ [[socksVersion; methodNoAcceptable]]) |>) /\
  ((forall g ms rest, socks_greeting g ms -> c_in c <> g ++ rest) ->
     is_ok (fst (negotiate c)) = false /\ c_out (snd (negotiate c)) = c_out c).
Proof.
  intros Hw. split; [|apply negotiate_no_greeting].
  intros g ms rest Hg Hin. by apply (negotiate_greeting c g ms rest).
Qed.

Lemma negotiate_outcomes_witness :
  negotiate (conn_sending [x05; x02; x02; x00; x05])
  = (Ok tt, (conn_sending [x05]) <| c_out := [[socksVersion; methodNoAuth]] |>).
Proof.
  destruct (negotiate_outcomes (conn_sending [x05; x02; x02; x00; x05]) eq_refl) as [H _].
  destruct (H [x05; x02; x02; x00] [x02; x00] [x05]) as (c' & -> & Hn);
    [by constructor|done|exact Hn].
Defined.
