(* ===== verification/SocksDial.v ===== *)
(** The egress of the SOCKS5 server: the [Dialer] interface, [connect] and
    [routable] of src/internal/socks5/server.go, and the mapping of failures to
    reply codes of src/internal/socks5/errors.go.

    The world behind the dialer (the tunnel, its resolver, the network) is a type
    [W] that every call may change.  Logging is left out: it writes to the log
    file only. *)

From S2P Require Import Prelude GoStrings GoBytes GoNetip GoErrors SocksProto.

(** ** The Dialer interface *)

(** The four methods of [socks5.Dialer], with the timeout of the context they are
    given, and the three methods of the sockets they return that the server
    calls on its own. *)
Class Dialer (W Sock : Type) : Type := {
  DialTCP : Z -> AddrPort -> W -> result error Sock * W;
  LookupHost : Z -> string -> W -> result error (list Addr) * W;
  HasDNS : W -> bool;
  ListenUDP : Z -> bool -> W -> result error Sock * W;
  sock_WriteTo : Sock -> list byte -> AddrPort -> W -> result error Z * W;
  sock_Close : Sock -> W -> W;
}.

(** What the server relies on: while the tunnel is down every egress fails with
    [ErrTunnelDown] and sends nothing, and the failure leaves it down. *)
Class DialerLaws (W Sock : Type) `{Dialer W Sock} : Type := {
  tunnel_up : W -> bool;
  down_DialTCP timeout t w : tunnel_up w = false ->
    DialTCP timeout t w = (Err (ESentinel ErrTunnelDown), w);
  down_LookupHost timeout h w : tunnel_up w = false ->
    LookupHost timeout h w = (Err (ESentinel ErrTunnelDown), w);
  down_ListenUDP timeout b w : tunnel_up w = false ->
    ListenUDP timeout b w = (Err (ESentinel ErrTunnelDown), w);
}.

(** ** Counters *)

(** The counters of [Server]: int64 for sessions, uint64 for bytes and datagrams;
    no run reaches their bounds. *)
Record Stats := MkStats {
  statActive : Z;
  statTotal : Z;
  statRejected : Z;
  statFailed : Z;
  statHostname : Z;
  statNoName : Z;
  statTx : Z;
  statRx : Z;
  statUDPAssoc : Z;
  statUDPSent : Z;
  statUDPReceived : Z;
  statUDPDropped : Z;
  statUDPBytesUp : Z;
  statUDPBytesDown : Z;
}.

#[export] Instance Stats_fields : Fields Stats := fun r =>
  MkStats (statActive r) (statTotal r) (statRejected r) (statFailed r) (statHostname r)
    (statNoName r) (statTx r) (statRx r) (statUDPAssoc r) (statUDPSent r)
    (statUDPReceived r) (statUDPDropped r) (statUDPBytesUp r) (statUDPBytesDown r).

Definition Stats_zero : Stats := MkStats 0 0 0 0 0 0 0 0 0 0 0 0 0 0.

(** ** Errors to reply codes *)

Definition replyForError (err : option error) (fallback : byte) : byte :=
  match err with
  | None => repSuccess
  | Some e =>
      if Is e ErrTunnelDown || Is e ErrNotReady then repNetworkUnreachable
      else if Is e ErrNoDNS then repHostUnreachable
      else if Is e DeadlineExceeded || Is e Canceled then repHostUnreachable
      else
        let msg := ToLower (Error e) in
        if Contains msg "connection refused" then repConnectionRefused
        else if Contains msg "network is unreachable" then repNetworkUnreachable
        else if Contains msg "no route to host" || Contains msg "host is unreachable"
        then repHostUnreachable
        else if byte_val fallback =? 0 then repGeneralFailure else fallback
  end.

Arguments replyForError : simpl never.

(** ** Connecting *)

Definition routable (addrs : list Addr) : list Addr :=
  filter (fun a => IsUnspecified a = false) (Unmap <$> addrs).

Section Connect.
Context {W Sock : Type} `{Dialer W Sock}.

(** The loop over the candidates, from the last error so far. *)
Fixpoint dial_candidates (candidates : list Addr) (p : Z) (lastErr : option error) (w : W) :
    result (option error) (Sock * AddrPort) * W :=
  match candidates with
  | [] => (Err lastErr, w)
  | a :: rest =>
      let target := AddrPortFrom (Unmap a) p in
      match DialTCP dialTimeout target w with
      | (Ok c, w') => (Ok (c, target), w')
      | (Err e, w') => dial_candidates rest p (Some e) w'
      end
  end.

(** The candidates of a destination, or the reply code of its refusal. *)
Definition candidates_of (dest : destination) (w : W) (st : Stats) :
    result byte (list Addr) * W * Stats :=
  if negb (bool_decide (host dest = "")) then
    let st := st <| statHostname ::= Z.add 1 |> in
    if negb (HasDNS w) then (Err repHostUnreachable, w, st <| statNoName ::= Z.add 1 |>)
    else
      match LookupHost resolveTimeout (host dest) w with
      | (Err e, w') =>
          (Err (replyForError (Some e) repHostUnreachable), w',
           if negb (Is e ErrTunnelDown) && negb (Is e ErrNotReady)
           then st <| statNoName ::= Z.add 1 |> else st)
      | (Ok addrs, w') =>
          match routable addrs with
          | [] => (Err repHostUnreachable, w', st <| statNoName ::= Z.add 1 |>)
          | candidates => (Ok candidates, w', st)
          end
      end
  else if IsUnspecified (Unmap (addr dest)) then (Err repHostUnreachable, w, st)
  else (Ok [addr dest], w, st).

(** [Server.connect]: the socket and its target, or the reply code to send. *)
Definition connect (dest : destination) (w : W) (st : Stats) :
    result byte (Sock * AddrPort) * W * Stats :=
  match candidates_of dest w st with
  | (Err rep, w', st') => (Err rep, w', st')
  | (Ok candidates, w', st') =>
      match dial_candidates candidates (port dest) None w' with
      | (Ok ct, w'') => (Ok ct, w'', st')
      | (Err lastErr, w'') =>
          let e := match lastErr with Some e => e | None => EMsg "no destination address" end in
          (Err (replyForError (Some e) repHostUnreachable), w'', st')
      end
  end.
End Connect.

(** ** Lemmas *)

Lemma replyForError_fails e fb : replyForError (Some e) fb <> repSuccess.
Proof.
  unfold replyForError. repeat case_match; try done.
  intros ->. by match goal with Hz : (byte_val repSuccess =? 0) = false |- _ => vm_compute in Hz end.
Qed.

Lemma elem_of_routable a addrs :
  a ∈ routable addrs <-> IsUnspecified a = false /\ exists a', a' ∈ addrs /\ a = Unmap a'.
Proof.
  unfold routable. rewrite list_elem_of_filter, list_elem_of_fmap. naive_solver.
Qed.

Section ConnectLemmas.
Context {W Sock : Type} `{D : !Dialer W Sock}.

(** The targets a destination may lead to. *)
Definition egress_target (p : Z) (t : AddrPort) : Prop :=
  IsUnspecified (ap_addr t) = false /\ Unmap (ap_addr t) = ap_addr t /\ ap_port t = p.

Lemma candidates_routable dest w st l w' st' :
  candidates_of dest w st = (Ok l, w', st') ->
  Forall (fun a => IsUnspecified (Unmap a) = false) l.
Proof.
  unfold candidates_of. case_bool_decide as Hh; simpl.
  - case_match eqn:E; [done|]. intros [= <- <- <-]. by constructor.
  - destruct (HasDNS w); [|done]. simpl.
    destruct (LookupHost resolveTimeout (host dest) w) as [[addrs|e] w1]; [|done].
    intros Hr. assert (l = routable addrs) as ->.
    { destruct (routable addrs); [done|]. by simplify_eq. }
    apply Forall_forall. intros a (Hu & a' & _ & ->)%elem_of_routable. by rewrite Unmap_idemp.
Qed.

(** A failed dial of each candidate, in order. *)
Inductive all_fail (p : Z) : list Addr -> W -> W -> Prop :=
| all_fail_nil w : all_fail p [] w w
| all_fail_cons a l w e w1 w2 :
    DialTCP dialTimeout (AddrPortFrom (Unmap a) p) w = (Err e, w1) ->
    all_fail p l w1 w2 -> all_fail p (a :: l) w w2.

Lemma dial_candidates_Ok l p le w c t w' :
  dial_candidates l p le w = (Ok (c, t), w') <->
  exists pre a post w1, l = pre ++ a :: post /\ all_fail p pre w w1 /\
    t = AddrPortFrom (Unmap a) p /\ DialTCP dialTimeout t w1 = (Ok c, w').
Proof.
  revert le w. induction l as [|a l IH]; intros le w; simpl.
  - split; [done|]. by intros ([|] & ? & ? & ? & ? & _).
  - destruct (DialTCP dialTimeout (AddrPortFrom (Unmap a) p) w) as [[s|e] w1] eqn:E.
    + split.
      * intros [= <- <- <-]. exists [], a, l, w. repeat split; [constructor|done].
      * intros (pre & a' & post & w2 & Hl & Hf & -> & Hd).
        inversion Hf; subst; simplify_eq/=; rewrite E in *; by simplify_eq.
    + rewrite IH. split.
      * intros (pre & a' & post & w2 & -> & Hf & -> & Hd).
        exists (a :: pre), a', post, w2. repeat split; [by econstructor|done].
      * intros (pre & a' & post & w2 & Hl & Hf & -> & Hd).
        inversion Hf as [|a0 pre' w0 e0 w3 w4 Hd0 Hf']; subst; simplify_eq/=.
        { by rewrite E in Hd. }
        rewrite E in Hd0. simplify_eq. by exists pre', a', post, w2.
Qed.

Lemma dial_candidates_inv (I : W -> Prop) l p le w :
  (forall t w, egress_target p t -> I w -> I (snd (DialTCP dialTimeout t w))) ->
  Forall (fun a => IsUnspecified (Unmap a) = false) l ->
  I w -> I (snd (dial_candidates l p le w)).
Proof.
  intros HI Hl. revert le w. induction Hl as [|a l Ha Hl IH]; intros le w Hw; [done|]. simpl.
  pose proof (HI (AddrPortFrom (Unmap a) p) w) as HIw.
  destruct (DialTCP dialTimeout (AddrPortFrom (Unmap a) p) w) as [[s|e] w1]; simpl in *.
  - apply HIw; [|done]. split_and!; [done|apply Unmap_idemp|done].
  - apply IH, HIw; [|done]. split_and!; [done|apply Unmap_idemp|done].
Qed.

Lemma candidates_inv (I : W -> Prop) dest w st :
  (forall w, HasDNS w = true -> host dest <> "" -> I w ->
     I (snd (LookupHost resolveTimeout (host dest) w))) ->
  I w -> I (snd (fst (candidates_of dest w st))).
Proof.
  intros HI Hw. unfold candidates_of. case_bool_decide as Hh; simpl; [by case_match|].
  destruct (HasDNS w) eqn:Hd; [|done]. simpl. specialize (HI w Hd Hh Hw).
  destruct (LookupHost resolveTimeout (host dest) w) as [[addrs|e] w1]; [|done].
  by destruct (routable addrs).
Qed.

Lemma connect_inv (I : W -> Prop) dest w st :
  (forall w, HasDNS w = true -> host dest <> "" -> I w ->
     I (snd (LookupHost resolveTimeout (host dest) w))) ->
  (forall t w, egress_target (port dest) t -> I w -> I (snd (DialTCP dialTimeout t w))) ->
  I w -> I (snd (fst (connect dest w st))).
Proof.
  intros HL HD Hw. unfold connect. pose proof (candidates_inv I dest w st HL Hw) as Hc.
  destruct (candidates_of dest w st) as [[[l|rep] w1] st1] eqn:E; simpl in *; [|done].
  apply candidates_routable in E.
  pose proof (dial_candidates_inv I l (port dest) None w1 HD E Hc) as Hi.
  by destruct (dial_candidates l (port dest) None w1) as [[s|le] w2].
Qed.

Lemma candidates_Err dest w st rep w' st' :
  candidates_of dest w st = (Err rep, w', st') -> rep <> repSuccess.
Proof.
  unfold candidates_of. case_bool_decide as Hh; simpl.
  - case_match; [|done]. by intros [= <- _ _].
  - destruct (HasDNS w); simpl; [|by intros [= <- _ _]].
    destruct (LookupHost resolveTimeout (host dest) w) as [[addrs|e] w1].
    + destruct (routable addrs); [by intros [= <- _ _]|done].
    + intros [= <- _ _]. apply replyForError_fails.
Qed.

Lemma connect_Err dest w st rep w' st' :
  connect dest w st = (Err rep, w', st') -> rep <> repSuccess.
Proof.
  unfold connect. destruct (candidates_of dest w st) as [[[l|r] w1] st1] eqn:E.
  - destruct (dial_candidates l (port dest) None w1) as [[s|le] w2]; [done|].
    intros [= <- _ _]. apply replyForError_fails.
  - intros [= <- _ _]. by eapply candidates_Err.
Qed.

(** What a connect may do to the counters: a name that was not resolved is a
    failed request. *)
Lemma connect_counters dest w st r w' st' :
  connect dest w st = (r, w', st') ->
  exists h n, st' = st <| statHostname ::= Z.add h |> <| statNoName ::= Z.add n |> /\
    h = (if bool_decide (host dest = "") then 0 else 1) /\
    (n = 0 \/ n = 1) /\ n <= h /\ (n = 1 -> is_ok r = false).
Proof.
  unfold connect, candidates_of. case_bool_decide as Hh; simpl.
  - intros Hc. exists 0, 0. assert (st' = st) as -> by (repeat case_match; by simplify_eq).
    split; [by destruct st|]. repeat split; [lia..|done].
  - repeat case_match; intros Hc; simplify_eq;
      first [ exists 1, 1; split; [by destruct st|repeat split; (done || lia)]
            | exists 1, 0; split; [by destruct st|repeat split; (done || lia)] ].
Qed.
End ConnectLemmas.

(** [connect] succeeds exactly when some candidate address is reached after
    every candidate before it was tried, in order, and failed; the socket and the
    target it returns are those of that first success. *)
Theorem connect_first_success {W Sock} (D : Dialer W Sock) dest w st c t w' st' :
  connect dest w st = (Ok (c, t), w', st') <->
  exists pre a post w1 w2,
    candidates_of dest w st = (Ok (pre ++ a :: post), w1, st') /\
    all_fail (port dest) pre w1 w2 /\
    t = AddrPortFrom (Unmap a) (port dest) /\ DialTCP dialTimeout t w2 = (Ok c, w').
Proof.
  unfold connect. destruct (candidates_of dest w st) as [[[l|rep] w1] st1].
  - destruct (dial_candidates l (port dest) None w1) as [[[c' t']|le] w2] eqn:E.
    + apply dial_candidates_Ok in E as (pre & a & post & w3 & -> & Hf & -> & Hd). split.
      * intros [= <- <- <- <-]. by exists pre, a, post, w1, w3.
      * intros (pre' & a' & post' & w1' & w3' & [= Hl <- <-] & Hf' & -> & Hd').
        assert (dial_candidates (pre ++ a :: post) (port dest) None w1 = (Ok (c', AddrPortFrom (Unmap a) (port dest)), w2))
          as E1 by (apply dial_candidates_Ok; by exists pre, a, post, w3).
        assert (dial_candidates (pre ++ a :: post) (port dest) None w1 = (Ok (c, AddrPortFrom (Unmap a') (port dest)), w'))
          as E2 by (apply dial_candidates_Ok; rewrite Hl; by exists pre', a', post', w3').
        congruence.
    + split; [done|]. intros (pre & a & post & w1' & w3 & [= -> <- <-] & Hf & -> & Hd).
      assert (dial_candidates (pre ++ a :: post) (port dest) None w1 = (Ok (c, AddrPortFrom (Unmap a) (port dest)), w'))
        as E2 by (apply dial_candidates_Ok; by exists pre, a, post, w3).
      congruence.
  - split; [done|]. by intros (pre & a & post & w1' & w3 & ? & _).
Qed.

(** ** A concrete dialer

    A small network to evaluate the model on: names with their addresses, the
    ports that accept connections, and the datagrams sent so far. *)

Module ToyNet.
Record net := MkNet {
  up : bool;
  names : list (string * list Addr);
  accepting : list AddrPort;
  sent : list (list byte * AddrPort);
  opened : nat;
}.

#[global] Instance net_fields : Fields net := fun r =>
  MkNet (up r) (names r) (accepting r) (sent r) (opened r).

Definition down : error := ESentinel ErrTunnelDown.

#[global] Instance dialer : Dialer net nat := {|
  DialTCP _ t n :=
    if negb (up n) then (Err down, n)
    else if bool_decide (t ∈ accepting n) then (Ok (opened n), n <| opened ::= S |>)
    else (Err (EMsg "connection refused"), n);
  LookupHost _ h n :=
    if negb (up n) then (Err down, n)
    else match list_find (fun p => p.1 = h) (names n) with
         | Some (_, (_, l)) => (Ok l, n)
         | None => (Err (EMsg "no such host"), n)
         end;
  HasDNS n := true;
  ListenUDP _ _ n :=
    if negb (up n) then (Err down, n) else (Ok (opened n), n <| opened ::= S |>);
  sock_WriteTo _ pl t n := (Ok (Z.of_nat (length pl)), n <| sent ::= (fun l => l ++ [(pl, t)]) |>);
  sock_Close _ n := n;
|}.

#[global] Instance dialer_laws : DialerLaws net nat.
Proof.
  refine {| tunnel_up := up |}; intros; simpl; by match goal with H : up _ = false |- _ => rewrite H end.
Defined.

Definition v4 (a b c d : Z) : Addr := Addr4 (((a * 256 + b) * 256 + c) * 256 + d).

(** A network with one web server, "example.com" at 93.184.216.34. *)
Definition web (is_up : bool) : net :=
  MkNet is_up [("example.com", [v4 93 184 216 34])]
    [AddrPortFrom (v4 93 184 216 34) 80] [] 0.
End ToyNet.
