(* ===== verification/SocksUdp.v ===== *)
(** SOCKS5 UDP ASSOCIATE: the relay of src/internal/socks5/udp.go.

    The goroutines of a relay (the client pump, a pump per tunnel socket, the idle
    watch, and the session that opens and closes it) are the steps of a machine
    over one relay state: each step is one datagram or one tick, handled as the
    code handles it.  [tunnelConn], whose lock is released while it opens a
    socket, is split into its two critical sections, and a second machine
    interleaves them. *)

From S2P Require Import Prelude GoStrings GoBytes GoNetip GoErrors SocksProto SocksDial.

(** ** State *)

Definition udpIdleTimeout : Z := 5 * 60 * Second.

(** A relay: the client address it serves, the in-tunnel socket of each family
    ([false] for IPv4), [None] once it is closed, and its client-side socket: the
    datagrams it sent and whether each of the next sends fails. *)
Record udpRelay (Sock : Type) := MkRelay {
  expect : AddrPort;
  tunnel : option (gmap bool Sock);
  lastActive : Z;
  closed : bool;
  cancelled : bool;
  client_open : bool;
  client_addr : AddrPort;
  client_sent : list (list byte * AddrPort);
  client_fails : list bool;
}.
Arguments MkRelay {Sock}.
Arguments expect {Sock}.
Arguments tunnel {Sock}.
Arguments lastActive {Sock}.
Arguments closed {Sock}.
Arguments cancelled {Sock}.
Arguments client_open {Sock}.
Arguments client_addr {Sock}.
Arguments client_sent {Sock}.
Arguments client_fails {Sock}.

#[export] Instance udpRelay_fields {Sock} : Fields (udpRelay Sock) := fun r =>
  MkRelay (expect r) (tunnel r) (lastActive r) (closed r) (cancelled r) (client_open r)
    (client_addr r) (client_sent r) (client_fails r).

(** A relay in its world: the server's counters and the dialer's state. *)
Record Env (W Sock : Type) := MkEnv { e_rel : udpRelay Sock; e_world : W; e_stats : Stats }.
Arguments MkEnv {W Sock}.
Arguments e_rel {W Sock}.
Arguments e_world {W Sock}.
Arguments e_stats {W Sock}.

#[export] Instance Env_fields {W Sock} : Fields (Env W Sock) := fun r =>
  MkEnv (e_rel r) (e_world r) (e_stats r).

(** Nobody has claimed the association: no valid client address yet. *)
Definition unclaimed (e : AddrPort) : bool :=
  negb (AddrPort_IsValid e) || IsUnspecified (ap_addr e) || (ap_port e =? 0).

Definition errRelayClosed : error := EMsg "relay is closed".

Definition ErrNonLoopbackTarget : error :=
  EMsg "the SOCKS5 UDP relay may only reply to a loopback address".

(** A [net.Addr] that a packet socket reports: a UDP address, or its text. *)
Inductive net_addr : Type :=
| UDPAddr (ip : list byte) (port : Z)
| OtherAddr (text : string).

Definition addrPortOf (a : net_addr) : option AddrPort :=
  match a with
  | UDPAddr ip port =>
      match AddrFromSlice ip with
      | None => None
      | Some addr => Some (AddrPortFrom (Unmap addr) port)
      end
  | OtherAddr text => ParseAddrPort text
  end.

Section Relay.
Context {W Sock : Type} `{D : !Dialer W Sock}.

Abbreviation Relay := (udpRelay Sock).
Abbreviation Env := (Env W Sock).

(** ** The client side *)

Definition touch (now : Z) (r : Relay) : Relay := r <| lastActive := now |>.

Definition acceptFrom (from : AddrPort) (r : Relay) : bool * Relay :=
  if negb (IsLoopback (Unmap (ap_addr from))) then (false, r)
  else if unclaimed (expect r) then (true, r <| expect := from |>)
  else (bool_decide (expect r = from), r).

(** [loopbackPacketConn.WriteToUDPAddrPort]. *)
Definition WriteToUDPAddrPort (b : list byte) (a : AddrPort) (r : Relay) : result error Z * Relay :=
  if negb (IsLoopback (Unmap (ap_addr a))) then (Err ErrNonLoopbackTarget, r)
  else match client_fails r with
       | true :: fs => (Err (EMsg "sendto failed"), r <| client_fails := fs |>)
       | fs => (Ok (Z.of_nat (length b)),
                r <| client_sent ::= (fun l => l ++ [(b, a)]) |> <| client_fails := tail fs |>)
       end.

(** ** The tunnel side *)

(** [tunnelConn], first critical section: refuse, reuse, or open. *)
Inductive tc_decision := TCClosed | TCExisting (s : Sock) | TCOpen.

Definition tunnelConn_begin (ipv6 : bool) (r : Relay) : tc_decision :=
  match tunnel r with
  | None => TCClosed
  | Some m => match m !! ipv6 with Some s => TCExisting s | None => TCOpen end
  end.

(** Second critical section, with the socket just opened: the socket to use,
    and whether the new one has to be closed. *)
Definition tunnelConn_finish (ipv6 : bool) (s : Sock) (r : Relay) :
    result error Sock * bool * Relay :=
  match tunnel r with
  | None => (Err errRelayClosed, true, r)
  | Some m =>
      match m !! ipv6 with
      | Some existing => (Ok existing, true, r)
      | None => (Ok s, false, r <| tunnel := Some (<[ipv6 := s]> m) |>)
      end
  end.

Definition tunnelConn (ipv6 : bool) (e : Env) : result error Sock * Env :=
  match tunnelConn_begin ipv6 (e_rel e) with
  | TCClosed => (Err errRelayClosed, e)
  | TCExisting s => (Ok s, e)
  | TCOpen =>
      match ListenUDP dialTimeout ipv6 (e_world e) with
      | (Err err, w') => (Err err, e <| e_world := w' |>)
      | (Ok s, w') =>
          let '(res, close_new, r') := tunnelConn_finish ipv6 s (e_rel e) in
          (res, MkEnv r' (if close_new : bool then sock_Close s w' else w') (e_stats e))
      end
  end.

(** [warmUp]: the first family the tunnel carries, or the first error. *)
Definition warmUp (e : Env) : option error * Env :=
  match tunnelConn false e with
  | (Ok _, e1) => (None, e1)
  | (Err err4, e1) =>
      match tunnelConn true e1 with
      | (Ok _, e2) => (None, e2)
      | (Err _, e2) => (Some err4, e2)
      end
  end.

Definition resolve (dst : destination) (w : W) : option AddrPort * W :=
  if bool_decide (host dst = "") then
    let a := Unmap (addr dst) in
    (if IsUnspecified a then None else Some (AddrPortFrom a (port dst)), w)
  else if negb (HasDNS w) then (None, w)
  else
    let '(res, w') := LookupHost resolveTimeout (host dst) w in
    match res with
    | Err _ => (None, w')
    | Ok addrs =>
        match routable addrs with
        | [] => (None, w')
        | a :: _ => (Some (AddrPortFrom a (port dst)), w')
        end
    end.

Definition dropped (e : Env) : Env := e <| e_stats ::= set_field statUDPDropped (Z.add 1) |>.

Definition forward (dst : destination) (payload : list byte) (e : Env) : Env :=
  match resolve dst (e_world e) with
  | (None, w') => dropped (e <| e_world := w' |>)
  | (Some target, w') =>
      match tunnelConn (Is6 (ap_addr target)) (e <| e_world := w' |>) with
      | (Err _, e1) => dropped e1
      | (Ok s, e1) =>
          match sock_WriteTo s payload target (e_world e1) with
          | (Err _, w2) => dropped (e1 <| e_world := w2 |>)
          | (Ok n, w2) =>
              e1 <| e_world := w2 |>
                 <| e_stats ::= set_field statUDPSent (Z.add 1) |>
                 <| e_stats ::= set_field statUDPBytesUp (Z.add n) |>
          end
      end
  end.

(** One round of [pumpFromClient]: a datagram [b] from [from] at time [now]. *)
Definition client_datagram (now : Z) (from : AddrPort) (b : list byte) (e : Env) : Env :=
  let e := e <| e_rel ::= touch now |> in
  let '(ok, r') := acceptFrom from (e_rel e) in
  let e := e <| e_rel := r' |> in
  if negb ok then dropped e
  else match parseUDPHeader b with
       | Err _ => dropped e
       | Ok (dst, payload) => forward dst payload e
       end.

(** One round of [pumpFromTunnel]: a datagram from the address [a]. *)
Definition tunnel_datagram (now : Z) (a : net_addr) (b : list byte) (e : Env) : Env :=
  let e := e <| e_rel ::= touch now |> in
  match addrPortOf a with
  | None => e
  | Some src =>
      let client := expect (e_rel e) in
      if negb (AddrPort_IsValid client) || (ap_port client =? 0) then e
      else
        let e := e <| e_stats ::= set_field statUDPReceived (Z.add 1) |>
                   <| e_stats ::= set_field statUDPBytesDown (Z.add (Z.of_nat (length b))) |> in
        let '(res, r') := WriteToUDPAddrPort (buildUDPHeader [] src ++ b) client (e_rel e) in
        let e := e <| e_rel := r' |> in
        match res with Ok _ => e | Err _ => dropped e end
  end.

(** ** Lifetime *)

(** [Close], the body under [closeOnce]. *)
Definition Close_relay (e : Env) : Env :=
  if closed (e_rel e) then e else
  let w' := match tunnel (e_rel e) with
            | None => e_world e
            | Some m => foldr sock_Close (e_world e) (snd <$> map_to_list m)
            end in
  MkEnv ((e_rel e) <| closed := true |> <| cancelled := true |> <| client_open := false |>
                 <| tunnel := None |>)
        w' (e_stats e).

(** A tick of [watchIdle]. *)
Definition idle_tick (now : Z) (e : Env) : Env :=
  if cancelled (e_rel e) then e
  else if udpIdleTimeout <? now - lastActive (e_rel e) then Close_relay e else e.

(** What the goroutines of a relay do, one event at a time. *)
Inductive relay_event : Type :=
| EvClient (now : Z) (from : AddrPort) (b : list byte)
| EvTunnel (now : Z) (src : net_addr) (b : list byte)
| EvTick (now : Z)
| EvClose.

(** A closed relay's sockets deliver nothing: its pumps have returned. *)
Definition relay_step (e : Env) (ev : relay_event) : Env :=
  match ev with
  | EvClient now from b => if client_open (e_rel e) then client_datagram now from b e else e
  | EvTunnel now src b => if bool_decide (tunnel (e_rel e) = None) then e
                          else tunnel_datagram now src b e
  | EvTick now => idle_tick now e
  | EvClose => Close_relay e
  end.

Definition relay_run (evs : list relay_event) (e : Env) : Env := foldl relay_step e evs.

(** [newUDPRelay], with the address the kernel bound, or [None] when it bound none. *)
Definition newUDPRelay (declared : AddrPort) (bound : option AddrPort) (now : Z) :
    option Relay :=
  match bound with
  | None => None
  | Some la => Some (MkRelay declared (Some ∅) now false false true la [] [])
  end.
End Relay.

(** ** Lemmas *)

Section RelayLemmas.
Context {W Sock : Type} `{D : !Dialer W Sock}.

Abbreviation Relay := (udpRelay Sock).
Abbreviation Env := (Env W Sock).

Lemma loopback_claims a p : IsLoopback (Unmap a) = true -> p <> 0 -> unclaimed (AddrPortFrom a p) = false.
Proof.
  rewrite IsLoopback_Unmap. intros Ha Hp. unfold unclaimed, AddrPort_IsValid. simpl.
  rewrite loopback_valid, loopback_not_unspecified by done. simpl. lia.
Qed.

Lemma acceptFrom_spec from (r : Relay) ok r' :
  acceptFrom from r = (ok, r') ->
  if ok then IsLoopback (Unmap (ap_addr from)) = true /\ r' = r <| expect := from |> /\
             (unclaimed (expect r) = false -> expect r = from)
  else r' = r.
Proof.
  unfold acceptFrom. destruct (IsLoopback (Unmap (ap_addr from))); simpl; [|by intros [= <- <-]].
  destruct (unclaimed (expect r)) eqn:Hu; [by intros [= <- <-]|].
  intros [= <- <-]. case_bool_decide as He; [|done].
  split; [done|]. split; [|done]. rewrite <-He. by destruct r.
Qed.

(** Opening sockets and counting leave the client side of a relay alone. *)
Definition same_client (r r' : Relay) : Prop :=
  expect r' = expect r /\ client_sent r' = client_sent r.

#[global] Instance same_client_preorder : PreOrder same_client.
Proof.
  split; [done|]. intros r1 r2 r3 [H1 H2] [H3 H4]. split; congruence.
Qed.

Lemma tunnelConn_client ipv6 (e : Env) : same_client (e_rel e) (e_rel (snd (tunnelConn ipv6 e))).
Proof.
  unfold tunnelConn. destruct (tunnelConn_begin ipv6 (e_rel e)); try done.
  destruct (ListenUDP dialTimeout ipv6 (e_world e)) as [[s|err] w']; [|done].
  unfold tunnelConn_finish. simpl. repeat case_match; by simplify_eq/=.
Qed.

Lemma forward_client dst pl (e : Env) : same_client (e_rel e) (e_rel (forward dst pl e)).
Proof.
  unfold forward. destruct (resolve dst (e_world e)) as [[t|] w']; [|done].
  pose proof (tunnelConn_client (Is6 (ap_addr t)) (e <| e_world := w' |>)) as Ht.
  destruct (tunnelConn _ _) as [[s|err] e1]; simpl in *; [|done].
  by destruct (sock_WriteTo s pl t (e_world e1)) as [[n|err] w2].
Qed.

(** A delivery to the client: a datagram under a header, to the claimed
    loopback address. *)
Definition delivery (owner : AddrPort) (d : list byte * AddrPort) : Prop :=
  snd d = owner /\ IsLoopback (ap_addr owner) = true /\ ap_port owner <> 0 /\
  exists src b, fst d = buildUDPHeader [] src ++ b.

Definition relay_inv (r : Relay) : Prop := Forall (delivery (expect r)) (client_sent r).

Lemma relay_inv_same r r' : same_client r r' -> relay_inv r -> relay_inv r'.
Proof. unfold relay_inv. by intros [-> ->]. Qed.

(** An association that delivered something is claimed. *)
Lemma relay_inv_unclaimed r : relay_inv r -> unclaimed (expect r) = true -> client_sent r = [].
Proof.
  unfold relay_inv. destruct (client_sent r) as [|d l]; [done|]. intros Hi Hu.
  apply Forall_inv in Hi as (_ & Hl & Hp & _). destruct (expect r) as [a p].
  rewrite <-IsLoopback_Unmap in Hl. by rewrite loopback_claims in Hu.
Qed.

Lemma acceptFrom_inv from (r : Relay) : relay_inv r -> relay_inv (snd (acceptFrom from r)).
Proof.
  intros Hi. destruct (acceptFrom from r) as [ok r'] eqn:E. apply acceptFrom_spec in E.
  destruct ok; simpl; [|by subst]. destruct E as (Hl & -> & Hc).
  destruct (unclaimed (expect r)) eqn:Hu.
  - unfold relay_inv. simpl. by rewrite relay_inv_unclaimed by done.
  - unfold relay_inv in *. simpl. by rewrite <-Hc.
Qed.

Lemma client_datagram_client now from b (e : Env) :
  same_client (snd (acceptFrom from (touch now (e_rel e)))) (e_rel (client_datagram now from b e)).
Proof.
  unfold client_datagram. simpl.
  destruct (acceptFrom from (touch now (e_rel e))) as [[] r'] eqn:E; simpl; [|done].
  destruct (parseUDPHeader b) as [[dst pl]|]; [|done].
  apply (forward_client dst pl (MkEnv r' (e_world e) (e_stats e))).
Qed.

Lemma tunnel_datagram_inv now src b (e : Env) :
  relay_inv (e_rel e) -> relay_inv (e_rel (tunnel_datagram now src b e)).
Proof.
  intros Hi. unfold tunnel_datagram. destruct (addrPortOf src) as [ap|]; simpl; [|done].
  destruct (negb (AddrPort_IsValid (expect (e_rel e))) || (ap_port (expect (e_rel e)) =? 0)) eqn:Hv;
    [done|].
  apply orb_false_elim in Hv as [_ Hp%Z.eqb_neq].
  unfold WriteToUDPAddrPort. destruct (IsLoopback (Unmap _)) eqn:Hl; simpl; [|done].
  rewrite IsLoopback_Unmap in Hl.
  assert (relay_inv ((e_rel e) <| client_sent ::=
    (fun l => l ++ [(buildUDPHeader [] ap ++ b, expect (e_rel e))]) |>)) as Hs.
  { unfold relay_inv. simpl. apply Forall_app. split; [done|]. apply Forall_singleton.
    split_and!; [done..|]. by exists ap, b. }
  by destruct (client_fails (e_rel e)) as [|[] fs].
Qed.

Lemma Close_client (e : Env) : same_client (e_rel e) (e_rel (Close_relay e)).
Proof. unfold Close_relay. by case_match. Qed.

Lemma relay_step_inv (e : Env) ev : relay_inv (e_rel e) -> relay_inv (e_rel (relay_step e ev)).
Proof.
  intros Hi. destruct ev; simpl.
  - case_match; [|done]. eapply relay_inv_same; [apply client_datagram_client|].
    by apply acceptFrom_inv.
  - case_bool_decide; [done|]. by apply tunnel_datagram_inv.
  - unfold idle_tick. repeat case_match; [done| |done].
    by eapply relay_inv_same; [apply Close_client|].
  - by eapply relay_inv_same; [apply Close_client|].
Qed.

Lemma relay_run_inv evs (e : Env) : relay_inv (e_rel e) -> relay_inv (e_rel (relay_run evs e)).
Proof.
  revert e. induction evs as [|ev evs IH]; intros e Hi; [done|]. apply IH. by apply relay_step_inv.
Qed.

(** Once claimed, an association keeps its client. *)
Lemma relay_step_expect (e : Env) ev :
  unclaimed (expect (e_rel e)) = false ->
  expect (e_rel (relay_step e ev)) = expect (e_rel e).
Proof.
  intros Hu. destruct ev as [now from b|now src b|now|]; simpl.
  - destruct (client_open (e_rel e)); [|done].
    destruct (client_datagram_client now from b e) as [-> _].
    destruct (acceptFrom from (touch now (e_rel e))) as [ok r'] eqn:E.
    apply acceptFrom_spec in E. destruct ok; simpl; [|by subst].
    destruct E as (_ & -> & Hc). simpl. symmetry. by apply Hc.
  - case_bool_decide; [done|]. unfold tunnel_datagram, WriteToUDPAddrPort.
    by repeat (case_match; simplify_eq/=).
  - unfold idle_tick. repeat case_match; [done|by destruct (Close_client e)|done].
  - by destruct (Close_client e).
Qed.

Lemma relay_run_expect evs (e : Env) :
  unclaimed (expect (e_rel e)) = false ->
  expect (e_rel (relay_run evs e)) = expect (e_rel e).
Proof.
  revert e. induction evs as [|ev evs IH]; intros e Hu; [done|]. simpl.
  rewrite IH by (by rewrite relay_step_expect). by apply relay_step_expect.
Qed.
End RelayLemmas.

(** ** Counters and egress *)

Section RelayEgress.
Context {W Sock : Type} `{D : !Dialer W Sock}.

Abbreviation Env := (Env W Sock).

Definition up_count (st : Stats) : Z := statUDPSent st + statUDPDropped st.

Lemma tunnelConn_stats ipv6 (e : Env) : e_stats (snd (tunnelConn ipv6 e)) = e_stats e.
Proof.
  unfold tunnelConn, tunnelConn_finish. repeat case_match; by simplify_eq/=.
Qed.

Lemma forward_count dst pl (e : Env) :
  up_count (e_stats (forward dst pl e)) = up_count (e_stats e) + 1.
Proof.
  unfold forward. destruct (resolve dst (e_world e)) as [[t|] w']; [|unfold up_count; simpl; lia].
  pose proof (tunnelConn_stats (Is6 (ap_addr t)) (e <| e_world := w' |>)) as Ht.
  destruct (tunnelConn _ _) as [[s|err] e1]; simpl in *;
    [|unfold up_count; simpl; rewrite Ht; simpl; lia].
  destruct (sock_WriteTo s pl t (e_world e1)) as [[n|err] w2];
    unfold up_count; simpl; rewrite Ht; simpl; lia.
Qed.

Lemma client_datagram_count now from b (e : Env) :
  up_count (e_stats (client_datagram now from b e)) = up_count (e_stats e) + 1.
Proof.
  unfold client_datagram. simpl.
  destruct (acceptFrom from (touch now (e_rel e))) as [[] r']; simpl; [|unfold up_count; simpl; lia].
  destruct (parseUDPHeader b) as [[dst pl]|]; [|unfold up_count; simpl; lia].
  by rewrite forward_count.
Qed.

(** The counters that the pumps of an association leave alone. *)
Definition core (st : Stats) : list Z :=
  [statActive st; statTotal st; statRejected st; statFailed st; statHostname st;
   statNoName st; statTx st; statRx st; statUDPAssoc st].

Lemma core_eq st st' :
  core st' = core st ->
  (statActive st' = statActive st /\ statTotal st' = statTotal st /\
   statRejected st' = statRejected st) /\
  (statFailed st' = statFailed st /\ statHostname st' = statHostname st /\
   statNoName st' = statNoName st) /\
  (statTx st' = statTx st /\ statRx st' = statRx st /\ statUDPAssoc st' = statUDPAssoc st).
Proof. unfold core. intros [=]. auto 10. Qed.

Lemma forward_core dst pl (e : Env) : core (e_stats (forward dst pl e)) = core (e_stats e).
Proof.
  unfold forward. destruct (resolve dst (e_world e)) as [[t|] w']; [|done].
  pose proof (tunnelConn_stats (Is6 (ap_addr t)) (e <| e_world := w' |>)) as Ht.
  destruct (tunnelConn _ _) as [[s|err] e1]; simpl in *; [|unfold core; simpl; by rewrite Ht].
  destruct (sock_WriteTo s pl t (e_world e1)) as [[n|err] w2]; unfold core; simpl; by rewrite Ht.
Qed.

Lemma Close_stats (e : Env) : e_stats (Close_relay e) = e_stats e.
Proof. unfold Close_relay. by case_match. Qed.

Lemma relay_step_core (e : Env) ev : core (e_stats (relay_step e ev)) = core (e_stats e).
Proof.
  destruct ev as [now from b|now src b|now|]; simpl.
  - case_match; [|done]. unfold client_datagram. simpl.
    destruct (acceptFrom from _) as [[] r']; simpl; [|done].
    destruct (parseUDPHeader b) as [[dst pl]|]; [|done]. by rewrite forward_core.
  - case_bool_decide; [done|]. unfold tunnel_datagram, WriteToUDPAddrPort.
    by repeat (case_match; simplify_eq/=).
  - unfold idle_tick. repeat case_match; [done|by rewrite Close_stats|done].
  - by rewrite Close_stats.
Qed.

Lemma relay_run_core evs (e : Env) : core (e_stats (relay_run evs e)) = core (e_stats e).
Proof.
  revert e. induction evs as [|ev evs IH]; intros e; [done|]. simpl.
  by rewrite IH, relay_step_core.
Qed.

Lemma warmUp_stats (e : Env) : e_stats (snd (warmUp e)) = e_stats e.
Proof.
  unfold warmUp. pose proof (tunnelConn_stats false e) as H4.
  destruct (tunnelConn false e) as [[s|err] e1]; simpl in *; [done|].
  pose proof (tunnelConn_stats true e1) as H6.
  destruct (tunnelConn true e1) as [[s|err'] e2]; simpl in *; congruence.
Qed.

Section Inv.
(** A property of the world that the tunnel's own calls keep. *)
Variable I : W -> Prop.
Hypothesis I_lookup : forall h w,
  HasDNS w = true -> h <> "" -> I w -> I (snd (LookupHost resolveTimeout h w)).
Hypothesis I_listen : forall b w, I w -> I (snd (ListenUDP dialTimeout b w)).
Hypothesis I_close : forall s w, I w -> I (sock_Close s w).
Hypothesis I_write : forall s pl t w,
  IsUnspecified (ap_addr t) = false -> ap_port t <> 0 -> I w -> I (snd (sock_WriteTo s pl t w)).

Lemma resolve_inv dst w : I w ->
  I (snd (resolve dst w)) /\
  forall t, fst (resolve dst w) = Some t -> IsUnspecified (ap_addr t) = false /\ ap_port t = port dst.
Proof using I_lookup.
  intros Hw. unfold resolve. case_bool_decide; simpl.
  { split; [done|]. intros t. case_match eqn:E; [done|]. by intros [= <-]. }
  destruct (HasDNS w) eqn:Hd; simpl; [|done].
  pose proof (I_lookup (host dst) w Hd ltac:(done) Hw) as Hl.
  destruct (LookupHost resolveTimeout (host dst) w) as [[addrs|err] w']; simpl in *; [|done].
  destruct (routable addrs) as [|a l] eqn:E; [done|]. split; [done|].
  intros t [= <-]. split; [|done]. simpl.
  apply (elem_of_routable a addrs). rewrite E. by left.
Qed.

Lemma tunnelConn_inv ipv6 (e : Env) : I (e_world e) -> I (e_world (snd (tunnelConn ipv6 e))).
Proof using I_listen I_close.
  intros Hw. unfold tunnelConn. destruct (tunnelConn_begin ipv6 (e_rel e)); try done.
  pose proof (I_listen ipv6 (e_world e) Hw) as Hl.
  destruct (ListenUDP dialTimeout ipv6 (e_world e)) as [[s|err] w']; simpl in *; [|done].
  unfold tunnelConn_finish. repeat case_match; simplify_eq/=; auto.
Qed.

Lemma forward_inv dst pl (e : Env) :
  port dst <> 0 -> I (e_world e) -> I (e_world (forward dst pl e)).
Proof using All.
  intros Hp Hw. unfold forward.
  pose proof (resolve_inv dst (e_world e) Hw) as [Hr Ht].
  destruct (resolve dst (e_world e)) as [[t|] w']; simpl in *; [|done].
  destruct (Ht t eq_refl) as [Hu Hpt].
  pose proof (tunnelConn_inv (Is6 (ap_addr t)) (e <| e_world := w' |>) Hr) as Hc.
  destruct (tunnelConn _ _) as [[s|err] e1]; simpl in *; [|done].
  pose proof (I_write s pl t (e_world e1) Hu) as Hs.
  destruct (sock_WriteTo s pl t (e_world e1)) as [[n|err] w2]; simpl in *;
    apply Hs; [congruence|done|congruence|done].
Qed.

Lemma Close_inv (e : Env) : I (e_world e) -> I (e_world (Close_relay e)).
Proof using I_close.
  intros Hw. unfold Close_relay. case_match; [done|]. simpl. case_match; [|done].
  induction (map_to_list g).*2 as [|s l IH]; simpl; auto.
Qed.

Lemma relay_step_world (e : Env) ev : I (e_world e) -> I (e_world (relay_step e ev)).
Proof using All.
  intros Hw. destruct ev as [now from b|now src b|now|]; simpl.
  - case_match; [|done]. unfold client_datagram. simpl.
    destruct (acceptFrom from _) as [[] r']; simpl; [|done].
    destruct (parseUDPHeader b) as [[dst pl]|] eqn:E; [|done].
    apply forward_inv; [|done]. apply parseUDPHeader_Ok in E. by destruct E.
  - case_bool_decide; [done|]. unfold tunnel_datagram.
    destruct (addrPortOf src) as [ap|]; simpl; [|done]. case_match; [done|].
    by destruct (WriteToUDPAddrPort _ _ _) as [[n|err] r'].
  - unfold idle_tick. repeat case_match; [done|by apply Close_inv|done].
  - by apply Close_inv.
Qed.

Lemma relay_run_world evs (e : Env) : I (e_world e) -> I (e_world (relay_run evs e)).
Proof using All.
  revert e. induction evs as [|ev evs IH]; intros e Hw; [done|]. apply IH. by apply relay_step_world.
Qed.

Lemma warmUp_world (e : Env) : I (e_world e) -> I (e_world (snd (warmUp e))).
Proof using I_listen I_close.
  intros Hw. unfold warmUp. pose proof (tunnelConn_inv false e Hw) as H4.
  destruct (tunnelConn false e) as [[s|err] e1]; simpl in *; [done|].
  pose proof (tunnelConn_inv true e1 H4) as H6.
  by destruct (tunnelConn true e1) as [[s|err'] e2].
Qed.
End Inv.
End RelayEgress.

(** ** A tunnel that is down *)

Section RelayDown.
Context {W Sock : Type} `{D : !Dialer W Sock} `{DL : !DialerLaws W Sock}.

Abbreviation Env := (Env W Sock).

(** An association that holds no tunnel socket. *)
Definition no_sockets (r : udpRelay Sock) : Prop := forall f, default ∅ (tunnel r) !! f = None.

(** No socket is opened, and the world is the one before. *)
Definition down_step (e e' : Env) : Prop :=
  no_sockets (e_rel e) -> no_sockets (e_rel e') /\ e_world e' = e_world e.

Lemma down_tunnelConn ipv6 (e : Env) :
  tunnel_up (e_world e) = false -> no_sockets (e_rel e) ->
  exists err, tunnelConn ipv6 e = (Err err, e) /\
    (tunnel (e_rel e) <> None -> err = ESentinel ErrTunnelDown).
Proof.
  intros Hd Hn. unfold tunnelConn, tunnelConn_begin.
  destruct (tunnel (e_rel e)) as [m|] eqn:Hm; [|by eexists].
  specialize (Hn ipv6). rewrite Hm in Hn. simpl in Hn. rewrite Hn.
  rewrite down_ListenUDP by done. eexists. split; [|done]. by destruct e.
Qed.

Lemma down_resolve dst (w : W) : tunnel_up w = false -> snd (resolve dst w) = w.
Proof.
  intros Hd. unfold resolve. case_bool_decide; [done|]. destruct (HasDNS w); simpl; [|done].
  by rewrite down_LookupHost.
Qed.

Lemma down_forward dst pl (e : Env) :
  tunnel_up (e_world e) = false -> down_step e (forward dst pl e).
Proof.
  intros Hd Hn. unfold forward. pose proof (down_resolve dst _ Hd) as Hr.
  destruct (resolve dst (e_world e)) as [[t|] w']; simpl in *; subst w'; [|done].
  destruct (down_tunnelConn (Is6 (ap_addr t)) (e <| e_world := e_world e |>)) as (err & -> & _); done.
Qed.

Lemma down_Close (e : Env) : down_step e (Close_relay e).
Proof.
  intros Hn. unfold Close_relay. case_match; [done|]. simpl. split; [done|].
  destruct (tunnel (e_rel e)) as [m|] eqn:Hm; [|done].
  unfold no_sockets in Hn. rewrite Hm in Hn. simpl in Hn.
  assert (m = ∅) as -> by (by apply map_empty). by rewrite map_to_list_empty.
Qed.

Lemma down_relay_step (e : Env) ev :
  tunnel_up (e_world e) = false -> down_step e (relay_step e ev).
Proof.
  intros Hd Hn. destruct ev as [now from b|now src b|now|]; simpl.
  - case_match; [|done]. unfold client_datagram. simpl.
    destruct (acceptFrom from (touch now (e_rel e))) as [ok r'] eqn:E.
    apply acceptFrom_spec in E.
    assert (no_sockets r') as Hn' by (destruct ok; [destruct E as (_ & -> & _)|subst]; done).
    destruct ok; simpl; [|done]. destruct (parseUDPHeader b) as [[dst pl]|]; [|done].
    by apply (down_forward dst pl (MkEnv r' (e_world e) (e_stats e))).
  - case_bool_decide; [done|]. unfold tunnel_datagram, WriteToUDPAddrPort.
    by repeat (case_match; simplify_eq/=).
  - unfold idle_tick. repeat case_match; [done|by apply down_Close|done].
  - by apply down_Close.
Qed.

Lemma down_relay_run evs (e : Env) :
  tunnel_up (e_world e) = false -> down_step e (relay_run evs e).
Proof.
  revert e. induction evs as [|ev evs IH]; intros e Hd Hn; [done|]. simpl.
  destruct (down_relay_step e ev Hd Hn) as [Hn1 Hw1].
  destruct (IH (relay_step e ev)) as [Hn2 Hw2]; [by rewrite Hw1|done|].
  split; [done|congruence].
Qed.

Lemma down_warmUp (e : Env) :
  tunnel_up (e_world e) = false -> no_sockets (e_rel e) ->
  exists err, warmUp e = (Some err, e) /\
    (tunnel (e_rel e) <> None -> err = ESentinel ErrTunnelDown).
Proof.
  intros Hd Hn. unfold warmUp.
  destruct (down_tunnelConn false e Hd Hn) as (err & -> & Herr).
  destruct (down_tunnelConn true e Hd Hn) as (err' & -> & _). by exists err.
Qed.
End RelayDown.

(** ** Concurrent socket opening

    [tunnelConn] runs in the session and in the client pump at once, and [Close]
    runs beside both.  A thread between its two critical sections is opening a
    socket, or has one open that the relay does not know yet. *)

Section Concurrent.
Context {Sock : Type} `{Countable Sock}.

Inductive tc_pc := Opening (ipv6 : bool) | Opened (ipv6 : bool) (s : Sock).

(** The relay, the threads inside [tunnelConn], and the open tunnel sockets. *)
Record TcState := MkTc {
  tc_rel : udpRelay Sock;
  tc_threads : gmap nat tc_pc;
  tc_live : gset Sock;
}.

Definition sockets (r : udpRelay Sock) : gmap bool Sock := default ∅ (tunnel r).

Inductive tc_step : TcState -> TcState -> Prop :=
| tc_begin t f r th live :
    th !! t = None -> tunnelConn_begin f r = TCOpen ->
    tc_step (MkTc r th live) (MkTc r (<[t := Opening f]> th) live)
| tc_listen t f s r th live :
    th !! t = Some (Opening f) -> s ∉ live ->
    tc_step (MkTc r th live) (MkTc r (<[t := Opened f s]> th) ({[s]} ∪ live))
| tc_listen_fails t f r th live :
    th !! t = Some (Opening f) ->
    tc_step (MkTc r th live) (MkTc r (delete t th) live)
| tc_finish t f s r th live res close_new r' :
    th !! t = Some (Opened f s) ->
    tunnelConn_finish f s r = (res, close_new, r') ->
    tc_step (MkTc r th live)
            (MkTc r' (delete t th) (if close_new : bool then live ∖ {[s]} else live))
| tc_close r th live :
    closed r = false ->
    tc_step (MkTc r th live)
            (MkTc (r <| closed := true |> <| cancelled := true |> <| client_open := false |>
                     <| tunnel := None |>)
                  th (live ∖ list_to_set (snd <$> map_to_list (sockets r)))).

(** Who holds a socket: the relay for a family, or a thread. *)
Definition tc_holder : Type := bool + nat.

Definition holds (st : TcState) (h : tc_holder) (s : Sock) : Prop :=
  match h with
  | inl f => sockets (tc_rel st) !! f = Some s
  | inr t => exists f, tc_threads st !! t = Some (Opened f s)
  end.

(** Every open socket has one holder, and only open sockets are held. *)
Definition tc_inv (st : TcState) : Prop :=
  (forall s, s ∈ tc_live st <-> exists h, holds st h s) /\
  (forall h h' s, holds st h s -> holds st h' s -> h = h').

(** An association as [newUDPRelay] leaves it. *)
Definition tc_init (st : TcState) : Prop :=
  tunnel (tc_rel st) = Some ∅ /\ tc_threads st = ∅ /\ tc_live st = ∅.

Lemma tc_init_inv st : tc_init st -> tc_inv st.
Proof.
  intros (Hr & Hth & Hl). assert (forall h s, ~ holds st h s) as Hno.
  { intros [f|t] s; simpl.
    - unfold sockets. rewrite Hr. simpl. by rewrite lookup_empty.
    - intros [f Hf]. by rewrite Hth, lookup_empty in Hf. }
  split; [|by intros h h' s Hs%Hno]. intros s. rewrite Hl. split; [set_solver|].
  by intros [h Hs%Hno].
Qed.

Lemma holds_set_thread r th live live' t pc h s :
  holds (MkTc r (<[t := pc]> th) live) h s <->
  (h <> inr t /\ holds (MkTc r th live') h s) \/ (h = inr t /\ exists f, pc = Opened f s).
Proof.
  destruct h as [f|t']; simpl; [naive_solver|].
  destruct (decide (t' = t)) as [->|Hne].
  - rewrite lookup_insert_eq. naive_solver.
  - rewrite lookup_insert_ne by done. naive_solver.
Qed.

Lemma holds_del_thread r th live live' t h s :
  holds (MkTc r (delete t th) live) h s <-> h <> inr t /\ holds (MkTc r th live') h s.
Proof.
  destruct h as [f|t']; simpl; [naive_solver|].
  destruct (decide (t' = t)) as [->|Hne].
  - rewrite lookup_delete_eq. naive_solver.
  - rewrite lookup_delete_ne by done. naive_solver.
Qed.

(** A thread that closes the socket it opened. *)
Lemma tc_drop_inv t f s r th live :
  th !! t = Some (Opened f s) -> tc_inv (MkTc r th live) ->
  tc_inv (MkTc r (delete t th) (live ∖ {[s]})).
Proof.
  intros Ht [Hlive Hinj]. simpl in Hlive.
  assert (holds (MkTc r th live) (inr t) s) as Hts by (by exists f).
  split.
  - intros s'. simpl. rewrite elem_of_difference, elem_of_singleton, Hlive.
    setoid_rewrite (holds_del_thread _ _ _ live). split.
    + intros [[h Hh] Hne]. exists h. split; [|done]. intros ->.
      destruct Hh as [f' Hh]. simpl in *. congruence.
    + intros (h & Hne & Hh). split; [by exists h|]. intros ->. apply Hne. by eapply Hinj.
  - intros h h' s' H1 H2.
    apply (holds_del_thread _ _ _ live) in H1 as [_ H1], H2 as [_ H2]. by eapply Hinj.
Qed.

(** A thread that hands its socket over to the relay. *)
Lemma tc_register_inv t f s r m th live :
  th !! t = Some (Opened f s) -> tunnel r = Some m -> m !! f = None ->
  tc_inv (MkTc r th live) ->
  tc_inv (MkTc (r <| tunnel := Some (<[f := s]> m) |>) (delete t th) live).
Proof.
  intros Ht Hm Hf [Hlive Hinj]. simpl in Hlive.
  assert (holds (MkTc r th live) (inr t) s) as Hts by (by exists f).
  assert (forall h s', holds (MkTc (r <| tunnel := Some (<[f := s]> m) |>) (delete t th) live) h s' <->
    (h = inl f /\ s' = s) \/ (h <> inr t /\ h <> inl f /\ holds (MkTc r th live) h s')) as Hh.
  { intros h s'. rewrite (holds_del_thread _ _ _ live).
    destruct h as [f'|t']; unfold holds, sockets; simpl; [|naive_solver]. rewrite Hm. simpl.
    destruct (decide (f' = f)) as [->|Hne].
    - rewrite lookup_insert_eq. naive_solver.
    - rewrite lookup_insert_ne by done. naive_solver. }
  assert (forall s', ~ holds (MkTc r th live) (inl f) s') as Hnf.
  { intros s'. unfold holds, sockets. simpl. rewrite Hm. simpl. congruence. }
  split.
  - intros s'. simpl. rewrite Hlive. setoid_rewrite Hh. split.
    + intros [h Hs']. destruct (decide (h = inr t)) as [->|Hne].
      { exists (inl f). left. split; [done|]. destruct Hs' as [f' Hs']. simpl in *. congruence. }
      exists h. right. split_and!; [done| |done]. intros ->. by apply Hnf in Hs'.
    + intros [h [[-> ->]|(_ & _ & Hs')]]; [by exists (inr t)|by exists h].
  - intros h h' s' [[-> ->]|(Hn1 & Hn2 & H1)]%Hh [[-> ?]|(Hn3 & Hn4 & H2)]%Hh; subst; try done.
    + exfalso. apply Hn3. by eapply Hinj.
    + exfalso. apply Hn1. by eapply Hinj.
    + by eapply Hinj.
Qed.

Lemma tc_finish_inv t f s r th live res close_new r' :
  th !! t = Some (Opened f s) -> tunnelConn_finish f s r = (res, close_new, r') ->
  tc_inv (MkTc r th live) ->
  tc_inv (MkTc r' (delete t th) (if close_new : bool then live ∖ {[s]} else live)).
Proof.
  intros Ht Hf Hi. unfold tunnelConn_finish in Hf.
  destruct (tunnel r) as [m|] eqn:Hm; [destruct (m !! f) as [s0|] eqn:Hs0|]; simplify_eq.
  - by eapply tc_drop_inv.
  - by eapply tc_register_inv.
  - by eapply tc_drop_inv.
Qed.

Lemma tc_close_inv r r' th live :
  tunnel r' = None -> tc_inv (MkTc r th live) ->
  tc_inv (MkTc r' th (live ∖ list_to_set (snd <$> map_to_list (sockets r)))).
Proof.
  intros Hr' [Hlive Hinj]. simpl in Hlive.
  assert (forall h s, holds (MkTc r' th live) h s <->
    holds (MkTc r th live) h s /\ exists t, h = inr t) as Hh.
  { intros [f|t] s; unfold holds, sockets; simpl; [|naive_solver].
    rewrite Hr'. simpl. rewrite lookup_empty. naive_solver. }
  assert (forall s, s ∈ (snd <$> map_to_list (sockets r)) <-> exists f, holds (MkTc r th live) (inl f) s) as Hr.
  { intros s. rewrite list_elem_of_fmap. unfold holds. simpl. split.
    - intros ([f s'] & -> & Hin%elem_of_map_to_list). by exists f.
    - intros [f Hf%elem_of_map_to_list]. by exists (f, s). }
  split.
  - intros s. simpl. rewrite elem_of_difference, elem_of_list_to_set, Hr, Hlive.
    split.
    + intros [[[f|t] Hs] Hn]; [exfalso; by eauto|]. exists (inr t).
      apply (Hh (inr t)). eauto.
    + intros [h Hs]. change (holds (MkTc r' th live) h s) in Hs.
      apply Hh in Hs as [Hs [t ->]]. split; [by exists (inr t)|].
      intros [f Hf]. specialize (Hinj _ _ _ Hs Hf). done.
  - intros h h' s H1 H2. change (holds (MkTc r' th live) h s) in H1.
    change (holds (MkTc r' th live) h' s) in H2. apply Hh in H1 as [H1 _], H2 as [H2 _]. eauto.
Qed.

(** Only who holds what matters. *)
Lemma tc_inv_ext r th th' live :
  (forall h s, holds (MkTc r th' live) h s <-> holds (MkTc r th live) h s) ->
  tc_inv (MkTc r th live) -> tc_inv (MkTc r th' live).
Proof.
  intros Hh [Hlive Hinj]. split.
  - intros s. simpl in *. rewrite Hlive. by setoid_rewrite Hh.
  - intros h h' s H1%Hh H2%Hh. eauto.
Qed.

(** A thread that opens a fresh socket. *)
Lemma tc_listen_inv t f s r th live :
  th !! t = Some (Opening f) -> s ∉ live -> tc_inv (MkTc r th live) ->
  tc_inv (MkTc r (<[t := Opened f s]> th) ({[s]} ∪ live)).
Proof.
  intros Ht Hs [Hlive Hinj]. simpl in Hlive.
  assert (forall h s', holds (MkTc r (<[t := Opened f s]> th) ({[s]} ∪ live)) h s' <->
    (h <> inr t /\ holds (MkTc r th live) h s') \/ (h = inr t /\ s' = s)) as Hh.
  { intros h s'. rewrite (holds_set_thread _ _ _ live). naive_solver. }
  split.
  - intros s'. simpl. rewrite elem_of_union, elem_of_singleton, Hlive.
    setoid_rewrite Hh. split.
    + intros [->|[h Hs']]; [exists (inr t); by right|]. exists h. left. split; [|done].
      intros ->. destruct Hs' as [f' Hs']. simpl in Hs'. congruence.
    + intros [h [[_ Hs']|[_ ->]]]; [right; by exists h|by left].
  - assert (forall h, ~ holds (MkTc r th live) h s) as Hno
      by (intros h0 Hs0; apply Hs, Hlive; eauto).
    intros h h' s' H1 H2.
    apply Hh in H1 as [[_ H1]|[-> ->]], H2 as [[_ H2]|[-> ?]]; subst; try done; naive_solver.
Qed.

Lemma tc_step_inv st st' : tc_step st st' -> tc_inv st -> tc_inv st'.
Proof.
  destruct 1 as [t f r th live Hn _|t f s r th live Ht Hs|t f r th live Ht
                |t f s r th live res close_new r' Ht Hf|r th live _].
  - apply tc_inv_ext. intros h s. rewrite (holds_set_thread _ _ live live).
    split; [intros [[_ Hs]|[_ [f' ?]]]; done|]. intros Hs. left. split; [|done].
    intros ->. destruct Hs as [f' Hs]. simpl in Hs. congruence.
  - by apply tc_listen_inv.
  - apply tc_inv_ext. intros h s. rewrite (holds_del_thread _ _ live live).
    split; [by intros [_ Hs]|]. intros Hs. split; [|done].
    intros ->. destruct Hs as [f' Hs]. simpl in Hs. congruence.
  - by eapply tc_finish_inv.
  - by apply tc_close_inv.
Qed.

Lemma tc_reach_inv st st' : tc_inv st -> rtc tc_step st st' -> tc_inv st'.
Proof. intros Hi. induction 1; [done|]. eauto using tc_step_inv. Qed.
End Concurrent.

(** ** Properties *)

(** C13: a new association answers one client only: whatever the relay sees, every
    datagram it ever sends back goes, under a header, to one loopback address, the
    address that owns the association; and an association that is owned at some
    point has the same owner ever after. *)
Theorem relay_isolation {W Sock} (D : Dialer W Sock) declared bound now r w st evs1 evs2 :
  newUDPRelay declared bound now = Some r ->
  let e1 := relay_run evs1 (MkEnv r w st) in
  let e2 := relay_run evs2 e1 in
  Forall (delivery (expect (e_rel e2))) (client_sent (e_rel e2)) /\
  (unclaimed (expect (e_rel e1)) = false -> expect (e_rel e2) = expect (e_rel e1)).
Proof.
  intros Hr. assert (client_sent r = []) as Hs
    by (unfold newUDPRelay in Hr; destruct bound; [by injection Hr as <-|done]).
  split; [|intros Hu; by apply relay_run_expect].
  apply relay_run_inv, relay_run_inv. unfold relay_inv. simpl. by rewrite Hs.
Qed.

(** The client at 127.0.0.1:5000 claims the association; a datagram of another
    local process is dropped; a reply from the tunnel reaches the client. *)
Lemma relay_isolation_witness :
  let lo p := AddrPortFrom (Addr4 2130706433) p in
  let e1 := relay_run [EvClient 1 (lo 5000) (buildUDPHeader [] (AddrPortFrom (Addr4 16843009) 53) ++ [x2a])]
              (MkEnv (MkRelay AddrPort_zero (Some ∅) 0 false false true (lo 40000) [] [])
                     (ToyNet.web true) Stats_zero) in
  let e2 := relay_run [EvClient 2 (lo 6000) [x00]; EvTunnel 3 (UDPAddr [x01; x01; x01; x01] 53) [x2b]] e1 in
  expect (e_rel e1) = lo 5000 /\ length (client_sent (e_rel e2)) = 1%nat /\
  (Forall (delivery (expect (e_rel e2))) (client_sent (e_rel e2)) /\
   (unclaimed (expect (e_rel e1)) = false -> expect (e_rel e2) = expect (e_rel e1))).
Proof.
  intros lo e1 e2. split; [by vm_compute|]. split; [by vm_compute|].
  exact (relay_isolation ToyNet.dialer AddrPort_zero (Some (lo 40000)) 0 _ (ToyNet.web true) Stats_zero
    _ _ eq_refl).
Defined.

(** Every datagram a client sends is accounted for once: it is counted as sent
    through the tunnel or as dropped, never both and never neither. *)
Theorem datagram_accounting {W Sock} (D : Dialer W Sock) now from b (e : Env W Sock) :
  let st := e_stats e in
  let st' := e_stats (client_datagram now from b e) in
  statUDPSent st' + statUDPDropped st' = statUDPSent st + statUDPDropped st + 1.
Proof. apply client_datagram_count. Qed.

(** However the goroutines that open tunnel sockets and the one that closes the
    association interleave, each open socket is held by the association or by one
    goroutine, never by two; so once the association is closed and no goroutine is
    inside [tunnelConn], no socket is left open. *)
Theorem tunnelConn_no_leak {Sock} `{Countable Sock} (st st' : TcState (Sock := Sock)) :
  tc_init st -> rtc tc_step st st' ->
  (forall s, s ∈ tc_live st' <-> exists h, holds st' h s) /\
  (forall h h' s, holds st' h s -> holds st' h' s -> h = h') /\
  (tunnel (tc_rel st') = None -> tc_threads st' = ∅ -> tc_live st' = ∅).
Proof.
  intros Hi Hr. destruct (tc_reach_inv _ _ (tc_init_inv _ Hi) Hr) as [Hlive Hinj].
  split_and!; [done|done|]. intros Hn Ht. apply set_eq. intros s. rewrite Hlive.
  split; [|set_solver]. intros [[f|t] Hs]; simpl in Hs; unfold sockets in Hs.
  - by rewrite Hn in Hs.
  - destruct Hs as [f Hs]. by rewrite Ht in Hs.
Qed.

(** A goroutine opens a socket while the association is closed under it. *)
Lemma tunnelConn_no_leak_witness :
  exists st' : TcState (Sock := nat),
    tunnel (tc_rel st') = None /\ tc_threads st' = ∅ /\ tc_live st' = ∅.
Proof.
  set (r := MkRelay AddrPort_zero (Some (∅ : gmap bool nat)) 0 false false true AddrPort_zero [] []).
  set (r' := r <| closed := true |> <| cancelled := true |> <| client_open := false |>
               <| tunnel := None |>).
  assert (rtc tc_step (MkTc r ∅ ∅) (MkTc r' (delete 0%nat (<[0%nat := Opened false 7%nat]> ∅))
            ((({[7%nat]} ∪ ∅) ∖ list_to_set (snd <$> map_to_list (sockets r))) ∖ {[7%nat]}))) as Hs.
  { eapply rtc_l; [by apply (tc_begin 0 false)|].
    eapply rtc_l; [apply (tc_listen 0 false 7%nat); [by rewrite lookup_insert_eq|set_solver]|].
    rewrite insert_insert_eq.
    eapply rtc_l; [by apply tc_close|].
    eapply rtc_l; [|apply rtc_refl].
    apply (tc_finish 0 false 7%nat r' _ _ (Err errRelayClosed) true r'); [by rewrite lookup_insert_eq|done]. }
  eexists. destruct (tunnelConn_no_leak (MkTc r ∅ ∅) _ ltac:(done) Hs) as (_ & _ & H).
  split; [|split]; [..|apply H]; try done; by rewrite delete_insert_eq.
Defined.
