(* ===== verification/SocksSession.v ===== *)
(** One SOCKS5 session: [handle], [relay], [copyBuffer], [closeWrite] of
    src/internal/socks5/server.go and [handleUDPAssociate] of udp.go.

    A session runs over its client connection, the dialer's world and the server's
    counters.  What its environment decides (how the bytes of a direction are cut
    into reads, which address the UDP relay is bound to, which datagrams and ticks
    the relay sees before each point of the handler) is a [Schedule]; the theorems
    hold for every schedule. *)

From S2P Require Import Prelude GoStrings GoBytes GoNetip GoErrors SocksProto SocksDial SocksUdp.

Definition relayBufferSize : nat := Z.to_nat (32 * 1024).

(** ** Relaying *)

(** The size of the next read: at least a byte, at most the buffer. *)
Definition read_size (sizes : list nat) : nat :=
  match sizes with
  | [] => relayBufferSize
  | n :: _ => Nat.max 1 (Nat.min n relayBufferSize)
  end.

(** [io.CopyBuffer]: read until the source ends, stop at the first failed write. *)
Fixpoint copy_loop (fuel : nat) (sizes : list nat) (dst src : Conn) (n : Z) : Z * Conn * Conn :=
  match fuel with
  | O => (n, dst, src)
  | S k =>
      if bool_decide (c_in src = []) then (n, dst, src) else
      let b := take (read_size sizes) (c_in src) in
      let src' := src <| c_in ::= drop (read_size sizes) |> in
      match Write b dst with
      | (Ok _, dst') => copy_loop k (tail sizes) dst' src' (n + Z.of_nat (length b))
      | (Err _, dst') => (n, dst', src')
      end
  end.

(** A read takes a byte at least, so the length of the input is fuel enough. *)
Definition copyBuffer (sizes : list nat) (dst src : Conn) : Z * Conn * Conn :=
  copy_loop (length (c_in src)) sizes dst src 0.

(** [closeWrite]: the write side of a connection that can be half closed, the
    whole connection otherwise. *)
Definition closeWrite (half_closer : bool) (c : Conn) : Conn :=
  if half_closer then c <| c_write_closed := true |> else c <| c_closed := true |>.

(** The two goroutines of [relay]. *)
Definition relay_up (sizes : list nat) (cs : Conn * Conn * Stats) : Conn * Conn * Stats :=
  let '(client, remote, st) := cs in
  let '(n, remote', client') := copyBuffer sizes remote client in
  (client', closeWrite true remote', st <| statTx ::= Z.add n |>).

Definition relay_down (sizes : list nat) (cs : Conn * Conn * Stats) : Conn * Conn * Stats :=
  let '(client, remote, st) := cs in
  let '(n, client', remote') := copyBuffer sizes client remote in
  (closeWrite true client', remote', st <| statRx ::= Z.add n |>).

Definition relay (up down : list nat) (cs : Conn * Conn * Stats) : Conn * Conn * Stats :=
  relay_down down (relay_up up cs).

(** ** Sessions *)

(** What the environment decides of a session: the read sizes of each direction;
    the address the relay socket is bound to; the time of the association; what
    the relay sees before the tunnel socket is opened, before the reply is
    written, and while the control connection is open. *)
Record Schedule := MkSched {
  sc_up : list nat;
  sc_down : list nat;
  sc_bound : option AddrPort;
  sc_now : Z;
  sc_early : list relay_event;
  sc_warm : list relay_event;
  sc_open : list relay_event;
}.

(** The state of a session: the client, the remote connection once there is one,
    the UDP relay once there is one, the world and the counters. *)
Record Session (W Sock : Type) := MkSession {
  ss_client : Conn;
  ss_remote : option Conn;
  ss_relay : option (udpRelay Sock);
  ss_world : W;
  ss_stats : Stats;
}.
Arguments MkSession {W Sock}.
Arguments ss_client {W Sock}.
Arguments ss_remote {W Sock}.
Arguments ss_relay {W Sock}.
Arguments ss_world {W Sock}.
Arguments ss_stats {W Sock}.

#[export] Instance Session_fields {W Sock} : Fields (Session W Sock) := fun r =>
  MkSession (ss_client r) (ss_remote r) (ss_relay r) (ss_world r) (ss_stats r).

(** [io.Copy(io.Discard, client)]. *)
Definition Discard (c : Conn) : Conn := c <| c_in := [] |>.

Section Session.
Context {W Sock : Type} `{D : !Dialer W Sock}.

(** The connection behind a socket that [DialTCP] returned. *)
Variable peer : Sock -> W -> Conn.

Abbreviation Session := (Session W Sock).

(** The client address a UDP ASSOCIATE request declares. *)
Definition declared_addr (d : destination) : AddrPort :=
  if bool_decide (host d = "") && IsValid (addr d)
  then AddrPortFrom (Unmap (addr d)) (port d) else AddrPort_zero.

(** [LocalAddrPort]. *)
Definition LocalAddrPort (r : udpRelay Sock) : AddrPort :=
  AddrPortFrom (Unmap (ap_addr (client_addr r))) (ap_port (client_addr r)).

Definition fail_session (rep : byte) (client : Conn) (w : W) (st : Stats)
    (r : option (udpRelay Sock)) : Session :=
  MkSession (snd (reply rep AddrPort_zero client)) None r w (st <| statFailed ::= Z.add 1 |>).

Definition handleUDPAssociate (udpEnabled : bool) (sc : Schedule) (declared : destination)
    (client : Conn) (w : W) (st : Stats) : Session :=
  if negb udpEnabled then
    MkSession (snd (reply repCommandNotSupported AddrPort_zero client)) None None w st
  else
    match newUDPRelay (declared_addr declared) (sc_bound sc) (sc_now sc) with
    | None => fail_session repGeneralFailure client w st None
    | Some r =>
        let e := relay_run (sc_early sc) (MkEnv r w st) in
        let '(err, e) := warmUp e in
        match err with
        | Some err =>
            let c' := snd (reply (replyForError (Some err) repNetworkUnreachable)
                                 AddrPort_zero client) in
            let e := Close_relay e in
            MkSession c' None (Some (e_rel e)) (e_world e)
                      ((e_stats e) <| statFailed ::= Z.add 1 |>)
        | None =>
            let e := relay_run (sc_warm sc)
                       (e <| e_stats ::= set_field statUDPAssoc (Z.add 1) |>) in
            let '(res, client') := reply repSuccess (LocalAddrPort (e_rel e)) client in
            let '(client', e) :=
              match res with
              | Err _ => (client', e)
              | Ok _ => (Discard (snd (SetDeadline None client')), relay_run (sc_open sc) e)
              end in
            let e := Close_relay (e <| e_stats ::= set_field statUDPAssoc (Z.add (-1)) |>) in
            MkSession client' None (Some (e_rel e)) (e_world e) (e_stats e)
        end
    end.

(** The CONNECT branch of [handle], after the port check. *)
Definition handleConnect (sc : Schedule) (dest : destination)
    (client : Conn) (w : W) (st : Stats) : Session :=
  let client := snd (SetDeadline None client) in
  match connect dest w st with
  | (Err rep, w', st') => fail_session rep client w' st' None
  | (Ok (s, target), w', st') =>
      let remote := peer s w' in
      let '(res, client') := reply repSuccess target client in
      match res with
      | Err _ => MkSession client' (Some (remote <| c_closed := true |>)) None (sock_Close s w') st'
      | Ok _ =>
          let '(client'', remote', st'') := relay (sc_up sc) (sc_down sc) (client', remote, st') in
          MkSession client'' (Some (remote' <| c_closed := true |>)) None (sock_Close s w') st''
      end
  end.

(** What [handle] reads before it acts: the greeting and the request, under the
    negotiation deadline. *)
Definition read_session : connM (byte * destination) :=
  t ← after handshakeTimeout;
  _ ← SetDeadline (Some t);
  _ ← negotiate;
  readRequest.

Definition handle (udpEnabled : bool) (sc : Schedule) (client : Conn) (w : W) (st : Stats) :
    Session :=
  match read_session client with
  | (Err _, client') => MkSession client' None None w st
  | (Ok (cmd, dest), client') =>
      if bool_decide (cmd = cmdConnect) then
        if port dest =? 0
        then MkSession (snd (reply repGeneralFailure AddrPort_zero client')) None None w st
        else handleConnect sc dest client' w st
      else if bool_decide (cmd = cmdUDPAssociate) then
        handleUDPAssociate udpEnabled sc dest client' w st
      else MkSession (snd (reply repCommandNotSupported AddrPort_zero client')) None None w st
  end.
End Session.

(** ** Copying *)

Lemma read_size_pos sizes : (0 < read_size sizes <= relayBufferSize)%nat.
Proof.
  assert (0 < relayBufferSize)%nat by (unfold relayBufferSize; lia).
  destruct sizes as [|n l]; simpl; lia.
Qed.

(** What a copy does: it reads from [src] only, and writes to [dst] only. *)
Record copy_step := MkCopy { cp_n : Z; cp_out : list (list byte); cp_wf : list bool; cp_in : list byte }.

Fixpoint copy_pure (fuel : nat) (sizes : list nat) (wf : list bool) (inp : list byte) : copy_step :=
  match fuel with
  | O => MkCopy 0 [] wf inp
  | S k =>
      if bool_decide (inp = []) then MkCopy 0 [] wf inp else
      let b := take (read_size sizes) inp in
      let inp' := drop (read_size sizes) inp in
      match wf with
      | true :: fs => MkCopy 0 [] fs inp'
      | fs =>
          let r := copy_pure k (tail sizes) (tail fs) inp' in
          MkCopy (Z.of_nat (length b) + cp_n r) (b :: cp_out r) (cp_wf r) (cp_in r)
      end
  end.

Definition apply_copy (r : copy_step) (dst src : Conn) (n : Z) : Z * Conn * Conn :=
  (n + cp_n r, dst <| c_out ::= (fun o => o ++ cp_out r) |> <| c_write_fails := cp_wf r |>,
   src <| c_in := cp_in r |>).

Lemma copy_loop_pure fuel sizes dst src n :
  copy_loop fuel sizes dst src n
  = apply_copy (copy_pure fuel sizes (c_write_fails dst) (c_in src)) dst src n.
Proof.
  revert sizes dst src n. induction fuel as [|k IH]; intros sizes dst src n; simpl.
  - unfold apply_copy. simpl. destruct dst, src. simpl. by rewrite app_nil_r, Z.add_0_r.
  - case_bool_decide.
    { unfold apply_copy. simpl. destruct dst, src. simpl. by rewrite app_nil_r, Z.add_0_r. }
    unfold Write. destruct dst as [? ? ? wf]; simpl in *.
    destruct wf as [|[] fs]; simpl; rewrite ?IH; unfold apply_copy; simpl;
      rewrite ?app_nil_r, <-?app_assoc, ?Z.add_0_r, <-?Z.add_assoc; done.
Qed.

Lemma copyBuffer_pure sizes dst src :
  copyBuffer sizes dst src
  = apply_copy (copy_pure (length (c_in src)) sizes (c_write_fails dst) (c_in src)) dst src 0.
Proof. apply copy_loop_pure. Qed.

(** The two directions do not meet. *)
Lemma relay_swap up down cs : relay_down down (relay_up up cs) = relay_up up (relay_down down cs).
Proof.
  destruct cs as [[c r] st]. unfold relay_up, relay_down. rewrite !copyBuffer_pure.
  unfold apply_copy. simpl. rewrite !copyBuffer_pure. unfold apply_copy. simpl.
  destruct c, r, st. simpl. done.
Qed.

Lemma copy_pure_spec fuel sizes wf inp :
  (length inp <= fuel)%nat ->
  let r := copy_pure fuel sizes wf inp in
  Forall (fun b => 0 < length b <= relayBufferSize)%nat (cp_out r) /\
  cp_n r = Z.of_nat (length (concat (cp_out r))) /\
  ((inp = concat (cp_out r) /\ cp_in r = []) \/
   (exists b, b <> [] /\ inp = concat (cp_out r) ++ b ++ cp_in r /\ true ∈ wf)).
Proof.
  revert sizes wf inp. induction fuel as [|k IH]; intros sizes wf inp Hl; simpl.
  { destruct inp; [|simpl in Hl; lia]. split_and!; [done..|by left]. }
  case_bool_decide as Hi; [subst; split_and!; [done..|by left]|].
  pose proof (read_size_pos sizes) as Hs.
  assert (0 < length inp)%nat as Hpos by (destruct inp; [done|simpl; lia]).
  assert (0 < length (take (read_size sizes) inp) <= relayBufferSize)%nat as Hb
    by (rewrite length_take; lia).
  assert (length (drop (read_size sizes) inp) <= k)%nat as Hk by (rewrite length_drop; lia).
  assert (wf = true :: tail wf \/ exists fs, copy_pure (S k) sizes wf inp =
    MkCopy (Z.of_nat (length (take (read_size sizes) inp)) + cp_n (copy_pure k (tail sizes) fs (drop (read_size sizes) inp)))
      (take (read_size sizes) inp :: cp_out (copy_pure k (tail sizes) fs (drop (read_size sizes) inp)))
      (cp_wf (copy_pure k (tail sizes) fs (drop (read_size sizes) inp)))
      (cp_in (copy_pure k (tail sizes) fs (drop (read_size sizes) inp)))
    /\ forall b, b ∈ fs -> b ∈ wf) as [Hwf|(fs & Hr & Hfs)].
  { destruct wf as [|[] fs]; [right|by left|right]; eexists; (split; [simpl; by rewrite bool_decide_false|]);
      simpl; [done|intros; by right]. }
  - rewrite Hwf. simpl. split_and!; [done..|]. right. exists (take (read_size sizes) inp).
    split_and!; [intros Hn; rewrite Hn in Hb; simpl in Hb; lia|by rewrite take_drop|by left].
  - simpl in Hr. rewrite bool_decide_false in Hr by done. rewrite Hr.
    destruct (IH (tail sizes) fs _ Hk) as (H1 & H2 & H3). simpl.
    split_and!; [by constructor|rewrite H2, length_app; lia|].
    destruct H3 as [[H3 H4]|(b & H3 & H4 & H5)].
    + left. split; [|done]. by rewrite <-H3, take_drop.
    + right. exists b. split_and!; [done| |by apply Hfs]. by rewrite <-app_assoc, <-H4, take_drop.
Qed.

(** ** The request phase *)

Lemma connM_bind_Err {A B} (m : connM A) (f : A -> connM B) c e c2 :
  (m ≫= f) c = (Err e, c2) <->
  m c = (Err e, c2) \/ exists a c1, m c = (Ok a, c1) /\ f a c1 = (Err e, c2).
Proof.
  unfold mbind, connM_bind. destruct (m c) as [[a|e'] c1]; naive_solver.
Qed.

Lemma read_session_Ok c cmd d c' :
  read_session c = (Ok (cmd, d), c') <->
  c_set_fails c = false /\ exists t, t = Some (c_now c + handshakeTimeout) /\
  exists c1, negotiate (c <| c_read_deadline := t |> <| c_write_deadline := t |>) = (Ok tt, c1) /\
    readRequest c1 = (Ok (cmd, d), c').
Proof.
  unfold read_session. rewrite connM_bind_Ok. split.
  - intros (t & c0 & [= <- <-] & Hk). apply connM_bind_Ok in Hk as (u & c1 & Hs & Hk).
    unfold SetDeadline in Hs.
    destruct (c_set_fails c); [done|]. injection Hs as <- <-.
    apply connM_bind_Ok in Hk as ([] & c2 & Hn & Hr). split; [done|].
    eexists. split; [done|]. by exists c2.
  - intros (Hs & t & -> & c1 & Hn & Hr). do 2 eexists. split; [done|].
    apply connM_bind_Ok. exists tt. eexists. unfold SetDeadline. rewrite Hs. split; [done|].
    apply connM_bind_Ok. by exists tt, c1.
Qed.

Section SessionLemmas.
Context {W Sock : Type} `{D : !Dialer W Sock}.
Variable peer : Sock -> W -> Conn.

Abbreviation handle := (handle peer).

(** *** Egress *)

Section Inv.
Variable I : W -> Prop.
Hypothesis I_dial : forall t w,
  IsUnspecified (ap_addr t) = false -> Unmap (ap_addr t) = ap_addr t -> ap_port t <> 0 ->
  I w -> I (snd (DialTCP dialTimeout t w)).
Hypothesis I_lookup : forall h w,
  HasDNS w = true -> h <> "" -> I w -> I (snd (LookupHost resolveTimeout h w)).
Hypothesis I_listen : forall b w, I w -> I (snd (ListenUDP dialTimeout b w)).
Hypothesis I_close : forall s w, I w -> I (sock_Close s w).
Hypothesis I_write : forall s pl t w,
  IsUnspecified (ap_addr t) = false -> ap_port t <> 0 -> I w -> I (snd (sock_WriteTo s pl t w)).

Lemma handleConnect_world sc d c w st :
  port d <> 0 -> I w -> I (ss_world (handleConnect peer sc d c w st)).
Proof using I_dial I_lookup I_close.
  intros Hp Hw. unfold handleConnect.
  assert (I (snd (fst (connect d w st)))) as Hc.
  { apply connect_inv; [auto| |done]. intros t w0 (Hu & Hm & Ht) Hw0.
    apply I_dial; [done|done|congruence|done]. }
  destruct (connect d w st) as [[[[s t]|rep] w'] st']; simpl in *; [|done].
  destruct (reply repSuccess t _) as [[u|e] c']; simpl; [|by apply I_close].
  destruct (relay _ _ _) as [[c2 r2] st2]. simpl. by apply I_close.
Qed.

Lemma handleUDP_world en sc d c w st :
  I w -> I (ss_world (handleUDPAssociate en sc d c w st)).
Proof using I_lookup I_listen I_close I_write.
  intros Hw. unfold handleUDPAssociate. destruct en; [|done]. simpl.
  destruct (newUDPRelay _ _ _) as [r|]; [|done].
  pose proof (relay_run_world I I_lookup I_listen I_close I_write (sc_early sc) (MkEnv r w st) Hw) as H1.
  pose proof (warmUp_world I I_listen I_close _ H1) as H2.
  destruct (warmUp _) as [[err|] e2]; simpl in *; [by apply Close_inv|].
  set (e3 := relay_run (sc_warm sc) _).
  assert (I (e_world e3)) as H3 by (by apply relay_run_world).
  destruct (reply repSuccess _ c) as [[u|err] c']; simpl; apply Close_inv; simpl; [done| |done|done].
  by apply relay_run_world.
Qed.

Lemma handle_world en sc c w st : I w -> I (ss_world (handle en sc c w st)).
Proof using All.
  intros Hw. unfold handle, SocksSession.handle.
  destruct (read_session c) as [[[cmd d]|e] c']; [|done].
  case_bool_decide; [|case_bool_decide; [by apply handleUDP_world|done]].
  destruct (Z.eqb_spec (port d) 0); [done|]. by apply handleConnect_world.
Qed.
End Inv.

(** *** Counters *)

(** What a session may do to the counters. *)
Definition session_stats (st st' : Stats) : Prop :=
  statActive st' = statActive st /\ statTotal st' = statTotal st /\
  statRejected st' = statRejected st /\ statUDPAssoc st' = statUDPAssoc st /\
  statFailed st <= statFailed st' <= statFailed st + 1 /\
  0 <= statNoName st' - statNoName st <= statHostname st' - statHostname st /\
  statNoName st' - statNoName st <= statFailed st' - statFailed st /\
  statTx st <= statTx st' /\ statRx st <= statRx st'.

Lemma session_stats_refl st : session_stats st st.
Proof. unfold session_stats. lia. Qed.

Lemma copyBuffer_nonneg sizes dst src : 0 <= fst (fst (copyBuffer sizes dst src)).
Proof.
  rewrite copyBuffer_pure. simpl.
  destruct (copy_pure_spec (length (c_in src)) sizes (c_write_fails dst) (c_in src)) as (_ & -> & _); lia.
Qed.

Lemma relay_stats up down c r st :
  exists t x, 0 <= t /\ 0 <= x /\
    (relay up down (c, r, st)).2 = st <| statTx ::= Z.add t |> <| statRx ::= Z.add x |>.
Proof.
  unfold relay, relay_up, relay_down.
  pose proof (copyBuffer_nonneg up r c) as H1.
  destruct (copyBuffer up r c) as [[n r'] c'].
  pose proof (copyBuffer_nonneg down c' (closeWrite true r')) as H2.
  destruct (copyBuffer down c' (closeWrite true r')) as [[n' c''] r'']. by exists n, n'.
Qed.

Lemma handleConnect_stats sc d c w st :
  session_stats st (ss_stats (handleConnect peer sc d c w st)).
Proof.
  unfold handleConnect. destruct (connect d w st) as [[r w'] st'] eqn:E.
  apply connect_counters in E as (h & n & -> & Hh & Hn & Hle & Hfail).
  destruct r as [[s t]|rep]; simpl in *.
  - assert (n = 0) as -> by (destruct Hn; [done|by specialize (Hfail ltac:(done))]).
    destruct (reply repSuccess t _) as [[u|e] c']; simpl.
    + destruct (relay_stats (sc_up sc) (sc_down sc) c' (peer s w')
        (st <| statHostname ::= Z.add h |> <| statNoName ::= Z.add 0 |>)) as (x & y & Hx & Hy & Hr).
      destruct (relay _ _ _) as [[c2 r2] st2]. simpl in *. subst st2. unfold session_stats. simpl. lia.
    + unfold session_stats. simpl. lia.
  - unfold session_stats. simpl. case_bool_decide; lia.
Qed.

Lemma handleUDP_stats en sc d c w st :
  session_stats st (ss_stats (handleUDPAssociate en sc d c w st)).
Proof.
  unfold handleUDPAssociate. destruct en; [|apply session_stats_refl]. simpl.
  destruct (newUDPRelay _ _ _) as [r|]; [|unfold session_stats; simpl; lia].
  pose proof (relay_run_core (sc_early sc) (MkEnv r w st)) as H1.
  pose proof (warmUp_stats (relay_run (sc_early sc) (MkEnv r w st))) as H2.
  destruct (warmUp _) as [[err|] e2]; simpl in *.
  { rewrite Close_stats, H2. apply core_eq in H1. unfold session_stats. simpl in *. lia. }
  set (e3 := relay_run (sc_warm sc) _).
  assert (core (e_stats e3) = core ((e_stats e2) <| statUDPAssoc ::= Z.add 1 |>)) as H3
    by (apply relay_run_core).
  rewrite H2 in H3. apply core_eq in H1, H3. simpl in H1, H3.
  destruct (reply repSuccess _ c) as [[u|err] c']; simpl; rewrite Close_stats; simpl;
    [|unfold session_stats; simpl; lia].
  pose proof (relay_run_core (sc_open sc) e3) as H4. apply core_eq in H4.
  unfold session_stats. simpl. lia.
Qed.

Lemma handle_stats en sc c w st : session_stats st (ss_stats (handle en sc c w st)).
Proof.
  unfold handle, SocksSession.handle.
  destruct (read_session c) as [[[cmd d]|e] c']; [|apply session_stats_refl].
  case_bool_decide; [|case_bool_decide; [apply handleUDP_stats|apply session_stats_refl]].
  destruct (Z.eqb_spec (port d) 0); [apply session_stats_refl|]. apply handleConnect_stats.
Qed.
End SessionLemmas.

(** ** Complete requests *)

(** A client that sends a greeting offering "no authentication", a request, and
    [rest], over a connection with nothing broken. *)
Record sends (c : Conn) (cmd : byte) (d : destination) (rest : list byte) : Prop := {
  sends_ok : c_write_fails c = [] /\ c_set_fails c = false;
  sends_in : exists g ms req, socks_greeting g ms /\ methodNoAuth ∈ ms /\
    socks_request req cmd d /\ c_in c = g ++ req ++ rest;
}.

(** The client once its request is read. *)
Definition after_request (c : Conn) (rest : list byte) : Conn :=
  c <| c_in := rest |>
    <| c_out ::= (fun o => o ++ [[socksVersion; methodNoAuth]]) |>
    <| c_read_deadline := Some (c_now c + handshakeTimeout) |>
    <| c_write_deadline := Some (c_now c + handshakeTimeout) |>.

Lemma read_session_request c cmd d rest :
  sends c cmd d rest -> read_session c = (Ok (cmd, d), after_request c rest).
Proof.
  intros [[Hw Hs] (g & ms & req & Hg & Hm & Hr & Hin)].
  apply read_session_Ok. split; [done|]. eexists. split; [done|].
  destruct (negotiate_greeting (c <| c_read_deadline := Some (c_now c + handshakeTimeout) |>
    <| c_write_deadline := Some (c_now c + handshakeTimeout) |>) g ms (req ++ rest))
    as (c' & -> & Hn); [done..|].
  rewrite bool_decide_true in Hn by done. eexists. split; [exact Hn|].
  apply readRequest_Ok. exists req, rest. by destruct c.
Qed.

Lemma reply_writes rep bound c :
  c_write_fails c = [] -> c_set_fails c = false ->
  reply rep bound c
  = (Ok tt, c <| c_out ::= (fun o => o ++ [reply_bytes rep bound]) |> <| c_write_deadline := None |>).
Proof.
  destruct c. simpl. intros -> ->. reflexivity.
Qed.

(** ** Properties *)

(** [copyBuffer] always ends, writes what it read, in order and in pieces of at
    most its 32 KiB buffer, counts the bytes written, and stops before the end of
    the source only at a failed write. *)
Theorem copyBuffer_copies sizes dst src n dst' src' :
  copyBuffer sizes dst src = (n, dst', src') ->
  exists chunks, c_out dst' = c_out dst ++ chunks /\
    Forall (fun b => 0 < Z.of_nat (length b) <= 32 * 1024) chunks /\
    n = Z.of_nat (length (concat chunks)) /\
    ((c_in src = concat chunks /\ c_in src' = []) \/
     (true ∈ c_write_fails dst /\
      exists lost, lost <> [] /\ c_in src = concat chunks ++ lost ++ c_in src')).
Proof.
  rewrite copyBuffer_pure. unfold apply_copy. intros [= <- <- <-].
  destruct (copy_pure_spec (length (c_in src)) sizes (c_write_fails dst) (c_in src)) as (H1 & H2 & H3);
    [done|].
  exists (cp_out (copy_pure (length (c_in src)) sizes (c_write_fails dst) (c_in src))).
  simpl. split_and!; [done| |done|].
  { eapply Forall_impl; [exact H1|]. unfold relayBufferSize. simpl. lia. } destruct H3 as [H3|(b & Hb & H3 & H4)]; [by left|].
  right. split; [done|]. by exists b.
Qed.

Lemma copyBuffer_copies_witness :
  exists chunks, c_out ((conn_sending []) <| c_out := [[x01; x02]; [x03]] |>)
                 = c_out (conn_sending []) ++ chunks /\
    Forall (fun b => 0 < Z.of_nat (length b) <= 32 * 1024) chunks /\
    3 = Z.of_nat (length (concat chunks)) /\
    ((c_in (conn_sending [x01; x02; x03]) = concat chunks /\ c_in (conn_sending []) = []) \/
     (true ∈ c_write_fails (conn_sending []) /\
      exists lost, lost <> [] /\
        c_in (conn_sending [x01; x02; x03]) = concat chunks ++ lost ++ c_in (conn_sending []))).
Proof.
  apply (copyBuffer_copies [2%nat] (conn_sending []) (conn_sending [x01; x02; x03])). by vm_compute.
Defined.

(** The two goroutines of [relay] commute: each reads one connection and writes
    the other, so every order of the two gives the same connections and counters. *)
Theorem relay_order up down client remote st :
  relay up down (client, remote, st) = relay_up up (relay_down down (client, remote, st)).
Proof. apply relay_swap. Qed.

(** What a session asks of the dialer, with the destination of each request. *)
Inductive egress : Type :=
| EgTCP (target : AddrPort)
| EgLookup (name : string) (dns : bool)
| EgListen (ipv6 : bool)
| EgSend (target : AddrPort).

(** A dialer that records what it is asked. *)
#[export] Instance logged {W Sock} (D : Dialer W Sock) : Dialer (W * list egress) Sock := {|
  DialTCP timeout t wl := let '(r, w) := DialTCP timeout t wl.1 in (r, (w, wl.2 ++ [EgTCP t]));
  LookupHost timeout h wl :=
    let '(r, w) := LookupHost timeout h wl.1 in (r, (w, wl.2 ++ [EgLookup h (HasDNS wl.1)]));
  HasDNS wl := HasDNS wl.1;
  ListenUDP timeout b wl := let '(r, w) := ListenUDP timeout b wl.1 in (r, (w, wl.2 ++ [EgListen b]));
  sock_WriteTo s pl t wl := let '(r, w) := sock_WriteTo s pl t wl.1 in (r, (w, wl.2 ++ [EgSend t]));
  sock_Close s wl := (sock_Close s wl.1, wl.2);
|}.

(** The requests the server may make: never 0.0.0.0 or ::, never port zero, never
    an unmapped TCP target, and no name without a DNS server of the tunnel. *)
Definition permitted (e : egress) : Prop :=
  match e with
  | EgTCP t => IsUnspecified (ap_addr t) = false /\ Unmap (ap_addr t) = ap_addr t /\ ap_port t <> 0
  | EgLookup h dns => h <> "" /\ dns = true
  | EgListen _ => True
  | EgSend t => IsUnspecified (ap_addr t) = false /\ ap_port t <> 0
  end.

(** C2: the egress policy of a session, whatever the client sends, the dialer
    answers and the schedule is: every connection and datagram it asks the tunnel
    for goes to a specified address and a non-zero port, and a name is looked up
    only where the tunnel has a DNS server. *)
Theorem session_egress {W Sock} (D : Dialer W Sock) (peer : Sock -> W * list egress -> Conn)
    en sc c w st :
  Forall permitted (snd (ss_world (@handle _ _ (logged D) peer en sc c (w, []) st))).
Proof.
  assert (forall wl e, Forall permitted (snd wl) -> permitted e ->
    Forall permitted (snd (wl : W * list egress) ++ [e])) as Hadd
    by (intros; apply Forall_app; split; [done|by constructor]).
  apply (@handle_world _ _ (logged D) peer (fun wl => Forall permitted (snd wl)));
    [| | | |..|constructor]; simpl.
  - intros t wl Hu Hm Hp Hw. destruct (DialTCP _ _ _). simpl. by apply (Hadd wl).
  - intros h wl Hd Hh Hw. destruct (LookupHost _ _ _). simpl. by apply (Hadd wl).
  - intros b wl Hw. destruct (ListenUDP _ _ _). simpl. by apply (Hadd wl).
  - done.
  - intros s pl t wl Hu Hp Hw. destruct (sock_WriteTo _ _ _ _). simpl. by apply (Hadd wl).
Qed.

(** What a session may do to the counters: it adds at most one failure, an
    unresolved name is a failed request with a hostname, the relayed bytes only
    grow, and an association it opened is closed when it ends. *)
Theorem session_accounting {W Sock} (D : Dialer W Sock) (peer : Sock -> W -> Conn) en sc c w st :
  session_stats st (ss_stats (handle peer en sc c w st)).
Proof. apply handle_stats. Qed.

(** A copy into a connection that takes everything. *)
Lemma copy_all sizes dst src :
  c_write_fails dst = [] ->
  exists chunks, concat chunks = c_in src /\
    copyBuffer sizes dst src
    = (Z.of_nat (length (c_in src)), dst <| c_out ::= (fun o => o ++ chunks) |>,
       src <| c_in := [] |>).
Proof.
  intros Hw. rewrite copyBuffer_pure. unfold apply_copy. rewrite Hw.
  assert (forall fuel sizes inp, cp_wf (copy_pure fuel sizes [] inp) = []) as Hwf.
  { induction fuel as [|k IH]; intros sz inp; simpl; [done|]. case_bool_decide; simpl; [done|apply IH]. }
  destruct (copy_pure_spec (length (c_in src)) sizes [] (c_in src)) as (_ & Hn & [[H1 H2]|(b & _ & _ & H)]);
    [done| |by apply elem_of_nil in H].
  eexists. split; [by rewrite H1|]. rewrite Hn, H2, Hwf, <-H1. destruct dst. simpl in *. by subst.
Qed.

(** The client once the handler has cleared its deadlines and written [l]. *)
Definition answered (c : Conn) (rest : list byte) (l : list (list byte)) : Conn :=
  c <| c_in := rest |>
    <| c_out ::= (fun o => o ++ [socksVersion; methodNoAuth] :: l) |>
    <| c_read_deadline := None |> <| c_write_deadline := None |>.

Lemma handle_connect_request {W Sock} `{D : !Dialer W Sock} (peer : Sock -> W -> Conn) en sc c d rest w st :
  sends c cmdConnect d rest -> port d <> 0 ->
  handle peer en sc c w st = handleConnect peer sc d (after_request c rest) w st.
Proof.
  intros Hs Hp. unfold handle. rewrite (read_session_request c _ _ _ Hs).
  rewrite bool_decide_true by done. destruct (Z.eqb_spec (port d) 0); [done|]. done.
Qed.

(** C8: a complete CONNECT request gets exactly one reply.  If [connect] fails, it
    is the failure's code and the session counts one failure.  If it succeeds, it
    is success with the target, written before any relayed byte; with no failing
    write both directions then carry every byte, in order, to the other side, both
    write sides are closed, no deadline is left, the counters grow by the bytes
    carried, and the tunnel connection is closed. *)
Theorem connect_session {W Sock} (D : Dialer W Sock) (peer : Sock -> W -> Conn) en sc c d rest w st :
  sends c cmdConnect d rest -> port d <> 0 ->
  match connect d w st with
  | (Err rep, w', st') =>
      rep <> repSuccess /\
      handle peer en sc c w st
      = MkSession (answered c rest [reply_bytes rep AddrPort_zero]) None None w'
                  (st' <| statFailed ::= Z.add 1 |>)
  | (Ok (s, target), w', st') =>
      let remote := peer s w' in
      c_write_fails remote = [] ->
      exists up down, concat up = rest /\ concat down = c_in remote /\
      handle peer en sc c w st
      = MkSession ((answered c [] (reply_bytes repSuccess target :: down)) <| c_write_closed := true |>)
          (Some (remote <| c_in := [] |> <| c_out ::= (fun o => o ++ up) |>
                   <| c_write_closed := true |> <| c_closed := true |>))
          None (sock_Close s w')
          (st' <| statTx ::= Z.add (Z.of_nat (length rest)) |>
               <| statRx ::= Z.add (Z.of_nat (length (c_in remote))) |>)
  end.
Proof.
  intros Hs Hp. rewrite (handle_connect_request peer en sc c d rest w st Hs Hp).
  destruct Hs as [[Hw Hsf] _]. unfold handleConnect.
  destruct (connect d w st) as [[[[s t]|rep] w'] st'] eqn:E; simpl.
  - intros Hr. unfold SetDeadline. simpl. rewrite Hsf. simpl.
    rewrite (reply_writes repSuccess t) by done. unfold relay, relay_up, relay_down.
    match goal with |- context [copyBuffer (sc_up sc) ?x ?y] =>
      destruct (copy_all (sc_up sc) x y) as (up & Hup & Hc); [done|rewrite Hc] end.
    match goal with |- context [copyBuffer (sc_down sc) ?x ?y] =>
      destruct (copy_all (sc_down sc) x y) as (down & Hdown & Hc'); [done|rewrite Hc'] end.
    exists up, down. split_and!; [done|done|]. destruct c, (peer s w'). simpl in *. subst.
    unfold answered. simpl. by rewrite <-!app_assoc.
  - split; [by eapply connect_Err|]. unfold fail_session, SetDeadline. simpl. rewrite Hsf.
    rewrite (reply_writes rep AddrPort_zero) by done. destruct c. simpl in *. subst.
    unfold answered. simpl. by rewrite <-!app_assoc.
Qed.

(** A client that asks for example.com:80, and sends "hi". *)
Definition client_of (cmd : byte) : Conn :=
  conn_sending ([x05; x01; x00] ++ [x05; cmd; x00; x03; x0b] ++ bytes_of "example.com" ++
                [x00; x50] ++ bytes_of "hi").

Definition quiet : Schedule := MkSched [] [] (Some (AddrPortFrom (Addr4 2130706433) 40000)) 0 [] [] [].

Lemma client_sends cmd : sends (client_of cmd) cmd (MkDest "example.com" AddrZero 80) (bytes_of "hi").
Proof.
  split; [done|]. exists [x05; x01; x00], [x00],
    ([x05; cmd; x00; x03; x0b] ++ bytes_of "example.com" ++ [x00; x50]).
  split_and!; [by constructor|by left| |done].
  apply (socks_request_intro cmd x00 ([x03; x0b] ++ bytes_of "example.com") "example.com" AddrZero [x00; x50]);
    [|done]. by apply (wire_domain x0b (bytes_of "example.com")).
Qed.

Lemma connect_session_witness :
  exists up down, concat up = bytes_of "hi" /\ concat down = bytes_of "ok" /\
  handle (fun (_ : nat) (_ : ToyNet.net) => conn_sending (bytes_of "ok")) true quiet
    (client_of x01) (ToyNet.web true) Stats_zero
  = MkSession ((answered (client_of x01) [] (reply_bytes repSuccess
        (AddrPortFrom (ToyNet.v4 93 184 216 34) 80) :: down)) <| c_write_closed := true |>)
      (Some ((conn_sending []) <| c_out ::= (fun o => o ++ up) |>
               <| c_write_closed := true |> <| c_closed := true |>))
      None ((ToyNet.web true) <| ToyNet.opened := 1%nat |>)
      (Stats_zero <| statHostname := 1 |> <| statTx := 2 |> <| statRx := 2 |>).
Proof.
  exact (connect_session ToyNet.dialer (fun _ _ => conn_sending (bytes_of "ok")) true quiet
    (client_of x01) _ _ (ToyNet.web true) Stats_zero (client_sends x01) ltac:(done) eq_refl).
Defined.

(** ** A tunnel that is down *)

Section SessionDown.
Context {W Sock : Type} `{D : !Dialer W Sock} `{DL : !DialerLaws W Sock}.
Variable peer : Sock -> W -> Conn.

Lemma down_candidates l p le (w : W) :
  tunnel_up w = false ->
  dial_candidates l p le w
  = (Err (match l with [] => le | _ => Some (ESentinel ErrTunnelDown) end), w).
Proof.
  intros Hd. revert le. induction l as [|a l IH]; intros le; [done|]. simpl.
  rewrite down_DialTCP by done. rewrite IH. by destruct l.
Qed.

Lemma down_connect d (w : W) st :
  tunnel_up w = false ->
  exists rep st', connect d w st = (Err rep, w, st') /\ rep <> repSuccess /\
    ((host d = "" -> IsUnspecified (Unmap (addr d)) = false) ->
     (host d <> "" -> HasDNS w = true) -> rep = repNetworkUnreachable).
Proof.
  intros Hd.
  enough (exists rep st', connect d w st = (Err rep, w, st') /\
    ((host d = "" -> IsUnspecified (Unmap (addr d)) = false) ->
     (host d <> "" -> HasDNS w = true) -> rep = repNetworkUnreachable))
    as (rep & st' & He & Hr) by (exists rep, st'; eauto using connect_Err).
  unfold connect, candidates_of. case_bool_decide as Hh; simpl.
  - destruct (IsUnspecified _) eqn:Hu.
    + do 2 eexists. split; [done|]. intros H. by specialize (H Hh).
    + rewrite down_candidates by done. by do 2 eexists.
  - destruct (HasDNS w) eqn:Hn; simpl.
    + rewrite down_LookupHost by done. by do 2 eexists.
    + do 2 eexists. split; [done|]. intros _ H. by specialize (H Hh).
Qed.

Lemma down_handleConnect sc d c (w : W) st :
  tunnel_up w = false -> ss_world (handleConnect peer sc d c w st) = w.
Proof.
  intros Hd. unfold handleConnect.
  by destruct (down_connect d w st Hd) as (rep & st' & -> & _).
Qed.

(** The reply to a UDP ASSOCIATE request while the tunnel is down: the command is
    not supported with UDP turned off, the loopback socket can fail to be bound,
    and otherwise the association fails to warm up. *)
Definition associate_refusal (en : bool) (sc : Schedule) : byte :=
  if negb en then repCommandNotSupported
  else match sc_bound sc with None => repGeneralFailure | Some _ => repNetworkUnreachable end.

Lemma down_associate en sc d c (w : W) st :
  tunnel_up w = false ->
  ss_world (handleUDPAssociate en sc d c w st) = w /\
  ss_client (handleUDPAssociate en sc d c w st)
  = snd (reply (associate_refusal en sc) AddrPort_zero c).
Proof.
  intros Hd. unfold handleUDPAssociate, associate_refusal. destruct en; [|done]. simpl.
  destruct (sc_bound sc) as [bd|] eqn:Hb; [|by unfold newUDPRelay].
  destruct (newUDPRelay _ _ _) as [r|] eqn:Hr; [|by unfold newUDPRelay in Hr].
  assert (no_sockets r) as Hn0 by (unfold newUDPRelay in Hr; injection Hr as <-; by intros f).
  destruct (down_relay_run (sc_early sc) (MkEnv r w st) Hd Hn0) as [Hn Hw]. simpl in Hw.
  assert (tunnel_up (e_world (relay_run (sc_early sc) (MkEnv r w st))) = false) as Hd'
    by (by rewrite Hw).
  destruct (down_warmUp _ Hd' Hn) as (err & He & Herr). rewrite He. simpl.
  destruct (down_Close _ Hn) as [_ Hw']. split; [congruence|].
  enough (replyForError (Some err) repNetworkUnreachable = repNetworkUnreachable) as -> by done.
  unfold warmUp, tunnelConn, tunnelConn_begin in He.
  destruct (tunnel (e_rel _)) as [m|] eqn:Hm; [by rewrite Herr|].
  rewrite Hm in He. injection He as <-. by vm_compute.
Qed.

Lemma down_world en sc c (w : W) st :
  tunnel_up w = false -> ss_world (handle peer en sc c w st) = w.
Proof.
  intros Hd. unfold handle. destruct (read_session c) as [[[cmd d]|e] c']; [|done].
  case_bool_decide.
  - destruct (Z.eqb_spec (port d) 0); [done|]. by apply down_handleConnect.
  - case_bool_decide; [|done]. destruct en; [|done]. by apply down_associate.
Qed.

(** The one reply of a session whose request was read. *)
Lemma down_handle en sc c d (w : W) st cmd rest :
  tunnel_up w = false -> sends c cmd d rest ->
  exists rep,
    (c_write_fails c = [] -> c_set_fails c = false ->
     c_out (ss_client (handle peer en sc c w st))
     = c_out (after_request c rest) ++ [reply_bytes rep AddrPort_zero]) /\
    rep <> repSuccess /\
    (cmd = cmdConnect -> port d <> 0 ->
     (host d = "" -> IsUnspecified (Unmap (addr d)) = false) ->
     (host d <> "" -> HasDNS w = true) -> rep = repNetworkUnreachable) /\
    (cmd = cmdUDPAssociate -> rep = associate_refusal en sc) /\
    (cmd <> cmdConnect -> cmd <> cmdUDPAssociate -> rep = repCommandNotSupported).
Proof.
  intros Hd Hs. unfold handle. rewrite (read_session_request c _ _ _ Hs).
  case_bool_decide as Hc; [destruct (Z.eqb_spec (port d) 0) as [Hp|Hp]|].
  - exists repGeneralFailure. split; [|by split_and!; intros; subst].
    intros Hw Hf. simpl. by rewrite reply_writes.
  - unfold handleConnect. destruct (down_connect d w st Hd) as (rep & st' & -> & Hr & Hu).
    exists rep. split; [|by split_and!; intros; subst; auto].
    intros Hw Hf. unfold fail_session, SetDeadline. simpl. rewrite Hf. by rewrite reply_writes.
  - case_bool_decide as Ha.
    + exists (associate_refusal en sc). split.
      * intros Hw Hf. destruct (down_associate en sc d (after_request c rest) w st Hd) as [_ ->].
        by rewrite reply_writes.
      * split_and!; [|by intros..]. unfold associate_refusal.
        destruct en, (sc_bound sc); by vm_compute.
    + exists repCommandNotSupported. split; [|by split_and!; intros].
      intros Hw Hf. simpl. by rewrite reply_writes.
Qed.
End SessionDown.

(** C1: while the tunnel is down a session sends nothing into the network,
    whatever the client asks and sends: the world is untouched.  A complete request
    of any command is answered by one failure and nothing else.  CONNECT to a
    usable port and destination is answered "network unreachable", and so is UDP
    ASSOCIATE when UDP is on and its loopback socket was bound; a socket that could
    not be bound is a general failure, and UDP turned off or a command that is
    neither of the two is "command not supported". *)
Theorem session_tunnel_down {W Sock} (D : Dialer W Sock) (DL : DialerLaws W Sock)
    (peer : Sock -> W -> Conn) en sc c w st :
  tunnel_up w = false ->
  ss_world (handle peer en sc c w st) = w /\
  (forall cmd d rest, sends c cmd d rest -> exists rep,
     c_out (ss_client (handle peer en sc c w st))
     = c_out c ++ [[socksVersion; methodNoAuth]; reply_bytes rep AddrPort_zero] /\
     rep <> repSuccess /\
     (cmd = cmdConnect -> port d <> 0 ->
      (host d = "" -> IsUnspecified (Unmap (addr d)) = false) ->
      (host d <> "" -> HasDNS w = true) -> rep = repNetworkUnreachable) /\
     (cmd = cmdUDPAssociate ->
      rep = if negb en then repCommandNotSupported
            else match sc_bound sc with
                 | None => repGeneralFailure
                 | Some _ => repNetworkUnreachable
                 end) /\
     (cmd <> cmdConnect -> cmd <> cmdUDPAssociate -> rep = repCommandNotSupported)).
Proof.
  intros Hd. split; [by apply down_world|]. intros cmd d rest Hs.
  destruct (down_handle peer en sc c d w st cmd rest Hd Hs) as (rep & Ho & H).
  exists rep. split; [|exact H]. destruct Hs as [[Hw Hsf] _].
  rewrite Ho by done. simpl. by rewrite <-app_assoc.
Qed.

Lemma session_tunnel_down_witness :
  exists rep,
    c_out (ss_client (handle (fun (_ : nat) (_ : ToyNet.net) => conn_sending []) true quiet
                        (client_of x03) (ToyNet.web false) Stats_zero))
    = [] ++ [[socksVersion; methodNoAuth]; reply_bytes rep AddrPort_zero] /\
    rep = repNetworkUnreachable.
Proof.
  destruct (session_tunnel_down ToyNet.dialer ToyNet.dialer_laws (fun _ _ => conn_sending []) true
    quiet (client_of x03) (ToyNet.web false) Stats_zero eq_refl) as [_ H].
  destruct (H x03 _ _ (client_sends x03)) as (rep & Ho & _ & _ & Hr & _).
  exists rep. split; [exact Ho|by apply Hr].
Defined.
