(* ===== verification/SocksServer.v ===== *)
(** The listener: [Server], [Start], [acceptLoop], [isLoopbackConn], [Stop] and
    the accessors of src/internal/socks5/server.go.

    The accept loop, the session goroutines and [Stop] run at once.  Their atomic
    sections (a mutex region, an atomic counter, a channel operation, a system
    call) are the steps of one machine; a session goroutine's own work, [handle],
    is modelled in SocksSession.v and is one stage here.  [s_stop] is where the [Stop]
    that set [closing] is; any other call of [Stop] finds it set, returns at once and
    changes nothing, and so is no step. *)

From S2P Require Import Prelude GoStrings GoNetip GoErrors SocksDial.

Definition defaultMaxConns : Z := 1024.

(** [maxConsecutiveErrors] of [acceptLoop]. *)
Definition maxConsecutiveErrors : Z := 10.

Definition ResolveMaxConns (n : Z) : Z := if n <=? 0 then defaultMaxConns else n.

Definition isLoopbackConn (remote : string) : bool :=
  match SplitHostPort remote with
  | None => false
  | Some (host, _) =>
      match ParseAddr host with
      | None => false
      | Some addr => IsLoopback (Unmap addr)
      end
  end.

(** ** State *)

(** A session goroutine: running [handle], then the stages of its deferred
    function, each named by what it has done. *)
Inductive stage := Running | Released | Uncounted | Untracked.

#[global] Instance stage_eq_dec : EqDecision stage.
Proof. solve_decision. Defined.

(** The accept loop: between which of its actions it stands. *)
Inductive loop_pc :=
| NotStarted
| Accepting (consecutiveErrors : Z)
| Tracking (c : nat) (remote : string)
| Launching (c : nat) (remote : string)
| LoopDone.

(** [Stop]: between which of its actions it stands, with the connections of its
    snapshot. *)
Inductive stop_pc :=
| NotStopping
| Swapped
| Snapshot (conns : gset nat)
| ListenerClosed (conns : gset nat)
| Waiting
| Stopped.

(** The server.  [s_ln] is the field [ln] with its bound address, [s_ln_open] the
    socket itself; [s_accepted] and [s_conn_closed] are the connections ever
    returned by [Accept] and those closed on this side. *)
Record Server := MkServer {
  s_listen : string;
  s_maxConns : Z;
  s_udpEnabled : bool;
  s_ln : option string;
  s_active : gset nat;
  s_started : bool;
  s_closing : bool;
  s_stats : Stats;
  s_sem : Z;
  s_ln_open : bool;
  s_loop : loop_pc;
  s_sessions : gmap nat (string * stage);
  s_stop : stop_pc;
  s_accepted : gset nat;
  s_conn_closed : gset nat;
}.

#[export] Instance Server_fields : Fields Server := fun r =>
  MkServer (s_listen r) (s_maxConns r) (s_udpEnabled r) (s_ln r) (s_active r) (s_started r)
    (s_closing r) (s_stats r) (s_sem r) (s_ln_open r) (s_loop r) (s_sessions r) (s_stop r)
    (s_accepted r) (s_conn_closed r).

Definition NewWithOptions (listen : string) (maxConns : Z) (udp : bool) : Server :=
  MkServer listen (ResolveMaxConns maxConns) udp None ∅ false false Stats_zero 0 false
    NotStarted ∅ NotStopping ∅ ∅.

Definition New (listen : string) (maxConns : Z) : Server := NewWithOptions listen maxConns true.

(** [Start], with what [net.Listen] answers for an address. *)
Definition Start (Listen : string -> result error string) (s : Server) : result error Server :=
  match ParseAddrPort (s_listen s) with
  | None => Err (EMsg "invalid SOCKS5 listen address")
  | Some ap =>
      if negb (IsLoopback (ap_addr ap)) then Err (EMsg "SOCKS5 may only bind a loopback address")
      else
        match Listen (s_listen s) with
        | Err e => Err (Wrapf "could not open the SOCKS5 listener" e)
        | Ok bound =>
            Ok (s <| s_ln := Some bound |> <| s_started := true |>
                  <| s_ln_open := true |> <| s_loop := Accepting 0 |>)
        end
  end.

Definition MaxConns (s : Server) : Z := s_maxConns s.
Definition UDPAssociateEnabled (s : Server) : bool := s_udpEnabled s.

Definition Addr_of (s : Server) : string :=
  match s_ln s with Some a => a | None => s_listen s end.

Definition Listening (s : Server) : bool := s_started s && negb (s_closing s).

(** ** Steps *)

Definition count_rejected (s : Server) : Server :=
  s <| s_stats ::= set_field statRejected (Z.add 1) |>.

(** What the loop does with an accepted connection before it tracks it. *)
Definition on_accept (c : nat) (remote : string) (s : Server) : Server :=
  let s := s <| s_accepted ::= union {[c]} |> in
  if negb (isLoopbackConn remote) then
    (count_rejected s) <| s_conn_closed ::= union {[c]} |> <| s_loop := Accepting 0 |>
  else if s_maxConns s <=? s_sem s then
    (count_rejected s) <| s_conn_closed ::= union {[c]} |> <| s_loop := Accepting 0 |>
  else s <| s_sem ::= Z.add 1 |> <| s_loop := Tracking c remote |>.

Definition on_accept_error (errs : Z) (s : Server) : Server :=
  if s_closing s then s <| s_loop := LoopDone |>
  else if maxConsecutiveErrors <=? errs + 1 then s <| s_loop := LoopDone |>
  else s <| s_loop := Accepting (errs + 1) |>.

Definition trackConn (c : nat) (s : Server) : Server := s <| s_active ::= union {[c]} |>.
Definition untrackConn (c : nat) (s : Server) : Server := s <| s_active ::= (.∖ {[c]}) |>.

(** Counting, [wg.Add] and the new goroutine. *)
Definition launch (c : nat) (remote : string) (s : Server) : Server :=
  s <| s_stats ::= set_field statTotal (Z.add 1) |>
    <| s_stats ::= set_field statActive (Z.add 1) |>
    <| s_sessions ::= insert c (remote, Running) |>
    <| s_loop := Accepting 0 |>.

(** The deferred function of a session, stage by stage. *)
Definition finish_stage (c : nat) (remote : string) (g : stage) (s : Server) : Server :=
  match g with
  | Running => s <| s_sem ::= Z.add (-1) |> <| s_sessions ::= insert c (remote, Released) |>
  | Released => s <| s_stats ::= set_field statActive (Z.add (-1)) |>
                  <| s_sessions ::= insert c (remote, Uncounted) |>
  | Uncounted => (untrackConn c s) <| s_sessions ::= insert c (remote, Untracked) |>
  | Untracked => s <| s_conn_closed ::= union {[c]} |> <| s_sessions ::= delete c |>
  end.

(** The goroutines [wg] counts: the loop, and the sessions. *)
Definition wg_zero (s : Server) : bool :=
  match s_loop s with
  | NotStarted | LoopDone => bool_decide (s_sessions s = ∅)
  | _ => false
  end.

Inductive step : Server -> Server -> Prop :=
| step_accept c remote errs s :
    s_loop s = Accepting errs -> s_ln_open s = true -> c ∉ s_accepted s ->
    step s (on_accept c remote s)
| step_accept_error errs s :
    s_loop s = Accepting errs ->
    step s (on_accept_error errs s)
| step_track c remote s :
    s_loop s = Tracking c remote ->
    step s ((trackConn c s) <| s_loop := Launching c remote |>)
| step_launch c remote s :
    s_loop s = Launching c remote ->
    step s (launch c remote s)
| step_session c remote g s :
    s_sessions s !! c = Some (remote, g) ->
    step s (finish_stage c remote g s)
| step_stop s :
    s_closing s = false ->
    step s (s <| s_closing := true |> <| s_stop := Swapped |>)
| step_snapshot s :
    s_stop s = Swapped ->
    step s (s <| s_ln := None |> <| s_stop := Snapshot (s_active s) |>)
| step_close_listener conns s :
    s_stop s = Snapshot conns ->
    step s (s <| s_ln_open := false |> <| s_stop := ListenerClosed conns |>)
| step_close_conns conns s :
    s_stop s = ListenerClosed conns ->
    step s (s <| s_conn_closed ::= union conns |> <| s_stop := Waiting |>)
| step_wait s :
    s_stop s = Waiting -> wg_zero s = true ->
    step s (s <| s_started := false |> <| s_stop := Stopped |>).

(** ** Invariant *)

Definition holds_slot (p : nat * (string * stage)) : Prop := p.2.2 = Running.
Definition counted (p : nat * (string * stage)) : Prop := p.2.2 = Running \/ p.2.2 = Released.

#[global] Instance holds_slot_dec p : Decision (holds_slot p).
Proof. unfold holds_slot. apply _. Defined.
#[global] Instance counted_dec p : Decision (counted p).
Proof. unfold counted. apply _. Defined.

(** The connection the loop is about to hand to a session. *)
Definition pending (s : Server) : option (nat * string) :=
  match s_loop s with Tracking c r | Launching c r => Some (c, r) | _ => None end.

Definition pending_count (s : Server) : Z := match pending s with Some _ => 1 | None => 0 end.

Definition served (s : Server) (c : nat) (remote : string) : Prop :=
  pending s = Some (c, remote) \/ exists g, s_sessions s !! c = Some (remote, g).

Record server_inv (s : Server) : Prop := {
  inv_sem : s_sem s = Z.of_nat (size (filter holds_slot (s_sessions s))) + pending_count s;
  inv_cap : s_sem s <= s_maxConns s;
  inv_active : statActive (s_stats s) = Z.of_nat (size (filter counted (s_sessions s)));
  inv_fresh c r : served s c r -> c ∈ s_accepted s;
  inv_pending c r : pending s = Some (c, r) -> s_sessions s !! c = None;
  inv_loopback c r : served s c r -> isLoopbackConn r = true;
  inv_tracked c : c ∈ s_active s <->
    (exists r g, s_sessions s !! c = Some (r, g) /\ g <> Untracked) \/
    (exists r, s_loop s = Launching c r);
  inv_closed c : c ∈ s_accepted s -> c ∈ s_conn_closed s \/ exists r, served s c r;
  inv_stop : match s_stop s with
             | NotStopping => True
             | Swapped | Snapshot _ => s_closing s = true
             | ListenerClosed _ | Waiting => s_closing s = true /\ s_ln_open s = false
             | Stopped => s_closing s = true /\ s_ln_open s = false /\ s_started s = false /\
                          wg_zero s = true
             end;
}.

(** ** Lemmas *)

Lemma Start_inv Listen listen maxConns udp s :
  Start Listen (NewWithOptions listen maxConns udp) = Ok s -> server_inv s.
Proof.
  unfold Start. simpl. destruct (ParseAddrPort listen) as [ap|]; [|done].
  destruct (IsLoopback (ap_addr ap)); [|done]. simpl. destruct (Listen listen); [|done].
  intros [= <-]. split; simpl; try done.
  - unfold ResolveMaxConns. destruct (Z.leb_spec maxConns 0); [done|lia].
  - by intros c r [?|[g ?]].
  - by intros c r [?|[g ?]].
  - intros c. split; [set_solver|]. intros [(r & g & H & _)|[r H]]; done.
Qed.

Ltac open_inv := unfold served, pending, pending_count, pending in *; simpl in *.

(** A served connection was accepted, so a new one is not served. *)
Lemma fresh_session s c : server_inv s -> c ∉ s_accepted s -> s_sessions s !! c = None.
Proof.
  intros Hi Hc. destruct (s_sessions s !! c) as [[r g]|] eqn:E; [|done].
  exfalso. apply Hc, (inv_fresh s Hi c r). right. by exists g.
Qed.

Lemma reject_inv c errs s :
  s_loop s = Accepting errs -> server_inv s ->
  server_inv ((count_rejected (s <| s_accepted ::= union {[c]} |>))
                <| s_conn_closed ::= union {[c]} |> <| s_loop := Accepting 0 |>).
Proof.
  intros Hl [Hsem Hcap Hact Hfresh Hpend Hloop Htr Hcl Hst]. open_inv. rewrite Hl in *.
  split; open_inv; try done.
  - intros c' r' [?|Hg]; [done|]. apply elem_of_union_r, (Hfresh c' r'). by right.
  - intros c'. rewrite Htr. split; (intros [?|[r ?]]; [by left|done]).
  - intros c' [->%elem_of_singleton|H']%elem_of_union; [left; set_solver|].
    destruct (Hcl c' H') as [?|?]; [left; set_solver|by right].
  - destruct (s_stop s); try done. destruct Hst as (? & ? & ? & Hwg). unfold wg_zero in Hwg.
    by rewrite Hl in Hwg.
Qed.

Lemma on_accept_inv c remote errs s :
  s_loop s = Accepting errs -> s_ln_open s = true -> c ∉ s_accepted s ->
  server_inv s -> server_inv (on_accept c remote s).
Proof.
  intros Hl Ho Hc Hi. pose proof (fresh_session s c Hi Hc) as Hnew. unfold on_accept. simpl.
  destruct (isLoopbackConn remote) eqn:Hlo; simpl; [|by eapply reject_inv].
  destruct (Z.leb_spec (s_maxConns s) (s_sem s)); [by eapply reject_inv|].
  destruct Hi as [Hsem Hcap Hact Hfresh Hpend Hloop Htr Hcl Hst]. open_inv. rewrite Hl in *.
  split; open_inv; try done; try lia.
  - intros c' r' [[= <- <-]|Hg]; [set_solver|]. apply elem_of_union_r, (Hfresh c' r'). by right.
  - by intros c' r' [= <- <-].
  - intros c' r' [[= <- <-]|Hg]; [done|]. apply (Hloop c' r'). by right.
  - intros c'. rewrite Htr. split; (intros [?|[r ?]]; [by left|done]).
  - intros c' [->%elem_of_singleton|H']%elem_of_union; [right; exists remote; by left|].
    destruct (Hcl c' H') as [?|(r & [?|?])]; [by left|done|right; exists r; by right].
  - destruct (s_stop s); try done; try (by destruct Hst as (_ & Hst & _); congruence).
Qed.

Lemma on_accept_error_inv errs s :
  s_loop s = Accepting errs -> server_inv s -> server_inv (on_accept_error errs s).
Proof.
  intros Hl Hi. assert (forall pc, pc = LoopDone \/ (exists e, pc = Accepting e) ->
    server_inv (s <| s_loop := pc |>)) as Hgo.
  { intros pc Hpc. destruct Hi as [Hsem Hcap Hact Hfresh Hpend Hloop Htr Hcl Hst]. open_inv.
    rewrite Hl in *. assert (forall A (x : nat -> string -> option A), match pc with
      Tracking c r | Launching c r => x c r | _ => None end = None) as Hn
      by (intros A x; destruct Hpc as [->|[e ->]]; done).
    split; open_inv; rewrite ?Hn; try done.
    - intros c. rewrite Htr. split; (intros [?|[r ?]]; [by left|]); [done|].
      destruct Hpc as [->|[e ->]]; done.
    - destruct (s_stop s); try done. unfold wg_zero in *. simpl. rewrite Hl in Hst. naive_solver. }
  unfold on_accept_error. destruct (s_closing s); [apply Hgo; by left|].
  destruct (maxConsecutiveErrors <=? errs + 1); apply Hgo; [by left|right; by eexists].
Qed.

Lemma track_inv c r s :
  s_loop s = Tracking c r -> server_inv s ->
  server_inv ((trackConn c s) <| s_loop := Launching c r |>).
Proof.
  intros Hl [Hsem Hcap Hact Hfresh Hpend Hloop Htr Hcl Hst]. open_inv. rewrite Hl in *.
  split; open_inv; try done.
  - intros c'. rewrite elem_of_union, elem_of_singleton, Htr. split.
    + intros [->|[?|[r' ?]]]; [right; by eexists|by left|done].
    + intros [?|[r' [= <- _]]]; [right; by left|by left].
  - destruct (s_stop s); try done. destruct Hst as (? & ? & ? & Hwg). unfold wg_zero in Hwg.
    by rewrite Hl in Hwg.
Qed.

Lemma launch_inv c r s : s_loop s = Launching c r -> server_inv s -> server_inv (launch c r s).
Proof.
  intros Hl Hi. destruct Hi as [Hsem Hcap Hact Hfresh Hpend Hloop Htr Hcl Hst]. open_inv.
  rewrite Hl in *. assert (s_sessions s !! c = None) as Hnew by by eapply Hpend.
  assert (forall c' x, <[c := (r, Running)]> (s_sessions s) !! c' = Some x <->
    (c' = c /\ x = (r, Running)) \/ (c' <> c /\ s_sessions s !! c' = Some x)) as Hin.
  { intros c' x. rewrite lookup_insert_Some. naive_solver. }
  split; open_inv; try done.
  - rewrite size_filter_new by done. rewrite Hsem. unfold one_if. simpl. lia.
  - rewrite size_filter_new by done. rewrite Hact. unfold one_if. rewrite decide_True by (by left). lia.
  - intros c' r' [?|[g [[-> [= -> ->]]|[_ Hg]]%Hin]]; [done|apply (Hfresh c r); by left|].
    apply (Hfresh c' r'). right. by exists g.
  - intros c' r' [?|[g [[-> [= -> ->]]|[_ Hg]]%Hin]]; [done|apply (Hloop c r); by left|].
    apply (Hloop c' r'). right. by exists g.
  - intros c'. rewrite Htr. setoid_rewrite Hin. split.
    + intros [(r' & g & Hg & Hne)|[r' [= -> ->]]]; left.
      * exists r', g. split; [|done]. right. split; [|done]. intros ->. congruence.
      * exists r', Running. split; [by left|done].
    + intros [(r' & g & [[-> [= -> ->]]|[_ Hg]] & Hne)|[r' ?]]; [right; by eexists|left; by exists r', g|done].
  - intros c' H'. destruct (Hcl c' H') as [?|(r' & [[= -> ->]|[g Hg]])]; [by left| |].
    + right. exists r'. right. exists Running. by rewrite lookup_insert_eq.
    + right. exists r'. right. exists g. apply Hin. right. split; [|done]. intros ->. congruence.
  - destruct (s_stop s); try done. destruct Hst as (? & ? & ? & Hwg). unfold wg_zero in Hwg.
    by rewrite Hl in Hwg.
Qed.

(** A session that moves to its next stage is still served, with the same address. *)
Lemma served_update (m : gmap nat (string * stage)) c r g g' c' r' :
  m !! c = Some (r, g) ->
  (exists g0, <[c := (r, g')]> m !! c' = Some (r', g0)) <-> (exists g0, m !! c' = Some (r', g0)).
Proof.
  intros Hc. destruct (decide (c' = c)) as [->|Hne].
  - rewrite lookup_insert_eq. split; intros [g0 Hg]; [|eexists]; naive_solver.
  - by rewrite lookup_insert_ne by done.
Qed.

Lemma tracked_update (m : gmap nat (string * stage)) c r g g' c' :
  m !! c = Some (r, g) -> g <> Untracked ->
  (exists r' g0, <[c := (r, g')]> m !! c' = Some (r', g0) /\ g0 <> Untracked) <->
  (exists r' g0, m !! c' = Some (r', g0) /\ g0 <> Untracked) /\ (c' = c -> g' <> Untracked).
Proof.
  intros Hc Hg. destruct (decide (c' = c)) as [->|Hne].
  - rewrite lookup_insert_eq. naive_solver.
  - rewrite lookup_insert_ne by done. naive_solver.
Qed.

(** One stage of a deferred function, given what it did to the slots, the counter
    and the tracked connections. *)
Lemma next_stage_inv c r g g' s sem' st' active' :
  s_sessions s !! c = Some (r, g) -> g <> Untracked -> server_inv s ->
  sem' = s_sem s - one_if (g = Running) -> g' <> Running ->
  statActive st' = statActive (s_stats s) - one_if (g = Running \/ g = Released) + one_if (g' = Released) ->
  (forall c', c' ∈ active' <-> c' ∈ s_active s /\ (c' = c -> g' <> Untracked)) ->
  server_inv (s <| s_sem := sem' |> <| s_stats := st' |> <| s_active := active' |>
                <| s_sessions ::= insert c (r, g') |>).
Proof.
  intros Hc Hg Hi -> Hg' Hst' Hact'.
  destruct Hi as [Hsem Hcap Hact Hfresh Hpend Hloop Htr Hcl Hst]. open_inv.
  assert (forall c' r' (P : Prop),
    P \/ (exists g0, <[c := (r, g')]> (s_sessions s) !! c' = Some (r', g0)) ->
    P \/ exists g0, s_sessions s !! c' = Some (r', g0)) as Hsv.
  { intros c' r' P [?|H]; [by left|right]. by apply (served_update _ c r g g' c' r' Hc). }
  split; open_inv.
  - rewrite (size_filter_update _ _ c (r, g)) by done. rewrite Hsem.
    change (one_if (holds_slot (c, (r, g)))) with (one_if (g = Running)).
    rewrite (one_if_false (holds_slot (c, (r, g')))) by done. lia.
  - pose proof (one_if_bounds (g = Running)). lia.
  - rewrite (size_filter_update _ _ c (r, g)), Hst', Hact by done.
    change (one_if (counted (c, (r, g)))) with (one_if (g = Running \/ g = Released)).
    rewrite (one_if_iff (counted (c, (r, g'))) (g' = Released)) by (unfold counted; naive_solver). lia.
  - intros c' r' H%Hsv. by apply (Hfresh c' r').
  - intros c' r' H. rewrite lookup_insert_ne; [by eapply Hpend|].
    intros ->. specialize (Hpend _ _ H). congruence.
  - intros c' r' H%Hsv. by apply (Hloop c' r').
  - intros c'. rewrite Hact', Htr, (tracked_update _ c r g) by done. split.
    + intros [[?|?] ?]; [by left|by right].
    + intros [[? ?]|[r' Hl]]; [split; [by left|done]|split; [right; by eexists|]].
      intros ->. rewrite Hl in Hpend. specialize (Hpend _ _ eq_refl). congruence.
  - intros c' H'. destruct (Hcl c' H') as [?|(r' & [?|Hg0])]; [by left|right; exists r'; by left|].
    right. exists r'. right. by apply (served_update _ c r g g' c' r' Hc).
  - destruct (s_stop s); try done. destruct Hst as (? & ? & ? & Hwg). exfalso.
    unfold wg_zero in Hwg. destruct (s_loop s); try done;
      apply bool_decide_eq_true in Hwg; by rewrite Hwg, lookup_empty in Hc.
Qed.

Lemma last_stage_inv c r s :
  s_sessions s !! c = Some (r, Untracked) -> server_inv s ->
  server_inv (s <| s_conn_closed ::= union {[c]} |> <| s_sessions ::= delete c |>).
Proof.
  intros Hc [Hsem Hcap Hact Hfresh Hpend Hloop Htr Hcl Hst]. open_inv.
  assert (forall c' x, delete c (s_sessions s) !! c' = Some x -> c' <> c /\ s_sessions s !! c' = Some x) as Hd
    by (intros c' x; rewrite lookup_delete_Some; naive_solver).
  split; open_inv; try done.
  - rewrite (size_filter_delete _ _ c (r, Untracked)) by done. rewrite Hsem. unfold one_if. simpl. lia.
  - rewrite (size_filter_delete _ _ c (r, Untracked)) by done. rewrite Hact. unfold one_if.
    rewrite decide_False by (by intros [?|?]). lia.
  - intros c' r' [?|[g [_ Hg]%Hd]]; apply (Hfresh c' r'); [by left|right; by exists g].
  - intros c' r' H. rewrite lookup_delete_None. right. by eapply Hpend.
  - intros c' r' [?|[g [_ Hg]%Hd]]; apply (Hloop c' r'); [by left|right; by exists g].
  - intros c'. rewrite Htr. split.
    + intros [(r' & g & Hg & Hne)|?]; [left|by right]. exists r', g. split; [|done].
      rewrite lookup_delete_ne; [done|]. intros ->. rewrite Hc in Hg. naive_solver.
    + intros [(r' & g & [_ Hg]%Hd & Hne)|?]; [left; by exists r', g|by right].
  - intros c' H'. destruct (decide (c' = c)) as [->|Hne]; [left; set_solver|].
    destruct (Hcl c' H') as [?|(r' & [?|[g Hg]])]; [left; set_solver|right; exists r'; by left|].
    right. exists r'. right. exists g. by rewrite lookup_delete_ne by done.
  - destruct (s_stop s); try done. destruct Hst as (? & ? & ? & Hwg). exfalso.
    unfold wg_zero in Hwg. destruct (s_loop s); try done;
      apply bool_decide_eq_true in Hwg; by rewrite Hwg, lookup_empty in Hc.
Qed.

Lemma finish_stage_inv c r g s :
  s_sessions s !! c = Some (r, g) -> server_inv s -> server_inv (finish_stage c r g s).
Proof.
  intros Hc Hi. destruct g; simpl.
  - pose proof (next_stage_inv c r Running Released s (Z.add (-1) (s_sem s)) (s_stats s) (s_active s)) as Hn.
    simpl in Hn. apply Hn; try done; unfold one_if; simpl; [lia|lia|naive_solver].
  - pose proof (next_stage_inv c r Released Uncounted s (s_sem s)
      ((s_stats s) <| statActive ::= Z.add (-1) |>) (s_active s)) as Hn.
    simpl in Hn. apply Hn; try done; unfold one_if; simpl; [lia|lia|naive_solver].
  - pose proof (next_stage_inv c r Uncounted Untracked s (s_sem s) (s_stats s) (s_active s ∖ {[c]})) as Hn.
    simpl in Hn. apply Hn; try done; unfold one_if; simpl; [lia|lia|]. intros c'. set_solver.
  - by eapply last_stage_inv.
Qed.

Lemma step_inv s s' : step s s' -> server_inv s -> server_inv s'.
Proof.
  intros Hs Hi. destruct Hs as [c r e s Hl Ho Hc|e s Hl|c r s Hl|c r s Hl|c r g s Hc
                               |s Hst|s Hst|l s Hst|l s Hst|s Hst Hw].
  - by eapply on_accept_inv.
  - by eapply on_accept_error_inv.
  - by eapply track_inv.
  - by eapply launch_inv.
  - by apply finish_stage_inv.
  - by destruct Hi; split.
  - destruct Hi as [? ? ? ? ? ? ? ? Hi]. rewrite Hst in Hi. by split.
  - destruct Hi as [? ? ? ? ? ? ? ? Hi]. rewrite Hst in Hi. by split.
  - destruct Hi as [? ? ? ? ? ? ? Hcl Hi]. rewrite Hst in Hi. split; try done.
    intros c Hc. destruct (Hcl c Hc) as [?|?]; [left; simpl; set_solver|by right].
  - destruct Hi as [? ? ? ? ? ? ? ? Hi]. rewrite Hst in Hi. split; try done. simpl. naive_solver.
Qed.

Lemma reach_inv s s' : rtc step s s' -> server_inv s -> server_inv s'.
Proof. induction 1; eauto using step_inv. Qed.

(** What never changes after construction. *)
Definition config_of (s : Server) : string * Z * bool := (s_listen s, s_maxConns s, s_udpEnabled s).

Lemma step_config s s' : step s s' -> config_of s' = config_of s.
Proof.
  destruct 1; try done.
  - unfold on_accept. by repeat case_match.
  - unfold on_accept_error. by repeat case_match.
  - by destruct g.
Qed.

(** ** Properties *)

(** The server binds a loopback address or nothing: whatever [net.Listen]
    answers, it is asked only for an address that parses to a loopback address,
    and a refused start leaves the server as it was. *)
Theorem Start_loopback_only Listen s s' :
  Start Listen s = Ok s' ->
  exists ap bound, ParseAddrPort (s_listen s) = Some ap /\ IsLoopback (ap_addr ap) = true /\
    Listen (s_listen s) = Ok bound /\ s_ln s' = Some bound /\ Listening s' = negb (s_closing s).
Proof.
  unfold Start. destruct (ParseAddrPort (s_listen s)) as [ap|]; [|done].
  destruct (IsLoopback (ap_addr ap)) eqn:Hl; [|done]. simpl.
  destruct (Listen (s_listen s)) as [bound|]; [|done]. intros [= <-]. by exists ap, bound.
Qed.

(** A kernel that binds what it is asked. *)
Definition bind_any (a : string) : result error string := Ok a.

(** The server of the default configuration, started. *)
Definition started_server (maxConns : Z) : Server :=
  MkServer "127.0.0.1:1080" (ResolveMaxConns maxConns) true (Some "127.0.0.1:1080") ∅ true false
    Stats_zero 0 true (Accepting 0) ∅ NotStopping ∅ ∅.

Lemma Start_loopback_only_witness :
  exists ap bound, ParseAddrPort "127.0.0.1:1080" = Some ap /\ IsLoopback (ap_addr ap) = true /\
    bind_any "127.0.0.1:1080" = Ok bound /\ s_ln (started_server 0) = Some bound /\
    Listening (started_server 0) = negb false.
Proof. apply (Start_loopback_only bind_any (New "127.0.0.1:1080" 0) (started_server 0)). by vm_compute. Defined.

(** C23: while the server runs, in every interleaving of the accept loop, the
    sessions and [Stop]: every connection it serves comes from a loopback address,
    at most [maxConns] sessions are being handled, the active counter counts the
    sessions, and a connection it accepted is served or closed. *)
Theorem serving_invariant Listen listen maxConns udp s s' :
  Start Listen (NewWithOptions listen maxConns udp) = Ok s -> rtc step s s' ->
  (forall c r, served s' c r -> isLoopbackConn r = true) /\
  Z.of_nat (size (filter holds_slot (s_sessions s'))) <= ResolveMaxConns maxConns /\
  statActive (s_stats s') = Z.of_nat (size (filter counted (s_sessions s'))) /\
  (forall c, c ∈ s_accepted s' -> c ∈ s_conn_closed s' \/ exists r, served s' c r).
Proof.
  intros Hs Hr. assert (s_maxConns s' = ResolveMaxConns maxConns) as Hm.
  { assert (config_of s' = config_of s) as [= _ Hm _].
    { clear Hs. induction Hr as [|x y z H1 _ IH]; [done|]. rewrite IH. by apply step_config. }
    rewrite Hm. unfold Start in Hs. simpl in Hs. repeat case_match; by simplify_eq/=. }
  destruct (reach_inv _ _ Hr (Start_inv _ _ _ _ _ Hs)) as [Hsem Hcap].
  split_and!; [done| |done|done]. unfold pending_count in Hsem. destruct (pending s'); lia.
Qed.

(** C24: once [Stop] has returned (the call that set [closing]; another one does not
    wait) nothing of the server is left running: the listener is closed, the accept loop
    has returned, no session is running and every connection ever accepted is closed. *)
Theorem Stop_leaves_nothing Listen listen maxConns udp s s' :
  Start Listen (NewWithOptions listen maxConns udp) = Ok s -> rtc step s s' ->
  s_stop s' = Stopped ->
  s_ln_open s' = false /\ Listening s' = false /\ s_sessions s' = ∅ /\ pending s' = None /\
  s_accepted s' ⊆ s_conn_closed s'.
Proof.
  intros Hs Hr Hst. destruct (reach_inv _ _ Hr (Start_inv _ _ _ _ _ Hs)) as [_ _ _ _ _ _ _ Hcl Hi].
  rewrite Hst in Hi. destruct Hi as (Hc & Ho & Hstart & Hw).
  assert (s_sessions s' = ∅ /\ pending s' = None) as [He Hp].
  { unfold wg_zero, pending in *. destruct (s_loop s'); try done; by apply bool_decide_eq_true in Hw. }
  unfold Listening. rewrite Hstart. split_and!; [done..|].
  intros c Hc'. destruct (Hcl c Hc') as [?|(r & [Hr'|[g Hg]])]; [done|congruence|].
  by rewrite He, lookup_empty in Hg.
Qed.

(** A run: one connection is served to its end, then the server is stopped. *)
Definition run_one (s : Server) : Server :=
  let s := on_accept 0 "127.0.0.1:50000" s in
  let s := (trackConn 0 s) <| s_loop := Launching 0 "127.0.0.1:50000" |> in
  let s := launch 0 "127.0.0.1:50000" s in
  foldl (fun s g => finish_stage 0 "127.0.0.1:50000" g s) s [Running; Released; Uncounted; Untracked].

Definition run_stop (s : Server) : Server :=
  let s := s <| s_closing := true |> <| s_stop := Swapped |> in
  let s := s <| s_ln := None |> <| s_stop := Snapshot (s_active s) |> in
  let s := s <| s_ln_open := false |> <| s_stop := ListenerClosed ∅ |> in
  let s := on_accept_error 0 (s <| s_conn_closed ::= union ∅ |> <| s_stop := Waiting |>) in
  s <| s_started := false |> <| s_stop := Stopped |>.

Lemma run_one_steps : rtc step (started_server 0) (run_one (started_server 0)).
Proof.
  eapply rtc_l; [by apply (step_accept 0 "127.0.0.1:50000" 0)|].
  eapply rtc_l; [by apply (step_track 0 "127.0.0.1:50000")|].
  eapply rtc_l; [by apply (step_launch 0 "127.0.0.1:50000")|].
  eapply rtc_l; [by apply (step_session 0 "127.0.0.1:50000" Running)|].
  eapply rtc_l; [by apply (step_session 0 "127.0.0.1:50000" Released)|].
  eapply rtc_l; [by apply (step_session 0 "127.0.0.1:50000" Uncounted)|].
  eapply rtc_l; [by apply (step_session 0 "127.0.0.1:50000" Untracked)|]. apply rtc_refl.
Qed.

Lemma run_stop_steps : rtc step (run_one (started_server 0)) (run_stop (run_one (started_server 0))).
Proof.
  eapply rtc_l; [by apply step_stop|]. eapply rtc_l; [by apply step_snapshot|].
  eapply rtc_l; [by apply (step_close_listener ∅)|]. eapply rtc_l; [by apply (step_close_conns ∅)|].
  eapply rtc_l; [by apply (step_accept_error 0)|]. eapply rtc_l; [by apply step_wait|]. apply rtc_refl.
Qed.

Lemma serving_invariant_witness :
  (forall c r, served (run_one (started_server 0)) c r -> isLoopbackConn r = true) /\
  Z.of_nat (size (filter holds_slot (s_sessions (run_one (started_server 0))))) <= 1024 /\
  statActive (s_stats (run_one (started_server 0)))
  = Z.of_nat (size (filter counted (s_sessions (run_one (started_server 0))))) /\
  (forall c, c ∈ s_accepted (run_one (started_server 0)) ->
     c ∈ s_conn_closed (run_one (started_server 0)) \/ exists r, served (run_one (started_server 0)) c r).
Proof.
  exact (serving_invariant bind_any "127.0.0.1:1080" 0 true (started_server 0) _ eq_refl run_one_steps).
Defined.

Lemma Stop_leaves_nothing_witness :
  let s := run_stop (run_one (started_server 0)) in
  s_ln_open s = false /\ Listening s = false /\ s_sessions s = ∅ /\ pending s = None /\
  s_accepted s ⊆ s_conn_closed s.
Proof.
  apply (Stop_leaves_nothing bind_any "127.0.0.1:1080" 0 true (started_server 0)); [done| |done].
  etransitivity; [apply run_one_steps|apply run_stop_steps].
Defined.

(** [Stop] may wait for a session it did not close.  A connection that was
    accepted, but not yet tracked, when [Stop] takes its snapshot is still handed
    to a session: [Stop] then waits while that session runs and nothing has closed
    its connection, until the peer ends it. *)
Theorem Stop_misses_connection :
  exists s c r, rtc step (started_server 0) s /\
    s_stop s = Waiting /\ s_sessions s !! c = Some (r, Running) /\ (c ∉ s_conn_closed s) /\
    wg_zero s = false.
Proof.
  eexists. exists 0%nat, "127.0.0.1:50000". split; [|split_and!].
  { eapply rtc_l; [by apply (step_accept 0 "127.0.0.1:50000" 0)|].
    eapply rtc_l; [by apply step_stop|]. eapply rtc_l; [by apply step_snapshot|].
    eapply rtc_l; [by apply (step_close_listener ∅)|]. eapply rtc_l; [by apply (step_close_conns ∅)|].
    eapply rtc_l; [by apply (step_track 0 "127.0.0.1:50000")|].
    eapply rtc_l; [by apply (step_launch 0 "127.0.0.1:50000")|]. apply rtc_refl. }
  all: by vm_compute.
Qed.

(** After ten accept errors in a row the loop gives up, and the server still
    reports that it is listening. *)
Theorem Listening_after_loop_gave_up :
  exists s, rtc step (started_server 0) s /\ s_loop s = LoopDone /\ s_closing s = false /\
    Listening s = true.
Proof.
  exists (foldl (fun s e => on_accept_error e s) (started_server 0) [0; 1; 2; 3; 4; 5; 6; 7; 8; 9]).
  split; [|by vm_compute]. simpl.
  do 10 (eapply rtc_l; [by eapply step_accept_error|]). apply rtc_refl.
Qed.
