(* ===== verification/SocksSnapshot.v ===== *)
(** [Stats] of src/internal/socks5/server.go: the counters are read one after the other
    while the server runs, so a snapshot is no single moment of it. *)

From S2P Require Import Prelude GoErrors GoNetip SocksDial SocksServer.

#[local] Set Default Proof Using "Type".

(** [Stats], as the struct that is returned. *)
Record Snapshot := MkSnapshot {
  sn_Listen : string;
  sn_Listening : bool;
  sn_Active : Z;
  sn_Total : Z;
  sn_Rejected : Z;
  sn_Failed : Z;
  sn_Hostname : Z;
  sn_Unresolved : Z;
  sn_BytesToPeer : Z;
  sn_BytesToUser : Z;
  sn_UDPEnabled : bool;
  sn_UDPAssociations : Z;
  sn_UDPDatagramsUp : Z;
  sn_UDPDatagramsDown : Z;
  sn_UDPDropped : Z;
  sn_UDPBytesUp : Z;
  sn_UDPBytesDown : Z;
}.

(** [Stats], where [at_ k] is the server as the k-th of its reads finds it, in the order of
    the fields. *)
Definition Server_Stats (at_ : nat -> Server) : Snapshot :=
  let st k := s_stats (at_ k) in
  MkSnapshot (Addr_of (at_ 0%nat)) (Listening (at_ 1%nat)) (statActive (st 2%nat)) (statTotal (st 3%nat))
    (statRejected (st 4%nat)) (statFailed (st 5%nat)) (statHostname (st 6%nat)) (statNoName (st 7%nat)) (statTx (st 8%nat))
    (statRx (st 9%nat)) (s_udpEnabled (at_ 10%nat)) (statUDPAssoc (st 11%nat)) (statUDPSent (st 12%nat))
    (statUDPReceived (st 13%nat)) (statUDPDropped (st 14%nat)) (statUDPBytesUp (st 15%nat)) (statUDPBytesDown (st 16%nat)).

(** The counters that only grow. *)
Definition grown (a b : Stats) : Prop :=
  statTotal a <= statTotal b /\ statRejected a <= statRejected b /\ statFailed a <= statFailed b /\
  statHostname a <= statHostname b /\ statNoName a <= statNoName b /\ statTx a <= statTx b /\ statRx a <= statRx b /\
  statUDPAssoc a <= statUDPAssoc b /\ statUDPSent a <= statUDPSent b /\ statUDPReceived a <= statUDPReceived b /\
  statUDPDropped a <= statUDPDropped b /\ statUDPBytesUp a <= statUDPBytesUp b /\ statUDPBytesDown a <= statUDPBytesDown b.

(** What happens between two reads: the server, and the sessions that count what they do. *)
Inductive counts : Server -> Server -> Prop :=
| cs_server s s' : step s s' -> counts s s'
| cs_session s st : statActive st = statActive (s_stats s) -> statTotal st = statTotal (s_stats s) -> grown (s_stats s) st ->
    counts s (s <| s_stats := st |>).

#[global] Instance grown_preorder : PreOrder grown.
Proof. split; [intros a; unfold grown; split_and!; lia|intros a b c; unfold grown; intros; destruct_and!; split_and!; lia]. Qed.

(** The sessions that are active were counted. *)
Definition counters_ok (s : Server) : Prop := 0 <= statActive (s_stats s) <= statTotal (s_stats s).

Lemma step_counters s s' : server_inv s -> step s s' ->
  grown (s_stats s) (s_stats s') /\ (counters_ok s -> server_inv s' -> counters_ok s') /\ s_udpEnabled s' = s_udpEnabled s.
Proof.
  intros Hi Hs. assert (server_inv s' -> 0 <= statActive (s_stats s')) as Hpos by (intros Hi'; rewrite (inv_active s' Hi'); lia).
  unfold counters_ok. destruct Hs as [c r e s|e s|c r s|c r s|c r g s|s|s|cn s|cn s|s]; destruct s as [l mc ue ln ac st cl sts sem lo lp se sp acc cc];
    unfold on_accept, on_accept_error, count_rejected, launch, finish_stage in *; simpl in *;
    try (repeat case_match); destruct sts; unfold grown; simpl in *; (split; [split_and!; lia|]); (split; [|done]); intros ? Hi'; specialize (Hpos Hi'); lia.
Qed.

Lemma counts_ok s s' : server_inv s -> counters_ok s -> counts s s' ->
  server_inv s' /\ counters_ok s' /\ grown (s_stats s) (s_stats s') /\ s_udpEnabled s' = s_udpEnabled s.
Proof.
  intros Hi Hc Hs. destruct Hs as [s1 s2 Hs|s1 st Ha Ht Hg].
  - pose proof (step_inv _ _ Hs Hi) as Hi'. destruct (step_counters _ _ Hi Hs) as (H1 & H2 & H3). auto.
  - split; [|split; [unfold counters_ok in *; destruct s1; simpl in *; lia|by destruct s1]].
    destruct Hi. destruct s1. split; simpl in *; try done. by rewrite Ha.
Qed.

Lemma counts_run s s' : rtc counts s s' -> server_inv s -> counters_ok s ->
  server_inv s' /\ counters_ok s' /\ grown (s_stats s) (s_stats s') /\ s_udpEnabled s' = s_udpEnabled s.
Proof.
  induction 1 as [s|s s1 s2 Hs _ IH]; intros Hi Hc; [by split_and!|].
  destruct (counts_ok _ _ Hi Hc Hs) as (H1 & H2 & H3 & H4). destruct (IH H1 H2) as (H5 & H6 & H7 & H8).
  split_and!; try done; [by etrans|congruence].
Qed.

(** A snapshot of a running server, whatever happens while it is taken: it never shows
    more active sessions than were ever accepted, nor fewer than none, and each counter
    has a value that it had during the call. *)
Theorem Stats_consistent Listen listen maxConns udp s0 (at_ : nat -> Server) :
  Start Listen (NewWithOptions listen maxConns udp) = Ok s0 ->
  rtc counts s0 (at_ 0%nat) -> (forall k, rtc counts (at_ k) (at_ (S k))) ->
  let sn := Server_Stats at_ in
  let first := s_stats (at_ 0%nat) in let final := s_stats (at_ 16%nat) in
  0 <= sn_Active sn <= sn_Total sn /\ sn_UDPEnabled sn = udp /\
  statTotal first <= sn_Total sn <= statTotal final /\ statRejected first <= sn_Rejected sn <= statRejected final /\
  statFailed first <= sn_Failed sn <= statFailed final /\ statTx first <= sn_BytesToPeer sn <= statTx final /\
  statRx first <= sn_BytesToUser sn <= statRx final /\ statUDPDropped first <= sn_UDPDropped sn <= statUDPDropped final.
Proof.
  intros Hs H0 Hk. pose proof (Start_inv _ _ _ _ _ Hs) as Hi0.
  assert (s_stats s0 = Stats_zero /\ s_udpEnabled s0 = udp) as [Hz Hu].
  { unfold Start in Hs. simpl in Hs. destruct (ParseAddrPort listen); [|done]. destruct (negb _); [done|].
    destruct (Listen listen); [|done]. by injection Hs as <-. }
  assert (counters_ok s0) as Hc0 by (unfold counters_ok; rewrite Hz; done).
  assert (forall k, server_inv (at_ k) /\ counters_ok (at_ k) /\ s_udpEnabled (at_ k) = udp) as Hat.
  { intros k. induction k as [|k (I1 & I2 & I3)].
    - destruct (counts_run _ _ H0 Hi0 Hc0) as (? & ? & _ & Hue). by rewrite <-Hu.
    - destruct (counts_run _ _ (Hk k) I1 I2) as (? & ? & _ & Hue). by rewrite <-I3. }
  assert (forall j k, (j <= k)%nat -> grown (s_stats (at_ j)) (s_stats (at_ k))) as Hg.
  { intros j k Hjk. induction Hjk as [|k _ IH]; [done|]. etrans; [exact IH|]. destruct (Hat k) as (I1 & I2 & _).
    by destruct (counts_run _ _ (Hk k) I1 I2) as (_ & _ & ? & _). }
  assert (forall k, (k <= 16)%nat -> grown (s_stats (at_ 0%nat)) (s_stats (at_ k)) /\ grown (s_stats (at_ k)) (s_stats (at_ 16%nat))) as Hb
    by (intros k Hle; split; apply Hg; lia).
  cbn zeta. unfold Server_Stats. cbn [sn_Active sn_Total sn_UDPEnabled sn_Rejected sn_Failed sn_BytesToPeer sn_BytesToUser sn_UDPDropped].
  destruct (Hat 2%nat) as (_ & [Hp Hle] & _). pose proof (Hg 2%nat 3%nat ltac:(lia)) as (H23 & _).
  destruct (Hb 3%nat ltac:(lia)) as [(? & _) (? & _)]. destruct (Hb 4%nat ltac:(lia)) as [(_ & ? & _) (_ & ? & _)].
  destruct (Hb 5%nat ltac:(lia)) as [B5 B5']. destruct (Hb 8%nat ltac:(lia)) as [B8 B8']. destruct (Hb 9%nat ltac:(lia)) as [B9 B9'].
  destruct (Hb 14%nat ltac:(lia)) as [B14 B14']. unfold grown in *. destruct_and!. split_and!; try lia. by apply (Hat 10%nat).
Qed.
