(* ===== verification/Params.v ===== *)
(** The tables of configuration keys: src/internal/config/params.go, and the
    MTU arithmetic of tunnel.go. *)

From S2P Require Import Prelude GoStrings.

(** ** Tables *)

Inductive paramKind :=
| kindOther
| kindUint16
| kindRangeU32
| kindRangeU16
| kindBool
| kindKeyBase64
| kindObfChain.

#[global] Instance paramKind_eq_dec : EqDecision paramKind.
Proof. solve_decision. Defined.

Record supportedParam := MkParam { kind : paramKind; awg : bool }.

Definition plain (k : paramKind) : supportedParam := MkParam k false.
Definition awgp (k : paramKind) : supportedParam := MkParam k true.

Definition interfaceParams : gmap string supportedParam := list_to_map [
  ("privatekey", plain kindKeyBase64);
  ("listenport", plain kindUint16);
  ("mtu", plain kindOther);
  ("address", plain kindOther);
  ("dns", plain kindOther);
  ("table", plain kindOther);
  ("jc", awgp kindUint16);
  ("jmin", awgp kindUint16);
  ("jmax", awgp kindUint16);
  ("s1", awgp kindUint16);
  ("s2", awgp kindUint16);
  ("s3", awgp kindUint16);
  ("s4", awgp kindUint16);
  ("h1", awgp kindRangeU32);
  ("h2", awgp kindRangeU32);
  ("h3", awgp kindRangeU32);
  ("h4", awgp kindRangeU32);
  ("i1", awgp kindObfChain);
  ("i2", awgp kindObfChain);
  ("i3", awgp kindObfChain);
  ("i4", awgp kindObfChain);
  ("i5", awgp kindObfChain);
  ("headerprotectionkey", awgp kindKeyBase64);
  ("contentpaddingaddition", awgp kindRangeU16);
  ("rekeyaftertime", awgp kindRangeU16);
  ("rekeytimeout", awgp kindRangeU16);
  ("rejectaftertime", awgp kindRangeU16);
  ("keepalivetimeout", awgp kindRangeU16);
  ("maxhandshakeattempts", awgp kindRangeU16);
  ("randomtrailers", awgp kindBool);
  ("disablecookies", awgp kindBool)
].

Definition peerParams : gmap string supportedParam := list_to_map [
  ("publickey", plain kindKeyBase64);
  ("presharedkey", plain kindKeyBase64);
  ("allowedips", plain kindOther);
  ("persistentkeepalive", plain kindOther);
  ("endpoint", plain kindOther)
].

Definition scriptHookKeys : list string := ["preup"; "postup"; "predown"; "postdown"].

Definition emptyValueAllowed : list string :=
  ["i1"; "i2"; "i3"; "i4"; "i5"; "headerprotectionkey"; "contentpaddingaddition";
   "rekeyaftertime"; "rekeytimeout"; "rejectaftertime"; "keepalivetimeout";
   "maxhandshakeattempts"; "randomtrailers"; "disablecookies"].

(** ** Generations *)

Definition has_any (keys : gset string) (names : list string) : bool :=
  existsb (fun n => bool_decide (n ∈ keys)) names.

Definition awgGeneration (keys : gset string) : string :=
  if has_any keys ["i1"; "i2"; "i3"; "i4"; "i5"; "headerprotectionkey"; "contentpaddingaddition";
                   "rekeyaftertime"; "rekeytimeout"; "rejectaftertime"; "keepalivetimeout";
                   "maxhandshakeattempts"; "randomtrailers"; "disablecookies"]
  then "AmneziaWG 2.0/3.x (I1-I5, header protection, timing parameters)"
  else if has_any keys ["s3"; "s4"] then "AmneziaWG 1.5 (Jc/Jmin/Jmax, S1-S4, H1-H4)"
  else if has_any keys ["jc"; "jmin"; "jmax"; "s1"; "s2"; "h1"; "h2"; "h3"; "h4"]
  then "AmneziaWG legacy/1.0 (Jc/Jmin/Jmax, S1-S2, H1-H4)"
  else "plain WireGuard (no AmneziaWG parameters)".

Definition normalizeKey (k : string) : string := ToLower (TrimSpace k).

(** [awgParamList]: the AmneziaWG keys present, in canonical order and spelling. *)
Definition awg_order : list string :=
  ["jc"; "jmin"; "jmax"; "s1"; "s2"; "s3"; "s4"; "h1"; "h2"; "h3"; "h4";
   "i1"; "i2"; "i3"; "i4"; "i5"; "headerprotectionkey"; "contentpaddingaddition";
   "rekeyaftertime"; "rekeytimeout"; "rejectaftertime"; "keepalivetimeout";
   "maxhandshakeattempts"; "randomtrailers"; "disablecookies"].

Definition awg_display : gmap string string := list_to_map [
  ("headerprotectionkey", "HeaderProtectionKey");
  ("contentpaddingaddition", "ContentPaddingAddition");
  ("rekeyaftertime", "RekeyAfterTime");
  ("rekeytimeout", "RekeyTimeout");
  ("rejectaftertime", "RejectAfterTime");
  ("keepalivetimeout", "KeepaliveTimeout");
  ("maxhandshakeattempts", "MaxHandshakeAttempts");
  ("randomtrailers", "RandomTrailers");
  ("disablecookies", "DisableCookies")
].

Definition display_name (k : string) : string := default (ToUpper k) (awg_display !! k).

Definition awgParamList (keys : gset string) : list string :=
  display_name <$> filter (fun k => k ∈ keys) awg_order.

(** ** MTU *)

Definition DefaultMTU : Z := 1420.
Definition MinSafeMTU : Z := 1280.

Definition SafeMTU (s4 contentPaddingMax : Z) : Z :=
  let mtu := DefaultMTU - s4 - contentPaddingMax in
  if mtu <? MinSafeMTU then MinSafeMTU else mtu.

Definition headerCipherNonceSize : Z := 12.

(** ** The tables agree

    The keys of the status list are the keys the tables mark as AmneziaWG's; a key
    that may be empty is one of them; a hook is never a key. *)

Lemma tables_agree :
  forallb (fun k => match interfaceParams !! k with Some p => awg p | None => false end) awg_order = true /\
  forallb (fun kp => implb (awg kp.2) (bool_decide (kp.1 ∈ awg_order))) (map_to_list interfaceParams) = true /\
  forallb (fun k => bool_decide (k ∈ awg_order)) emptyValueAllowed = true /\
  forallb (fun k => bool_decide (interfaceParams !! k = None)) scriptHookKeys = true.
Proof. by vm_compute. Qed.

#[global] Opaque interfaceParams peerParams awg_order.

Lemma awg_keys k p : interfaceParams !! k = Some p -> awg p = true <-> k ∈ awg_order.
Proof.
  destruct tables_agree as (H1 & H2 & _ & _). rewrite forallb_forall in H1, H2. intros Hk. split.
  - intros Ha. specialize (H2 (k, p)). simpl in H2. rewrite Ha in H2.
    apply elem_of_map_to_list, list_elem_of_In in Hk. apply (bool_decide_eq_true (k ∈ awg_order)). by apply H2.
  - intros Hin. specialize (H1 k). rewrite <-list_elem_of_In in H1. specialize (H1 Hin).
    by rewrite Hk in H1.
Qed.

Lemma SafeMTU_bounds s4 cpa :
  0 <= s4 -> 0 <= cpa -> MinSafeMTU <= SafeMTU s4 cpa <= DefaultMTU.
Proof. unfold SafeMTU, MinSafeMTU, DefaultMTU. intros. case_match; lia. Qed.

(** ** Properties *)

(** A full-size packet on the wire: the tunnel's MTU, the 32 bytes of WireGuard
    transport, the AmneziaWG prefix and padding, and the IPv6 and UDP headers. *)
Definition datagram_size (mtu s4 cpa : Z) : Z := mtu + 32 + s4 + cpa + 8 + 40.

(** C37: [SafeMTU] is the largest MTU of at most 1420 whose packets fit a 1500-byte
    path with the AmneziaWG overhead added, and never below the 1280 bytes of
    IPv6: within 140 bytes of overhead it fits exactly, and above them it is
    1280. *)
Theorem SafeMTU_largest s4 cpa :
  0 <= s4 -> 0 <= cpa ->
  MinSafeMTU <= SafeMTU s4 cpa <= DefaultMTU /\
  (s4 + cpa <= 140 -> datagram_size (SafeMTU s4 cpa) s4 cpa = 1500) /\
  (140 < s4 + cpa -> SafeMTU s4 cpa = MinSafeMTU) /\
  (forall mtu, SafeMTU s4 cpa < mtu -> 1500 < datagram_size mtu s4 cpa).
Proof.
  intros Hs Hc. split; [by apply SafeMTU_bounds|].
  unfold datagram_size, SafeMTU, MinSafeMTU, DefaultMTU.
  destruct (Z.ltb_spec (1420 - s4 - cpa) 1280); repeat split; intros; lia.
Qed.

Lemma SafeMTU_largest_witness :
  MinSafeMTU <= SafeMTU 43 0 <= DefaultMTU /\
  (43 + 0 <= 140 -> datagram_size (SafeMTU 43 0) 43 0 = 1500) /\
  (140 < 43 + 0 -> SafeMTU 43 0 = MinSafeMTU) /\
  (forall mtu, SafeMTU 43 0 < mtu -> 1500 < datagram_size mtu 43 0).
Proof. apply (SafeMTU_largest 43 0); lia. Defined.
