(* ===== verification/ConfValues.v ===== *)
(** Value parsers and validators: the value helpers of
    src/internal/config/tunnel.go and base64.go.

    Where the callers use only whether a helper failed and its message, the error
    is the message. *)

From S2P Require Import Prelude GoStrings GoBytes GoNetip.

(** ** Ranges and booleans *)

Inductive range_err := RangeMalformed | RangeLower | RangeUpper | RangeOrder (hi lo : Z).

Definition ParseUintRange (s : string) (bits : Z) : result range_err (Z * Z) :=
  let parts := Split "-" (TrimSpace s) in
  match parts with
  | [a] =>
      match ParseUint (TrimSpace a) bits with
      | None => Err RangeLower
      | Some lo => Ok (lo, lo)
      end
  | [a; b] =>
      match ParseUint (TrimSpace a) bits with
      | None => Err RangeLower
      | Some lo =>
          match ParseUint (TrimSpace b) bits with
          | None => Err RangeUpper
          | Some hi => if hi <? lo then Err (RangeOrder hi lo) else Ok (lo, hi)
          end
      end
  | _ => Err RangeMalformed
  end.

Definition ParseAWGBool (s : string) : option bool :=
  let v := ToLower (TrimSpace s) in
  if bool_decide (v ∈ ["on"; "1"; "true"; "t"; "yes"]) then Some true
  else if bool_decide (v ∈ ["off"; "0"; "false"; "f"; "no"]) then Some false
  else None.

(** ** Keys *)

(** The value of a character of the standard base64 alphabet. *)
Definition base64_val (c : ascii) : option Z :=
  let n := code c in
  if is_upper c then Some (n - 65)
  else if is_lower c then Some (n - 97 + 26)
  else if is_digit c then Some (n - 48 + 52)
  else if n =? 43 then Some 62
  else if n =? 47 then Some 63
  else None.

(** The quanta of [base64.StdEncoding.DecodeString], on a text without line ends:
    padding ends the text, and the bits it leaves over are not looked at. *)
Fixpoint decode_quanta (s : string) : option (list byte) :=
  match s with
  | EmptyString => Some []
  | String a (String b (String c (String d r))) =>
      va ← base64_val a; vb ← base64_val b;
      if decide (c = "="%char) then
        if decide (d = "="%char) then if decide (r = "") then Some (be_bytes 1 ((va * 64 + vb) / 16)) else None
        else None
      else
        vc ← base64_val c;
        if decide (d = "="%char) then
          if decide (r = "") then Some (be_bytes 2 (((va * 64 + vb) * 64 + vc) / 4)) else None
        else
          vd ← base64_val d;
          rest ← decode_quanta r;
          Some (be_bytes 3 (((va * 64 + vb) * 64 + vc) * 64 + vd) ++ rest)
  | _ => None
  end.

(** The decoder skips CR and LF. *)
Fixpoint strip_newlines (s : string) : string :=
  match s with
  | EmptyString => ""
  | String c r => if (code c =? 10) || (code c =? 13) then strip_newlines r else String c (strip_newlines r)
  end.

Definition decodeStdBase64 (s : string) : option (list byte) := decode_quanta (strip_newlines s).

Inductive key_err := KeyBase64 | KeyLength (n : Z).

Definition validateBase64Key (s : string) : result key_err unit :=
  match decodeStdBase64 s with
  | None => Err KeyBase64
  | Some decoded =>
      if negb (length decoded =? 32)%nat then Err (KeyLength (Z.of_nat (length decoded))) else Ok tt
  end.

(** ** Lists of addresses *)

(** A loop that returns at the first element that fails. *)
Fixpoint first_error {A E} (check : A -> result E unit) (l : list A) : result E unit :=
  match l with
  | [] => Ok tt
  | x :: xs => match check x with Err e => Err e | Ok _ => first_error check xs end
  end.

Definition check_cidr (part : string) : result string unit :=
  let part := TrimSpace part in
  if bool_decide (part = "") then Err "empty element (two commas in a row)"
  else if Contains part "/" then
    match ParsePrefix part with
    | None => Err ("invalid CIDR " +:+ part)
    | Some p => if Is4 (p_addr p) && (32 <? p_bits p)
                then Err ("invalid prefix length for IPv4: " +:+ part) else Ok tt
    end
  else match ParseAddr part with None => Err ("invalid IP address " +:+ part) | Some _ => Ok tt end.

Definition validateCIDRList (s : string) : result string unit := first_error check_cidr (Split "," s).

Definition check_dns (part : string) : result string unit :=
  let part := TrimSpace part in
  if bool_decide (part = "") then Err "empty element (two commas in a row)"
  else match ParseAddr part with
       | Some _ => Ok tt
       | None => if ContainsAny part (String " " (String "009" "")) then Err ("invalid DNS entry " +:+ part) else Ok tt
       end.

Definition validateDNSList (s : string) : result string unit := first_error check_dns (Split "," s).

(** ** Endpoints *)

(** The zone cut of a bracketed address: at the last '%', unless it comes first. *)
Definition cut_zone (inner : string) : string :=
  match CutLast "%" inner with
  | Some (a, _) => if bool_decide (a = "") then inner else a
  | None => inner
  end.

Definition validateEndpoint (s : string) : result string unit :=
  match CutLast ":" s with
  | None => Err "the port is missing"
  | Some (host, portStr) =>
      match ParseUint portStr 16 with
      | None => Err ("invalid port " +:+ portStr)
      | Some port =>
          if port =? 0 then Err ("invalid port " +:+ portStr)
          else match host with
          | EmptyString => Err "the host is empty"
          | String c rest =>
              if decide (c = "["%char) then
                if negb (HasSuffixChar host "]") then Err "the IPv6 address has no closing bracket"
                else match ParseAddr (cut_zone (init rest)) with
                     | None => Err ("invalid IPv6 address " +:+ cut_zone (init rest))
                     | Some _ => Ok tt
                     end
              else if Contains host ":" then Err "an IPv6 address must be bracketed"
              else match ParseAddr host with
                   | Some _ => Ok tt
                   | None =>
                       if (253 <? len host) || ContainsAny host (String " " (String "009" "/\"))
                       then Err ("invalid host " +:+ host) else Ok tt
                   end
          end
      end
  end.

(** ** Lemmas on decimal text *)

Definition no_space_char (c : ascii) : Prop := is_ascii_space c = false /\ code c < 128.

Fixpoint all_str (P : ascii -> Prop) (s : string) : Prop :=
  match s with EmptyString => True | String c r => P c /\ all_str P r end.

Lemma all_str_app P a b : all_str P (a +:+ b) <-> all_str P a /\ all_str P b.
Proof. induction a as [|c a IH]; simpl; [naive_solver|]. change (String.append a b) with (a +:+ b). naive_solver. Qed.

Lemma all_str_impl (P Q : ascii -> Prop) s : (forall c, P c -> Q c) -> all_str P s -> all_str Q s.
Proof. induction s; simpl; naive_solver. Qed.

Lemma space_prefix_none c s : no_space_char c -> space_prefix (String c s) = None.
Proof. intros [Hs Hc]. unfold space_prefix. rewrite Hs. destruct (Z.ltb_spec (code c) 128); [done|lia]. Qed.

Lemma TrimLeftSpace_id c s : no_space_char c -> TrimLeftSpace (String c s) = String c s.
Proof.
  intros Hc. unfold TrimLeftSpace. simpl String.length. generalize (String.length s). intros n.
  change (match space_prefix (String c s) with Some r => TrimLeft_fuel n r | None => String c s end
          = String c s).
  by rewrite (space_prefix_none c s Hc).
Qed.

Lemma TrimRightSpace_id s : all_str no_space_char s -> TrimRightSpace s = s.
Proof.
  induction s as [|c s IH]; [done|]. intros [Hc Hs]. simpl. unfold all_space.
  rewrite TrimLeftSpace_id by done. rewrite bool_decide_false by done. by rewrite IH.
Qed.

(** A text without white space is left as it is. *)
Lemma TrimSpace_id s : all_str no_space_char s -> TrimSpace s = s.
Proof.
  intros Hs. unfold TrimSpace. destruct s as [|c s]; [done|].
  rewrite TrimLeftSpace_id by apply Hs. by apply TrimRightSpace_id.
Qed.

Definition digit_char (c : ascii) : Prop := is_digit c = true.

Lemma digit_no_space c : digit_char c -> no_space_char c.
Proof.
  unfold digit_char, is_digit, no_space_char, is_ascii_space. intros H.
  apply andb_true_iff in H as [H1%Z.leb_le H2%Z.leb_le]. split; [|lia].
  apply orb_false_iff; split; [apply andb_false_iff|]; lia.
Qed.

Lemma pretty_char x : (x < 10)%N ->
  digit_char (pretty_N_char x) /\ digit_val (pretty_N_char x) = Z.of_N x.
Proof.
  intros H. assert (x ∈ (N.of_nat <$> seq 0 10)) as Hin.
  { apply list_elem_of_fmap. exists (N.to_nat x). split; [lia|]. apply elem_of_seq. lia. }
  cbn in Hin. repeat (apply elem_of_cons in Hin as [->|Hin]; [done|]). by apply elem_of_nil in Hin.
Qed.

Lemma pretty_N_go_digits x s :
  all_str digit_char s ->
  all_str digit_char (pretty_N_go x s) /\ digits_val 0 (pretty_N_go x s) = digits_val (Z.of_N x) s.
Proof.
  revert s. induction (N.lt_wf_0 x) as [x _ IH]; intros s Hs.
  destruct (decide (0 < x)%N) as [Hx|Hx].
  - rewrite pretty_N_go_step by done.
    assert (x `mod` 10 < 10)%N as Hm by (apply N.mod_lt; lia).
    destruct (pretty_char (x `mod` 10)) as [Hd Hv]; [done|].
    destruct (IH (x `div` 10)%N ltac:(apply N.div_lt; lia) (String (pretty_N_char (x `mod` 10)) s))
      as [H1 H2]; [done|].
    split; [done|]. rewrite H2. simpl. rewrite Hd, Hv. f_equal.
    rewrite N2Z.inj_div, N2Z.inj_mod. pose proof (Z.div_mod (Z.of_N x) 10). lia.
  - assert (x = 0%N) as -> by lia. by rewrite pretty_N_go_0.
Qed.

Lemma Itoa_digits n :
  0 <= n -> all_str digit_char (Itoa n) /\ digits_val 0 (Itoa n) = Some n /\ Itoa n <> "".
Proof.
  intros Hn. unfold Itoa, pretty, pretty_N. case_decide as Hz.
  - assert (n = 0) as -> by lia. done.
  - destruct (pretty_N_go_digits (Z.to_N n) "") as [H1 H2]; [done|]. simpl in H2.
    rewrite Z2N.id in H2 by done. split_and!; [done|done|]. intros He. rewrite He in H2.
    simpl in H2. by simplify_eq.
Qed.

Lemma ParseUint_Itoa n bits : 0 <= n < 2 ^ bits -> ParseUint (Itoa n) bits = Some n.
Proof.
  intros Hn. destruct (Itoa_digits n) as (_ & Hv & Hne); [lia|]. unfold ParseUint.
  destruct (Itoa n) eqn:E; [done|]. rewrite Hv. simpl. destruct (Z.ltb_spec n (2 ^ bits)); [done|lia].
Qed.

Lemma Split_none sep s : all_str (fun c => c <> sep) s -> Split sep s = [s].
Proof.
  induction s as [|c s IH]; [done|]. intros [Hc Hs]. simpl. rewrite decide_False by done.
  by rewrite IH.
Qed.

Lemma Split_cut sep a b :
  all_str (fun c => c <> sep) a -> Split sep (a +:+ String sep b) = a :: Split sep b.
Proof.
  induction a as [|c a IH]; simpl; [by rewrite decide_True|]. intros [Hc Ha].
  rewrite decide_False by done. change (String.append a (String sep b)) with (a +:+ String sep b).
  by rewrite IH.
Qed.

Lemma digit_not_dash s : all_str digit_char s -> all_str (fun c => c <> "-"%char) s.
Proof. apply all_str_impl. intros c Hc ->. done. Qed.

(** What a range text denotes: its one bound, or its two. *)
Lemma ParseUintRange_Ok s bits lo hi :
  ParseUintRange s bits = Ok (lo, hi) -> 0 <= lo <= hi /\ hi < 2 ^ bits.
Proof.
  unfold ParseUintRange. destruct (Split "-" (TrimSpace s)) as [|a [|b [|]]]; try done.
  - destruct (ParseUint (TrimSpace a) bits) as [x|] eqn:E; [|done]. intros [= <- <-].
    apply ParseUint_bounds in E. lia.
  - destruct (ParseUint (TrimSpace a) bits) as [x|] eqn:E1; [|done].
    destruct (ParseUint (TrimSpace b) bits) as [y|] eqn:E2; [|done].
    destruct (Z.ltb_spec y x); [done|]. intros [= <- <-].
    apply ParseUint_bounds in E1, E2. lia.
Qed.

(** A printed range. *)
Definition print_range (lo hi : Z) : string :=
  if lo =? hi then Itoa lo else Itoa lo +:+ "-" +:+ Itoa hi.

(** ** Properties *)

(** [ParseUintRange] accepts no empty range and nothing above its width, and
    every range that fits is written in its syntax and read back as it was. *)
Theorem ParseUintRange_roundtrip bits lo hi :
  (forall s, ParseUintRange s bits = Ok (lo, hi) -> 0 <= lo <= hi /\ hi < 2 ^ bits) /\
  (0 <= lo <= hi -> hi < 2 ^ bits -> ParseUintRange (print_range lo hi) bits = Ok (lo, hi)).
Proof.
  split; [intros s; apply ParseUintRange_Ok|]. intros Hlo Hhi.
  destruct (Itoa_digits lo) as (Hd & _ & _); [lia|]. destruct (Itoa_digits hi) as (Hd' & _ & _); [lia|].
  assert (forall n, all_str digit_char (Itoa n) -> TrimSpace (Itoa n) = Itoa n) as Ht.
  { intros n Hn. apply TrimSpace_id. by eapply all_str_impl, Hn; intros; apply digit_no_space. }
  unfold print_range, ParseUintRange. destruct (Z.eqb_spec lo hi) as [->|Hne].
  - rewrite Ht by done. rewrite Split_none by (by apply digit_not_dash).
    rewrite Ht by done. by rewrite ParseUint_Itoa by lia.
  - rewrite TrimSpace_id.
    + change ("-" +:+ Itoa hi) with (String "-" (Itoa hi)).
      rewrite Split_cut by (by apply digit_not_dash). rewrite Split_none by (by apply digit_not_dash).
      rewrite !Ht, !ParseUint_Itoa by (done || lia). destruct (Z.ltb_spec hi lo); [lia|done].
    + apply all_str_app. split; [|split].
      * eapply all_str_impl, Hd. apply digit_no_space.
      * by split; vm_compute.
      * eapply all_str_impl, Hd'. apply digit_no_space.
Qed.
