(* ===== verification/ConfScan.v ===== *)
(** The structural pass over a tunnel configuration and its validation:
    [scanConfig], [validateScan], [validateValue] and [validateInterfaceSemantics]
    of src/internal/config/tunnel.go.

    Errors and warnings are constructors carrying what their messages name. *)

From S2P Require Import Prelude GoStrings GoBytes GoNetip Params ConfValues.

(** ** Data *)

Record kv := MkKv { key : string; value : string; line : Z }.

#[global] Instance kv_eq_dec : EqDecision kv.
Proof. solve_decision. Defined.

Record configScan := MkScan {
  iface : list kv;
  peers : list (list kv);
  interfaceKeys : gset string;
}.

Inductive config_err :=
| UnknownSection (line : Z) (name : string)
| OutsideSection (line : Z) (text : string)
| NoEquals (line : Z) (text : string)
| NoInterface
| ScriptHook (line : Z) (key : string)
| UnsupportedParam (line : Z) (key : string)
| Duplicate (line : Z) (key : string) (first : Z)
| NoValue (line : Z) (key : string)
| BadUint16 (line : Z) (key value : string)
| BadRange (line : Z) (key value : string) (e : range_err)
| BadBool (line : Z) (key value : string)
| BadKey (line : Z) (key : string) (e : key_err)
| BadList (line : Z) (key : string) (e : string)
| BadEndpoint (line : Z) (value e : string)
| BadKeepalive (line : Z) (value : string)
| BadMTU (line : Z) (value : string)
| BadTable (line : Z) (value : string)
| UnsupportedPeerParam (line : Z) (key : string)
| DuplicatePeer (line : Z) (peer : Z) (key : string)
| JunkSizesMissing
| JunkSizesOrder (jmin jmax : Z)
| JunkSizeZero
| HeadersOverlap (a b : string)
| PrefixTooShort (name : string) (current : string).

Inductive warning :=
| WideRange (line : Z) (key value : string)
| JunkUnused
| HeadersMissing (names : list string)
| MTULowered (safe s4 cpa : Z)
| MTUTooHigh (mtu safe : Z)
| DNSIsLocal (addrs : list Addr)
| DNSIgnored (addrs : list Addr)
| SearchDomains (names : list string)
| NoDNS
| ManyPeers (n : Z).

(** ** Scanning *)

(** The current section: [section == ""], "interface" or "peer". *)
Inductive section := NoSection | InInterface | InPeer.

Record scanState := MkScanState {
  sec : section;
  current : list kv;
  acc : configScan;
}.

(** [sectionRe]: "[" and "]" around at least one character. *)
Definition section_name (l : string) : option string :=
  match l with
  | String c r =>
      if decide (c = "["%char) then
        if HasSuffixChar r "]" && negb (bool_decide (init r = "")) then Some (init r) else None
      else None
  | EmptyString => None
  end.

Definition flushPeer (st : scanState) : configScan :=
  match sec st with
  | InPeer => MkScan (iface (acc st)) (peers (acc st) ++ [current st]) (interfaceKeys (acc st))
  | _ => acc st
  end.

(** One line of the text, its comment cut off and trimmed. *)
Definition clean_line (l : string) : string := TrimSpace (before_byte "#" l).

Definition scan_line (lineNo : Z) (raw : string) (st : scanState) : result config_err scanState :=
  let l := clean_line raw in
  if bool_decide (l = "") then Ok st
  else match section_name l with
  | Some m =>
      let name := ToLower (TrimSpace m) in
      if bool_decide (name = "interface") then Ok (MkScanState InInterface [] (flushPeer st))
      else if bool_decide (name = "peer") then Ok (MkScanState InPeer [] (flushPeer st))
      else Err (UnknownSection lineNo m)
  | None =>
      match sec st with
      | NoSection => Err (OutsideSection lineNo l)
      | s =>
          match Cut "=" l with
          | None => Err (NoEquals lineNo l)
          | Some (k, v) =>
              let entry := MkKv (normalizeKey k) (TrimSpace v) lineNo in
              match s with
              | InInterface =>
                  let c := acc st in
                  Ok (MkScanState s (current st)
                        (MkScan (iface c ++ [entry]) (peers c) (interfaceKeys c ∪ {[key entry]})))
              | _ => Ok (MkScanState s (current st ++ [entry]) (acc st))
              end
          end
      end
  end.

Fixpoint scan_lines (lineNo : Z) (ls : list string) (st : scanState) : result config_err scanState :=
  match ls with
  | [] => Ok st
  | l :: rest => st' ← scan_line lineNo l st; scan_lines (lineNo + 1) rest st'
  end.

Definition scan_start : scanState := MkScanState NoSection [] (MkScan [] [] ∅).

Definition scanConfig (text : string) : result config_err configScan :=
  st ← scan_lines 1 (Split nl text) scan_start;
  let s := flushPeer st in
  if bool_decide (iface s = []) then Err NoInterface else Ok s.

(** ** Validation of one value *)

Definition lift_list (l : Z) (k : string) (r : result string unit) : result config_err (list warning) :=
  match r with Err e => Err (BadList l k e) | Ok _ => Ok [] end.

(** The keys of kind [kindOther]. *)
Definition validate_other (e : kv) : result config_err (list warning) :=
  let v := value e in
  if bool_decide (key e = "address") then lift_list (line e) (key e) (validateCIDRList v)
  else if bool_decide (key e = "allowedips") then lift_list (line e) (key e) (validateCIDRList v)
  else if bool_decide (key e = "dns") then lift_list (line e) (key e) (validateDNSList v)
  else if bool_decide (key e = "endpoint") then
    match validateEndpoint v with Err x => Err (BadEndpoint (line e) v x) | Ok _ => Ok [] end
  else if bool_decide (key e = "persistentkeepalive") then
    if negb (bool_decide (v = "off")) && negb (bool_decide (v = "(off)")) then
      match ParseUint v 64 with
      | None => Err (BadKeepalive (line e) v)
      | Some n => if 65535 <? n then Err (BadKeepalive (line e) v) else Ok []
      end
    else Ok []
  else if bool_decide (key e = "mtu") then
    match Atoi v with
    | None => Err (BadMTU (line e) v)
    | Some n => if (n <? 576) || (65535 <? n) then Err (BadMTU (line e) v) else Ok []
    end
  else if bool_decide (key e = "table") then
    if negb (bool_decide (ToLower v = "off")) then Err (BadTable (line e) v) else Ok []
  else Ok [].

Definition validateValue (e : kv) (p : supportedParam) : result config_err (list warning) :=
  match kind p with
  | kindUint16 =>
      match ParseUint (value e) 64 with
      | None => Err (BadUint16 (line e) (key e) (value e))
      | Some v => if 65535 <? v then Err (BadUint16 (line e) (key e) (value e)) else Ok []
      end
  | kindRangeU32 =>
      match ParseUintRange (value e) 32 with
      | Err x => Err (BadRange (line e) (key e) (value e) x)
      | Ok _ => Ok []
      end
  | kindRangeU16 =>
      match ParseUintRange (value e) 32 with
      | Err x => Err (BadRange (line e) (key e) (value e) x)
      | Ok (lo, hi) =>
          Ok (if (65535 <? hi) || (65535 <? lo) then [WideRange (line e) (key e) (value e)] else [])
      end
  | kindBool =>
      match ParseAWGBool (value e) with
      | None => Err (BadBool (line e) (key e) (value e))
      | Some _ => Ok []
      end
  | kindKeyBase64 =>
      match validateBase64Key (value e) with
      | Err x => Err (BadKey (line e) (key e) x)
      | Ok _ => Ok []
      end
  | kindObfChain => Ok []
  | kindOther => validate_other e
  end.

(** ** Relations between parameters *)

(** [get]: the first entry of a key, when it has a value. *)
Definition get (l : list kv) (k : string) : option string :=
  match list_find (fun e => key e = k) l with
  | Some (_, e) => if bool_decide (value e = "") then None else Some (value e)
  | None => None
  end.

Definition num (l : list kv) (k : string) : option Z :=
  v ← get l k; ParseUint v 64.

Definition positive (n : option Z) : bool := match n with Some v => 0 <? v | None => false end.

Definition check_junk (l : list kv) : result config_err (list warning) :=
  let jc := num l "jc" in
  let jmin := num l "jmin" in
  let jmax := num l "jmax" in
  _ ← (if positive jc then
         match jmin, jmax with
         | Some lo, Some hi =>
             if hi <? lo then Err (JunkSizesOrder lo hi)
             else if hi =? 0 then Err JunkSizeZero else Ok tt
         | _, _ => Err JunkSizesMissing
         end
       else Ok tt);
  Ok (if (bool_decide (is_Some jmin) || bool_decide (is_Some jmax)) && negb (positive jc)
      then [JunkUnused] else []).

Record hdr := MkHdr { h_name : string; h_lo : Z; h_hi : Z }.

(** The headers that are set, in order. *)
Definition headers_of (l : list kv) : list hdr :=
  omap (fun name =>
          match get l name with
          | None => None
          | Some v => match ParseUintRange v 32 with
                      | Err _ => None
                      | Ok (lo, hi) => Some (MkHdr (ToUpper name) lo hi)
                      end
          end) ["h1"; "h2"; "h3"; "h4"].

Definition overlap (a b : hdr) : bool := (h_lo a <=? h_hi b) && (h_lo b <=? h_hi a).

(** The two nested loops over the pairs [i < j]. *)
Fixpoint check_overlaps (hs : list hdr) : result config_err unit :=
  match hs with
  | [] => Ok tt
  | a :: rest =>
      match List.find (overlap a) rest with
      | Some b => Err (HeadersOverlap (h_name a) (h_name b))
      | None => check_overlaps rest
      end
  end.

Definition missing_headers (hs : list hdr) : list warning :=
  if (0 <? Z.of_nat (length hs)) && (Z.of_nat (length hs) <? 4)
  then [HeadersMissing (filter (fun n => n ∉ (h_name <$> hs)) ["H1"; "H2"; "H3"; "H4"])]
  else [].

(** S1 to S4 with a header protection key. *)
Definition check_prefix (l : list kv) (name : string) : result config_err unit :=
  match num l name with
  | Some v => if v <? headerCipherNonceSize
              then Err (PrefixTooShort (ToUpper name) (default "unset" (get l name))) else Ok tt
  | None => Err (PrefixTooShort (ToUpper name) (default "unset" (get l name)))
  end.

Definition check_prefixes (l : list kv) : result config_err unit :=
  match get l "headerprotectionkey" with
  | None => Ok tt
  | Some _ => first_error (check_prefix l) ["s1"; "s2"; "s3"; "s4"]
  end.

Definition validateInterfaceSemantics (s : configScan) : result config_err (list warning) :=
  let l := iface s in
  w ← check_junk l;
  let hs := headers_of l in
  _ ← check_overlaps hs;
  _ ← check_prefixes l;
  Ok (w ++ missing_headers hs).

(** ** Validation of a scan *)

Definition validate_iface_entry (seen : gmap string Z) (e : kv) :
    result config_err (gmap string Z * list warning) :=
  if bool_decide (key e ∈ scriptHookKeys) then Err (ScriptHook (line e) (key e))
  else match interfaceParams !! key e with
  | None => Err (UnsupportedParam (line e) (key e))
  | Some p =>
      let first := default 0 (seen !! key e) in
      if 0 <? first then Err (Duplicate (line e) (key e) first)
      else
        let seen := <[key e := line e]> seen in
        if bool_decide (value e = "") then
          if bool_decide (key e ∈ emptyValueAllowed) then Ok (seen, [])
          else Err (NoValue (line e) (key e))
        else w ← validateValue e p; Ok (seen, w)
  end.

Fixpoint validate_iface (seen : gmap string Z) (l : list kv) : result config_err (list warning) :=
  match l with
  | [] => Ok []
  | e :: rest =>
      '(seen', w) ← validate_iface_entry seen e;
      ws ← validate_iface seen' rest;
      Ok (w ++ ws)
  end.

Fixpoint validate_peer (pi : Z) (seen : gset string) (l : list kv) : result config_err unit :=
  match l with
  | [] => Ok tt
  | e :: rest =>
      match peerParams !! key e with
      | None => Err (UnsupportedPeerParam (line e) (key e))
      | Some p =>
          if bool_decide (key e ∈ seen) then Err (DuplicatePeer (line e) (pi + 1) (key e))
          else if bool_decide (value e = "") then Err (NoValue (line e) (key e))
          else _ ← validateValue e p; validate_peer pi (seen ∪ {[key e]}) rest
      end
  end.

Fixpoint validate_peers (pi : Z) (ps : list (list kv)) : result config_err unit :=
  match ps with
  | [] => Ok tt
  | p :: rest => _ ← validate_peer pi ∅ p; validate_peers (pi + 1) rest
  end.

Definition validateScan (s : configScan) : result config_err (list warning) :=
  w1 ← validate_iface ∅ (iface s);
  w2 ← validateInterfaceSemantics s;
  _ ← validate_peers 0 (peers s);
  Ok (w1 ++ w2).

(** ** What the scan says of the packets *)

Definition perPacketOverhead (s : configScan) : Z * Z :=
  foldl (fun '(s4, cpa) e =>
           if bool_decide (key e = "s4") then
             match Atoi (value e) with
             | Some v => (if 0 <? v then v else s4, cpa)
             | None => (s4, cpa)
             end
           else if bool_decide (key e = "contentpaddingaddition") then
             match ParseUintRange (value e) 32 with
             | Ok (_, hi) => (s4, hi)
             | Err _ => (s4, cpa)
             end
           else (s4, cpa)) (0, 0) (iface s).

(** ** What an accepted configuration satisfies *)

(** An entry that the table [params] knows, with a value the kind of its key
    accepts, or none where the key may be empty. *)
Definition entry_ok (params : gmap string supportedParam) (may_be_empty : list string) (e : kv) : Prop :=
  exists p, params !! key e = Some p /\
    if bool_decide (value e = "") then key e ∈ may_be_empty else is_ok (validateValue e p) = true.

Definition disjoint_hdr (a b : hdr) : Prop := h_hi a < h_lo b \/ h_hi b < h_lo a.

Definition junk_ok (l : list kv) : Prop :=
  forall jc, num l "jc" = Some jc -> 0 < jc ->
    exists lo hi, num l "jmin" = Some lo /\ num l "jmax" = Some hi /\ lo <= hi /\ hi <> 0.

Definition prefixes_ok (l : list kv) : Prop :=
  is_Some (get l "headerprotectionkey") ->
  forall name, name ∈ ["s1"; "s2"; "s3"; "s4"] ->
    exists v, num l name = Some v /\ headerCipherNonceSize <= v.

Record accepted (s : configScan) : Prop := {
  acc_entries : Forall (entry_ok interfaceParams emptyValueAllowed) (iface s);
  acc_unique : NoDup (key <$> iface s);
  acc_junk : junk_ok (iface s);
  acc_headers : ForallOrdPairs disjoint_hdr (headers_of (iface s));
  acc_prefixes : prefixes_ok (iface s);
  acc_peers : Forall (fun p => Forall (entry_ok peerParams []) p /\ NoDup (key <$> p)) (peers s);
}.

(** ** Lemmas *)

Lemma is_ok_bind {E A B} (r : result E A) (f : A -> result E B) :
  is_ok (r ≫= f) = true <-> exists a, r = Ok a /\ is_ok (f a) = true.
Proof. destruct r as [a|e]; simpl; naive_solver. Qed.

Lemma is_ok_true {E A} (r : result E A) : is_ok r = true <-> exists a, r = Ok a.
Proof. destruct r; simpl; naive_solver. Qed.

Lemma hook_not_param k : k ∈ scriptHookKeys -> interfaceParams !! k = None.
Proof.
  destruct tables_agree as (_ & _ & _ & H). rewrite forallb_forall in H.
  intros Hk%list_elem_of_In%H. by apply bool_decide_eq_true in Hk.
Qed.

Lemma first_error_ok {A E} (check : A -> result E unit) l :
  is_ok (first_error check l) = true <-> Forall (fun x => is_ok (check x) = true) l.
Proof.
  induction l as [|x l IH]; simpl; [done|]. rewrite Forall_cons.
  destruct (check x) as [[]|e]; simpl; naive_solver.
Qed.

(** Entries numbered from one, and lines recorded for the keys in [seen]. *)
Lemma validate_iface_ok l seen :
  Forall (fun e => 0 < line e) l -> (forall k n, seen !! k = Some n -> 0 < n) ->
  is_ok (validate_iface seen l) = true <->
  Forall (entry_ok interfaceParams emptyValueAllowed) l /\ NoDup (key <$> l) /\
  Forall (fun e => seen !! key e = None) l.
Proof.
  revert seen. induction l as [|e l IH]; intros seen Hl Hs; simpl.
  { split; [|done]. intros _. split_and!; constructor. }
  apply Forall_cons in Hl as [He Hl]. rewrite is_ok_bind, Forall_cons, NoDup_cons, Forall_cons.
  assert (forall w, is_ok (ws ← validate_iface (<[key e := line e]> seen) l; Ok (w ++ ws)) = true <->
    Forall (entry_ok interfaceParams emptyValueAllowed) l /\ NoDup (key <$> l) /\
    Forall (fun e' => seen !! key e' = None) l /\ key e ∉ (key <$> l)) as Hrest.
  { intros w. rewrite is_ok_bind.
    assert ((exists a, validate_iface (<[key e:=line e]> seen) l = Ok a /\
      is_ok (Ok (w ++ a) : result config_err _) = true) <->
      is_ok (validate_iface (<[key e:=line e]> seen) l) = true) as ->
      by (rewrite is_ok_true; naive_solver).
    rewrite IH; [|done|].
    2:{ intros k n. rewrite lookup_insert_Some. naive_solver. }
    rewrite !Forall_forall, list_elem_of_fmap. setoid_rewrite lookup_insert_None. naive_solver. }
  unfold validate_iface_entry, entry_ok at 1.
  destruct (bool_decide (key e ∈ scriptHookKeys)) eqn:Hh.
  { apply bool_decide_eq_true, hook_not_param in Hh. rewrite Hh. naive_solver. }
  destruct (interfaceParams !! key e) as [p|]; [|naive_solver].
  destruct (seen !! key e) as [n|] eqn:Hse; simpl.
  { specialize (Hs _ _ Hse). destruct (Z.ltb_spec 0 n); [|lia]. naive_solver. }
  destruct (bool_decide (value e = "")); [destruct (bool_decide_reflect (key e ∈ emptyValueAllowed)) as [Hem|Hem]|].
  - split.
    + intros ([seen' w] & Heq & Hr). simplify_eq. apply Hrest in Hr. naive_solver.
    + intros [[_ ?] ([? ?] & _ & ?)]. eexists (_, _). split; [done|]. by apply Hrest.
  - naive_solver.
  - destruct (validateValue e p) as [w|x] eqn:Hval.
    + split.
      * intros ([seen' w'] & Heq & Hr). simplify_eq/=. apply Hrest in Hr.
        destruct Hr as (? & ? & ? & ?). split_and!; try done. exists p. by rewrite Hval.
      * intros [[_ ?] ([? ?] & _ & ?)]. eexists (_, _). split; [done|]. by apply Hrest.
    + split; [intros (? & ? & _); done|]. intros [[(p' & Hp & Hok) _] _].
      simplify_eq. by rewrite Hval in Hok.
Qed.

Lemma validate_peer_ok pi l seen :
  is_ok (validate_peer pi seen l) = true <->
  Forall (entry_ok peerParams []) l /\ NoDup (key <$> l) /\ Forall (fun e => key e ∉ seen) l.
Proof.
  revert seen. induction l as [|e l IH]; intros seen; simpl.
  { split; [|done]. intros _. split_and!; constructor. }
  rewrite !Forall_cons, NoDup_cons. unfold entry_ok at 1.
  destruct (peerParams !! key e) as [p|]; [|naive_solver].
  destruct (bool_decide_reflect (key e ∈ seen)) as [Hs|Hs]; [naive_solver|].
  destruct (bool_decide_reflect (value e = "")) as [Hv|Hv].
  { split; [done|]. intros [[(p' & _ & H) _] _]. by apply elem_of_nil in H. }
  rewrite is_ok_bind.
  assert (is_ok (validate_peer pi (seen ∪ {[key e]}) l) = true <->
    Forall (entry_ok peerParams []) l /\ NoDup (key <$> l) /\
    Forall (fun e' => key e' ∉ seen) l /\ key e ∉ (key <$> l)) as Hrest.
  { rewrite IH, !Forall_forall, list_elem_of_fmap. set_solver. }
  destruct (validateValue e p) as [w|x] eqn:Hval.
  - split.
    + intros (w' & _ & Hr). apply Hrest in Hr as (? & ? & ? & ?).
      split_and!; try done. exists p. by rewrite Hval.
    + intros [[_ ?] ([? ?] & _ & ?)]. exists w. split; [done|]. by apply Hrest.
  - split; [intros (? & ? & _); done|]. intros [[(p' & Hp & Hok) _] _].
    simplify_eq. by rewrite Hval in Hok.
Qed.

Lemma validate_peers_ok pi ps :
  is_ok (validate_peers pi ps) = true <->
  Forall (fun p => Forall (entry_ok peerParams []) p /\ NoDup (key <$> p)) ps.
Proof.
  revert pi. induction ps as [|p ps IH]; intros pi; simpl; [done|].
  rewrite is_ok_bind, Forall_cons, <-(IH (pi + 1)).
  pose proof (validate_peer_ok pi p ∅) as Hp. rewrite is_ok_true in Hp.
  assert (Forall (fun e => key e ∉ (∅ : gset string)) p) as He
    by (apply Forall_forall; set_solver). naive_solver.
Qed.

Lemma num_nonneg l k v : num l k = Some v -> 0 <= v.
Proof. unfold num. intros (s & _ & Hv)%bind_Some. apply ParseUint_bounds in Hv. lia. Qed.

Lemma check_junk_ok l : is_ok (check_junk l) = true <-> junk_ok l.
Proof.
  unfold check_junk, junk_ok. rewrite is_ok_bind.
  destruct (num l "jc") as [jc|]; simpl; [|naive_solver].
  destruct (Z.ltb_spec 0 jc); [|split; [intros _ jc' [= <-]; lia|by eexists]].
  destruct (num l "jmin") as [lo|]; [|split; [naive_solver|]; intros H'; by destruct (H' jc) as (?&?&?&_)].
  destruct (num l "jmax") as [hi|]; [|split; [naive_solver|]; intros H'; by destruct (H' jc) as (?&?&_&?&_)].
  destruct (Z.ltb_spec hi lo).
  { split; [naive_solver|]. intros H'. destruct (H' jc) as (x & y & [= <-] & [= <-] & ? & ?); [done|lia|lia]. }
  destruct (Z.eqb_spec hi 0).
  { split; [naive_solver|]. intros H'. destruct (H' jc) as (x & y & [= <-] & [= <-] & ? & ?); [done|lia|lia]. }
  split; [intros _ jc' [= <-] _; by exists lo, hi|by eexists].
Qed.

Lemma overlap_false a b : overlap a b = false <-> disjoint_hdr a b.
Proof. unfold overlap, disjoint_hdr. rewrite andb_false_iff, !Z.leb_gt. lia. Qed.

Lemma check_overlaps_ok hs : is_ok (check_overlaps hs) = true <-> ForallOrdPairs disjoint_hdr hs.
Proof.
  induction hs as [|a hs IH]; simpl; [split; [constructor|done]|].
  destruct (List.find (overlap a) hs) as [b|] eqn:E.
  - apply find_some in E as [Hin Ho]. split; [done|]. intros H. inversion H as [|? ? Ha _]; subst.
    rewrite Forall_forall in Ha. specialize (Ha b). rewrite list_elem_of_In in Ha.
    apply Ha in Hin. apply overlap_false in Hin. congruence.
  - rewrite IH. pose proof (find_none _ _ E) as Hn. split.
    + intros H. constructor; [|done]. apply Forall_forall. intros b Hb%list_elem_of_In.
      by apply overlap_false, Hn.
    + intros H. by inversion H.
Qed.

Lemma check_prefix_ok l name :
  is_ok (check_prefix l name) = true <-> exists v, num l name = Some v /\ headerCipherNonceSize <= v.
Proof.
  unfold check_prefix. destruct (num l name) as [v|]; [|naive_solver].
  destruct (Z.ltb_spec v headerCipherNonceSize); [|naive_solver].
  split; [done|]. intros (v' & [= <-] & ?). lia.
Qed.

Lemma check_prefixes_ok l : is_ok (check_prefixes l) = true <-> prefixes_ok l.
Proof.
  unfold check_prefixes, prefixes_ok. destruct (get l "headerprotectionkey") as [v|].
  - rewrite first_error_ok, Forall_forall. setoid_rewrite check_prefix_ok. naive_solver.
  - split; [|done]. by intros _ [? ?].
Qed.

Lemma validateInterfaceSemantics_ok s :
  is_ok (validateInterfaceSemantics s) = true <->
  junk_ok (iface s) /\ ForallOrdPairs disjoint_hdr (headers_of (iface s)) /\ prefixes_ok (iface s).
Proof.
  unfold validateInterfaceSemantics.
  rewrite <-check_junk_ok, <-check_overlaps_ok, <-check_prefixes_ok.
  by destruct (check_junk (iface s)), (check_overlaps (headers_of (iface s))),
    (check_prefixes (iface s)); simpl; naive_solver.
Qed.

(** The lines of a scan count from one. *)
Definition numbered (st : scanState) : Prop :=
  Forall (fun e => 0 < line e) (iface (acc st)).

Lemma scan_line_numbered n raw st st' :
  0 < n -> scan_line n raw st = Ok st' -> numbered st -> numbered st'.
Proof.
  intros Hn Hs Hi. unfold scan_line in Hs.
  assert (iface (flushPeer st) = iface (acc st)) as Hf by (unfold flushPeer; by destruct (sec st)).
  destruct (bool_decide (clean_line raw = "")); [by injection Hs as <-|].
  destruct (section_name (clean_line raw)) as [m|].
  - repeat case_match; simplify_eq; unfold numbered in *; simpl; by rewrite Hf.
  - destruct (sec st); [done| |]; (destruct (Cut _ _) as [[k v]|]; [|done]); injection Hs as <-;
      unfold numbered in *; simpl; [|done].
    apply Forall_app. by repeat constructor.
Qed.

Lemma scan_lines_numbered n ls st st' :
  0 < n -> scan_lines n ls st = Ok st' -> numbered st -> numbered st'.
Proof.
  revert n st. induction ls as [|l ls IH]; intros n st Hn; simpl; [by intros [= <-]|].
  intros (st1 & H1 & H2)%bind_Ok Hi. eapply IH; [|done|by eapply scan_line_numbered]. lia.
Qed.

Lemma scanConfig_numbered text s : scanConfig text = Ok s -> Forall (fun e => 0 < line e) (iface s).
Proof.
  unfold scanConfig. intros (st & H1 & H2)%bind_Ok. apply scan_lines_numbered in H1; [|lia|constructor].
  case_match; [done|]. injection H2 as <-. unfold flushPeer. by destruct (sec st).
Qed.

Lemma validateScan_ok text s :
  scanConfig text = Ok s -> is_ok (validateScan s) = true <-> accepted s.
Proof.
  intros Hs%scanConfig_numbered. unfold validateScan.
  pose proof (validate_iface_ok (iface s) ∅ Hs ltac:(intros k n; by rewrite lookup_empty)) as H1.
  pose proof (validateInterfaceSemantics_ok s) as H2. pose proof (validate_peers_ok 0 (peers s)) as H3.
  assert (Forall (fun e => (∅ : gmap string Z) !! key e = None) (iface s)) as He
    by (apply Forall_forall; intros; apply lookup_empty).
  split.
  - intros H. destruct (validate_iface ∅ (iface s)), (validateInterfaceSemantics s),
      (validate_peers 0 (peers s)); try done. simpl in *. destruct H1 as [H1 _], H2 as [H2 _], H3 as [H3 _].
    destruct (H1 eq_refl) as (? & ? & _), (H2 eq_refl) as (? & ? & ?). by split; [..|apply H3].
  - intros [? ? ? ? ? ?]. destruct H1 as [_ H1], H2 as [_ H2], H3 as [_ H3].
    specialize (H1 ltac:(done)). specialize (H2 ltac:(done)). specialize (H3 ltac:(done)).
    destruct (validate_iface ∅ (iface s)), (validateInterfaceSemantics s),
      (validate_peers 0 (peers s)); done.
Qed.

(** ** Properties *)

(** [validateScan] accepts a scanned configuration exactly when every
    [Interface] key is known, given once and has a valid value (an empty one only
    where that unsets it); no hook appears; Jc comes with Jmin at most Jmax; the
    header ranges are disjoint; with a header protection key S1 to S4 hold its
    nonce; and every peer's keys are known, given once and valid. *)
Theorem validateScan_accepts text s :
  scanConfig text = Ok s -> is_ok (validateScan s) = true <-> accepted s.
Proof. apply validateScan_ok. Qed.

(** ** Printing and scanning *)

Definition print_entry (kv : string * string) : string := kv.1 +:+ "=" +:+ kv.2.

Definition print_peer (p : list (string * string)) : list string := "[Peer]" :: (print_entry <$> p).

Definition print_lines (ifc : list (string * string)) (ps : list (list (string * string))) : list string :=
  "[Interface]" :: (print_entry <$> ifc) ++ concat (print_peer <$> ps).

Definition print_config (ifc : list (string * string)) (ps : list (list (string * string))) : string :=
  Join (print_lines ifc ps) (String nl "").

(** A key of lower-case letters and digits, and a value on one line, without a
    comment and without white space around it. *)
Definition key_char (c : ascii) : Prop := is_lower c = true \/ is_digit c = true.

Definition printable (kv : string * string) : Prop :=
  (all_str key_char kv.1 /\ kv.1 <> "") /\
  all_str (fun c => c <> "#"%char /\ c <> nl) kv.2 /\
  TrimLeftSpace kv.2 = kv.2 /\ TrimRightSpace kv.2 = kv.2.

Definition pair_of (e : kv) : string * string := (key e, value e).
Definition pairs_of (l : list kv) : list (string * string) := pair_of <$> l.

Lemma key_char_cases c : key_char c ->
  no_space_char c /\ c <> "#"%char /\ c <> nl /\ c <> "="%char /\ c <> "["%char /\ lower_char c = c /\
  code c <> 196 /\ code c <> 226.
Proof.
  intros H. assert (48 <= code c <= 57 \/ 97 <= code c <= 122) as Hc.
  { unfold key_char, is_lower, is_digit in H. rewrite !andb_true_iff, !Z.leb_le in H. lia. }
  assert (no_space_char c).
  { unfold no_space_char, is_ascii_space. split; [|lia].
    apply orb_false_iff; split; [apply andb_false_iff|]; lia. }
  assert (lower_char c = c).
  { unfold lower_char, is_upper. destruct (Z.leb_spec 65 (code c)), (Z.leb_spec (code c) 90); simpl; try done; lia. }
  split_and!; try done; try lia; intros ->; revert Hc; vm_compute; intuition congruence.
Qed.

Lemma ToLower_keys s : all_str key_char s -> ToLower s = s.
Proof.
  induction s as [|c s IH]; [done|]. intros [Hc Hs]. specialize (IH Hs).
  destruct (key_char_cases c Hc) as (_ & _ & _ & _ & _ & Hl & H1 & H2).
  apply Z.eqb_neq in H1, H2. cbn [ToLower]. destruct s as [|c2 s]; [by rewrite Hl|].
  rewrite H1. cbn [andb]. destruct s as [|c3 s]; [by rewrite Hl, IH|]. rewrite H2. cbn [andb].
  by rewrite Hl, IH.
Qed.

Lemma TrimRightSpace_app a b :
  all_str no_space_char a -> TrimRightSpace (a +:+ b) = a +:+ TrimRightSpace b.
Proof.
  induction a as [|c a IH]; [done|]. intros [Hc Ha]. change (String c a +:+ b) with (String c (a +:+ b)).
  simpl. unfold all_space. rewrite TrimLeftSpace_id by done. rewrite bool_decide_false by done.
  by rewrite IH.
Qed.

Lemma string_app_assoc (a b c : string) : (a +:+ b) +:+ c = a +:+ (b +:+ c).
Proof. 
  induction a as [|x a IH]; [done|].
  change (String x ((a +:+ b) +:+ c) = String x (a +:+ (b +:+ c))). by rewrite IH.
Qed.

Lemma Cut_app sep a b : all_str (fun c => c <> sep) a -> Cut sep (a +:+ String sep b) = Some (a, b).
Proof.
  induction a as [|c a IH]; simpl; [by rewrite decide_True|]. intros [Hc Ha].
  rewrite decide_False by done. change (String.append a (String sep b)) with (a +:+ String sep b).
  by rewrite IH.
Qed.

Lemma Cut_none sep a : all_str (fun c => c <> sep) a -> Cut sep a = None.
Proof.
  induction a as [|c a IH]; simpl; [done|]. intros [Hc Ha]. rewrite decide_False by done. by rewrite IH.
Qed.

Lemma all_str_and (P Q : ascii -> Prop) s : all_str (fun c => P c /\ Q c) s -> all_str P s /\ all_str Q s.
Proof. induction s; simpl; naive_solver. Qed.

Lemma Split_Join sep ls :
  ls <> [] -> Forall (all_str (fun c => c <> sep)) ls -> Split sep (Join ls (String sep "")) = ls.
Proof.
  induction ls as [|l ls IH]; [done|]. intros _ [Hl Hls]%Forall_cons.
  destruct ls as [|l' ls]; [by apply Split_none|].
  change (Join (l :: l' :: ls) (String sep "")) with (l +:+ String sep (Join (l' :: ls) (String sep ""))).
  rewrite Split_cut by done. by rewrite IH.
Qed.

(** A printed entry, read back. *)
Lemma print_entry_read kv :
  printable kv ->
  clean_line (print_entry kv) = print_entry kv /\ print_entry kv <> "" /\
  section_name (print_entry kv) = None /\ Cut "=" (print_entry kv) = Some kv /\
  normalizeKey kv.1 = kv.1 /\ TrimSpace kv.2 = kv.2 /\
  all_str (fun c => c <> nl) (print_entry kv).
Proof.
  destruct kv as [k v]. intros [[Hk Hne] (Hv & Hl & Hr)]. simpl in *.
  apply all_str_and in Hv as [Hv1 Hv2]. unfold print_entry. simpl.
  assert (all_str no_space_char k) as Hks by (eapply all_str_impl, Hk; intros; by apply key_char_cases).
  assert (all_str (fun c => c <> "=" /\ c <> "#" /\ c <> nl)%char k) as Hkc
    by (eapply all_str_impl, Hk; intros c Hc%key_char_cases; naive_solver).
  apply all_str_and in Hkc as [Hke [Hkh Hkn]%all_str_and].
  assert (all_str no_space_char "=") as Heq by (split; [by split; vm_compute|done]).
  change ("=" +:+ v) with (String "=" v).
  destruct k as [|c k]; [done|]. pose proof Hks as [Hc _]. pose proof Hk as [Hkc _].
  split_and!; try done.
  - unfold clean_line, before_byte. rewrite Cut_none.
    + unfold TrimSpace. change (String c k +:+ String "=" v) with (String c (k +:+ String "=" v)).
      rewrite TrimLeftSpace_id by done.
      replace (String c (k +:+ String "=" v)) with ((String c k +:+ "=") +:+ v) by apply string_app_assoc.
      rewrite TrimRightSpace_app by (by apply all_str_app). by rewrite Hr.
    + apply all_str_app. split; [done|by split].
  - unfold section_name. simpl. rewrite decide_False; [done|].
    by destruct (key_char_cases c Hkc) as (_ & _ & _ & _ & ? & _).
  - by apply Cut_app.
  - unfold normalizeKey. rewrite TrimSpace_id by done. by apply ToLower_keys.
  - unfold TrimSpace. by rewrite Hl.
  - apply all_str_app. split; [done|by split].
Qed.

Lemma scan_print_entries n l st :
  sec st <> NoSection -> Forall printable l ->
  exists es, pair_of <$> es = l /\
    scan_lines n (print_entry <$> l) st
    = Ok (match sec st with
          | InInterface =>
              MkScanState (sec st) (current st)
                (MkScan (iface (acc st) ++ es) (peers (acc st))
                   (interfaceKeys (acc st) ∪ list_to_set (key <$> es)))
          | _ => MkScanState (sec st) (current st ++ es) (acc st)
          end).
Proof.
  revert n st. induction l as [|kv l IH]; intros n st Hs Hl.
  { exists []. split; [done|]. simpl. destruct st as [[] cur [ifc ps ks]]; simpl in *; [done| |];
      rewrite app_nil_r, ?(right_id_L ∅ (∪)); done. }
  apply Forall_cons in Hl as [Hkv Hl].
  destruct (print_entry_read kv Hkv) as (H1 & H2 & H3 & H4 & H5 & H6 & _).
  set (e := MkKv kv.1 kv.2 n).
  assert (scan_line n (print_entry kv) st = Ok (match sec st with
      | InInterface => MkScanState (sec st) (current st)
           (MkScan (iface (acc st) ++ [e]) (peers (acc st)) (interfaceKeys (acc st) ∪ {[key e]}))
      | _ => MkScanState (sec st) (current st ++ [e]) (acc st) end)) as Hline.
  { unfold scan_line. rewrite H1, bool_decide_false, H3 by done.
    destruct kv as [k v]. rewrite H4. simpl in H5, H6. rewrite H5, H6. by destruct (sec st). }
  cbn [fmap list_fmap scan_lines]. rewrite Hline. cbn [mbind result_bind].
  destruct (IH (n + 1) (match sec st with
      | InInterface => MkScanState (sec st) (current st)
           (MkScan (iface (acc st) ++ [e]) (peers (acc st)) (interfaceKeys (acc st) ∪ {[key e]}))
      | _ => MkScanState (sec st) (current st ++ [e]) (acc st) end)) as (es & He & Hr);
    [by destruct (sec st)|done|].
  exists (e :: es). split; [by rewrite <-He; destruct kv|]. rewrite Hr.
  destruct (sec st); [done| |]; simpl; rewrite <-!app_assoc, ?(assoc_L (∪)); done.
Qed.

Lemma scan_lines_app n l1 l2 st :
  scan_lines n (l1 ++ l2) st
  = st' ← scan_lines n l1 st; scan_lines (n + Z.of_nat (length l1)) l2 st'.
Proof.
  revert n st. induction l1 as [|l l1 IH]; intros n st; simpl.
  - by rewrite Z.add_0_r.
  - destruct (scan_line n l st) as [st'|e]; [|done]. simpl. rewrite IH.
    by replace (n + 1 + Z.of_nat (length l1)) with (n + Z.of_nat (S (length l1))) by lia.
Qed.

Lemma scan_peer_header n p st :
  scan_lines n (print_peer p) st
  = scan_lines (n + 1) (print_entry <$> p) (MkScanState InPeer [] (flushPeer st)).
Proof. reflexivity. Qed.

Lemma scan_iface_header n l st :
  scan_lines n ("[Interface]" :: l) st
  = scan_lines (n + 1) l (MkScanState InInterface [] (flushPeer st)).
Proof. reflexivity. Qed.

Lemma scan_print_peers n ps st :
  sec st <> NoSection -> Forall (Forall printable) ps ->
  exists pes st', (pairs_of <$> pes) = ps /\
    scan_lines n (concat (print_peer <$> ps)) st = Ok st' /\
    flushPeer st' = MkScan (iface (flushPeer st)) (peers (flushPeer st) ++ pes)
                           (interfaceKeys (flushPeer st)).
Proof.
  revert n st. induction ps as [|p ps IH]; intros n st Hs Hps.
  { exists [], st. split_and!; [done|done|]. rewrite app_nil_r. by destruct (flushPeer st). }
  apply Forall_cons in Hps as [Hp Hps].
  change (concat _) with (print_peer p ++
    concat (print_peer <$> ps)).
  rewrite scan_lines_app, scan_peer_header.
  destruct (scan_print_entries (n + 1) p (MkScanState InPeer [] (flushPeer st))) as (es & He & Hr); [done..|].
  rewrite Hr. cbn [mbind result_bind sec current acc].
  destruct (IH (n + Z.of_nat (length (print_peer p))) (MkScanState InPeer ([] ++ es) (flushPeer st)))
    as (pes & st' & Hpes & Hst & Hf); [done..|].
  exists (es :: pes), st'. split_and!; [by rewrite <-Hpes, <-He|done|].
  rewrite Hf. simpl. by rewrite <-app_assoc.
Qed.

Lemma Join_printed ifc ps :
  Forall printable ifc -> Forall (Forall printable) ps ->
  Split nl (print_config ifc ps) = print_lines ifc ps.
Proof.
  intros Hi Hp. apply Split_Join; [done|].
  assert (forall l, Forall printable l -> Forall (all_str (fun c => c <> nl)) (print_entry <$> l)) as He.
  { intros l Hl. apply Forall_fmap. eapply Forall_impl; [exact Hl|]. intros kv Hkv.
    by apply print_entry_read. }
  unfold print_lines. constructor; [by repeat split|]. apply Forall_app. split; [by apply He|].
  apply Forall_concat, Forall_fmap. eapply Forall_impl; [exact Hp|]. intros p Hpp. simpl.
  constructor; [by repeat split|]. by apply He.
Qed.

(** C38: a configuration printed as wg-quick text is scanned back to its keys and
    values, section by section and in order, with the set of its interface keys. *)
Theorem scanConfig_roundtrip ifc ps :
  ifc <> [] -> Forall printable ifc -> Forall (Forall printable) ps ->
  exists s, scanConfig (print_config ifc ps) = Ok s /\
    pairs_of (iface s) = ifc /\ (pairs_of <$> peers s) = ps /\
    interfaceKeys s = list_to_set (fst <$> ifc).
Proof.
  intros Hne Hi Hp. unfold scanConfig. rewrite Join_printed by done.
  unfold print_lines. rewrite app_comm_cons, scan_lines_app, scan_iface_header.
  change (flushPeer scan_start) with (MkScan [] [] ∅).
  destruct (scan_print_entries (1 + 1) ifc (MkScanState InInterface [] (MkScan [] [] ∅)))
    as (es & He & Hr); [done..|].
  rewrite Hr. cbn [mbind result_bind sec current acc iface peers interfaceKeys].
  destruct (scan_print_peers (1 + Z.of_nat (length ("[Interface]" :: (print_entry <$> ifc)))) ps
    (MkScanState InInterface [] (MkScan ([] ++ es) [] (∅ ∪ list_to_set (key <$> es)))))
    as (pes & st' & Hpes & Hst & Hf); [done..|].
  rewrite Hst. cbn [mbind result_bind]. rewrite Hf. simpl.
  rewrite bool_decide_false by (intros ->; by subst).
  eexists. split; [reflexivity|]. split_and!; [done|done|]. simpl.
  rewrite (left_id_L ∅ (∪)), <-He, <-list_fmap_compose. done.
Qed.

Definition demo_iface : list (string * string) :=
  [("address", "10.8.0.2/32, fd00::2/128"); ("jc", "4"); ("jmin", "40"); ("jmax", "70"); ("i1", "")].
Definition demo_peers : list (list (string * string)) :=
  [[("endpoint", "vpn.example.com:51820"); ("allowedips", "0.0.0.0/0")]].

Lemma scanConfig_roundtrip_witness :
  exists s, scanConfig (print_config demo_iface demo_peers) = Ok s /\
    pairs_of (iface s) = demo_iface /\ (pairs_of <$> peers s) = demo_peers /\
    interfaceKeys s = list_to_set (fst <$> demo_iface).
Proof.
  assert (Forall printable demo_iface /\ Forall (Forall printable) demo_peers) as [Hi Hp].
  { repeat first [apply Forall_cons; split|apply Forall_nil|discriminate|reflexivity|exact Logic.I
                  |left; reflexivity|right; reflexivity|split]. }
  by apply (scanConfig_roundtrip demo_iface demo_peers).
Defined.

Lemma validateScan_accepts_witness :
  exists s, scanConfig (print_config demo_iface []) = Ok s /\
    (is_ok (validateScan s) = true <-> accepted s).
Proof.
  eexists. split; [vm_compute; reflexivity|].
  apply (validateScan_accepts (print_config demo_iface [])). by vm_compute.
Defined.
