(* ===== verification/TextDecode.v ===== *)
(** Decoding a configuration file to UTF-8: [decodeText] and [decodeUTF16] of
    src/internal/config/tunnel.go, over Go's [unicode/utf8] and [unicode/utf16]. *)

From S2P Require Import Prelude GoStrings GoBytes.

(** ** Runes *)

Definition is_surrogate (r : Z) : bool := (55296 <=? r) && (r <=? 57343).

(** A Unicode scalar value. *)
Definition scalar (r : Z) : Prop := 0 <= r < 55296 \/ 57344 <= r < 1114112.

Definition RuneError : Z := 65533.

(** The bytes [string(rune)] writes. *)
Definition utf8_rune (r : Z) : list Z :=
  if r <? 128 then [r]
  else if r <? 2048 then [192 + r / 64; 128 + r mod 64]
  else if is_surrogate r || (1114111 <? r) then [239; 191; 189]
  else if r <? 65536 then [224 + r / 4096; 128 + (r / 64) mod 64; 128 + r mod 64]
  else [240 + r / 262144; 128 + (r / 4096) mod 64; 128 + (r / 64) mod 64; 128 + r mod 64].

Definition utf8_runes (rs : list Z) : list byte := byte_of <$> concat (utf8_rune <$> rs).

Definition in_range (lo hi b : Z) : bool := (lo <=? b) && (b <=? hi).
Definition cont (b : Z) : bool := in_range 128 191 b.

(** [utf8.Valid]: the well-formed byte sequences of the standard. *)
Fixpoint valid_bytes (l : list Z) : bool :=
  match l with
  | [] => true
  | b0 :: r0 =>
      if b0 <? 128 then valid_bytes r0
      else match r0 with
      | [] => false
      | b1 :: r1 =>
          if in_range 194 223 b0 then cont b1 && valid_bytes r1
          else match r1 with
          | [] => false
          | b2 :: r2 =>
              if b0 =? 224 then in_range 160 191 b1 && cont b2 && valid_bytes r2
              else if in_range 225 236 b0 || in_range 238 239 b0
              then cont b1 && cont b2 && valid_bytes r2
              else if b0 =? 237 then in_range 128 159 b1 && cont b2 && valid_bytes r2
              else match r2 with
              | [] => false
              | b3 :: r3 =>
                  if b0 =? 240 then in_range 144 191 b1 && cont b2 && cont b3 && valid_bytes r3
                  else if in_range 241 243 b0 then cont b1 && cont b2 && cont b3 && valid_bytes r3
                  else if b0 =? 244 then in_range 128 143 b1 && cont b2 && cont b3 && valid_bytes r3
                  else false
              end
          end
      end
  end.

Definition utf8_Valid (b : list byte) : bool := valid_bytes (byte_val <$> b).

(** ** UTF-16 *)

Definition is_high (u : Z) : bool := in_range 55296 56319 u.
Definition is_low (u : Z) : bool := in_range 56320 57343 u.

(** [utf16.Decode]. *)
Fixpoint utf16_Decode (u : list Z) : list Z :=
  match u with
  | [] => []
  | r :: rest =>
      if negb (is_surrogate r) then r :: utf16_Decode rest
      else match rest with
      | r2 :: rest' =>
          if is_high r && is_low r2
          then ((r - 55296) * 1024 + (r2 - 56320) + 65536) :: utf16_Decode rest'
          else RuneError :: utf16_Decode rest
      | [] => [RuneError]
      end
  end.

(** The units of pairs of bytes; an odd byte at the end is dropped. *)
Fixpoint units (bigEndian : bool) (b : list byte) : list Z :=
  match b with
  | x :: y :: r =>
      (if bigEndian then byte_val x * 256 + byte_val y else byte_val y * 256 + byte_val x)
      :: units bigEndian r
  | _ => []
  end.

Definition decodeUTF16 (b : list byte) (bigEndian : bool) : string :=
  string_of (utf8_runes (utf16_Decode (units bigEndian b))).

(** ** Files *)

Definition decodeText (raw : list byte) : string :=
  let plain (raw : list byte) :=
    if utf8_Valid raw && negb (bool_decide (x00 ∈ raw)) then string_of raw
    else if Nat.even (length raw) then decodeUTF16 raw false
    else string_of raw in
  match raw with
  | xff :: xfe :: r => decodeUTF16 r false
  | xfe :: xff :: r => decodeUTF16 r true
  | xef :: xbb :: xbf :: r => plain r
  | _ => plain raw
  end.

(** ** Encoders *)

Definition utf16_rune (r : Z) : list Z :=
  if r <? 65536 then [r] else [55296 + (r - 65536) / 1024; 56320 + (r - 65536) mod 1024].

Definition utf16_runes (rs : list Z) : list Z := concat (utf16_rune <$> rs).

Definition unit_bytes (bigEndian : bool) (u : Z) : list byte :=
  if bigEndian then [byte_of (u / 256); byte_of (u mod 256)] else [byte_of (u mod 256); byte_of (u / 256)].

Definition utf16_bytes (bigEndian : bool) (rs : list Z) : list byte :=
  concat (unit_bytes bigEndian <$> utf16_runes rs).

(** ** Lemmas *)

Lemma in_range_spec lo hi b : in_range lo hi b = true <-> lo <= b <= hi.
Proof. unfold in_range. lia. Qed.

Lemma scalar_not_surrogate r : scalar r -> is_surrogate r = false.
Proof. unfold scalar, is_surrogate. lia. Qed.

Ltac Zify.zify_post_hook ::= Z.to_euclidean_division_equations.

Lemma utf16_Decode_runes rs :
  Forall scalar rs -> utf16_Decode (utf16_runes rs) = rs.
Proof.
  induction 1 as [|r rs Hr Hrs IH]; [done|].
  change (utf16_runes (r :: rs)) with (utf16_rune r ++ utf16_runes rs). unfold utf16_rune.
  destruct (Z.ltb_spec r 65536).
  - simpl. by rewrite scalar_not_surrogate, IH.
  - unfold scalar in Hr. cbn [app utf16_Decode].
    replace (is_surrogate (55296 + (r - 65536) / 1024)) with true by (unfold is_surrogate; lia).
    replace (is_high (55296 + (r - 65536) / 1024)) with true by (unfold is_high, in_range; lia).
    replace (is_low (56320 + (r - 65536) mod 1024)) with true by (unfold is_low, in_range; lia).
    cbn [negb andb]. rewrite IH. f_equal. lia.
Qed.

Lemma utf16_runes_bounds rs :
  Forall scalar rs -> Forall (fun u => 0 <= u < 65536) (utf16_runes rs).
Proof.
  intros Hrs. apply Forall_concat, Forall_fmap. eapply Forall_impl; [exact Hrs|].
  intros r Hr. simpl. unfold scalar in Hr. unfold utf16_rune.
  destruct (Z.ltb_spec r 65536); repeat constructor; lia.
Qed.

Lemma units_bytes be us : Forall (fun u => 0 <= u < 65536) us ->
  units be (concat (unit_bytes be <$> us)) = us.
Proof.
  induction 1 as [|u us Hu Hus IH]; [done|]. unfold unit_bytes. destruct be; simpl;
    rewrite !byte_val_of by lia; f_equal; (lia || exact IH).
Qed.

Lemma utf8_rune_bounds r : scalar r -> Forall (fun b => 0 <= b < 256) (utf8_rune r).
Proof.
  intros Hr. unfold utf8_rune. rewrite scalar_not_surrogate by done. unfold scalar in Hr.
  repeat (case_match; [|]); repeat constructor; lia.
Qed.

(** Settle the tests of a decoder on bytes whose ranges are known. *)
Ltac settle_tests :=
  repeat match goal with
  | |- context [if ?b then _ else _] =>
      first [ replace b with true by (unfold in_range; lia) | replace b with false by (unfold in_range; lia) ]
  | |- context [in_range ?lo ?hi ?b] => replace (in_range lo hi b) with true by (unfold in_range; lia)
  | |- context [cont ?b] => replace (cont b) with true by (unfold cont, in_range; lia)
  end.

Lemma valid_rune r l : scalar r -> valid_bytes (utf8_rune r ++ l) = valid_bytes l.
Proof.
  intros Hr. unfold utf8_rune. rewrite scalar_not_surrogate by done. unfold scalar in Hr.
  destruct (Z.ltb_spec r 128); [cbn [app valid_bytes]; by settle_tests|].
  destruct (Z.ltb_spec r 2048); [cbn [app valid_bytes]; by settle_tests|].
  destruct (Z.ltb_spec 1114111 r); [lia|]. cbn [orb].
  destruct (Z.ltb_spec r 65536); cbn [app valid_bytes].
  - destruct (decide (r < 4096)); [by settle_tests|].
    destruct (decide (53248 <= r < 57344)); by settle_tests.
  - destruct (decide (r < 262144)); [by settle_tests|].
    destruct (decide (1048576 <= r)); by settle_tests.
Qed.

Lemma valid_runes rs : Forall scalar rs -> valid_bytes (concat (utf8_rune <$> rs)) = true.
Proof.
  induction 1 as [|r rs Hr Hrs IH]; [done|].
  change (concat (utf8_rune <$> r :: rs)) with (utf8_rune r ++ concat (utf8_rune <$> rs)).
  by rewrite valid_rune.
Qed.

Lemma byte_vals l : Forall (fun b => 0 <= b < 256) l -> byte_val <$> (byte_of <$> l) = l.
Proof.
  induction 1 as [|b l Hb Hl IH]; [done|]. rewrite !fmap_cons, byte_val_of, IH. f_equal. lia.
Qed.

Lemma utf8_runes_Valid rs : Forall scalar rs -> utf8_Valid (utf8_runes rs) = true.
Proof.
  intros Hrs. unfold utf8_Valid, utf8_runes. rewrite byte_vals; [by apply valid_runes|].
  apply Forall_concat, Forall_fmap. eapply Forall_impl; [exact Hrs|]. apply utf8_rune_bounds.
Qed.

(** No byte of a rune but NUL is zero. *)
Lemma utf8_rune_nonzero r : scalar r -> r <> 0 -> x00 ∉ (byte_of <$> utf8_rune r).
Proof.
  intros Hr Hz Hin. apply list_elem_of_fmap in Hin as (b & Hb & Hin).
  pose proof (utf8_rune_bounds r Hr) as Hbd. rewrite Forall_forall in Hbd. specialize (Hbd b Hin).
  assert (byte_val x00 = b mod 256) as Hv by (by rewrite Hb, byte_val_of).
  change (byte_val x00) with 0 in Hv. rewrite Z.mod_small in Hv by done. subst b.
  unfold utf8_rune in Hin. rewrite scalar_not_surrogate in Hin by done. unfold scalar in Hr.
  repeat (case_match; [|]); repeat (apply elem_of_cons in Hin as [Hin|Hin]; [lia|]);
    by apply elem_of_nil in Hin.
Qed.

Lemma utf8_runes_no_nul rs : Forall scalar rs -> 0 ∉ rs -> x00 ∉ utf8_runes rs.
Proof.
  intros Hrs H0. unfold utf8_runes. induction Hrs as [|r rs Hr Hrs IH]; [by intros ?%elem_of_nil|].
  change (concat (utf8_rune <$> r :: rs)) with (utf8_rune r ++ concat (utf8_rune <$> rs)).
  apply not_elem_of_cons in H0 as [Hr0 H0]. rewrite fmap_app, not_elem_of_app. split; [|by apply IH].
  by apply utf8_rune_nonzero.
Qed.

Lemma decodeUTF16_bytes be rs :
  Forall scalar rs -> decodeUTF16 (utf16_bytes be rs) be = string_of (utf8_runes rs).
Proof.
  intros Hrs. unfold decodeUTF16, utf16_bytes.
  by rewrite units_bytes, utf16_Decode_runes by (done || by apply utf16_runes_bounds).
Qed.

(** ** Properties *)

(** A file is read as the same text whether it was saved as UTF-16 with either
    byte order mark or as UTF-8 with one, whatever code points it holds (no NUL in
    the UTF-8 one): the result is the UTF-8 encoding of its code points. *)
Theorem decodeText_encodings rs :
  Forall scalar rs ->
  let text := string_of (utf8_runes rs) in
  decodeText ([xff; xfe] ++ utf16_bytes false rs) = text /\
  decodeText ([xfe; xff] ++ utf16_bytes true rs) = text /\
  (0 ∉ rs -> decodeText ([xef; xbb; xbf] ++ utf8_runes rs) = text).
Proof.
  intros Hrs text. split_and!.
  - by apply decodeUTF16_bytes.
  - by apply decodeUTF16_bytes.
  - intros H0. cbn [app decodeText]. rewrite utf8_runes_Valid by done.
    by rewrite bool_decide_false by (by apply utf8_runes_no_nul).
Qed.

(** "[é😀]" *)
Lemma decodeText_encodings_witness :
  let rs := [91; 233; 128512; 93] in
  let text := string_of (utf8_runes rs) in
  decodeText ([xff; xfe] ++ utf16_bytes false rs) = text /\
  decodeText ([xfe; xff] ++ utf16_bytes true rs) = text /\
  (0 ∉ rs -> decodeText ([xef; xbb; xbf] ++ utf8_runes rs) = text).
Proof. apply decodeText_encodings. repeat constructor; unfold scalar; lia. Defined.
