(* ===== verification/TunnelConf.v ===== *)
(** A tunnel configuration from its bytes: [ParseTunnel], [finalize],
    [tunnelNameFromPath] and the accessors of [Tunnel], from
    src/internal/config/tunnel.go.

    The upstream parser of the AmneziaWG client is third-party code: it is an
    argument, and its result is a record of the fields that this program reads. *)

From S2P Require Import Prelude GoStrings GoBytes GoNetip GoErrors Params ConfValues ConfScan TextDecode.

(** ** The upstream representation *)

(** [conf.IPCidr]. *)
Record IPCidr := MkIPCidr { cidr_ip : list byte; cidr_bits : Z }.

(** [conf.Peer]: whether its key is zero and its endpoint empty, its key in hex,
    the endpoint's host and port, and its allowed prefixes. *)
Record Peer := MkPeer {
  peer_key_zero : bool;
  peer_key_hex : string;
  peer_endpoint_empty : bool;
  peer_endpoint_host : string;
  peer_endpoint_port : Z;
  peer_allowed : list IPCidr;
}.

(** [conf.Config]. *)
Record Config := MkConfig {
  cfg_MTU : Z;
  cfg_Addresses : list IPCidr;
  cfg_DNS : list (list byte);
  cfg_DNSSearch : list string;
  cfg_Peers : list Peer;
}.

(** ** State *)

Record Tunnel := MkTunnel {
  t_Config : Config;
  t_Path : string;
  t_Addresses : list Addr;
  t_AddressPrefixes : list Prefix;
  t_DNS : list Addr;
  t_LocalDNS : list Addr;
  t_DNSSearch : list string;
  t_MTU : Z;
  t_MTUExplicit : bool;
  t_Generation : string;
  t_AWGParams : list string;
  t_Warnings : list warning;
  t_s4 : Z;
}.

#[export] Instance Tunnel_fields : Fields Tunnel := fun r =>
  MkTunnel (t_Config r) (t_Path r) (t_Addresses r) (t_AddressPrefixes r) (t_DNS r) (t_LocalDNS r)
    (t_DNSSearch r) (t_MTU r) (t_MTUExplicit r) (t_Generation r) (t_AWGParams r) (t_Warnings r)
    (t_s4 r).

Inductive tunnel_err :=
| TScan (e : config_err)
| TUpstream (e : error)
| TNoAddress
| TBadAddress (a : IPCidr)
| TBadPrefix (a : IPCidr)
| TBadDNS (ip : list byte)
| TNoPeer
| TPeerNoKey (n : Z)
| TPeerNoEndpoint (n : Z)
| TPeerBadPort (n : Z)
| TPeerNoAllowedIPs (n : Z)
| TBadMTU (mtu : Z).

(** ** Accessors *)

Definition PerPacketPrefix (t : Tunnel) : Z := t_s4 t.

Definition AddressOfFamily (ipv6 : bool) (t : Tunnel) : option Addr :=
  List.find (fun a => Bool.eqb (Is6 a) ipv6) (t_Addresses t).

Definition HasFamily (ipv6 : bool) (t : Tunnel) : bool := bool_decide (is_Some (AddressOfFamily ipv6 t)).

Definition PublicKeyHex (t : Tunnel) : string :=
  match cfg_Peers (t_Config t) with p :: _ => peer_key_hex p | [] => "" end.

(** ** Finalising *)

Definition warn (w : warning) (t : Tunnel) : Tunnel := t <| t_Warnings ::= (fun l => l ++ [w]) |>.

Fixpoint add_addresses (l : list IPCidr) (t : Tunnel) : result tunnel_err Tunnel :=
  match l with
  | [] => Ok t
  | a :: rest =>
      match AddrFromSlice (cidr_ip a) with
      | None => Err (TBadAddress a)
      | Some addr =>
          let addr := Unmap addr in
          let prefix := PrefixFrom addr (cidr_bits a) in
          if negb (Prefix_IsValid prefix) then Err (TBadPrefix a)
          else add_addresses rest (t <| t_Addresses ::= (fun l => l ++ [addr]) |>
                                     <| t_AddressPrefixes ::= (fun l => l ++ [prefix]) |>)
      end
  end.

Fixpoint add_dns (l : list (list byte)) (t : Tunnel) : result tunnel_err Tunnel :=
  match l with
  | [] => Ok t
  | d :: rest =>
      match AddrFromSlice d with
      | None => Err (TBadDNS d)
      | Some addr =>
          let addr := Unmap addr in
          add_dns rest (if IsLoopback addr then t <| t_LocalDNS ::= (fun l => l ++ [addr]) |>
                        else t <| t_DNS ::= (fun l => l ++ [addr]) |>)
      end
  end.

(** A resolver on this PC silences the ones in the tunnel. *)
Definition prefer_local (t : Tunnel) : Tunnel :=
  if bool_decide (t_LocalDNS t = []) then t
  else
    let t := warn (DNSIsLocal (t_LocalDNS t)) t in
    if bool_decide (t_DNS t = []) then t
    else (warn (DNSIgnored (t_DNS t)) t) <| t_DNS := [] |>.

Definition note_search (cfg : Config) (t : Tunnel) : Tunnel :=
  let t := t <| t_DNSSearch := cfg_DNSSearch cfg |> in
  let t := if bool_decide (t_DNSSearch t = []) then t else warn (SearchDomains (t_DNSSearch t)) t in
  if bool_decide (t_DNS t = []) && bool_decide (t_LocalDNS t = []) then warn NoDNS t else t.

Fixpoint check_peers (n : Z) (l : list Peer) : result tunnel_err unit :=
  match l with
  | [] => Ok tt
  | p :: rest =>
      if peer_key_zero p then Err (TPeerNoKey n)
      else if peer_endpoint_empty p then Err (TPeerNoEndpoint n)
      else if peer_endpoint_port p =? 0 then Err (TPeerBadPort n)
      else if bool_decide (peer_allowed p = []) then Err (TPeerNoAllowedIPs n)
      else check_peers (n + 1) rest
  end.

Definition finalize (t : Tunnel) : result tunnel_err Tunnel :=
  let cfg := t_Config t in
  if bool_decide (cfg_Addresses cfg = []) then Err TNoAddress else
  t ← add_addresses (cfg_Addresses cfg) t;
  t ← add_dns (cfg_DNS cfg) t;
  let t := note_search cfg (prefer_local t) in
  if bool_decide (cfg_Peers cfg = []) then Err TNoPeer else
  let t := if 1 <? Z.of_nat (length (cfg_Peers cfg))
           then warn (ManyPeers (Z.of_nat (length (cfg_Peers cfg)))) t else t in
  _ ← check_peers 1 (cfg_Peers cfg);
  if (t_MTU t <? 576) || (65535 <? t_MTU t) then Err (TBadMTU (t_MTU t)) else Ok t.

(** ** Names *)

Definition safe_char (c : ascii) : bool :=
  is_upper c || is_lower c || is_digit c || in_chars c "_=+.-".

(** The bytes of the first rune: one where the text is not valid UTF-8. *)
Definition rune_len (s : string) : nat :=
  let l := byte_val <$> bytes_of s in
  match List.find (fun k => valid_bytes (take k l)) [1; 2; 3; 4]%nat with
  | Some k => k
  | None => 1%nat
  end.

(** [unsafeNameChars.ReplaceAllString(s, "_")]: each rune outside the set. *)
Fixpoint replace_unsafe (skip : nat) (s : string) : string :=
  match s with
  | EmptyString => ""
  | String c r =>
      match skip with
      | S k => replace_unsafe k r
      | O => if safe_char c then String c (replace_unsafe 0 r)
             else String "_" (replace_unsafe (rune_len s - 1) r)
      end
  end.

(** [strings.TrimSuffix(base, filepath.Ext(base))]. *)
Definition trim_ext (base : string) : string :=
  match CutLast "." base with Some (a, _) => a | None => base end.

Section Parse.
(** The upstream parser, and its check of tunnel names. *)
Variable FromWgQuickWithUnknownEncoding : string -> string -> result error Config.
Variable TunnelNameIsValid : string -> bool.

(** [tunnelNameFromPath], given the last element of the path. *)
Definition tunnelNameFromPath (base : string) : string :=
  let base := replace_unsafe 0 (trim_ext base) in
  let base := if 32 <? len base then String.substring 0 32 base else base in
  if bool_decide (base = "") || negb (TunnelNameIsValid base) then "awgsocks" else base.

(** The MTU of a configuration, and what is said about it. *)
Definition derive_mtu (safe s4 cpaMax : Z) (t : Tunnel) : Tunnel :=
  if negb (t_MTUExplicit t) && negb (safe =? t_MTU t) then
    let t := t <| t_MTU := safe |> in
    if (0 <? s4) || (0 <? cpaMax) then warn (MTULowered safe s4 cpaMax) t else t
  else if t_MTUExplicit t && (safe <? t_MTU t) then warn (MTUTooHigh (t_MTU t) safe) t
  else t.

Definition ParseTunnel (raw : list byte) (path base : string) : result tunnel_err Tunnel :=
  let text := decodeText raw in
  scan ← map_err TScan (scanConfig text);
  warnings ← map_err TScan (validateScan scan);
  cfg ← map_err TUpstream (FromWgQuickWithUnknownEncoding text (tunnelNameFromPath base));
  let '(s4, cpaMax) := perPacketOverhead scan in
  let t := MkTunnel cfg path [] [] [] [] []
             (if cfg_MTU cfg =? 0 then DefaultMTU else cfg_MTU cfg)
             (bool_decide ("mtu" ∈ interfaceKeys scan))
             (awgGeneration (interfaceKeys scan)) (awgParamList (interfaceKeys scan))
             warnings s4 in
  finalize (derive_mtu (SafeMTU s4 cpaMax) s4 cpaMax t).
End Parse.

(** ** What a parsed tunnel satisfies *)

Definition peer_ok (p : Peer) : Prop :=
  peer_key_zero p = false /\ peer_endpoint_empty p = false /\ peer_endpoint_port p <> 0 /\
  peer_allowed p <> [].

(** The addresses of the configuration, as the program reads them. *)
Definition parsed_ips (l : list (list byte)) : list Addr := Unmap <$> omap AddrFromSlice l.

Record tunnel_ok (t : Tunnel) : Prop := {
  tk_addresses : t_Addresses t = parsed_ips (cidr_ip <$> cfg_Addresses (t_Config t));
  tk_some : t_Addresses t <> [];
  tk_prefixes : Forall2 (fun a p => p_addr p = without_zone a /\ Prefix_IsValid p = true)
                  (t_Addresses t) (t_AddressPrefixes t);
  tk_local : t_LocalDNS t = filter (fun a => IsLoopback a = true) (parsed_ips (cfg_DNS (t_Config t)));
  tk_dns : t_DNS t = if bool_decide (t_LocalDNS t = [])
                     then filter (fun a => IsLoopback a = false) (parsed_ips (cfg_DNS (t_Config t)))
                     else [];
  tk_peers : cfg_Peers (t_Config t) <> [] /\ Forall peer_ok (cfg_Peers (t_Config t));
  tk_mtu : 576 <= t_MTU t <= 65535;
}.

(** ** Lemmas *)

Lemma PrefixFrom_addr a b : p_addr (PrefixFrom a b) = without_zone a.
Proof. unfold PrefixFrom. by case_match. Qed.

(** The fields that the steps of [finalize] before the addresses leave alone. *)
Definition same_base (t t' : Tunnel) : Prop :=
  t_Config t' = t_Config t /\ t_MTU t' = t_MTU t /\ t_MTUExplicit t' = t_MTUExplicit t /\
  t_s4 t' = t_s4 t.

#[global] Instance same_base_preorder : PreOrder same_base.
Proof.
  split; [done|]. intros t1 t2 t3 (? & ? & ? & ?) (? & ? & ? & ?). split_and!; congruence.
Qed.

Lemma add_addresses_Ok l t t' :
  add_addresses l t = Ok t' ->
  same_base t t' /\ t_DNS t' = t_DNS t /\ t_LocalDNS t' = t_LocalDNS t /\
  exists ps, t_Addresses t' = t_Addresses t ++ parsed_ips (cidr_ip <$> l) /\
    t_AddressPrefixes t' = t_AddressPrefixes t ++ ps /\
    length (parsed_ips (cidr_ip <$> l)) = length l /\
    Forall2 (fun a p => p_addr p = without_zone a /\ Prefix_IsValid p = true)
      (parsed_ips (cidr_ip <$> l)) ps.
Proof.
  revert t. induction l as [|a l IH]; intros t; simpl.
  { intros [= <-]. split_and!; try done. exists []. by rewrite !app_nil_r. }
  unfold parsed_ips. simpl. destruct (AddrFromSlice (cidr_ip a)) as [addr|]; [|done].
  destruct (Prefix_IsValid (PrefixFrom (Unmap addr) (cidr_bits a))) eqn:Hv; [|done]. simpl.
  intros (Hb & Hd & Hld & ps & Ha & Hp & Hl & Hf)%IH. simpl in *.
  split_and!; try done. exists (PrefixFrom (Unmap addr) (cidr_bits a) :: ps).
  rewrite Ha, Hp, <-!app_assoc. split_and!; [done|done|by f_equal|].
  constructor; [|done]. by rewrite PrefixFrom_addr.
Qed.

Lemma add_dns_Ok l t t' :
  add_dns l t = Ok t' ->
  same_base t t' /\ t_Addresses t' = t_Addresses t /\ t_AddressPrefixes t' = t_AddressPrefixes t /\
  t_LocalDNS t' = t_LocalDNS t ++ filter (fun a => IsLoopback a = true) (parsed_ips l) /\
  t_DNS t' = t_DNS t ++ filter (fun a => IsLoopback a = false) (parsed_ips l).
Proof.
  revert t. induction l as [|d l IH]; intros t; simpl.
  { intros [= <-]. rewrite !app_nil_r. by split_and!. }
  unfold parsed_ips. simpl. destruct (AddrFromSlice d) as [addr|]; [|done].
  intros (Hb & Ha & Hp & Hl & Hd)%IH. simpl. rewrite !filter_cons.
  destruct (IsLoopback (Unmap addr)) eqn:E; simpl in *; rewrite Hl, Hd, <-!app_assoc;
    split_and!; try done.
Qed.

Lemma prefer_local_spec t :
  same_base t (prefer_local t) /\ t_Addresses (prefer_local t) = t_Addresses t /\
  t_AddressPrefixes (prefer_local t) = t_AddressPrefixes t /\
  t_LocalDNS (prefer_local t) = t_LocalDNS t /\
  t_DNS (prefer_local t) = if bool_decide (t_LocalDNS t = []) then t_DNS t else [].
Proof.
  unfold prefer_local. case_bool_decide; [done|]. simpl. case_bool_decide; by simpl.
Qed.

Lemma note_search_spec cfg t :
  same_base t (note_search cfg t) /\ t_Addresses (note_search cfg t) = t_Addresses t /\
  t_AddressPrefixes (note_search cfg t) = t_AddressPrefixes t /\
  t_LocalDNS (note_search cfg t) = t_LocalDNS t /\ t_DNS (note_search cfg t) = t_DNS t.
Proof. unfold note_search. by repeat (case_match; simpl). Qed.

Lemma check_peers_Ok n l : check_peers n l = Ok tt -> Forall peer_ok l.
Proof.
  revert n. induction l as [|p l IH]; intros n; simpl; [by constructor|].
  destruct (peer_key_zero p) eqn:H1; [done|]. destruct (peer_endpoint_empty p) eqn:H2; [done|].
  destruct (Z.eqb_spec (peer_endpoint_port p) 0); [done|]. case_bool_decide; [done|].
  intros Hr%IH. constructor; [|done]. by split_and!.
Qed.

Lemma finalize_Ok t t' :
  t_Addresses t = [] -> t_AddressPrefixes t = [] -> t_DNS t = [] -> t_LocalDNS t = [] ->
  finalize t = Ok t' -> same_base t t' /\ tunnel_ok t'.
Proof.
  intros Ha0 Hp0 Hd0 Hl0. unfold finalize. case_bool_decide as Hne; [done|].
  intros (t1 & (Hb1 & Hd1 & Hl1 & ps & Ha1 & Hp1 & Hlen & Hf)%add_addresses_Ok & Hk)%bind_Ok.
  apply bind_Ok in Hk as (t2 & (Hb2 & Ha2 & Hp2 & Hl2 & Hd2)%add_dns_Ok & Hk).
  destruct (prefer_local_spec t2) as (Hb3 & Ha3 & Hp3 & Hl3 & Hd3).
  destruct (note_search_spec (t_Config t) (prefer_local t2)) as (Hb4 & Ha4 & Hp4 & Hl4 & Hd4).
  set (t4 := note_search (t_Config t) (prefer_local t2)) in *.
  destruct (bool_decide_reflect (cfg_Peers (t_Config t) = [])) as [|Hpe]; [done|].
  set (t5 := if 1 <? _ then _ else t4) in Hk.
  assert (same_base t4 t5 /\ t_Addresses t5 = t_Addresses t4 /\ t_AddressPrefixes t5 = t_AddressPrefixes t4 /\
    t_LocalDNS t5 = t_LocalDNS t4 /\ t_DNS t5 = t_DNS t4) as (Hb5 & Ha5 & Hp5 & Hl5 & Hd5)
    by (unfold t5; by destruct (1 <? Z.of_nat (length (cfg_Peers (t_Config t))))).
  clearbody t5. apply bind_Ok in Hk as ([] & Hpeers%check_peers_Ok & Hk).
  destruct ((t_MTU t5 <? 576) || (65535 <? t_MTU t5)) eqn:Hm; [done|]. injection Hk as <-.
  assert (same_base t t5) as Hb by (by do 4 (etransitivity; [eassumption|])).
  split; [done|]. destruct Hb as (Hc & _).
  assert (t_LocalDNS t5 = filter (fun a => IsLoopback a = true) (parsed_ips (cfg_DNS (t_Config t)))) as HL
    by (rewrite Hl5, Hl4, Hl3, Hl2, Hl1, Hl0; done).
  assert (t_LocalDNS t2 = t_LocalDNS t5) as HL2 by congruence.
  split; rewrite ?Hc.
  - by rewrite Ha5, Ha4, Ha3, Ha2, Ha1, Ha0.
  - rewrite Ha5, Ha4, Ha3, Ha2, Ha1, Ha0. simpl. intros He. rewrite He in Hlen.
    by destruct (cfg_Addresses (t_Config t)).
  - by rewrite Ha5, Ha4, Ha3, Ha2, Ha1, Ha0, Hp5, Hp4, Hp3, Hp2, Hp1, Hp0.
  - done.
  - rewrite Hd5, Hd4, Hd3, HL2, Hd2, Hd1, Hd0. done.
  - done.
  - lia.
Qed.

(** [finalize] on a fresh tunnel, whatever its MTU. *)
Lemma ParseTunnel_Ok F N raw path base t :
  ParseTunnel F N raw path base = Ok t ->
  tunnel_ok t /\
  exists scan, scanConfig (decodeText raw) = Ok scan /\ is_ok (validateScan scan) = true /\
    F (decodeText raw) (tunnelNameFromPath N base) = Ok (t_Config t) /\
    t_MTUExplicit t = bool_decide ("mtu" ∈ interfaceKeys scan) /\
    t_s4 t = fst (perPacketOverhead scan) /\
    (t_MTUExplicit t = false ->
       t_MTU t = SafeMTU (fst (perPacketOverhead scan)) (snd (perPacketOverhead scan))).
Proof.
  unfold ParseTunnel. intros (scan & Hs%map_err_Ok & H)%bind_Ok.
  apply bind_Ok in H as (ws & Hv%map_err_Ok & H). apply bind_Ok in H as (cfg & Hf%map_err_Ok & H).
  destruct (perPacketOverhead scan) as [s4 cpa] eqn:Ho. simpl.
  set (t0 := MkTunnel _ _ _ _ _ _ _ _ _ _ _ _ _) in H.
  set (t1 := derive_mtu (SafeMTU s4 cpa) s4 cpa t0) in H.
  assert (t_Addresses t1 = [] /\ t_AddressPrefixes t1 = [] /\ t_DNS t1 = [] /\ t_LocalDNS t1 = [] /\
    t_Config t1 = cfg /\ t_MTUExplicit t1 = t_MTUExplicit t0 /\ t_s4 t1 = s4 /\
    (t_MTUExplicit t0 = false -> t_MTU t1 = SafeMTU s4 cpa)) as (Ha & Hp & Hd & Hl & Hc & He & H4 & Hm).
  { unfold t1, derive_mtu. clear H t1.
    assert (t_Addresses t0 = [] /\ t_AddressPrefixes t0 = [] /\ t_DNS t0 = [] /\ t_LocalDNS t0 = [] /\
      t_Config t0 = cfg /\ t_s4 t0 = s4) as (? & ? & ? & ? & ? & ?) by done. clearbody t0.
    destruct (t_MTUExplicit t0) eqn:E; simpl.
    - destruct (_ <? _); split_and!; done || congruence.
    - destruct (Z.eqb_spec (SafeMTU s4 cpa) (t_MTU t0)) as [Heq|_]; simpl;
        [split_and!; done || congruence|].
      destruct (_ || _); split_and!; done || congruence. }
  apply finalize_Ok in H as [(Hc' & Hm' & He' & H4') Hok]; [|done..]. split; [done|].
  exists scan. split; [done|]. rewrite Ho, Hv, Hc', Hc, He', He, H4', H4. rewrite Hm'. by split_and!.
Qed.

(** ** Names *)

Lemma replace_unsafe_safe skip s : all_chars safe_char (replace_unsafe skip s) = true.
Proof.
  revert skip. induction s as [|c s IH]; intros skip; simpl; [done|].
  destruct skip; [|apply IH]. destruct (safe_char c) eqn:E; simpl; [by rewrite E, IH|].
  by rewrite IH.
Qed.

Lemma substring_safe p n s : all_chars p s = true -> all_chars p (String.substring 0 n s) = true.
Proof.
  revert s. induction n as [|n IH]; intros [|c s]; simpl; try done.
  rewrite !andb_true_iff. intros [Hc Hs]. split; [done|by apply IH].
Qed.

Lemma substring_length n s : (String.length (String.substring 0 n s) <= n)%nat.
Proof. revert s. induction n as [|n IH]; intros [|c s]; simpl; [lia..|]. specialize (IH s). lia. Qed.

(** ** Properties *)

(** C39: a configuration that [ParseTunnel] accepts has passed the strict validation
    and gives a usable tunnel: at least one valid address, each with its prefix; at
    least one peer, each with a key, an endpoint with a port and allowed addresses;
    an MTU between 576 and 65535; and the DNS addresses of the file split so that
    resolvers on this PC are kept apart and silence the others. *)
Theorem ParseTunnel_sound F N raw path base t :
  ParseTunnel F N raw path base = Ok t ->
  tunnel_ok t /\
  exists scan, scanConfig (decodeText raw) = Ok scan /\ accepted scan.
Proof.
  intros (Hok & scan & Hs & Hv & _)%ParseTunnel_Ok. split; [done|]. exists scan.
  split; [done|]. by apply (validateScan_ok (decodeText raw)).
Qed.

(** Unless the file states an MTU, the tunnel's is the safe one for the
    overhead the file asks for, whatever default the upstream parser reports; with
    at most 140 bytes of overhead a full packet then fits a 1500-byte path. *)
Theorem ParseTunnel_mtu F N raw path base t scan :
  ParseTunnel F N raw path base = Ok t -> scanConfig (decodeText raw) = Ok scan ->
  ("mtu" ∉ interfaceKeys scan) ->
  let '(s4, cpa) := perPacketOverhead scan in
  t_MTU t = SafeMTU s4 cpa /\ PerPacketPrefix t = s4 /\
  (0 <= s4 -> 0 <= cpa -> s4 + cpa <= 140 -> datagram_size (t_MTU t) s4 cpa = 1500).
Proof.
  intros (_ & scan' & Hs & _ & _ & He & H4 & Hm)%ParseTunnel_Ok Hs' Hn.
  assert (scan' = scan) as -> by congruence. rewrite bool_decide_false in He by done.
  destruct (perPacketOverhead scan) as [s4 cpa]. simpl in *. rewrite Hm by done.
  split_and!; [done|done|]. intros. unfold datagram_size, SafeMTU, MinSafeMTU, DefaultMTU.
  destruct (Z.ltb_spec (1420 - s4 - cpa) 1280); lia.
Qed.

(** The tunnel name passed upstream is one the upstream accepts, of at most 32
    of the characters it allows, whatever the file is called; or the fallback. *)
Theorem tunnelNameFromPath_valid N base :
  let n := tunnelNameFromPath N base in
  n = "awgsocks" \/
  (n <> "" /\ len n <= 32 /\ all_chars safe_char n = true /\ N n = true).
Proof.
  unfold tunnelNameFromPath. set (b := replace_unsafe 0 (trim_ext base)).
  set (b' := if 32 <? len b then String.substring 0 32 b else b).
  assert (len b' <= 32 /\ all_chars safe_char b' = true) as [Hl Hs].
  { pose proof (replace_unsafe_safe 0 (trim_ext base)) as Hr. fold b in Hr. unfold b'.
    destruct (Z.ltb_spec 32 (len b)); [|done]. split; [|by apply substring_safe].
    unfold len. pose proof (substring_length 32 b). lia. }
  cbv zeta. destruct (bool_decide_reflect (b' = "")); [by left|].
  destruct (N b') eqn:E; [right|by left]. done.
Qed.

(** An upstream parser that reads one configuration: 10.8.0.2/32, the resolvers
    1.1.1.1 and 127.0.0.1, and one peer. *)
Definition one_config (_ _ : string) : result error Config :=
  Ok (MkConfig 0 [MkIPCidr [x0a; x08; x00; x02] 32] [[x01; x01; x01; x01]; [x7f; x00; x00; x01]] []
        [MkPeer false "ab" false "203.0.113.5" 51820 [MkIPCidr [x00; x00; x00; x00] 0]]).

Definition one_raw : list byte :=
  bytes_of (print_config [("address", "10.8.0.2/32"); ("s4", "43"); ("dns", "1.1.1.1, 127.0.0.1")]
              [[("endpoint", "vpn.example.com:51820"); ("allowedips", "0.0.0.0/0")]]).

Definition any_name (_ : string) : bool := true.

Definition one_tunnel : Tunnel :=
  match ParseTunnel one_config any_name one_raw "C:\client.conf" "client.conf" with
  | Ok t => t
  | Err _ => MkTunnel (MkConfig 0 [] [] [] []) "" [] [] [] [] [] 0 false "" [] [] 0
  end.

Lemma ParseTunnel_sound_witness :
  t_MTU one_tunnel = 1377 /\ t_DNS one_tunnel = [] /\ t_LocalDNS one_tunnel = [Addr4 2130706433] /\
  tunnel_ok one_tunnel /\ exists scan, scanConfig (decodeText one_raw) = Ok scan /\ accepted scan.
Proof.
  split; [by vm_compute|]. split; [by vm_compute|]. split; [by vm_compute|].
  apply (ParseTunnel_sound one_config any_name one_raw "C:\client.conf" "client.conf"). by vm_compute.
Defined.

Definition one_scan : configScan :=
  match scanConfig (decodeText one_raw) with Ok s => s | Err _ => MkScan [] [] ∅ end.

Lemma ParseTunnel_mtu_witness :
  perPacketOverhead one_scan = (43, 0) /\
  let '(s4, cpa) := perPacketOverhead one_scan in
  t_MTU one_tunnel = SafeMTU s4 cpa /\ PerPacketPrefix one_tunnel = s4 /\
  (0 <= s4 -> 0 <= cpa -> s4 + cpa <= 140 -> datagram_size (t_MTU one_tunnel) s4 cpa = 1500).
Proof.
  split; [by vm_compute|].
  apply (ParseTunnel_mtu one_config any_name one_raw "C:\client.conf" "client.conf" one_tunnel one_scan);
    [by vm_compute..|].
  apply (bool_decide_eq_false ("mtu" ∈ interfaceKeys one_scan)). by vm_compute.
Defined.
