(* ===== verification/AppConf.v ===== *)
(** The application configuration: src/internal/config/app.go.

    The file system and the text of JSON are arguments: [ReadFile] answers a file
    or its absence, [ParseJSON] is the syntax of [encoding/json], and [Abs] is
    [filepath.Abs]; how a JSON object is decoded into the configuration, and how the
    configuration is encoded, is modelled. *)

From S2P Require Import Prelude GoStrings GoBytes GoNetip GoErrors TextDecode SocksDial SocksServer.

Definition DefaultSocksListen : string := "127.0.0.1:10808".
Definition DefaultLogLevel : string := "info".
Definition DefaultUDPBind : string := "std".

Record App := MkApp {
  ConfigPath : string;
  Socks5Listen : string;
  AutoStart : bool;
  LogLevel : string;
  MaxConnections : Z;
  LogMaxSizeMB : Z;
  LogMaxFiles : Z;
  UDPAssociate : option bool;
  UDPBind : string;
  app_path : string;
}.

#[export] Instance App_fields : Fields App := fun r =>
  MkApp (ConfigPath r) (Socks5Listen r) (AutoStart r) (LogLevel r) (MaxConnections r)
    (LogMaxSizeMB r) (LogMaxFiles r) (UDPAssociate r) (UDPBind r) (app_path r).

Inductive app_err :=
| AppPath (e : error)
| AppListen (addr : string)
| AppListenPort (addr : string)
| AppListenHost (addr : string)
| AppLogLevel (l : string)
| AppUDPBind (b : string)
| AppMaxConnections (n : Z)
| AppLogLimits
| AppRead (e : error)
| AppParse.

(** ** Validation *)

(** [ValidateLoopbackListen]; the code prints the parsed address and parses it
    again, which gives it back. *)
Definition ValidateLoopbackListen (a : string) : result app_err unit :=
  match ParseAddrPort a with
  | None => Err (AppListen a)
  | Some ap =>
      if ap_port ap =? 0 then Err (AppListenPort a)
      else if negb (IsLoopback (ap_addr ap)) then Err (AppListenHost a) else Ok tt
  end.

Definition UDPEnabled (a : App) : bool := default true (UDPAssociate a).

(** ** JSON *)

Inductive json :=
| JNull
| JBool (b : bool)
| JInt (n : Z)
| JString (s : string)
| JOther.

(** A field of the object into a configuration: [None] for a value of the wrong
    type, or for a field that does not exist ([DisallowUnknownFields]).  A null
    leaves a field as it is, and makes a pointer nil; names match without case. *)
Definition set_json (field : string) (v : json) (a : App) : option App :=
  let str (f : string -> App) :=
    match v with JString s => Some (f s) | JNull => Some a | _ => None end in
  let int (f : Z -> App) :=
    match v with
    | JInt n => if (- 2 ^ 63 <=? n) && (n <? 2 ^ 63) then Some (f n) else None
    | JNull => Some a
    | _ => None
    end in
  let k := ToLower field in
  if bool_decide (k = "config") then str (fun s => a <| ConfigPath := s |>)
  else if bool_decide (k = "socks5_listen") then str (fun s => a <| Socks5Listen := s |>)
  else if bool_decide (k = "auto_start") then
    match v with JBool b => Some (a <| AutoStart := b |>) | JNull => Some a | _ => None end
  else if bool_decide (k = "log_level") then str (fun s => a <| LogLevel := s |>)
  else if bool_decide (k = "max_connections") then int (fun n => a <| MaxConnections := n |>)
  else if bool_decide (k = "log_max_size_mb") then int (fun n => a <| LogMaxSizeMB := n |>)
  else if bool_decide (k = "log_max_files") then int (fun n => a <| LogMaxFiles := n |>)
  else if bool_decide (k = "udp_associate") then
    match v with
    | JBool b => Some (a <| UDPAssociate := Some b |>)
    | JNull => Some (a <| UDPAssociate := None |>)
    | _ => None
    end
  else if bool_decide (k = "udp_bind") then str (fun s => a <| UDPBind := s |>)
  else None.

Fixpoint decode_fields (o : list (string * json)) (a : App) : option App :=
  match o with
  | [] => Some a
  | (k, v) :: rest => a' ← set_json k v a; decode_fields rest a'
  end.

(** The object that [json.MarshalIndent] writes, its [omitempty] fields left out
    when zero. *)
Definition encode_app (a : App) : list (string * json) :=
  [("config", JString (ConfigPath a)); ("socks5_listen", JString (Socks5Listen a));
   ("auto_start", JBool (AutoStart a)); ("log_level", JString (LogLevel a))]
  ++ (if MaxConnections a =? 0 then [] else [("max_connections", JInt (MaxConnections a))])
  ++ (if LogMaxSizeMB a =? 0 then [] else [("log_max_size_mb", JInt (LogMaxSizeMB a))])
  ++ (if LogMaxFiles a =? 0 then [] else [("log_max_files", JInt (LogMaxFiles a))])
  ++ (match UDPAssociate a with None => [] | Some b => [("udp_associate", JBool b)] end)
  ++ (if bool_decide (UDPBind a = "") then [] else [("udp_bind", JString (UDPBind a))]).

Section App.
(** [TunnelConfigPath()] and [AppConfigPath()], from the machine's data directory. *)
Variable TunnelConfigPath AppConfigPath : string.
Variable Abs : string -> result error string.
Variable ReadFile : string -> result error (option (list byte)).
Variable ParseJSON : string -> option (list (string * json)).

Definition DefaultApp : App :=
  MkApp TunnelConfigPath DefaultSocksListen true DefaultLogLevel 0 0 0 (Some true) DefaultUDPBind "".

(** [if strings.TrimSpace(s) == "" { s = d }] *)
Definition or_default (d s : string) : string := if bool_decide (TrimSpace s = "") then d else s.

Definition Normalize (a : App) : result app_err App :=
  abs ← map_err AppPath (Abs (or_default TunnelConfigPath (ConfigPath a)));
  let a := a <| ConfigPath := abs |> <| Socks5Listen ::= or_default DefaultSocksListen |> in
  _ ← ValidateLoopbackListen (Socks5Listen a);
  let a := a <| LogLevel ::= or_default DefaultLogLevel |> in
  if negb (bool_decide (ToLower (LogLevel a) ∈ ["debug"; "info"; "warn"; "warning"; "error"]))
  then Err (AppLogLevel (LogLevel a)) else
  let a := a <| UDPAssociate ::= (fun u => Some (default true u)) |> in
  let bind := ToLower (TrimSpace (UDPBind a)) in
  if bool_decide (bind ∉ [""; "std"; "rio"]) then Err (AppUDPBind (UDPBind a)) else
  let a := a <| UDPBind := if bool_decide (bind = "") then DefaultUDPBind else bind |> in
  if MaxConnections a <? 0 then Err (AppMaxConnections (MaxConnections a))
  else if (LogMaxSizeMB a <? 0) || (LogMaxFiles a <? 0) then Err AppLogLimits
  else Ok a.

Definition LoadApp (path : string) : result app_err App :=
  let path := if bool_decide (path = "") then AppConfigPath else path in
  let abs := match Abs path with Ok p => p | Err _ => path end in
  raw ← map_err AppRead (ReadFile abs);
  match raw with
  | None => Normalize (DefaultApp <| app_path := abs |>)
  | Some raw =>
      match (o ← ParseJSON (decodeText raw); decode_fields o DefaultApp) with
      | None => Err AppParse
      | Some a => Normalize (a <| app_path := abs |>)
      end
  end.

Definition Path (a : App) : string := if bool_decide (app_path a = "") then AppConfigPath else app_path a.
End App.

(** ** Lemmas *)

(** What [Normalize] leaves. *)
Record normalized (a : App) : Prop := {
  nm_listen : ValidateLoopbackListen (Socks5Listen a) = Ok tt;
  nm_log : ToLower (LogLevel a) ∈ ["debug"; "info"; "warn"; "warning"; "error"];
  nm_udp : is_Some (UDPAssociate a);
  nm_bind : UDPBind a ∈ ["std"; "rio"];
  nm_limits : 0 <= MaxConnections a /\ 0 <= LogMaxSizeMB a /\ 0 <= LogMaxFiles a;
}.

Lemma Normalize_normalized T Abs a a' : Normalize T Abs a = Ok a' -> normalized a'.
Proof.
  unfold Normalize. intros (abs & _ & H)%bind_Ok. apply bind_Ok in H as ([] & Hl & H). simpl in *.
  set (log := or_default DefaultLogLevel (LogLevel a)) in *.
  destruct (bool_decide_reflect (ToLower log ∈ ["debug"; "info"; "warn"; "warning"; "error"]))
    as [Hlog|]; [|done]. simpl in H.
  set (bind := ToLower (TrimSpace (UDPBind a))) in *.
  destruct (bool_decide_reflect (bind ∉ [""; "std"; "rio"])) as [|Hb]; [done|].
  destruct (Z.ltb_spec (MaxConnections a) 0); [done|].
  destruct ((LogMaxSizeMB a <? 0) || (LogMaxFiles a <? 0)) eqn:Hlim; [done|]. injection H as <-.
  split; simpl; [done|done|by eexists| |lia].
  destruct (bool_decide_reflect (bind = "")); [by left|].
  apply dec_stable in Hb. apply elem_of_cons in Hb as [?|Hb]; [done|]. done.
Qed.

(** A configuration that [Normalize] left, with a path that [Abs] leaves. *)
Lemma Normalize_id T Abs a :
  normalized a -> TrimSpace (Socks5Listen a) <> "" -> TrimSpace (LogLevel a) <> "" ->
  TrimSpace (ConfigPath a) <> "" -> Abs (ConfigPath a) = Ok (ConfigPath a) ->
  Normalize T Abs a = Ok a.
Proof.
  intros [Hl Hlog [u Hu] Hb Hlim] H1 H2 H3 Habs. destruct a as [cp sl au ll mc ls lf ua ub ap].
  simpl in *. subst ua. unfold Normalize, or_default. simpl.
  rewrite (bool_decide_false (TrimSpace cp = "")), Habs by done. simpl.
  rewrite (bool_decide_false (TrimSpace sl = "")), Hl by done. simpl.
  rewrite (bool_decide_false (TrimSpace ll = "")) by done.
  rewrite (bool_decide_true (ToLower ll ∈ _)) by done. simpl.
  assert (ToLower (TrimSpace ub) = ub /\ ub <> "") as [-> Hub].
  { apply elem_of_cons in Hb as [->|Hb]; [done|]. apply list_elem_of_singleton in Hb as ->. done. }
  rewrite (bool_decide_false (ub ∉ _)) by (intros Hn; apply Hn; by right).
  rewrite (bool_decide_false (ub = "")) by done.
  destruct (Z.ltb_spec mc 0); [lia|].
  destruct ((ls <? 0) || (lf <? 0)) eqn:E; [lia|]. done.
Qed.

(** ** Properties *)

(** [Normalize] either refuses a configuration or leaves one that is valid in
    every field, and that it accepts again without changing it; [Abs] is only
    assumed to answer absolute paths, which are not blank and absolute again. *)
Theorem Normalize_idempotent T Abs a a' :
  (forall p q, Abs p = Ok q -> TrimSpace q <> "" /\ Abs q = Ok q) ->
  Normalize T Abs a = Ok a' -> normalized a' /\ Normalize T Abs a' = Ok a'.
Proof.
  intros HAbs Hn. pose proof (Normalize_normalized _ _ _ _ Hn) as Hnm. split; [done|].
  unfold Normalize in Hn. apply bind_Ok in Hn as (abs & Habs%map_err_Ok & H).
  apply bind_Ok in H as ([] & _ & H). simpl in H.
  destruct (HAbs _ _ Habs) as [Hb Hfix].
  assert (ConfigPath a' = abs /\ Socks5Listen a' = or_default DefaultSocksListen (Socks5Listen a) /\
          LogLevel a' = or_default DefaultLogLevel (LogLevel a)) as (Hc & Hs & Hl).
  { destruct (negb _); [done|]. destruct (bool_decide (_ ∉ _)); [done|].
    destruct (MaxConnections a <? 0); [done|]. destruct (_ || _); [done|]. by injection H as <-. }
  assert (forall d s, TrimSpace d <> "" -> TrimSpace (or_default d s) <> "") as Hor
    by (intros d s Hd; unfold or_default; by destruct (bool_decide_reflect (TrimSpace s = ""))).
  apply Normalize_id; [done|rewrite Hs; by apply Hor|rewrite Hl; by apply Hor|by rewrite Hc..].
Qed.

(** Paths of a machine that are all absolute. *)
Definition abs_of (p : string) : result error string := Ok (if bool_decide (TrimSpace p = "") then "C:\" else p).

Lemma abs_of_abs p q : abs_of p = Ok q -> TrimSpace q <> "" /\ abs_of q = Ok q.
Proof.
  unfold abs_of. intros [= <-]. destruct (bool_decide_reflect (TrimSpace p = "")); [done|].
  by rewrite bool_decide_false.
Qed.

Definition some_app : App := MkApp "" "" false "INFO" 0 0 0 None " RIO " "C:\config.json".

Definition some_app' : App :=
  MkApp "C:\client.conf" "127.0.0.1:10808" false "INFO" 0 0 0 (Some true) "rio" "C:\config.json".

Lemma Normalize_idempotent_witness :
  normalized some_app' /\ Normalize "C:\client.conf" abs_of some_app' = Ok some_app'.
Proof. apply (Normalize_idempotent "C:\client.conf" abs_of some_app); [apply abs_of_abs|by vm_compute]. Defined.

(** A saved configuration is loaded back as it was: the object that [Save]
    writes for a normalized configuration, decoded over the defaults and
    normalized, gives that configuration with the path it was read from. *)
Theorem LoadApp_roundtrip T A Abs ReadFile ParseJSON a path raw :
  normalized a -> TrimSpace (Socks5Listen a) <> "" -> TrimSpace (LogLevel a) <> "" ->
  TrimSpace (ConfigPath a) <> "" -> Abs (ConfigPath a) = Ok (ConfigPath a) ->
  MaxConnections a < 2 ^ 63 -> LogMaxSizeMB a < 2 ^ 63 -> LogMaxFiles a < 2 ^ 63 ->
  path <> "" -> Abs path = Ok path -> ReadFile path = Ok (Some raw) ->
  ParseJSON (decodeText raw) = Some (encode_app a) ->
  LoadApp T A Abs ReadFile ParseJSON path = Ok (a <| app_path := path |>).
Proof.
  intros Hn H1 H2 H3 Habs B1 B2 B3 Hp Hap Hrf Hj. unfold LoadApp.
  rewrite (bool_decide_false (path = "")) by done. rewrite Hap, Hrf.
  cbn [mbind result_bind map_err]. rewrite Hj. cbn [mbind option_bind].
  pose proof Hn as [_ _ [u Hu] Hb (L1 & L2 & L3)].
  assert (decode_fields (encode_app a) (DefaultApp T) = Some (a <| app_path := "" |>)) as ->.
  { destruct a as [cp sl au ll mc ls lf ua ub ap]. simpl in *. subst ua. unfold encode_app. simpl.
    rewrite (bool_decide_false (ub = "")) by (by intros ->; repeat (apply elem_of_cons in Hb as [|Hb]; [done|]);
      apply elem_of_nil in Hb).
    assert (forall n, 0 <= n < 2 ^ 63 -> (- 2 ^ 63 <=? n) && (n <? 2 ^ 63) = true) as Hr by lia.
    destruct (Z.eqb_spec mc 0), (Z.eqb_spec ls 0), (Z.eqb_spec lf 0); subst;
      cbn [app decode_fields mbind option_bind]; unfold set_json; simpl; rewrite ?Hr by done; done. }
  apply Normalize_id; [by destruct Hn; split|done..].
Qed.

Lemma LoadApp_roundtrip_witness :
  LoadApp "C:\client.conf" "C:\config.json" abs_of (fun _ => Ok (Some (bytes_of "{}")))
    (fun _ => Some (encode_app some_app')) "C:\config.json"
  = Ok (some_app' <| app_path := "C:\config.json" |>).
Proof.
  apply (LoadApp_roundtrip "C:\client.conf" "C:\config.json" abs_of _ _ some_app' "C:\config.json" (bytes_of "{}"));
    try done; try by vm_compute.
  by apply (Normalize_normalized "C:\client.conf" abs_of some_app).
Defined.

(** The two loopback checks agree: a server built from a configuration that was
    normalized is never refused by [Start] for its address, only by the system. *)
Theorem normalized_listen_accepted T Abs a a' Listen :
  Normalize T Abs a = Ok a' ->
  let s := NewWithOptions (Socks5Listen a') (MaxConnections a') (UDPEnabled a') in
  (forall b, Listen (Socks5Listen a') = Ok b -> is_ok (Start Listen s) = true) /\
  (forall e, Listen (Socks5Listen a') = Err e ->
     Start Listen s = Err (Wrapf "could not open the SOCKS5 listener" e)).
Proof.
  intros [Hl _ _ _ _]%Normalize_normalized. unfold ValidateLoopbackListen in Hl. unfold Start. simpl.
  destruct (ParseAddrPort (Socks5Listen a')) as [ap|]; [|done].
  destruct (ap_port ap =? 0); [done|]. destruct (IsLoopback (ap_addr ap)); [|done]. simpl.
  by split; intros x ->.
Qed.

Lemma normalized_listen_accepted_witness :
  let s := NewWithOptions "127.0.0.1:10808" 0 true in
  (forall b, bind_any "127.0.0.1:10808" = Ok b -> is_ok (Start bind_any s) = true) /\
  (forall e, bind_any "127.0.0.1:10808" = Err e ->
     Start bind_any s = Err (Wrapf "could not open the SOCKS5 listener" e)).
Proof.
  apply (normalized_listen_accepted "C:\client.conf" abs_of some_app some_app'). by vm_compute.
Defined.
