(* ===== verification/AppSave.v ===== *)
(** Writing the settings: [Save] of src/internal/config/app.go, and the paths of the data
    directory.

    The file system is a map from paths to contents.  [Save] yields every state that it
    passes through, a crash being possible in each: a write appears byte by byte, a rename
    at once. *)

From S2P Require Import Prelude GoStrings GoBytes GoErrors TextDecode AppConf.

(** ** Paths *)

Section Paths.
(** [filepath.Join], and where Windows keeps the data of programs, if it says so. *)
Variable join : string -> string -> string.
Variable programData : option string.
Variable rootOverride : option string.

Definition DefaultRootDir : string := "C:\ProgramData\AWGSocks".

Definition RootDir : string :=
  match rootOverride with
  | Some p => p
  | None =>
      match programData with
      | Some pd => if bool_decide (pd = "") then DefaultRootDir else join pd "AWGSocks"
      | None => DefaultRootDir
      end
  end.

(** [OverrideRootDir]: what the variable was, for the function that restores it, and what
    it is. *)
Definition OverrideRootDir (dir : string) : option string * option string := (rootOverride, Some dir).

Definition AppConfigPath : string := join RootDir "config.json".
Definition TunnelConfigPath : string := join RootDir "client.conf".
Definition LogDir : string := join RootDir "logs".
End Paths.

(** ** Save *)

Abbreviation disk := (gmap string (list byte)).

(** What fails: creating the directory, writing after so many bytes, renaming, and removing
    the temporary file. *)
Record save_faults := MkFaults { f_mkdir : option error; f_write : option (nat * error); f_rename : option error; f_remove : bool }.

Definition tmp_of (path : string) : string := path +:+ ".tmp".

(** The states while [raw] is written to [tmp], up to so many bytes. *)
Definition writing (tmp : string) (raw : list byte) (n : nat) (d : disk) : list disk :=
  (fun k => <[tmp := take k raw]> d) <$> seq 0 (S n).

(** [Save]: the result, the states passed through, and the last one.  [raw] is what
    [json.MarshalIndent] gives for the settings, with a newline. *)
Definition Save (f : save_faults) (path : string) (raw : list byte) (d : disk) : result error unit * list disk * disk :=
  let tmp := tmp_of path in
  match f_mkdir f with
  | Some e => (Err (Wrapf "could not create the directory" e), [], d)
  | None =>
      match f_write f with
      | Some (n, e) => (Err (Wrapf "could not write the file" e), writing tmp raw n d, <[tmp := take n raw]> d)
      | None =>
          let written := <[tmp := raw]> d in
          match f_rename f with
          | Some e =>
              (Err (Wrapf "could not rename the temporary file" e), writing tmp raw (length raw) d,
               if f_remove f then written else delete tmp written)
          | None => (Ok tt, writing tmp raw (length raw) d, delete tmp (<[path := raw]> d))
          end
      end
  end.

(** ** Lemmas *)

Lemma tmp_of_ne path : tmp_of path <> path.
Proof. unfold tmp_of. induction path as [|c path IH]; [done|]. intros [= He]. by apply IH. Qed.

Lemma elem_of_writing d' tmp raw n d : d' ∈ writing tmp raw n d -> exists k, d' = <[tmp := take k raw]> d.
Proof. intros (k & -> & _)%list_elem_of_fmap. by exists k. Qed.

(** The settings are replaced in one piece.  Whatever fails and wherever it is
    interrupted, the file holds the old settings or the new ones in full, and no file but
    it and its temporary one has changed; when [Save] succeeds it holds the new ones and
    the temporary file is gone, and when it fails it holds the old ones. *)
Theorem Save_atomic f path raw d :
  let '(r, seen, last) := Save f path raw d in
  (forall d', d' ∈ last :: seen ->
     (d' !! path = d !! path \/ d' !! path = Some raw) /\ forall q, q <> path -> q <> tmp_of path -> d' !! q = d !! q) /\
  match r with
  | Ok _ => last !! path = Some raw /\ last !! tmp_of path = None
  | Err _ => last !! path = d !! path
  end.
Proof.
  pose proof (tmp_of_ne path) as Hne. unfold Save.
  destruct (f_mkdir f) as [e|].
  { split; [|done]. intros d' ->%list_elem_of_singleton. by split; [left|]. }
  assert (forall k, (<[tmp_of path := take k raw]> d !! path = d !! path) /\
            forall q, q <> path -> q <> tmp_of path -> <[tmp_of path := take k raw]> d !! q = d !! q) as Hk.
  { intros k. split; [by rewrite lookup_insert_ne|]. intros q _ Hq. by rewrite lookup_insert_ne. }
  assert (forall n d', d' ∈ writing (tmp_of path) raw n d ->
     (d' !! path = d !! path \/ d' !! path = Some raw) /\ forall q, q <> path -> q <> tmp_of path -> d' !! q = d !! q) as Hw.
  { intros n d' (k & ->)%elem_of_writing. destruct (Hk k) as [H1 H2]. by split; [left|]. }
  destruct (f_write f) as [[n e]|].
  { split; [|exact (proj1 (Hk n))]. intros d' [->|Hd]%elem_of_cons; [|by eapply Hw]. destruct (Hk n) as [H1 H2]. by split; [left|]. }
  pose proof (Hk (length raw)) as [H1 H2]. rewrite firstn_all in H1, H2.
  destruct (f_rename f) as [e|].
  - assert ((if f_remove f then <[tmp_of path := raw]> d else delete (tmp_of path) (<[tmp_of path := raw]> d)) !! path = d !! path) as Hp.
    { destruct (f_remove f); [done|]. by rewrite lookup_delete_ne. }
    split; [|done]. intros d' [->|Hd]%elem_of_cons; [|by eapply Hw]. split; [by left|]. intros q Hq Ht.
    destruct (f_remove f); [by apply H2|]. rewrite lookup_delete_ne by done. by apply H2.
  - assert (delete (tmp_of path) (<[path := raw]> d) !! path = Some raw) as Hp by (by rewrite lookup_delete_ne, lookup_insert_eq).
    split; [|split; [done|by rewrite lookup_delete_eq]]. intros d' [->|Hd]%elem_of_cons; [|by eapply Hw]. split; [by right|].
    intros q Hq Ht. by rewrite lookup_delete_ne, lookup_insert_ne.
Qed.

(** A write that fails leaves its temporary file behind. *)
Example Save_leaves_tmp e :
  (Save (MkFaults None (Some (1%nat, e)) None false) "c" [x00; x01] ∅).2 !! "c.tmp" = Some [x00].
Proof. done. Qed.
