(* ===== verification/Resolver.v ===== *)
(** The resolver's cache: src/internal/dns/resolver.go, and the loopback guard of
    src/internal/localdns/localdns.go.

    Each call of [Lookup] is a thread; its critical sections, channel operations
    and the upstream query between them are the steps of one machine, with [Flush]
    and the cancellation of contexts beside them. *)

From S2P Require Import Prelude GoStrings GoNetip GoErrors SocksProto.

Definition PositiveTTL : Z := 60 * Second.
Definition NegativeTTL : Z := 5 * Second.
Definition MaxEntries : nat := Z.to_nat 1024.
Definition MaxConcurrent : Z := 8.

(** ** State *)

Abbreviation answer := (result error (list Addr)).

Record entry := MkEntry { e_answer : answer; expires : Z }.

(** Where a call of [Lookup] stands: waiting for a slot, querying, about to store
    its answer (all three as the leader for its name, with the time it started), or
    waiting for another call, or returned. *)
Inductive lookup_pc :=
| Queueing (host : string) (now : Z)
| Querying (host : string) (now : Z)
| Completing (host : string) (now : Z) (a : answer)
| Joined (host : string) (leader : nat)
| Returned (host : string) (a : answer).

(** [r_calls] holds the results of the calls whose [done] channel is closed;
    [r_cancelled] the calls whose context is done, with its error; [r_log] every answer the
    upstream has given. *)
Record Resolver := MkResolver {
  r_entries : gmap string entry;
  r_inflight : gmap string nat;
  r_calls : gmap nat answer;
  r_sem : Z;
  r_hits : Z;
  r_misses : Z;
  r_coalesced : Z;
  r_threads : gmap nat lookup_pc;
  r_cancelled : gmap nat error;
  r_log : list (string * answer);
}.

#[export] Instance Resolver_fields : Fields Resolver := fun r =>
  MkResolver (r_entries r) (r_inflight r) (r_calls r) (r_sem r) (r_hits r) (r_misses r)
    (r_coalesced r) (r_threads r) (r_cancelled r) (r_log r).

Definition New_resolver : Resolver := MkResolver ∅ ∅ ∅ 0 0 0 0 ∅ ∅ [].

(** ** Operations *)

Definition set_pc (t : nat) (pc : lookup_pc) (r : Resolver) : Resolver :=
  r <| r_threads ::= insert t pc |>.

(** The first critical section of [Lookup]: a fresh answer, a call to join, or a
    call to lead. *)
Definition lookup_begin (now : Z) (host : string) (t : nat) (r : Resolver) : Resolver :=
  let lead_or_join :=
    match r_inflight r !! host with
    | Some c => (set_pc t (Joined host c) r) <| r_coalesced ::= Z.add 1 |>
    | None => (set_pc t (Queueing host now) r) <| r_inflight ::= insert host t |> <| r_misses ::= Z.add 1 |>
    end in
  match r_entries r !! host with
  | Some e => if now <? expires e then (set_pc t (Returned host (e_answer e)) r) <| r_hits ::= Z.add 1 |>
              else lead_or_join
  | None => lead_or_join
  end.

Definition evictLocked (now : Z) (entries : gmap string entry) : gmap string entry :=
  if (size entries <? MaxEntries)%nat then entries
  else
    let kept := filter (fun ke => ~ (expires ke.2 < now)) entries in
    if (MaxEntries <=? size kept)%nat then ∅ else kept.

(** The second one: forget the call, store the answer unless it is an error of a
    cancelled caller, and close [done]. *)
Definition lookup_end (now' : Z) (host : string) (start : Z) (a : answer) (t : nat) (r : Resolver) : Resolver :=
  let ttl := if is_ok a then PositiveTTL else NegativeTTL in
  let entries :=
    if is_ok a || negb (bool_decide (is_Some (r_cancelled r !! t)))
    then <[host := MkEntry a (now' + ttl)]> (evictLocked start (r_entries r))
    else r_entries r in
  (set_pc t (Returned host a) r) <| r_entries := entries |> <| r_inflight ::= delete host |>
    <| r_calls ::= insert t a |>.

Definition Flush (r : Resolver) : Resolver := r <| r_entries := ∅ |>.

Definition resolver_Stats (r : Resolver) : Z * Z * Z * nat :=
  (r_hits r, r_misses r, r_coalesced r, size (r_entries r)).

(** [ctx.Err()] of a context that is done. *)
Definition ctx_err (e : error) : Prop := e = ESentinel Canceled \/ e = ESentinel DeadlineExceeded.

Inductive rstep : Resolver -> Resolver -> Prop :=
| rs_begin t host now r :
    r_threads r !! t = None -> rstep r (lookup_begin now host t r)
| rs_acquire t host now r :
    r_threads r !! t = Some (Queueing host now) -> r_sem r < MaxConcurrent ->
    rstep r ((set_pc t (Querying host now) r) <| r_sem ::= Z.add 1 |>)
| rs_give_up t host now e r :
    r_threads r !! t = Some (Queueing host now) -> r_cancelled r !! t = Some e ->
    rstep r (set_pc t (Completing host now (Err e)) r)
| rs_answer t host now a r :
    r_threads r !! t = Some (Querying host now) ->
    rstep r ((set_pc t (Completing host now a) r) <| r_sem ::= Z.add (-1) |>
               <| r_log ::= (fun l => l ++ [(host, a)]) |>)
| rs_end t host start a now' r :
    r_threads r !! t = Some (Completing host start a) ->
    rstep r (lookup_end now' host start a t r)
| rs_joined t host c a r :
    r_threads r !! t = Some (Joined host c) -> r_calls r !! c = Some a ->
    rstep r (set_pc t (Returned host a) r)
| rs_join_cancelled t host c e r :
    r_threads r !! t = Some (Joined host c) -> r_cancelled r !! t = Some e ->
    rstep r (set_pc t (Returned host (Err e)) r)
| rs_cancel t e r :
    r_cancelled r !! t = None -> ctx_err e ->
    rstep r (r <| r_cancelled ::= insert t e |>)
| rs_flush r :
    rstep r (Flush r).

(** ** Local resolvers *)

(** [localdns.Lookup], over the standard library's resolver against one server,
    which works in a world [W]. *)
Definition Lookup_local {W} (LookupNetIP : AddrPort -> string -> string -> W -> result error (list Addr) * W)
    (server : Addr) (network host : string) (w : W) : result error (list Addr) * W :=
  let server := Unmap server in
  if negb (IsLoopback server)
  then (Err (EMsg ("a local DNS server must be a loopback address, " +:+ Addr_String server +:+ " was refused")), w)
  else
    let '(r, w) := LookupNetIP (AddrPortFrom server 53) network host w in
    ((fun l : list Addr => Unmap <$> l) <$> r, w).

(** ** Invariant *)

Definition leads (pc : option lookup_pc) (host : string) : Prop :=
  match pc with
  | Some (Queueing h _) | Some (Querying h _) | Some (Completing h _ _) => h = host
  | _ => False
  end.

Definition querying (p : nat * lookup_pc) : Prop :=
  match p.2 with Querying _ _ => True | _ => False end.

#[global] Instance querying_dec p : Decision (querying p).
Proof. unfold querying. destruct p.2; apply _. Defined.

(** The error of the context of a call, which is done. *)
Definition gave_up (r : Resolver) (t : nat) (a : answer) : Prop :=
  exists e, r_cancelled r !! t = Some e /\ a = Err e.

(** An answer for a name that the upstream gave, or the error of the context of a lookup
    of that name, which ended with it. *)
Definition from_upstream (r : Resolver) (host : string) (a : answer) : Prop :=
  (host, a) ∈ r_log r \/ exists c, r_threads r !! c = Some (Returned host a) /\ gave_up r c a.

Record resolver_inv (r : Resolver) : Prop := {
  ri_size : (size (r_entries r) <= MaxEntries)%nat;
  ri_sem : r_sem r = Z.of_nat (size (filter querying (r_threads r)));
  ri_cap : r_sem r <= MaxConcurrent;
  ri_lead host t : r_inflight r !! host = Some t <-> leads (r_threads r !! t) host;
  ri_entry host e : r_entries r !! host = Some e -> (host, e_answer e) ∈ r_log r;
  ri_completing t host now a : r_threads r !! t = Some (Completing host now a) ->
    (host, a) ∈ r_log r \/ gave_up r t a;
  ri_joined t host c : r_threads r !! t = Some (Joined host c) ->
    leads (r_threads r !! c) host \/ exists a, r_calls r !! c = Some a /\ from_upstream r host a;
  ri_call t a : r_calls r !! t = Some a -> exists host, r_threads r !! t = Some (Returned host a);
  ri_returned t host a : r_threads r !! t = Some (Returned host a) -> from_upstream r host a;
  ri_ctx t e : r_cancelled r !! t = Some e -> ctx_err e;
}.

(** ** Lemmas *)

Lemma leads_insert (th : gmap nat lookup_pc) t pc t' h :
  (forall h', leads (Some pc) h' <-> leads (th !! t) h') ->
  leads (<[t := pc]> th !! t') h <-> leads (th !! t') h.
Proof.
  intros Hp. destruct (decide (t' = t)) as [->|Hne].
  - rewrite lookup_insert_eq. apply Hp.
  - by rewrite lookup_insert_ne.
Qed.

(** What is kept of it: answers and results stay, contexts that are done remain so. *)
Lemma from_upstream_mono r r' h a :
  (forall x, x ∈ r_log r -> x ∈ r_log r') ->
  (forall c h a, r_threads r !! c = Some (Returned h a) -> r_threads r' !! c = Some (Returned h a)) ->
  (forall c e, r_cancelled r !! c = Some e -> r_cancelled r' !! c = Some e) ->
  from_upstream r h a -> from_upstream r' h a.
Proof.
  intros Hl Ht Hc [?|(c & H1 & e & H2 & ->)]; [left; auto|right]. exists c. split; [auto|]. exists e. auto.
Qed.

Lemma returned_kept (th : gmap nat lookup_pc) t pc c h a :
  (forall h a, th !! t <> Some (Returned h a)) -> th !! c = Some (Returned h a) ->
  <[t := pc]> th !! c = Some (Returned h a).
Proof. intros Hn Hc. rewrite lookup_insert_ne; [done|]. intros ->. by destruct (Hn h a). Qed.

Lemma evictLocked_size now m : (size (evictLocked now m) < MaxEntries)%nat.
Proof.
  unfold evictLocked. destruct (Nat.ltb_spec (size m) MaxEntries); [done|].
  destruct (Nat.leb_spec MaxEntries (size (filter (fun ke => ~ (expires ke.2 < now)) m))); [|done].
  rewrite map_size_empty. unfold MaxEntries. lia.
Qed.

Lemma evictLocked_sub now m h e : evictLocked now m !! h = Some e -> m !! h = Some e.
Proof.
  unfold evictLocked. repeat case_match; [done|by rewrite lookup_empty|].
  by intros [? _]%map_lookup_filter_Some.
Qed.

(** A call that stays the leader of its name, at a new point of its work: the
    slots, its log and its answer change together. *)
Lemma lead_on_inv t h pc r sem' log' :
  leads (r_threads r !! t) h ->
  (forall h', leads (Some pc) h' <-> h' = h) -> (forall h' a, pc <> Returned h' a) ->
  (forall h' c, pc <> Joined h' c) ->
  (forall h' now' a, pc = Completing h' now' a ->
     h' = h /\ ((h, a) ∈ log' \/ gave_up r t a)) ->
  (forall x, x ∈ r_log r -> x ∈ log') ->
  sem' = Z.of_nat (size (filter querying (<[t := pc]> (r_threads r)))) -> sem' <= MaxConcurrent ->
  resolver_inv r ->
  resolver_inv ((set_pc t pc r) <| r_sem := sem' |> <| r_log := log' |>).
Proof.
  intros Hl Hpc Hnr Hnj Hcomp Hlog Hsem Hcap [Isize Isem Icap Ilead Ientry Icompl Ijoined Icall Iret Ictx].
  assert (forall h a, r_threads r !! t <> Some (Returned h a)) as Hnot by (intros h0 a0 E; by rewrite E in Hl).
  assert (forall h', leads (Some pc) h' <-> leads (r_threads r !! t) h') as Hsame.
  { intros h'. rewrite Hpc. destruct (r_threads r !! t) as [[]|]; simpl in *; naive_solver. }
  assert (forall t' pc', <[t := pc]> (r_threads r) !! t' = Some pc' ->
    (t' = t /\ pc' = pc) \/ r_threads r !! t' = Some pc') as Hin
    by (intros t' pc'; rewrite lookup_insert_Some; naive_solver).
  split; simpl; try done.
  - intros h' t'. rewrite (leads_insert _ t pc t' h' Hsame). apply Ilead.
  - intros h' e He. by eapply Hlog, Ientry.
  - intros t' h' n a [[-> Heq]|Ht]%Hin.
    + symmetry in Heq. destruct (Hcomp _ _ _ Heq) as [-> ?]. done.
    + destruct (Icompl _ _ _ _ Ht) as [?|?]; [left; auto|by right].
  - intros t' h' c [[-> Heq]|Ht]%Hin; [by destruct (Hnj h' c)|].
    rewrite (leads_insert _ t pc c h' Hsame).
    destruct (Ijoined _ _ _ Ht) as [?|(a & ? & ?)]; [by left|right]. exists a. split; [done|].
    apply (from_upstream_mono r); [done|intros ???; by apply returned_kept|done|done].
  - intros t' a Ha. destruct (Icall _ _ Ha) as [h' Ht]. exists h'.
    rewrite lookup_insert_ne; [done|]. intros ->. by rewrite Ht in Hl.
  - intros t' h' a [[-> Heq]|Ht]%Hin; [by destruct (Hnr h' a)|].
    apply (from_upstream_mono r); [done|intros ???; by apply returned_kept|done|by eapply Iret].
Qed.

(** A new or waiting call that ends up with an answer, or waiting, and leads nothing. *)
Lemma settle_inv t pc r :
  (forall h, ~ leads (r_threads r !! t) h) -> (forall h a, r_threads r !! t <> Some (Returned h a)) ->
  (forall h, ~ leads (Some pc) h) ->
  (forall h a, pc = Returned h a -> from_upstream r h a \/ gave_up r t a) ->
  (forall h c, pc = Joined h c -> leads (r_threads r !! c) h) ->
  resolver_inv r -> resolver_inv (set_pc t pc r).
Proof.
  intros Hn Hnr Hpc Hret Hjoin [Isize Isem Icap Ilead Ientry Icompl Ijoined Icall Iret Ictx].
  assert (forall h', leads (Some pc) h' <-> leads (r_threads r !! t) h') as Hsame
    by (intros h'; split; intros H; [by destruct (Hpc h')|by destruct (Hn h')]).
  assert (forall t' pc', <[t := pc]> (r_threads r) !! t' = Some pc' ->
    (t' = t /\ pc' = pc) \/ r_threads r !! t' = Some pc') as Hin
    by (intros t' pc'; rewrite lookup_insert_Some; naive_solver).
  assert (forall p : lookup_pc, (forall h, ~ leads (Some p) h) -> ~ querying (t, p)) as Hq
    by (intros [] Hp; unfold querying; simpl in *; naive_solver).
  split; simpl; try done.
  - rewrite Isem. destruct (r_threads r !! t) as [p|] eqn:E.
    + rewrite (size_filter_update _ _ t p) by done. rewrite !one_if_false; [lia|by apply Hq..].
    + rewrite size_filter_new by done. rewrite one_if_false; [lia|by apply Hq].
  - intros h' t'. rewrite (leads_insert _ t pc t' h' Hsame). apply Ilead.
  - intros t' h' n a [[-> Heq]|Ht]%Hin; [|by eapply Icompl]. subst pc. by destruct (Hpc h').
  - intros t' h' c [[-> Heq]|Ht]%Hin; rewrite (leads_insert _ t pc c h' Hsame); [left; auto|].
    destruct (Ijoined _ _ _ Ht) as [?|(a & ? & ?)]; [by left|right]. exists a. split; [done|].
    apply (from_upstream_mono r); [done|intros ???; by apply returned_kept|done|done].
  - intros t' a Ha. destruct (Icall _ _ Ha) as [h' Ht]. exists h'.
    rewrite lookup_insert_ne; [done|]. intros ->. by destruct (Hnr h' a).
  - assert (forall h a, from_upstream r h a -> from_upstream (set_pc t pc r) h a) as Hmono.
    { intros h a. apply from_upstream_mono; [done|intros ???; by apply returned_kept|done]. }
    intros t' h' a [[-> Heq]|Ht]%Hin; [|by eapply Hmono, Iret].
    destruct (Hret h' a (eq_sym Heq)) as [?|[e [He ->]]]; [by apply Hmono|right].
    exists t. split; [|by exists e]. simpl. rewrite lookup_insert_eq. by rewrite Heq.
Qed.

Lemma counters_inv r h m c :
  resolver_inv r -> resolver_inv (r <| r_hits := h |> <| r_misses := m |> <| r_coalesced := c |>).
Proof. by intros []; split. Qed.

Lemma begin_lead_inv t host now r :
  r_threads r !! t = None -> r_inflight r !! host = None -> resolver_inv r ->
  resolver_inv ((set_pc t (Queueing host now) r) <| r_inflight ::= insert host t |>).
Proof.
  intros Ht Hf [Isize Isem Icap Ilead Ientry Icompl Ijoined Icall Iret Ictx].
  assert (forall t' h', leads (<[t := Queueing host now]> (r_threads r) !! t') h' <->
    (t' = t /\ h' = host) \/ leads (r_threads r !! t') h') as Hl.
  { intros t' h'. destruct (decide (t' = t)) as [->|Hne].
    - rewrite lookup_insert_eq, Ht. simpl. naive_solver.
    - rewrite lookup_insert_ne by done. naive_solver. }
  assert (forall t' pc', <[t := Queueing host now]> (r_threads r) !! t' = Some pc' ->
    pc' = Queueing host now \/ r_threads r !! t' = Some pc') as Hin
    by (intros t' pc'; rewrite lookup_insert_Some; naive_solver).
  assert (forall h a, from_upstream r h a ->
    from_upstream ((set_pc t (Queueing host now) r) <| r_inflight ::= insert host t |>) h a) as Hmono.
  { intros h a. apply from_upstream_mono; [done| |done]. intros ???. apply returned_kept. by rewrite Ht. }
  split; simpl; try done.
  - rewrite size_filter_new by done. rewrite Isem, one_if_false by (unfold querying; simpl; tauto). lia.
  - intros h' t'. rewrite Hl, lookup_insert_Some, Ilead. split; [naive_solver|].
    intros [[-> ->]|H]; [by left|right]. split; [|done]. intros ->.
    apply Ilead in H. congruence.
  - intros t' h' n a [?|H]%Hin; [done|by eapply Icompl].
  - intros t' h' c [?|H]%Hin; [done|]. rewrite Hl.
    destruct (Ijoined _ _ _ H) as [?|(a & ? & ?)]; [left; by right|right]. exists a. split; [done|by apply Hmono].
  - intros t' a Ha. destruct (Icall _ _ Ha) as [h' H]. exists h'.
    rewrite lookup_insert_ne; [done|]. intros ->. congruence.
  - intros t' h' a [?|H]%Hin; [done|by eapply Hmono, Iret].
Qed.

Lemma lookup_begin_inv t host now r :
  r_threads r !! t = None -> resolver_inv r -> resolver_inv (lookup_begin now host t r).
Proof.
  intros Ht Hi. unfold lookup_begin.
  assert (resolver_inv (match r_inflight r !! host with
    | Some c => (set_pc t (Joined host c) r) <| r_coalesced ::= Z.add 1 |>
    | None => (set_pc t (Queueing host now) r) <| r_inflight ::= insert host t |> <| r_misses ::= Z.add 1 |>
    end)) as Hlead.
  { destruct (r_inflight r !! host) as [c|] eqn:E.
    - apply (counters_inv (set_pc t (Joined host c) r) (r_hits r) (r_misses r) (1 + r_coalesced r)).
      apply (ri_lead _ Hi) in E. apply settle_inv; rewrite ?Ht; simpl; [tauto|done|tauto|done| |done].
      by intros h c' [= <- <-].
    - apply (counters_inv ((set_pc t (Queueing host now) r) <| r_inflight ::= insert host t |>)
        (r_hits r) (1 + r_misses r) (r_coalesced r)). by apply begin_lead_inv. }
  destruct (r_entries r !! host) as [e|] eqn:E; [|done].
  destruct (now <? expires e); [|done].
  apply (counters_inv (set_pc t (Returned host (e_answer e)) r) (1 + r_hits r) (r_misses r) (r_coalesced r)).
  apply settle_inv; rewrite ?Ht; simpl; [tauto|done|tauto| |done|done].
  intros h a [= <- <-]. left. left. by apply (ri_entry _ Hi).
Qed.

Lemma lookup_end_inv t host start a now' r :
  r_threads r !! t = Some (Completing host start a) -> resolver_inv r ->
  resolver_inv (lookup_end now' host start a t r).
Proof.
  intros Ht [Isize Isem Icap Ilead Ientry Icompl Ijoined Icall Iret Ictx].
  pose proof (Icompl _ _ _ _ Ht) as Ha.
  assert (forall t' h', leads (<[t := Returned host a]> (r_threads r) !! t') h' <->
    t' <> t /\ leads (r_threads r !! t') h') as Hl.
  { intros t' h'. destruct (decide (t' = t)) as [->|Hne].
    - rewrite lookup_insert_eq. simpl. naive_solver.
    - rewrite lookup_insert_ne by done. naive_solver. }
  assert (forall t' pc', <[t := Returned host a]> (r_threads r) !! t' = Some pc' ->
    (t' = t /\ pc' = Returned host a) \/ (t' <> t /\ r_threads r !! t' = Some pc')) as Hin
    by (intros t' pc'; rewrite lookup_insert_Some; naive_solver).
  assert (r_inflight r !! host = Some t) as Hlead by (apply Ilead; by rewrite Ht).
  assert (forall h b, from_upstream r h b -> from_upstream (lookup_end now' host start a t r) h b) as Hmono.
  { intros h b. apply from_upstream_mono; [done| |done]. intros ???. apply returned_kept. by rewrite Ht. }
  assert (from_upstream (lookup_end now' host start a t r) host a) as Hfrom.
  { destruct Ha as [?|?]; [by left|right]. exists t. split; [|done]. simpl. by rewrite lookup_insert_eq. }
  split; simpl; try done.
  - destruct (_ || _); [|done]. pose proof (evictLocked_size start (r_entries r)).
    rewrite map_size_insert.
    destruct (evictLocked start (r_entries r) !! host); simpl; lia.
  - rewrite (size_filter_update _ _ t (Completing host start a)) by done.
    rewrite Isem, !one_if_false by (unfold querying; simpl; tauto). lia.
  - intros h' t'. rewrite Hl, lookup_delete_Some, Ilead. split.
    + intros [Hne H]. split; [|done]. intros ->. rewrite Ht in H. simpl in H. congruence.
    + intros [Hne H]. split; [|done]. intros ->. apply Ilead in H. congruence.
  - intros h' e. destruct (is_ok a || negb (bool_decide (is_Some (r_cancelled r !! t)))) eqn:Hst; [|apply Ientry].
    rewrite lookup_insert_Some. intros [[<- <-]|[_ He%evictLocked_sub]]; [|by apply Ientry]. simpl.
    destruct Ha as [?|(e & Hc & ->)]; [done|]. simpl in Hst. by rewrite bool_decide_true in Hst.
  - intros t' h' n a' [[_ ?]|[_ H]]%Hin; [done|by eapply Icompl].
  - intros t' h' c [[_ ?]|[_ H]]%Hin; [done|]. rewrite Hl.
    destruct (decide (c = t)) as [->|Hne].
    + right. exists a. rewrite lookup_insert_eq. split; [done|].
      destruct (Ijoined _ _ _ H) as [Hlt|(a' & Hc & _)].
      * rewrite Ht in Hlt. simpl in Hlt. by subst.
      * destruct (Icall _ _ Hc) as [h0 H0]. congruence.
    + rewrite lookup_insert_ne by done. destruct (Ijoined _ _ _ H) as [?|(b & ? & ?)]; [by left|right].
      exists b. split; [done|by apply Hmono].
  - intros t' a'. rewrite lookup_insert_Some. intros [[<- <-]|[Hne Hc]].
    + exists host. by rewrite lookup_insert_eq.
    + destruct (Icall _ _ Hc) as [h' H]. exists h'. by rewrite lookup_insert_ne.
  - intros t' h' a' [[-> [= -> ->]]|[_ H]]%Hin; [done|by eapply Hmono, Iret].
Qed.

Lemma rstep_inv r r' : rstep r r' -> resolver_inv r -> resolver_inv r'.
Proof.
  intros Hs Hi. pose proof Hi as [Isize Isem Icap Ilead Ientry Icompl Ijoined Icall Iret Ictx].
  destruct Hs as [t h now r Ht|t h now r Ht Hc|t h now e r Ht Hc|t h now a r Ht|t h s a now' r Ht
                 |t h c a r Ht Hc|t h c e r Ht Hc|t e r Hn He|r].
  - by apply lookup_begin_inv.
  - apply (lead_on_inv t h (Querying h now) r (1 + r_sem r) (r_log r)); try done; rewrite ?Ht; try done.
    + rewrite (size_filter_update _ _ t (Queueing h now)), Isem by done. unfold one_if.
      rewrite decide_False, decide_True by (unfold querying; simpl; tauto). lia.
    + lia.
  - apply (lead_on_inv t h (Completing h now (Err e)) r (r_sem r) (r_log r)); try done; rewrite ?Ht; try done.
    + intros h' n' a' [= -> -> <-]. split; [done|right]. by exists e.
    + rewrite (size_filter_update _ _ t (Queueing h now)), Isem, !one_if_false by (done || (unfold querying; simpl; tauto)). lia.
  - apply (lead_on_inv t h (Completing h now a) r (-1 + r_sem r) (r_log r ++ [(h, a)])); try done; rewrite ?Ht; try done.
    + intros h' n' a' [= -> -> ->]. split; [done|left]. apply elem_of_app. right. by left.
    + intros x Hx. apply elem_of_app. by left.
    + rewrite (size_filter_update _ _ t (Querying h now)), Isem by done. unfold one_if.
      rewrite decide_True, decide_False by (unfold querying; simpl; tauto). lia.
    + lia.
  - by apply lookup_end_inv.
  - apply settle_inv; rewrite ?Ht; simpl; [tauto|done|tauto| |done|done]. intros h' a' [= <- <-].
    left. destruct (Ijoined _ _ _ Ht) as [Hl|(a'' & Hc' & Hf)]; [|congruence].
    destruct (Icall _ _ Hc) as [h0 H0]. by rewrite H0 in Hl.
  - apply settle_inv; rewrite ?Ht; simpl; [tauto|done|tauto| |done|done].
    intros h' a' [= <- <-]. right. by exists e.
  - assert (forall c e', r_cancelled r !! c = Some e' -> <[t := e]> (r_cancelled r) !! c = Some e') as Hk
      by (intros c e' Hce; rewrite lookup_insert_ne; congruence).
    assert (forall h a, from_upstream r h a -> from_upstream (r <| r_cancelled ::= insert t e |>) h a) as Hmono
      by (intros h a; by apply from_upstream_mono).
    split; simpl; try done.
    + intros t' h' n a H. destruct (Icompl _ _ _ _ H) as [?|(e' & ? & ->)]; [by left|right]. exists e'. auto.
    + intros t' h' c H. destruct (Ijoined _ _ _ H) as [?|(a & ? & ?)]; [by left|right]. exists a. auto.
    + intros t' h' a H. eapply Hmono, Iret, H.
    + intros t' e' [[-> ->]|[_ ?]]%lookup_insert_Some; [done|by eapply Ictx].
  - split; simpl; [unfold MaxEntries; rewrite map_size_empty; lia|done|done|done| |done|done|done|done|done].
    intros h' e. by rewrite lookup_empty.
Qed.

Lemma rreach_inv r : rtc rstep New_resolver r -> resolver_inv r.
Proof.
  intros H. assert (resolver_inv New_resolver) as Hi.
  { split; simpl; [unfold MaxEntries; rewrite map_size_empty; lia|done|done| |done..].
    intros h t. split; [done|by intros []]. }
  revert Hi. induction H; eauto using rstep_inv.
Qed.

(** ** Properties *)

(** In every interleaving of lookups, cancellations and flushes: the cache holds
    at most 1024 entries, each an answer the upstream gave for that name; at most
    eight queries run at once; a name has at most one query in flight; and a lookup
    that joined another is waiting for one still at work on the same name, or for a
    result that is there. *)
Theorem resolver_invariant r :
  rtc rstep New_resolver r ->
  (size (r_entries r) <= 1024)%nat /\
  (forall host e, r_entries r !! host = Some e -> (host, e_answer e) ∈ r_log r) /\
  Z.of_nat (size (filter querying (r_threads r))) <= MaxConcurrent /\
  (forall host t t', leads (r_threads r !! t) host -> leads (r_threads r !! t') host -> t = t') /\
  (forall t host c, r_threads r !! t = Some (Joined host c) ->
     leads (r_threads r !! c) host \/ is_Some (r_calls r !! c)).
Proof.
  intros [Isize Isem Icap Ilead Ientry Icompl Ijoined Icall Iret Ictx]%rreach_inv.
  split_and!; [done|done|lia| |].
  - intros host t t' H%Ilead H'%Ilead. congruence.
  - intros t host c H. destruct (Ijoined _ _ _ H) as [?|(a & ? & _)]; [by left|right; by exists a].
Qed.


(** Lookups of one name by two callers: the second joins the first, and a third
    comes when the answer is stored. *)
Definition one_answer : answer := Ok [Addr4 1572395042].

Definition two_lookups : Resolver :=
  let r := lookup_begin 0 "example.com" 1 New_resolver in
  let r := lookup_begin 1 "example.com" 2 r in
  let r := (set_pc 1 (Querying "example.com" 0) r) <| r_sem ::= Z.add 1 |> in
  let r := (set_pc 1 (Completing "example.com" 0 one_answer) r) <| r_sem ::= Z.add (-1) |>
             <| r_log ::= (fun l => l ++ [("example.com", one_answer)]) |> in
  let r := lookup_end 2 "example.com" 0 one_answer 1 r in
  let r := set_pc 2 (Returned "example.com" one_answer) r in
  lookup_begin 3 "example.com" 3 r.

Lemma two_lookups_steps : rtc rstep New_resolver two_lookups.
Proof.
  eapply rtc_l; [by apply (rs_begin 1 "example.com" 0)|].
  eapply rtc_l; [by apply (rs_begin 2 "example.com" 1)|].
  eapply rtc_l; [by apply (rs_acquire 1 "example.com" 0)|].
  eapply rtc_l; [by apply (rs_answer 1 "example.com" 0 one_answer)|].
  eapply rtc_l; [by apply (rs_end 1 "example.com" 0 one_answer 2)|].
  eapply rtc_l; [by apply (rs_joined 2 "example.com" 1 one_answer)|].
  eapply rtc_l; [by apply (rs_begin 3 "example.com" 3)|]. apply rtc_refl.
Qed.

Lemma resolver_invariant_witness :
  resolver_Stats two_lookups = (1, 1, 1, 1%nat) /\
  (size (r_entries two_lookups) <= 1024)%nat /\
  (forall host e, r_entries two_lookups !! host = Some e -> (host, e_answer e) ∈ r_log two_lookups) /\
  Z.of_nat (size (filter querying (r_threads two_lookups))) <= MaxConcurrent /\
  (forall host t t', leads (r_threads two_lookups !! t) host -> leads (r_threads two_lookups !! t') host -> t = t') /\
  (forall t host c, r_threads two_lookups !! t = Some (Joined host c) ->
     leads (r_threads two_lookups !! c) host \/ is_Some (r_calls two_lookups !! c)).
Proof. split; [by vm_compute|]. exact (resolver_invariant two_lookups two_lookups_steps). Defined.

(** And the first of them gives up while it waits for a slot. *)
Definition cancelled_lookup : Resolver :=
  let e := ESentinel Canceled in
  let r := (lookup_begin 0 "example.com" 1 New_resolver) <| r_cancelled ::= insert 1%nat e |> in
  lookup_end 2 "example.com" 0 (Err e) 1 (set_pc 1 (Completing "example.com" 0 (Err e)) r).


(** [Flush] does not reach a query in flight: its answer, given before the
    flush, is stored after it and served from the cache. *)
Theorem Flush_misses_inflight :
  exists r1 r2 host a e,
    rtc rstep New_resolver r1 /\ (host, a) ∈ r_log r1 /\
    rtc rstep (Flush r1) r2 /\ r_log r2 = r_log r1 /\
    r_entries r2 !! host = Some e /\ e_answer e = a /\
    r_threads (lookup_begin 3 host 9 r2) !! 9%nat = Some (Returned host a).
Proof.
  eexists _, _, "example.com", one_answer, _. split.
  { eapply rtc_l; [by apply (rs_begin 1 "example.com" 0)|].
    eapply rtc_l; [by apply (rs_acquire 1 "example.com" 0)|].
    eapply rtc_l; [by apply (rs_answer 1 "example.com" 0 one_answer)|]. apply rtc_refl. }
  split; [by apply elem_of_app; right; left|].
  split; [eapply rtc_l; [by apply (rs_end 1 "example.com" 0 one_answer 2)|apply rtc_refl]|].
  by vm_compute.
Qed.

(** A caller that joined another's lookup is answered with the other's
    cancellation, although its own context is not done. *)
Theorem joined_gets_leaders_cancellation :
  exists r, rtc rstep New_resolver r /\ r_cancelled r !! 2%nat = None /\
    r_threads r !! 2%nat = Some (Returned "example.com" (Err (ESentinel Canceled))).
Proof.
  eexists. split; [|split].
  { eapply rtc_l; [by apply (rs_begin 1 "example.com" 0)|].
    eapply rtc_l; [by apply (rs_begin 2 "example.com" 1)|].
    eapply rtc_l; [apply (rs_cancel 1 (ESentinel Canceled)); [done|by left]|].
    eapply rtc_l; [by apply (rs_give_up 1 "example.com" 0 (ESentinel Canceled))|].
    eapply rtc_l; [by apply (rs_end 1 "example.com" 0 (Err (ESentinel Canceled)) 2)|].
    eapply rtc_l; [by apply (rs_joined 2 "example.com" 1 (Err (ESentinel Canceled)))|]. apply rtc_refl. }
  - by vm_compute.
  - by vm_compute.
Qed.

(** A local lookup asks a loopback server, on port 53, or nobody. *)
Lemma Lookup_local_loopback {W} LookupNetIP server network host (w : W) :
  if IsLoopback server then
    Lookup_local LookupNetIP server network host w
    = prod_map (fmap (M := result error) (fmap (M := list) Unmap)) id (LookupNetIP (AddrPortFrom (Unmap server) 53) network host w)
  else exists e, Lookup_local LookupNetIP server network host w = (Err e, w).
Proof.
  unfold Lookup_local. rewrite IsLoopback_Unmap. destruct (IsLoopback server); cbn [negb].
  - by destruct (LookupNetIP _ _ _ _).
  - by eexists.
Qed.
