(* ===== verification/AwgStats.v ===== *)
(** The device's statistics: [parseUAPIGet] of src/internal/awg/stats.go, which
    turns the UAPI "get" document into the status that leaves the program, and
    drops every line that carries a secret. *)

From S2P Require Import Prelude GoStrings GoErrors ConfValues ConfScan.

(** ** Data *)

(** A time is its nanoseconds since the Unix epoch; Go's zero time is the first
    instant of year 1. *)
Definition zero_time : Z := - 62135596800 * 10 ^ 9.

Definition IsZero (t : Z) : bool := t =? zero_time.

Definition Unix (sec nsec : Z) : Z := sec * 10 ^ 9 + nsec.

Record PeerStats := MkPeerStats {
  PublicKey : string;
  ps_Endpoint : string;
  ps_LastHandshake : Z;
  ps_TxBytes : Z;
  ps_RxBytes : Z;
  PersistentKeepalive : string;
  AllowedIPs : list string;
}.

#[export] Instance PeerStats_fields : Fields PeerStats := fun r =>
  MkPeerStats (PublicKey r) (ps_Endpoint r) (ps_LastHandshake r) (ps_TxBytes r) (ps_RxBytes r)
    (PersistentKeepalive r) (AllowedIPs r).

(** [awg.Stats]. *)
Record DevStats := MkDevStats {
  ListenPort : Z;
  AWGParams : gmap string string;
  Peers : list PeerStats;
  s_Endpoint : string;
  s_LastHandshake : Z;
  s_TxBytes : Z;
  s_RxBytes : Z;
}.

#[export] Instance DevStats_fields : Fields DevStats := fun r =>
  MkDevStats (ListenPort r) (AWGParams r) (Peers r) (s_Endpoint r) (s_LastHandshake r)
    (s_TxBytes r) (s_RxBytes r).

Definition no_peer (key : string) : PeerStats := MkPeerStats key "" zero_time 0 0 "" [].

Definition no_stats : DevStats := MkDevStats 0 ∅ [] "" zero_time 0 0.

Definition secretUAPIKeys : list string :=
  ["private_key"; "preshared_key"; "header_protection_key"].

Definition awgUAPIKeys : list string :=
  ["jc"; "jmin"; "jmax";
   "s1"; "s2"; "s3"; "s4";
   "h1"; "h2"; "h3"; "h4";
   "i1"; "i2"; "i3"; "i4"; "i5";
   "content_padding_addition";
   "rekey_after_time"; "rekey_timeout"; "reject_after_time";
   "keepalive_timeout"; "max_handshake_attempts";
   "random_trailers"; "disable_cookies"].

(** ** Parsing *)

(** The locals of [parseUAPIGet]. *)
Record uapi_state := MkUapi {
  u_s : DevStats;
  u_cur : option PeerStats;
  u_sec : Z;
  u_nsec : Z;
}.

#[export] Instance uapi_state_fields : Fields uapi_state := fun r =>
  MkUapi (u_s r) (u_cur r) (u_sec r) (u_nsec r).

(** The closure [flush]. *)
Definition uapi_flush (st : uapi_state) : uapi_state :=
  match u_cur st with
  | None => st
  | Some cur =>
      let cur := if (0 <? u_sec st) || (0 <? u_nsec st)
                 then cur <| ps_LastHandshake := Unix (u_sec st) (u_nsec st) |> else cur in
      MkUapi ((u_s st) <| Peers ::= (fun l => l ++ [cur]) |>) None 0 0
  end.

Definition on_cur (f : PeerStats -> PeerStats) (st : uapi_state) : uapi_state :=
  st <| u_cur ::= fmap f |>.

(** The [switch] on the key of a line. *)
Definition uapi_key (key value : string) (st : uapi_state) : result error uapi_state :=
  if bool_decide (key = "errno") then
    if bool_decide (value = "0") then Ok st else Err (EMsg ("UAPI error: errno=" +:+ value))
  else Ok (
    if bool_decide (key = "listen_port") then
      st <| u_s ::= (fun s => s <| ListenPort := ParseInt_value value |>) |>
    else if bool_decide (key = "public_key") then (uapi_flush st) <| u_cur := Some (no_peer value) |>
    else if bool_decide (key = "endpoint") then on_cur (fun p => p <| ps_Endpoint := value |>) st
    else if bool_decide (key = "last_handshake_time_sec") then st <| u_sec := ParseInt_value value |>
    else if bool_decide (key = "last_handshake_time_nsec") then st <| u_nsec := ParseInt_value value |>
    else if bool_decide (key = "tx_bytes") then
      on_cur (fun p => p <| ps_TxBytes := ParseUint_value value |>) st
    else if bool_decide (key = "rx_bytes") then
      on_cur (fun p => p <| ps_RxBytes := ParseUint_value value |>) st
    else if bool_decide (key = "persistent_keepalive_interval") then
      on_cur (fun p => p <| PersistentKeepalive := value |>) st
    else if bool_decide (key = "allowed_ip") then
      on_cur (fun p => p <| AllowedIPs ::= (fun l => l ++ [value]) |>) st
    else if bool_decide (key ∈ awgUAPIKeys) then
      st <| u_s ::= (fun s => s <| AWGParams ::= insert key value |>) |>
    else st).

Definition uapi_line (line : string) (st : uapi_state) : result error uapi_state :=
  let line := TrimSpace line in
  if bool_decide (line = "") then Ok st
  else match Cut "=" line with
  | None => Ok st
  | Some (key, value) =>
      if bool_decide (key ∈ secretUAPIKeys) then Ok st else uapi_key key value st
  end.

Fixpoint uapi_lines (lines : list string) (st : uapi_state) : result error uapi_state :=
  match lines with
  | [] => Ok st
  | line :: rest => st ← uapi_line line st; uapi_lines rest st
  end.

(** The values of the first peer, for the status display. *)
Definition first_peer (s : DevStats) : DevStats :=
  match Peers s with
  | [] => s
  | p :: _ =>
      s <| s_Endpoint := ps_Endpoint p |> <| s_LastHandshake := ps_LastHandshake p |>
        <| s_TxBytes := ps_TxBytes p |> <| s_RxBytes := ps_RxBytes p |>
  end.

Definition parseUAPIGet (raw : string) : result error DevStats :=
  st ← uapi_lines (Split nl raw) (MkUapi no_stats None 0 0);
  Ok (first_peer (u_s (uapi_flush st))).

(** ** The device's document *)

(** A peer as the device reports it, with its preshared key. *)
Record dev_peer := MkDevPeer {
  dp_key : string;
  dp_psk : string;
  dp_endpoint : string;
  dp_sec : Z;
  dp_nsec : Z;
  dp_tx : Z;
  dp_rx : Z;
  dp_keepalive : string;
  dp_ips : list string;
}.

Definition kvline (k v : string) : string := k +:+ String "=" v.

Definition print_dev_peer (p : dev_peer) : list string :=
  [kvline "public_key" (dp_key p); kvline "preshared_key" (dp_psk p);
   kvline "endpoint" (dp_endpoint p);
   kvline "last_handshake_time_sec" (Itoa (dp_sec p));
   kvline "last_handshake_time_nsec" (Itoa (dp_nsec p));
   kvline "tx_bytes" (Itoa (dp_tx p)); kvline "rx_bytes" (Itoa (dp_rx p));
   kvline "persistent_keepalive_interval" (dp_keepalive p)] ++
  (kvline "allowed_ip" <$> dp_ips p).

(** The lines of a device with private key [sk] and header protection key [hpk]. *)
Definition print_device (sk hpk : string) (port : Z) (params : list (string * string))
    (ps : list dev_peer) : list string :=
  [kvline "private_key" sk; kvline "header_protection_key" hpk; kvline "listen_port" (Itoa port)] ++
  ((fun kv => kvline kv.1 kv.2) <$> params) ++ concat (print_dev_peer <$> ps) ++ [kvline "errno" "0"].

(** What the status shows of a peer. *)
Definition peer_stats (p : dev_peer) : PeerStats :=
  MkPeerStats (dp_key p) (dp_endpoint p)
    (if (0 <? dp_sec p) || (0 <? dp_nsec p) then Unix (dp_sec p) (dp_nsec p) else zero_time)
    (dp_tx p) (dp_rx p) (dp_keepalive p) (dp_ips p).

Definition one_word (v : string) : Prop := all_str no_space_char v.

Record dev_peer_ok (p : dev_peer) : Prop := {
  dpo_words : Forall one_word ([dp_key p; dp_psk p; dp_endpoint p; dp_keepalive p] ++ dp_ips p);
  dpo_sec : 0 <= dp_sec p < 2 ^ 63;
  dpo_nsec : 0 <= dp_nsec p < 2 ^ 63;
  dpo_tx : 0 <= dp_tx p < 2 ^ 64;
  dpo_rx : 0 <= dp_rx p < 2 ^ 64;
}.

Definition param_ok (kv : string * string) : Prop := kv.1 ∈ awgUAPIKeys /\ one_word kv.2.

(** A line that carries a secret. *)
Definition secret_line (line : string) : Prop :=
  exists k v, Cut "=" (TrimSpace line) = Some (k, v) /\ k ∈ secretUAPIKeys.

(** ** Lemmas *)

Definition key_word (k : string) : Prop := k <> "" /\ all_str (fun c => no_space_char c /\ c <> "="%char) k.

Definition key_wordb (k : string) : bool :=
  negb (bool_decide (k = "")) &&
  all_chars (fun c => negb (is_ascii_space c) && (code c <? 128) && negb (bool_decide (c = "="%char))) k.

Lemma key_wordb_word k : key_wordb k = true -> key_word k.
Proof.
  unfold key_wordb, key_word. rewrite andb_true_iff, negb_true_iff, bool_decide_eq_false.
  intros [Hk Hs]. split; [done|]. clear Hk. induction k as [|c k IH]; [done|].
  cbn [all_chars] in Hs. apply andb_true_iff in Hs as [Hc Hs]. split; [|by apply IH].
  rewrite !andb_true_iff, !negb_true_iff, bool_decide_eq_false, Z.ltb_lt in Hc. unfold no_space_char. tauto.
Qed.

Lemma awg_keys_words : Forall (fun k => key_wordb k = true) awgUAPIKeys.
Proof. repeat constructor. Qed.

Lemma ParseInt_Itoa n : 0 <= n < 2 ^ 63 -> ParseInt_value (Itoa n) = n.
Proof.
  intros Hn. destruct (Itoa_digits n) as (Hd & Hv & Hne); [lia|]. unfold ParseInt_value.
  destruct (Itoa n) as [|c s] eqn:E; [done|]. destruct Hd as [Hc _].
  assert (match String c s with
          | String "-" r => (true, r) | String "+" r => (false, r) | _ => (false, String c s)
          end = (false, String c s)) as ->.
  { destruct c as [[] [] [] [] [] [] [] []]; try done; by vm_compute in Hc. }
  rewrite Hv. cbv iota zeta beta.
  destruct (Z.ltb_spec n (- 2 ^ 63)); [lia|]. by destruct (Z.leb_spec (2 ^ 63) n); [lia|].
Qed.

Lemma ParseUint_value_Itoa n : 0 <= n < 2 ^ 64 -> ParseUint_value (Itoa n) = n.
Proof.
  intros Hn. destruct (Itoa_digits n) as (_ & Hv & Hne); [lia|]. unfold ParseUint_value.
  destruct (Itoa n) as [|c s] eqn:E; [done|]. rewrite Hv. by destruct (Z.ltb_spec n (2 ^ 64)); [|lia].
Qed.

Lemma Itoa_word n : 0 <= n -> one_word (Itoa n).
Proof. intros Hn. eapply all_str_impl, Itoa_digits; [apply digit_no_space|done]. Qed.

Lemma kvline_word k v : key_word k -> one_word v -> one_word (kvline k v).
Proof.
  intros [_ [Hk _]%all_str_and] Hv. apply all_str_app. split; [done|]. split; [by split; vm_compute|done].
Qed.

Lemma uapi_line_kv k v st :
  key_word k -> one_word v ->
  uapi_line (kvline k v) st = if bool_decide (k ∈ secretUAPIKeys) then Ok st else uapi_key k v st.
Proof.
  intros Hk Hv. unfold uapi_line. rewrite TrimSpace_id by (by apply kvline_word).
  destruct Hk as [Hne [_ Hk]%all_str_and]. rewrite bool_decide_false by (by destruct k).
  unfold kvline. by rewrite Cut_app.
Qed.

Lemma uapi_lines_app l1 l2 st : uapi_lines (l1 ++ l2) st = uapi_lines l1 st ≫= uapi_lines l2.
Proof.
  revert st. induction l1 as [|l l1 IH]; intros st; [done|]. cbn [uapi_lines app].
  destruct (uapi_line l st) as [st1|e]; cbn [mbind result_bind]; [apply IH|done].
Qed.

Ltac solve_key := apply key_wordb_word; vm_compute; reflexivity.

(** One step of the parser on a printed line. *)
Ltac uapi_step :=
  cbn [uapi_lines];
  rewrite uapi_line_kv by first [solve_key | done | apply Itoa_word; lia];
  match goal with |- context [bool_decide (?k ∈ secretUAPIKeys)] =>
    let b := eval vm_compute in (bool_decide (k ∈ secretUAPIKeys)) in
    change (bool_decide (k ∈ secretUAPIKeys)) with b end;
  cbn [mbind result_bind].

(** The switch on a literal key. *)
Ltac eval_key :=
  unfold uapi_key;
  repeat (match goal with |- context [bool_decide (?k = ?k')] =>
            let b := eval vm_compute in (bool_decide (k = k')) in
            match b with true => idtac | false => idtac end;
            change (bool_decide (k = k')) with b
          end; cbv iota);
  cbn [mbind result_bind].

Lemma uapi_allowed_ips ips s p sec nsec :
  Forall one_word ips ->
  uapi_lines (kvline "allowed_ip" <$> ips) (MkUapi s (Some p) sec nsec)
  = Ok (MkUapi s (Some (p <| AllowedIPs ::= (fun l => l ++ ips) |>)) sec nsec).
Proof.
  intros Hips. revert p. induction Hips as [|ip ips Hip Hips IH]; intros p.
  - destruct p; simpl. by rewrite app_nil_r.
  - cbn [fmap list_fmap]. uapi_step.
    eval_key. unfold on_cur. cbn [set_field u_s u_cur u_sec u_nsec fmap option_fmap option_map].
    rewrite IH. destruct p; simpl. by rewrite <-app_assoc.
Qed.

Lemma uapi_peer p st :
  dev_peer_ok p ->
  uapi_lines (print_dev_peer p) st
  = Ok (MkUapi (u_s (uapi_flush st))
          (Some ((peer_stats p) <| ps_LastHandshake := zero_time |>)) (dp_sec p) (dp_nsec p)).
Proof.
  intros [Hw Hs Hn Ht Hr]. apply Forall_app in Hw as [Hw Hips].
  rewrite !Forall_cons in Hw. destruct Hw as (Hk & Hpsk & He & Hka & _).
  unfold print_dev_peer. rewrite uapi_lines_app.
  do 8 (uapi_step; try eval_key). cbn [uapi_lines mbind result_bind].
  rewrite ParseInt_Itoa, ParseInt_Itoa, ParseUint_value_Itoa, ParseUint_value_Itoa by done.
  match goal with |- uapi_lines _ ?x = _ =>
    change x with (MkUapi (u_s (uapi_flush st))
      (Some (MkPeerStats (dp_key p) (dp_endpoint p) zero_time (dp_tx p) (dp_rx p) (dp_keepalive p) []))
      (dp_sec p) (dp_nsec p))
  end.
  by rewrite uapi_allowed_ips.
Qed.

Lemma uapi_flush_peer s p :
  uapi_flush (MkUapi s (Some ((peer_stats p) <| ps_LastHandshake := zero_time |>)) (dp_sec p) (dp_nsec p))
  = MkUapi (s <| Peers ::= (fun l => l ++ [peer_stats p]) |>) None 0 0.
Proof. unfold uapi_flush, peer_stats. cbn. by case_match. Qed.

Lemma uapi_peers ps st :
  Forall dev_peer_ok ps -> ps <> [] ->
  exists st', uapi_lines (concat (print_dev_peer <$> ps)) st = Ok st' /\
    uapi_flush st' = MkUapi ((u_s (uapi_flush st)) <| Peers ::= (fun l => l ++ (peer_stats <$> ps)) |>) None 0 0.
Proof.
  intros Hps. revert st. induction Hps as [|p ps Hp Hps IH]; intros st; [done|]. intros _.
  cbn [fmap list_fmap concat]. rewrite uapi_lines_app, uapi_peer by done. cbn [mbind result_bind].
  set (st1 := MkUapi _ _ _ _). destruct (decide (ps = [])) as [->|Hne].
  - exists st1. split; [done|]. apply uapi_flush_peer.
  - destruct (IH st1 Hne) as (st' & Hl & Hf). exists st'. split; [done|]. rewrite Hf. unfold st1.
    rewrite uapi_flush_peer. destruct (u_s (uapi_flush st)); simpl. by rewrite <-app_assoc.
Qed.

Lemma uapi_params params s :
  Forall param_ok params ->
  uapi_lines ((fun kv => kvline kv.1 kv.2) <$> params) (MkUapi s None 0 0)
  = Ok (MkUapi (s <| AWGParams ::= (fun m => foldl (fun m kv => <[kv.1 := kv.2]> m) m params) |>) None 0 0).
Proof.
  intros Hp. revert s. induction Hp as [|[k v] params [Hk Hv] Hp IH]; intros s; [by destruct s|].
  cbn [fmap list_fmap uapi_lines fst snd] in *.
  pose proof (proj1 (Forall_forall _ _) awg_keys_words k Hk) as Hkw. apply key_wordb_word in Hkw.
  rewrite uapi_line_kv by done.
  assert (bool_decide (k ∈ secretUAPIKeys) = false /\
          uapi_key k v (MkUapi s None 0 0) = Ok (MkUapi (s <| AWGParams ::= insert k v |>) None 0 0))
    as [-> ->].
  { unfold awgUAPIKeys in Hk. rewrite !elem_of_cons, elem_of_nil in Hk.
    repeat (destruct Hk as [->|Hk]); done. }
  cbn [mbind result_bind]. rewrite IH. by destruct s.
Qed.

(** What [parseUAPIGet] shows of a device. *)
Definition device_stats (port : Z) (params : list (string * string)) (ps : list dev_peer) : DevStats :=
  first_peer (MkDevStats port (foldl (fun m kv => <[kv.1 := kv.2]> m) ∅ params)
                (peer_stats <$> ps) "" zero_time 0 0).

Lemma key_words_no_nl k v : key_word k -> one_word v -> all_str (fun c => c <> nl) (kvline k v).
Proof.
  intros Hk Hv. eapply all_str_impl, kvline_word; [|done..]. by intros c [Hc _] ->.
Qed.

Lemma print_dev_peer_lines p : dev_peer_ok p -> Forall (all_str (fun c => c <> nl)) (print_dev_peer p).
Proof.
  intros [Hw Hs Hn Ht Hr]. apply Forall_app in Hw as [Hw Hips].
  rewrite !Forall_cons in Hw. destruct Hw as (Hk & Hpsk & He & Hka & _).
  apply Forall_app. split.
  - repeat (apply Forall_cons; split); [..|constructor];
      apply key_words_no_nl; first [solve_key | done | apply Itoa_word; lia].
  - apply Forall_fmap. eapply Forall_impl; [exact Hips|]. intros ip Hip. apply key_words_no_nl; [solve_key|done].
Qed.

Lemma print_device_lines sk hpk port params ps :
  one_word sk -> one_word hpk -> 0 <= port -> Forall param_ok params -> Forall dev_peer_ok ps ->
  Forall (all_str (fun c => c <> nl)) (print_device sk hpk port params ps).
Proof.
  intros Hsk Hhpk Hport Hpar Hps. unfold print_device. rewrite !Forall_app. split_and!.
  - repeat (apply Forall_cons; split); [..|constructor];
      apply key_words_no_nl; first [solve_key | done | apply Itoa_word; lia].
  - apply Forall_fmap. eapply Forall_impl; [exact Hpar|]. intros [k v] [Hk Hv].
    apply key_words_no_nl; [|done]. apply key_wordb_word.
    by apply (proj1 (Forall_forall _ _) awg_keys_words).
  - apply Forall_concat, Forall_fmap. eapply Forall_impl; [exact Hps|]. apply print_dev_peer_lines.
  - apply Forall_singleton. apply key_words_no_nl; [solve_key|]. repeat split; by vm_compute.
Qed.

Lemma secret_line_ignored line st : secret_line line -> uapi_line line st = Ok st.
Proof.
  intros (k & v & Hc & Hk). unfold uapi_line. rewrite Hc. case_bool_decide; [done|].
  by rewrite bool_decide_true.
Qed.

(** ** Properties *)

(** The status of a device is read from its document in full: the listen port,
    the AmneziaWG parameters and every peer in its order, each with its own endpoint,
    handshake time, counters and allowed prefixes, whatever the private key, the
    header protection key and the preshared keys are. *)
Theorem parseUAPIGet_reads sk hpk port params ps :
  one_word sk -> one_word hpk -> 0 <= port < 2 ^ 63 -> Forall param_ok params ->
  Forall dev_peer_ok ps ->
  parseUAPIGet (Join (print_device sk hpk port params ps) (String nl ""))
  = Ok (device_stats port params ps).
Proof.
  intros Hsk Hhpk Hport Hpar Hps. unfold parseUAPIGet.
  rewrite Split_Join by (done || by apply print_device_lines; try lia).
  unfold print_device. rewrite !uapi_lines_app. do 2 uapi_step. uapi_step. eval_key.
  rewrite ParseInt_Itoa by done. cbn [uapi_lines mbind result_bind].
  match goal with |- context [uapi_lines (_ ++ _) ?x] =>
    change x with (MkUapi (no_stats <| ListenPort := port |>) None 0 0) end.
  rewrite !uapi_lines_app, uapi_params by done. cbn [mbind result_bind].
  rewrite uapi_lines_app. set (st := MkUapi _ _ _ _).
  assert (exists st', uapi_lines (concat (print_dev_peer <$> ps)) st = Ok st' /\
    u_s (uapi_flush st') = (u_s st) <| Peers := peer_stats <$> ps |>) as (st' & -> & Hst).
  { destruct (decide (ps = [])) as [->|Hne]; [by exists st|].
    destruct (uapi_peers ps st Hps Hne) as (st' & Hl & Hf). exists st'. split; [done|]. by rewrite Hf. }
  cbn [mbind result_bind]. uapi_step. change (uapi_key "errno" "0" st') with (Ok (E := error) st').
  cbn [mbind result_bind]. by rewrite Hst.
Qed.

(** Two documents that differ in secret-bearing lines only give the same status:
    no part of a private key, a preshared key or a header protection key reaches it,
    not even through an error. *)
Theorem parseUAPIGet_drops_secrets raw1 raw2 :
  Forall2 (fun l1 l2 => l1 = l2 \/ secret_line l1 /\ secret_line l2) (Split nl raw1) (Split nl raw2) ->
  parseUAPIGet raw1 = parseUAPIGet raw2.
Proof.
  unfold parseUAPIGet. intros Hl. generalize (MkUapi no_stats None 0 0). intros st.
  assert (uapi_lines (Split nl raw1) st = uapi_lines (Split nl raw2) st) as ->; [|done].
  revert st. induction Hl as [|l1 l2 ls1 ls2 [->|[H1 H2]] Hl IH]; intros st; [done| |]; cbn [uapi_lines].
  - destruct (uapi_line l2 st); [apply IH|done].
  - rewrite (secret_line_ignored l1 st H1), (secret_line_ignored l2 st H2). apply IH.
Qed.

(** ** Witnesses *)

Definition one_dev_peer : dev_peer :=
  MkDevPeer "ab12" "cd34" "203.0.113.5:51820" 1700000000 5 1024 2048 "25" ["0.0.0.0/0"; "::/0"].

Lemma parseUAPIGet_reads_witness :
  parseUAPIGet (Join (print_device "secret" "hidden" 51820 [("jc", "4"); ("s4", "8")] [one_dev_peer]) (String nl ""))
  = Ok (device_stats 51820 [("jc", "4"); ("s4", "8")] [one_dev_peer]) /\
  s_LastHandshake (device_stats 51820 [] [one_dev_peer]) = 1700000000000000005.
Proof.
  split; [|by vm_compute]. apply parseUAPIGet_reads.
  - by repeat split; vm_compute.
  - by repeat split; vm_compute.
  - lia.
  - repeat constructor; by vm_compute.
  - constructor; [|constructor]. constructor; [|simpl; lia..]. repeat constructor; by vm_compute.
Defined.

Lemma parseUAPIGet_drops_secrets_witness :
  parseUAPIGet ("private_key=aa" +:+ String nl "listen_port=7")
  = parseUAPIGet ("private_key=bb" +:+ String nl "listen_port=7").
Proof.
  apply parseUAPIGet_drops_secrets. vm_compute Split. constructor; [right|constructor; [by left|constructor]].
  split; [exists "private_key", "aa"|exists "private_key", "bb"]; (split; [by vm_compute|left]).
Defined.
