(* ===== verification/AwgTunnel.v ===== *)
(** The tunnel: src/internal/awg/tunnel.go and src/internal/awg/dryrun.go.

    The AmneziaWG device and its network stack are third-party code: they are the
    operations of [Upstream], over a world [W].  The tunnel's own state (its
    configuration, whether it runs, its readiness channel, its observable state, the
    resolver's cache) is modelled, with every operation that changes it; an operation
    is one step here, and [WaitReady], which runs beside the others, has a machine of
    its own.  Logging is left out. *)

From S2P Require Import Prelude GoStrings GoNetip GoErrors SocksProto SocksDial SocksUdp SocksSession ConfValues ConfScan TunnelConf Resolver AwgStats.

(** ** The device and its stack *)

(** What the upstream UAPI writer gives within the program's time: a text or an
    error, or nothing before the timer or the context is done. *)
Inductive uapi_outcome := Rendered (r : result error string) | UapiTimeout | UapiDone (ctx : error).

(** What the program calls: the stack and device of a configuration, the UAPI writer
    and the key reader, the device's operations, and the sockets and resolvers that
    it reaches.  [ctx_Err] is the state of the caller's context. *)
Class Upstream (W Dev Sock Key : Type) : Type := {
  CreateNetTUN : list Addr -> list Addr -> Z -> W -> option error * W;
  NewDevice : W -> Dev * W;
  ToUAPI : Config -> W -> uapi_outcome * W;
  FromHex : string -> result error Key;
  IpcSet : Dev -> string -> W -> option error * W;
  IpcGet : Dev -> W -> result error string;
  dev_Up : Dev -> W -> option error * W;
  dev_Close : Dev -> W -> W;
  BindUpdate : Dev -> W -> option error * W;
  SendKeepalive : Dev -> Key -> W -> W;
  net_discard : Dev -> AddrPort -> W -> W;
  net_DialTCP : Dev -> Z -> AddrPort -> W -> result error Sock * W;
  net_LookupHost : Dev -> Z -> string -> W -> result error (list string) * W;
  net_LookupNetIP : Z -> AddrPort -> string -> string -> W -> result error (list Addr) * W;
  net_ListenUDP : Dev -> AddrPort -> W -> result error Sock * W;
  net_WriteTo : Sock -> list byte -> AddrPort -> W -> result error Z * W;
  net_CloseSock : Sock -> W -> W;
  ctx_Err : W -> option error;
}.

(** ** State *)

Inductive State := StateStopped | StateConnecting | StateConnected | StateReconnecting | StateFailed.

#[global] Instance State_eq_dec : EqDecision State.
Proof. solve_decision. Defined.

Definition State_String (s : State) : string :=
  match s with
  | StateStopped => "stopped"
  | StateConnecting => "connecting"
  | StateConnected => "connected"
  | StateReconnecting => "reconnecting"
  | StateFailed => "failed"
  end.

Definition handshakeStaleAfter : Z := 180 * Second.
Definition superviseInterval : Z := Second.
Definition minBackoff : Z := 1 * Second.
Definition maxBackoff : Z := 60 * Second.
Definition dnsAttemptTimeouts : list Z := [2 * Second; 4 * Second; 6 * Second].

(** The tunnel.  Channels are numbered: [a_ready] is the current readiness channel,
    [a_closed] the closed ones, [a_next] the next number. *)
Record AWG (W Dev Key : Type) := MkAWG {
  a_cfg : option Tunnel;
  a_dev : option Dev;
  a_keys : list Key;
  a_ready : nat;
  a_closed : gset nat;
  a_next : nat;
  a_running : bool;
  a_state : State;
  a_lastErr : string;
  a_reconnects : Z;
  a_startedAt : option Z;
  a_kick : bool;
  a_resolver : Resolver;
  a_now : Z;
  a_world : W;
}.
Arguments MkAWG {W Dev Key}.
Arguments a_cfg {W Dev Key}.
Arguments a_dev {W Dev Key}.
Arguments a_keys {W Dev Key}.
Arguments a_ready {W Dev Key}.
Arguments a_closed {W Dev Key}.
Arguments a_next {W Dev Key}.
Arguments a_running {W Dev Key}.
Arguments a_state {W Dev Key}.
Arguments a_lastErr {W Dev Key}.
Arguments a_reconnects {W Dev Key}.
Arguments a_startedAt {W Dev Key}.
Arguments a_kick {W Dev Key}.
Arguments a_resolver {W Dev Key}.
Arguments a_now {W Dev Key}.
Arguments a_world {W Dev Key}.

#[export] Instance AWG_fields {W Dev Key} : Fields (AWG W Dev Key) := fun r =>
  MkAWG (a_cfg r) (a_dev r) (a_keys r) (a_ready r) (a_closed r) (a_next r) (a_running r)
    (a_state r) (a_lastErr r) (a_reconnects r) (a_startedAt r) (a_kick r) (a_resolver r) (a_now r)
    (a_world r).

(** ** Helpers *)

Definition stackEqual (a b : option Tunnel) : bool :=
  match a, b with
  | Some a, Some b =>
      bool_decide (t_MTU a = t_MTU b) && bool_decide (t_Addresses a = t_Addresses b) &&
      bool_decide (t_DNS a = t_DNS b) && bool_decide (t_LocalDNS a = t_LocalDNS b)
  | _, _ => false
  end.

(** [retryDecision]: whether to try again, and whether a not-found was seen. *)
Definition retryDecision (e : error) (notFoundSeen : bool) : bool * bool :=
  let rest :=
    match AsTimeout e with
    | Some true => (true, notFoundSeen)
    | _ => (Is e DeadlineExceeded, notFoundSeen)
    end in
  match AsDNS e with
  | Some (t, not_found, timeout) =>
      if not_found : bool then (negb notFoundSeen, true)
      else if (timeout : bool) || bool_decide (t = "i/o timeout") then (true, notFoundSeen)
      else rest
  | None => rest
  end.

Definition lookupNetwork (cfg : Tunnel) : string :=
  let v4 := HasFamily false cfg in
  let v6 := HasFamily true cfg in
  if v4 && negb v6 then "ip4" else if v6 && negb v4 then "ip6" else "ip".

Definition familyName (ipv6 : bool) : string := if ipv6 then "IPv6" else "IPv4".

Section Tunnel.
Context {W Dev Sock Key : Type} `{U : !Upstream W Dev Sock Key}.

Abbreviation AWG := (AWG W Dev Key).

Definition NewWithBindAndNetstack (cfg : option Tunnel) (now : Z) (w : W) : AWG :=
  MkAWG cfg None [] 0 ∅ 1 false StateStopped "" 0 None false New_resolver now w.

Definition HasDNS_awg (t : AWG) : bool :=
  match a_cfg t with
  | None => false
  | Some c => negb (bool_decide (t_DNS c = [])) || negb (bool_decide (t_LocalDNS c = []))
  end.

(** *** Readiness *)

Definition close_ready (t : AWG) : AWG := t <| a_closed ::= union {[a_ready t]} |>.

Definition markReady (t : AWG) : AWG := close_ready t.

Definition markNotReady (t : AWG) : AWG :=
  if negb (a_running t) then t
  else if bool_decide (a_ready t ∈ a_closed t)
  then t <| a_ready := a_next t |> <| a_next ::= S |> else t.

(** The error of the caller's context once it is done: one that is not done yet
    ends by its deadline. *)
Definition ctx_error (w : W) : error :=
  match ctx_Err w with Some e => e | None => ESentinel DeadlineExceeded end.

(** [WaitReady] when nothing changes the tunnel meanwhile: it takes one round of its
    loop, and the context ends when the channel does not close. *)
Definition WaitReady (t : AWG) : result error unit :=
  if negb (a_running t) then Err (ESentinel ErrTunnelDown)
  else if bool_decide (a_ready t ∈ a_closed t) then Ok tt
  else if bool_decide (a_state t = StateConnected) then Ok tt
  else Err (WrapfBefore (ESentinel ErrNotReady) (Error (ctx_error (a_world t)))).

(** *** Building a device *)

Definition toUAPI (cfg : Tunnel) (w : W) : result error string * W :=
  match ToUAPI (t_Config cfg) w with
  | (Rendered (Ok uapi), w) => (Ok uapi, w)
  | (Rendered (Err e), w) => (Err (Wrapf "could not resolve the endpoint" e), w)
  | (UapiTimeout, w) => (Err (EMsg "timed out resolving the endpoint"), w)
  | (UapiDone e, w) => (Err e, w)
  end.

(** The keys of the peers, from the [i]-th on. *)
Fixpoint peer_keys_from (i : Z) (ps : list Peer) : result error (list Key) :=
  match ps with
  | [] => Ok []
  | p :: rest =>
      match FromHex (peer_key_hex p) with
      | Err e => Err (Wrapf ("peer #" +:+ Itoa (i + 1) +:+ " public key could not be converted") e)
      | Ok k => keys ← peer_keys_from (i + 1) rest; Ok (k :: keys)
      end
  end.

Definition peerKeys (cfg : Tunnel) : result error (list Key) := peer_keys_from 0 (cfg_Peers (t_Config cfg)).

(** The throwaway packet of [primeTransportPadding]. *)
Definition primeTransportPadding (d : Dev) (cfg : Tunnel) (w : W) : W :=
  if PerPacketPrefix cfg =? 0 then w
  else
    let discard := if HasFamily false cfg then Addr4 3221225985 else Addr6 42540766411282592856903984951653826561 "" in
    net_discard d (AddrPortFrom discard 9) w.

Definition buildDevice (cfg : Tunnel) (w : W) : result error (Dev * list Key) * W :=
  match CreateNetTUN (t_Addresses cfg) (t_DNS cfg) (t_MTU cfg) w with
  | (Some e, w) => (Err (Wrapf "could not create the userspace network stack" e), w)
  | (None, w) =>
      let '(d, w) := NewDevice w in
      match toUAPI cfg w with
      | (Err e, w) => (Err e, dev_Close d w)
      | (Ok uapi, w) =>
          match IpcSet d uapi w with
          | (Some e, w) =>
              (Err (Wrapf "the AmneziaWG configuration could not be applied to the device" e), dev_Close d w)
          | (None, w) =>
              match dev_Up d w with
              | (Some e, w) => (Err (Wrapf "the AmneziaWG device could not be brought up" e), dev_Close d w)
              | (None, w) =>
                  match peerKeys cfg with
                  | Err e => (Err e, dev_Close d w)
                  | Ok keys => (Ok (d, keys), primeTransportPadding d cfg w)
                  end
              end
          end
      end
  end.

(** *** Start and Stop *)

Definition kickHandshake (t : AWG) : AWG :=
  match a_dev t with
  | None => t
  | Some d => t <| a_world ::= (fun w => foldl (fun w k => SendKeepalive d k w) w (a_keys t)) |>
  end.

(** The second critical section of [Start]. *)
Definition start_install (d : Dev) (keys : list Key) (t : AWG) : AWG :=
  t <| a_dev := Some d |> <| a_keys := keys |> <| a_ready := a_next t |> <| a_next ::= S |>
    <| a_running := true |>.

Definition Start_awg (t : AWG) : option error * AWG :=
  if a_running t then (Some (EMsg "the tunnel is already running"), t)
  else match a_cfg t with
  | None => (Some (EMsg "no tunnel configuration has been loaded"), t)
  | Some cfg =>
      let t := t <| a_state := StateConnecting |> <| a_lastErr := "" |> in
      match buildDevice cfg (a_world t) with
      | (Err e, w) =>
          (Some e, t <| a_state := StateFailed |> <| a_lastErr := Error e |> <| a_world := w |>)
      | (Ok (d, keys), w) =>
          let t := (start_install d keys (t <| a_world := w |>))
                     <| a_resolver ::= Flush |> <| a_startedAt := Some (a_now t) |> in
          (None, kickHandshake t)
      end
  end.

(** The critical section of [Stop]. *)
Definition stop_lock (t : AWG) : AWG :=
  if negb (a_running t) then t else close_ready (t <| a_dev := None |> <| a_running := false |>).

Definition Stop_awg (t : AWG) : AWG :=
  if negb (a_running t) then t
  else
    let w := match a_dev t with Some d => dev_Close d (a_world t) | None => a_world t end in
    (stop_lock t) <| a_world := w |> <| a_resolver ::= Flush |> <| a_state := StateStopped |>.

(** *** Dialing *)

Definition DialTCP_awg (timeout : Z) (target : AddrPort) (t : AWG) : result error Sock * AWG :=
  match a_dev t with
  | Some d =>
      if negb (a_running t) then (Err (ESentinel ErrTunnelDown), t)
      else match WaitReady t with
      | Err e => (Err e, t)
      | Ok _ =>
          let '(r, w) := net_DialTCP d timeout target (a_world t) in
          (map_err (Wrapf ("could not reach " +:+ AddrPort_String target +:+ " through the tunnel")) r, t <| a_world := w |>)
      end
  | None => (Err (ESentinel ErrTunnelDown), t)
  end.

Definition ListenUDP_awg (ipv6 : bool) (t : AWG) : result error Sock * AWG :=
  match a_dev t, a_running t with
  | Some d, true =>
      match (c ← a_cfg t; AddressOfFamily ipv6 c) with
      | None => (Err (WrapfBefore (ESentinel ErrNoRoute) ("tunnel has no " +:+ familyName ipv6 +:+ " address")), t)
      | Some local =>
          match WaitReady t with
          | Err e => (Err e, t)
          | Ok _ =>
              let '(r, w) := net_ListenUDP d (AddrPortFrom local 0) (a_world t) in
              (map_err (Wrapf ("could not open an in-tunnel " +:+ familyName ipv6 +:+ " UDP socket")) r,
               t <| a_world := w |>)
          end
      end
  | _, _ => (Err (ESentinel ErrTunnelDown), t)
  end.

Definition source_name (cfg : Tunnel) : string :=
  if bool_decide (t_LocalDNS cfg = []) then "in-tunnel DNS" else "local DNS".

(** One attempt: the stack's resolver, or the resolvers on this PC in turn. *)
Definition query (d : Dev) (cfg : Tunnel) (timeout attempt : Z) (host : string) (w : W) :
    result error (list Addr) * W :=
  match t_LocalDNS cfg with
  | [] =>
      let '(r, w) := net_LookupHost d timeout host w in
      ((fun names : list string => Unmap <$> omap ParseAddr names) <$> r, w)
  | first :: _ =>
      let i := (attempt - 1) mod Z.of_nat (length (t_LocalDNS cfg)) in
      Lookup_local (net_LookupNetIP timeout) (nth (Z.to_nat i) (t_LocalDNS cfg) first)
        (lookupNetwork cfg) host w
  end.

(** The error after the last attempt; [%w] of a nil error prints as below. *)
Definition lookup_failed (cfg : Tunnel) (host : string) (lastErr : option error) : error :=
  let msg := source_name cfg +:+ " resolution failed for " +:+ host in
  match lastErr with Some e => Wrapf msg e | None => EMsg (msg +:+ ": %!w(<nil>)") end.

(** The attempts, each with its own timeout. *)
Fixpoint lookup_attempts (d : Dev) (cfg : Tunnel) (host : string) (timeouts : list Z) (attempt : Z)
    (lastErr : option error) (notFound : bool) (w : W) : result error (list Addr) * W :=
  match timeouts with
  | [] => (Err (lookup_failed cfg host lastErr), w)
  | timeout :: rest =>
      match ctx_Err w with
      | Some _ => (Err (lookup_failed cfg host lastErr), w)
      | None =>
          match query d cfg timeout attempt host w with
          | (Ok [], w) => (Err (EMsg (source_name cfg +:+ " returned no usable address for " +:+ host)), w)
          | (Ok out, w) => (Ok out, w)
          | (Err e, w) =>
              let '(retry, nf) := retryDecision e notFound in
              if retry : bool then lookup_attempts d cfg host rest (attempt + 1) (Some e) nf w
              else (Err (lookup_failed cfg host (Some e)), w)
          end
      end
  end.

Definition lookupUncached (host : string) (t : AWG) : result error (list Addr) * AWG :=
  match a_dev t, a_cfg t with
  | Some d, Some cfg =>
      if negb (a_running t) then (Err (ESentinel ErrTunnelDown), t)
      else match WaitReady t with
      | Err e => (Err e, t)
      | Ok _ =>
          let '(r, w) := lookup_attempts d cfg host dnsAttemptTimeouts 1 None false (a_world t) in
          (r, t <| a_world := w |>)
      end
  | _, _ => (Err (ESentinel ErrTunnelDown), t)
  end.

(** [Resolver.Lookup] when no other lookup is in flight. *)
Definition resolver_Lookup (host : string) (t : AWG) : result error (list Addr) * AWG :=
  let id := fresh (dom (r_threads (a_resolver t))) in
  let r := lookup_begin (a_now t) host id (a_resolver t) in
  match r_threads r !! id with
  | Some (Returned _ a) => (a, t <| a_resolver := r |>)
  | _ =>
      let '(a, t) := lookupUncached host (t <| a_resolver := r |>) in
      let t := match ctx_Err (a_world t) with
               | Some e => t <| a_resolver ::= (fun r => r <| r_cancelled ::= insert id e |>) |>
               | None => t
               end in
      (a, t <| a_resolver ::= lookup_end (a_now t) host (a_now t) a id |>)
  end.

Definition LookupHost_awg (host : string) (t : AWG) : result error (list Addr) * AWG :=
  if negb (a_running t) then (Err (ESentinel ErrTunnelDown), t)
  else if negb (HasDNS_awg t) then (Err (ESentinel ErrNoDNS), t)
  else resolver_Lookup host t.

(** *** Supervision *)

Definition Reconnect (t : AWG) : AWG := t <| a_kick := true |>.

Definition endpointNeedsResolution (cfg : Tunnel) : bool :=
  existsb (fun p => bool_decide (ParseAddr (Trim (peer_endpoint_host p) "[]") = None))
    (cfg_Peers (t_Config cfg)).

(** The call of [BindUpdate] in [performReconnect]. *)
Definition rebind (d : Dev) (t : AWG) : AWG :=
  let '(err, w) := BindUpdate d (a_world t) in
  let t := t <| a_world := w |> in
  match err with
  | Some e => t <| a_lastErr := "could not reopen the UDP socket: " +:+ Error e |>
  | None => t
  end.

(** Its resolution of the endpoint. *)
Definition reresolve (d : Dev) (t : AWG) : AWG :=
  match a_cfg t with
  | None => t
  | Some cfg =>
      if negb (endpointNeedsResolution cfg) then t
      else match toUAPI cfg (a_world t) with
      | (Err e, w) => t <| a_world := w |> <| a_lastErr := "could not re-resolve the endpoint: " +:+ Error e |>
      | (Ok uapi, w) =>
          match IpcSet d uapi w with
          | (Some e, w) =>
              t <| a_world := w |> <| a_lastErr := "could not apply the new endpoint: " +:+ Error e |>
          | (None, w) => t <| a_world := w |>
          end
      end
  end.

Definition performReconnect (t : AWG) : AWG :=
  match a_dev t with
  | Some d =>
      if negb (a_running t) then t
      else
        let t := (markNotReady (t <| a_reconnects ::= Z.add 1 |>)) <| a_state := StateReconnecting |> in
        kickHandshake (reresolve d (rebind d t))
  | None => t
  end.

(** The locals of [supervise]. *)
Record Supervisor := MkSup { backoff : Z; nextKick : Z; wasConnected : bool }.

Definition supervise_start (now : Z) : Supervisor := MkSup minBackoff (now + minBackoff) false.

(** [backoff *= 2], within the maximum. *)
Definition grow_backoff (b : Z) : Z :=
  if b <? maxBackoff then (if maxBackoff <? b * 2 then maxBackoff else b * 2) else b.

Definition readStats (t : AWG) : result error DevStats :=
  match a_dev t with
  | Some d => if a_running t then IpcGet d (a_world t) ≫= parseUAPIGet else Err (ESentinel ErrTunnelDown)
  | None => Err (ESentinel ErrTunnelDown)
  end.

Definition healthy (now : Z) (st : DevStats) : bool :=
  negb (IsZero (s_LastHandshake st)) && (now - s_LastHandshake st <? handshakeStaleAfter).

(** The ticker branch of [supervise]. *)
Definition supervise_tick (s : Supervisor) (t : AWG) : Supervisor * AWG :=
  let now := a_now t in
  match readStats t with
  | Err _ => (s, t)
  | Ok st =>
      if healthy now st then
        (MkSup minBackoff (now + handshakeStaleAfter / 2) true,
         markReady (t <| a_state := StateConnected |> <| a_lastErr := "" |>))
      else
        let t := markNotReady t in
        let '(s, t) :=
          if wasConnected s then
            (MkSup minBackoff now false,
             t <| a_state := StateReconnecting |> <| a_reconnects ::= Z.add 1 |>)
          else (s, if bool_decide (a_state t = StateReconnecting) then t
                   else t <| a_state := StateConnecting |>) in
        if now <? nextKick s then (s, t)
        else (MkSup (grow_backoff (backoff s)) (now + backoff s) (wasConnected s), kickHandshake t)
  end.

(** Its kick branch. *)
Definition supervise_kick (t : AWG) : Supervisor * AWG :=
  (supervise_start (a_now t), performReconnect (t <| a_kick := false |>)).

(** *** Reload *)

(** [DryRun]: a throwaway device, never brought up, that takes the configuration. *)
Definition DryRun (cfg : option Tunnel) (w : W) : option error * W :=
  match cfg with
  | None => (Some (EMsg "the configuration is empty"), w)
  | Some cfg =>
      match toUAPI cfg w with
      | (Err e, w) => (Some e, w)
      | (Ok uapi, w) =>
          match CreateNetTUN (t_Addresses cfg) (t_DNS cfg) (t_MTU cfg) w with
          | (Some e, w) => (Some (Wrapf "could not create the userspace network stack" e), w)
          | (None, w) =>
              let '(d, w) := NewDevice w in
              match IpcSet d uapi w with
              | (Some e, w) =>
                  (Some (Wrapf "the AmneziaWG configuration was rejected by the upstream device" e),
                   dev_Close d w)
              | (None, w) =>
                  match peerKeys cfg with
                  | Err e => (Some e, dev_Close d w)
                  | Ok _ => (None, dev_Close d w)
                  end
              end
          end
      end
  end.

(** The branch of [Reload] for an equal stack, from the running configuration and
    device. *)
Definition reload_uapi (prev next : Tunnel) (d : Dev) (t : AWG) : result error unit * AWG :=
  match toUAPI prev (a_world t) with
  | (Err e, w) =>
      (Err (Wrapf "the current configuration could not be rendered for rollback, nothing was changed" e),
       t <| a_world := w |>)
  | (Ok prevUAPI, w) =>
      match toUAPI next w with
      | (Err e, w) =>
          (Err (Wrapf "the new configuration could not be rendered, keeping the running tunnel" e),
           t <| a_world := w |>)
      | (Ok nextUAPI, w) =>
          match IpcSet d nextUAPI w with
          | (Some e, w) =>
              match IpcSet d prevUAPI w with
              | (Some e', w) =>
                  (Err (Wrapf "the new configuration could not be applied and the previous one could not be restored" e'),
                   t <| a_world := w |> <| a_state := StateFailed |>
                     <| a_lastErr := "rollback failed: " +:+ Error e' |>)
              | (None, w) =>
                  (Err (Wrapf "the new configuration could not be applied, the previous one was restored" e),
                   t <| a_world := w |>)
              end
          | (None, w) =>
              let t := t <| a_world := w |> <| a_cfg := Some next |> in
              let t := match peerKeys next with Ok keys => t <| a_keys := keys |> | Err _ => t end in
              (Ok tt, kickHandshake ((markNotReady t) <| a_state := StateConnecting |>))
          end
      end
  end.

(** The branch for another stack. *)
Definition reload_rebuild (next : Tunnel) (t : AWG) : result error unit * AWG :=
  let prev := a_cfg t in
  let t := Stop_awg t in
  match Start_awg (t <| a_cfg := Some next |>) with
  | (None, t) => (Ok tt, t)
  | (Some e, t) =>
      match Start_awg (t <| a_cfg := prev |>) with
      | (Some e', t) =>
          (Err (Wrapf ("the new configuration failed to start (" +:+ Error e +:+
                       ") and the previous one did not start either") e'), t)
      | (None, t) => (Err (Wrapf "the new configuration failed to start, the previous one was restored" e), t)
      end
  end.

(** [Reload].  The last case of the inner match is a nil dereference, which the
    invariant of the tunnel excludes. *)
Definition Reload (next : option Tunnel) (t : AWG) : result error unit * AWG :=
  match next with
  | None => (Err (EMsg "the new configuration is empty"), t)
  | Some cfg =>
      match DryRun next (a_world t) with
      | (Some e, w) =>
          (Err (Wrapf "the new configuration is invalid, keeping the running tunnel" e), t <| a_world := w |>)
      | (None, w) =>
          let t := t <| a_world := w |> in
          if negb (a_running t) then (Ok tt, t <| a_cfg := next |>)
          else if stackEqual (a_cfg t) next then
            match a_cfg t, a_dev t with
            | Some prev, Some d => reload_uapi prev cfg d t
            | _, _ => (Err (EMsg "nil pointer dereference"), t)
            end
          else reload_rebuild cfg t
      end
  end.
End Tunnel.

(** *** The dialer of the SOCKS5 server *)

Section AsDialer.
Context {W Dev Sock Key : Type} `{U : !Upstream W Dev Sock Key}.

#[export] Instance awg_dialer : Dialer (AWG W Dev Key) Sock := {|
  DialTCP := DialTCP_awg;
  LookupHost _ := LookupHost_awg;
  HasDNS := HasDNS_awg;
  ListenUDP _ := ListenUDP_awg;
  sock_WriteTo s payload target t :=
    let '(r, w) := net_WriteTo s payload target (a_world t) in (r, t <| a_world := w |>);
  sock_Close s t := t <| a_world ::= net_CloseSock s |>;
|}.

#[export] Instance awg_dialer_laws : DialerLaws (AWG W Dev Key) Sock.
Proof.
  refine {| tunnel_up := a_running |}.
  - intros timeout t w Hw. cbn. unfold DialTCP_awg. rewrite Hw. by destruct (a_dev w).
  - intros timeout h w Hw. cbn. unfold LookupHost_awg. by rewrite Hw.
  - intros timeout b w Hw. cbn. unfold ListenUDP_awg. rewrite Hw. by destruct (a_dev w).
Defined.
End AsDialer.

(** ** Operations and waiters as steps *)

Section Steps.
Context {W Dev Sock Key : Type} `{U : !Upstream W Dev Sock Key}.

Abbreviation AWG := (AWG W Dev Key).

(** What may happen to a tunnel: its operations, the branches of its supervisor,
    and the passing of time. *)
Inductive aop : AWG -> AWG -> Prop :=
| ao_Start t : aop t (Start_awg t).2
| ao_Stop t : aop t (Stop_awg t)
| ao_Reload next t : aop t (Reload next t).2
| ao_Reconnect t : aop t (Reconnect t)
| ao_tick s t : aop t (supervise_tick s t).2
| ao_kick t : a_kick t = true -> aop t (supervise_kick t).2
| ao_DialTCP timeout target t : aop t (DialTCP_awg timeout target t).2
| ao_LookupHost host t : aop t (LookupHost_awg host t).2
| ao_ListenUDP ipv6 t : aop t (ListenUDP_awg ipv6 t).2
| ao_time now t : aop t (t <| a_now := now |>).

(** Where a call of [WaitReady] stands: at the head of its loop, in the [select] on a
    channel, past a receive from it, or returned. *)
Inductive wait_pc := WLoop | WSelect (ch : nat) | WRecv (ch : nat) | WDone (r : result error unit).

Inductive wait_step (t : AWG) : wait_pc -> wait_pc -> Prop :=
| ws_down : a_running t = false -> wait_step t WLoop (WDone (Err (ESentinel ErrTunnelDown)))
| ws_enter : a_running t = true -> wait_step t WLoop (WSelect (a_ready t))
| ws_recv ch : ch ∈ a_closed t -> wait_step t (WSelect ch) (WRecv ch)
| ws_ctx_connected ch : is_Some (ctx_Err (a_world t)) -> a_state t = StateConnected ->
    wait_step t (WSelect ch) (WDone (Ok tt))
| ws_ctx ch e : ctx_Err (a_world t) = Some e -> a_state t <> StateConnected ->
    wait_step t (WSelect ch) (WDone (Err (WrapfBefore (ESentinel ErrNotReady) (Error e))))
| ws_recv_down ch : a_running t = false ->
    wait_step t (WRecv ch) (WDone (Err (ESentinel ErrTunnelDown)))
| ws_recv_same ch : a_running t = true -> a_ready t = ch -> wait_step t (WRecv ch) (WDone (Ok tt))
| ws_recv_replaced ch : a_running t = true -> a_ready t <> ch -> wait_step t (WRecv ch) WLoop.

(** What the other goroutines do to a tunnel, one critical section or one atomic
    store at a time, the two of [Start] apart. *)
Inductive tenv : AWG -> AWG -> Prop :=
| te_mark_ready t : tenv t (markReady t)
| te_mark_not_ready t : tenv t (markNotReady t)
| te_state s t : tenv t (t <| a_state := s |>)
| te_stop t : tenv t (stop_lock t)
| te_world w t : tenv t (t <| a_world := w |>).

(** The tunnel, how many calls of [Start] are between their two critical sections, and a
    waiter.  Only the first section looks whether the tunnel runs.  [serial] says that
    there is one such call at a time at most, as there is when every caller holds the
    [startMu] of the manager. *)
Inductive wait_sys (serial : bool) : AWG * nat * wait_pc -> AWG * nat * wait_pc -> Prop :=
| sys_env t t' n pc : tenv t t' -> wait_sys serial (t, n, pc) (t', n, pc)
| sys_begin t n pc : a_running t = false -> (serial = true -> n = 0%nat) ->
    wait_sys serial (t, n, pc) (t, S n, pc)
| sys_install d keys t n pc : wait_sys serial (t, S n, pc) (start_install d keys t, n, pc)
| sys_fail t n pc : wait_sys serial (t, S n, pc) (t, n, pc)
| sys_wait t n pc pc' : wait_step t pc pc' -> wait_sys serial (t, n, pc) (t, n, pc').
End Steps.

(** ** What the model relies on *)

(** What is said of the devices: which are open, how many have been open at once at
    most, and the document that each has taken. *)
Record devices := MkDevices { v_live : gset nat; v_peak : nat; v_conf : gmap nat string }.

Definition with_new (i : nat) (v : devices) : devices :=
  MkDevices ({[i]} ∪ v_live v) (Nat.max (v_peak v) (size ({[i]} ∪ v_live v))) (delete i (v_conf v)).

Definition without (i : nat) (v : devices) : devices :=
  MkDevices (v_live v ∖ {[i]}) (v_peak v) (delete i (v_conf v)).

Definition with_conf (i : nat) (c : option string) (v : devices) : devices :=
  MkDevices (v_live v) (v_peak v) (partial_alter (fun _ => c) i (v_conf v)).

(** [NewDevice] opens a new device and [Close] closes one; [IpcSet] gives a device its
    document, and when it is refused the device may have taken any part of it; nothing else
    concerns the devices. *)
Class UpstreamLaws (W Dev Sock Key : Type) `{U : !Upstream W Dev Sock Key} : Type := {
  devs : W -> devices;
  dev_id : Dev -> nat;
  devs_NewDevice w : (dev_id (NewDevice w).1 ∉ v_live (devs w)) /\
    devs (NewDevice w).2 = with_new (dev_id (NewDevice w).1) (devs w);
  devs_Close d w : devs (dev_Close d w) = without (dev_id d) (devs w);
  devs_IpcSet d u w : exists c, devs (IpcSet d u w).2 = with_conf (dev_id d) c (devs w) /\
    ((IpcSet d u w).1 = None -> c = Some u);
  devs_CreateNetTUN a dns mtu w : devs (CreateNetTUN a dns mtu w).2 = devs w;
  devs_ToUAPI cfg w : devs (ToUAPI cfg w).2 = devs w;
  devs_Up d w : devs (dev_Up d w).2 = devs w;
  devs_BindUpdate d w : devs (BindUpdate d w).2 = devs w;
  devs_SendKeepalive d k w : devs (SendKeepalive d k w) = devs w;
  devs_discard d t w : devs (net_discard d t w) = devs w;
  devs_DialTCP d timeout t w : devs (net_DialTCP d timeout t w).2 = devs w;
  devs_LookupHost d timeout h w : devs (net_LookupHost d timeout h w).2 = devs w;
  devs_LookupNetIP timeout s n h w : devs (net_LookupNetIP timeout s n h w).2 = devs w;
  devs_ListenUDP d a w : devs (net_ListenUDP d a w).2 = devs w;
}.

(** ** Invariant *)

Section Invariant.
Context {W Dev Sock Key : Type} `{U : !Upstream W Dev Sock Key} `{UL : !UpstreamLaws W Dev Sock Key}.

Abbreviation AWG := (AWG W Dev Key).

Definition live (w : W) : gset nat := v_live (devs w).
Definition peak (w : W) : nat := v_peak (devs w).
Definition conf (w : W) : gmap nat string := v_conf (devs w).

(** The device of a running tunnel is the only one open, and a stopped tunnel has
    none; there have never been more than two at once; the readiness channel is closed exactly when the state says Connected, as
    long as nothing has failed. *)
Record awg_inv (t : AWG) : Prop := {
  ai_dev : a_running t = bool_decide (is_Some (a_dev t));
  ai_live : live (a_world t) = match a_dev t with Some d => {[dev_id d]} | None => ∅ end;
  ai_peak : (peak (a_world t) <= 2)%nat;
  ai_cfg : a_running t = true -> is_Some (a_cfg t);
  ai_ready : (a_ready t < a_next t)%nat;
  ai_closed c : c ∈ a_closed t -> (c < a_next t)%nat;
  ai_down : a_running t = false -> a_state t = StateStopped \/ a_state t = StateFailed;
  ai_up : a_running t = true -> a_state t <> StateStopped;
  ai_connected : a_running t = true -> a_state t = StateConnected -> a_ready t ∈ a_closed t;
  ai_not_connected : a_running t = true -> a_ready t ∈ a_closed t ->
    a_state t = StateConnected \/ a_state t = StateFailed;
}.

(** The devices open, and how many there were at most, are as before. *)
Definition calm (w w' : W) : Prop := live w' = live w /\ peak w' = peak w.

Lemma calm_devs w w' : devs w' = devs w -> calm w w'.
Proof. unfold calm, live, peak. by intros ->. Qed.

Lemma calm_calm w1 w2 w3 : calm w1 w2 -> calm w2 w3 -> calm w1 w3.
Proof. unfold calm. intros [-> ->] [-> ->]. done. Qed.

Lemma devs_toUAPI cfg w : devs (toUAPI cfg w).2 = devs w.
Proof.
  unfold toUAPI. generalize (devs_ToUAPI (t_Config cfg) w).
  by destruct (ToUAPI (t_Config cfg) w) as [[[?|?]| |?] ?].
Qed.

Lemma devs_prime d cfg w : devs (primeTransportPadding d cfg w) = devs w.
Proof. unfold primeTransportPadding. case_match; [done|]. apply devs_discard. Qed.

Lemma calm_IpcSet d u w : calm w (IpcSet d u w).2.
Proof. unfold calm, live, peak. by destruct (devs_IpcSet d u w) as (c & -> & _). Qed.

Lemma conf_IpcSet d u w : (IpcSet d u w).1 = None -> conf (IpcSet d u w).2 !! dev_id d = Some u.
Proof.
  unfold conf. destruct (devs_IpcSet d u w) as (c & -> & Hc). intros Hn. cbn [with_conf v_conf].
  rewrite lookup_partial_alter_eq. by apply Hc.
Qed.

Lemma conf_IpcSet_other d u w i : i <> dev_id d -> conf (IpcSet d u w).2 !! i = conf w !! i.
Proof.
  intros Hi. unfold conf. destruct (devs_IpcSet d u w) as (c & -> & _). cbn [with_conf v_conf].
  by rewrite lookup_partial_alter_ne by done.
Qed.

Lemma devs_query d cfg timeout n h w : devs (query d cfg timeout n h w).2 = devs w.
Proof.
  unfold query, Lookup_local. destruct (t_LocalDNS cfg).
  - generalize (devs_LookupHost d timeout h w). by destruct (net_LookupHost d timeout h w).
  - case_match; [done|]. set (s := AddrPortFrom _ _). generalize (devs_LookupNetIP timeout s (lookupNetwork cfg) h w).
    by destruct (net_LookupNetIP _ _ _ _ _).
Qed.

Lemma devs_attempts d cfg h timeouts n le nf w :
  devs (lookup_attempts d cfg h timeouts n le nf w).2 = devs w.
Proof.
  revert n le nf w. induction timeouts as [|timeout rest IH]; intros n le nf w; [done|].
  cbn [lookup_attempts]. case_match; [done|].
  generalize (devs_query d cfg timeout n h w).
  destruct (query d cfg timeout n h w) as [[[|a l]|e] w1]; cbn [snd]; [done|done|]. intros Hl.
  destruct (retryDecision e nf) as [[|] nf']; [|done]. by rewrite IH.
Qed.

(** A document that the upstream writer has given for this configuration; the device [i]
    has taken one. *)
Definition renders (cfg : Tunnel) (u : string) : Prop := exists w w', toUAPI cfg w = (Ok u, w').
Definition configured (w : W) (i : nat) (cfg : Tunnel) : Prop := exists u, conf w !! i = Some u /\ renders cfg u.

(** What an attempt that opens a device does to the others: nothing; at most one more is
    open meanwhile. *)
Definition apart (w w' : W) : Prop :=
  (peak w' <= Nat.max (peak w) (S (size (live w))))%nat /\ forall i, i ∈ live w -> conf w' !! i = conf w !! i.

Lemma apart_calm w w1 w' : devs w1 = devs w -> apart w1 w' -> apart w w'.
Proof. unfold apart, peak, live, conf. by intros ->. Qed.

(** Between [NewDevice] and the end. *)
Record opening (w : W) (d : Dev) (w' : W) : Prop := {
  op_new : dev_id d ∉ live w;
  op_live : live w' = {[dev_id d]} ∪ live w;
  op_apart : apart w w';
}.

Lemma opening_new w : opening w (NewDevice w).1 (NewDevice w).2.
Proof.
  destruct (devs_NewDevice w) as [Hn Hd]. split; [done|unfold live; by rewrite Hd|].
  split; unfold peak, conf, live; rewrite Hd; cbn [with_new v_peak v_conf].
  - rewrite size_union, size_singleton by set_solver. lia.
  - intros i Hi. rewrite lookup_delete_ne; [done|]. by intros <-.
Qed.

Lemma opening_step w d w1 w2 : opening w d w1 -> calm w1 w2 ->
  (forall i, i <> dev_id d -> conf w2 !! i = conf w1 !! i) -> opening w d w2.
Proof.
  intros [Hn Hl [Hp Hc]] [H1 H2] H3. split; [done|congruence|]. split; [by rewrite H2|].
  intros i Hi. rewrite H3; [by apply Hc|]. by intros ->.
Qed.

Lemma opening_devs w d w1 w2 : opening w d w1 -> devs w2 = devs w1 -> opening w d w2.
Proof. intros Ho Hd. apply (opening_step w d w1); [done|by apply calm_devs|]. unfold conf. by rewrite Hd. Qed.

Lemma opening_IpcSet w d u w1 : opening w d w1 -> opening w d (IpcSet d u w1).2.
Proof.
  intros Ho. apply (opening_step w d w1); [done|apply calm_IpcSet|]. intros i Hi. by apply conf_IpcSet_other.
Qed.

Lemma opening_Close w d w1 : opening w d w1 -> live (dev_Close d w1) = live w /\ apart w (dev_Close d w1).
Proof.
  intros [Hn Hl [Hp Hc]]. unfold live, apart, peak, conf in *. rewrite devs_Close. cbn [without v_live v_peak v_conf].
  split; [rewrite Hl; set_solver|]. split; [done|]. intros i Hi. rewrite lookup_delete_ne; [by apply Hc|]. by intros <-.
Qed.

(** What [buildDevice] leaves open. *)
Lemma build_devices cfg w :
  match buildDevice cfg w with
  | (Ok (d, keys), w') => opening w d w' /\ peerKeys cfg = Ok keys /\ configured w' (dev_id d) cfg
  | (Err _, w') => live w' = live w /\ apart w w'
  end.
Proof.
  unfold buildDevice. generalize (devs_CreateNetTUN (t_Addresses cfg) (t_DNS cfg) (t_MTU cfg) w).
  destruct (CreateNetTUN _ _ _ w) as [[e|] w1]; cbn [snd]; intros H1.
  { split; [unfold live; by rewrite H1|]. split; [unfold peak; rewrite H1; lia|]. unfold conf. by rewrite H1. }
  assert (forall d w', opening w1 d w' -> opening w d w') as Hop.
  { intros d w' [Ha Hb Hc]. unfold live in *. rewrite H1 in Ha, Hb. split; [done|done|]. by apply (apart_calm w w1). }
  pose proof (Hop _ _ (opening_new w1)) as Ho. destruct (NewDevice w1) as [d w2]. cbn [fst snd] in Ho.
  pose proof (devs_toUAPI cfg w2) as H3. destruct (toUAPI cfg w2) as [[uapi|e] w3] eqn:Hu; cbn [snd] in H3;
    pose proof (opening_devs _ _ _ _ Ho H3) as Ho3; [|by apply opening_Close].
  pose proof (opening_IpcSet _ _ uapi _ Ho3) as Ho4. pose proof (conf_IpcSet d uapi w3) as Hcf.
  destruct (IpcSet d uapi w3) as [[e|] w4]; cbn [fst snd] in *; [by apply opening_Close|].
  pose proof (devs_Up d w4) as H5. destruct (dev_Up d w4) as [[e|] w5]; cbn [snd] in H5;
    pose proof (opening_devs _ _ _ _ Ho4 H5) as Ho5; [by apply opening_Close|].
  destruct (peerKeys cfg) as [keys|e]; [|by apply opening_Close]. split_and!; [|done|].
  - apply (opening_devs _ _ w5); [done|apply devs_prime].
  - exists uapi. split; [|by exists w2, w3]. unfold conf. rewrite devs_prime, H5. by apply Hcf.
Qed.

Lemma DryRun_devices cfg w : live (DryRun cfg w).2 = live w /\ apart w (DryRun cfg w).2.
Proof.
  assert (forall w', devs w' = devs w -> live w' = live w /\ apart w w') as Hsame.
  { intros w' Hd. unfold live, apart, peak, conf. rewrite Hd. split; [done|]. split; [lia|done]. }
  unfold DryRun. destruct cfg as [cfg|]; [|by apply Hsame].
  generalize (devs_toUAPI cfg w). destruct (toUAPI cfg w) as [[uapi|e] w1]; cbn [snd]; [|apply Hsame]. intros H1.
  generalize (devs_CreateNetTUN (t_Addresses cfg) (t_DNS cfg) (t_MTU cfg) w1).
  destruct (CreateNetTUN _ _ _ w1) as [[e|] w2]; cbn [snd]; intros H2; [apply Hsame; congruence|].
  assert (devs w2 = devs w) as H20 by congruence.
  assert (forall d w', opening w2 d w' -> live (dev_Close d w') = live w /\ apart w (dev_Close d w')) as Hc.
  { intros d w' Ho. destruct (opening_Close _ _ _ Ho) as [Ha Hb]. split; [rewrite Ha; unfold live; by rewrite H20|].
    by apply (apart_calm w w2). }
  pose proof (opening_new w2) as Ho. destruct (NewDevice w2) as [d w3]. cbn [fst snd] in Ho.
  pose proof (opening_IpcSet _ _ uapi _ Ho) as Ho4. destruct (IpcSet d uapi w3) as [[e|] w4]; cbn [snd] in *;
    [by apply Hc|]. destruct (peerKeys cfg); by apply Hc.
Qed.

Lemma live_DryRun cfg w : live (DryRun cfg w).2 = live w.
Proof. apply DryRun_devices. Qed.

Lemma devs_keepalives d ks w : devs (foldl (fun w k => SendKeepalive d k w) w ks) = devs w.
Proof. revert w. induction ks as [|k ks IH]; intros w; [done|]. cbn. by rewrite IH, devs_SendKeepalive. Qed.

(** *** Preservation *)

(** Reads of assigned fields. *)
Ltac awg_fields t :=
  lazy beta iota delta [set_field fst snd a_cfg a_dev a_keys a_ready a_closed a_next a_running a_state
    a_lastErr a_reconnects a_startedAt a_kick a_resolver a_now a_world];
  fold (a_cfg t) (a_dev t) (a_keys t) (a_ready t) (a_closed t) (a_next t) (a_running t) (a_state t)
    (a_lastErr t) (a_reconnects t) (a_startedAt t) (a_kick t) (a_resolver t) (a_now t) (a_world t).

(** A change of the world that opens and closes nothing. *)
Lemma inv_calm w t : calm (a_world t) w -> awg_inv t -> awg_inv (t <| a_world := w |>).
Proof. intros [Hl Hp] [H1 H2 Hpk H3 H4 H5 H6 H7 H8 H9]. split; try done; awg_fields t; by rewrite ?Hl, ?Hp. Qed.

Lemma inv_world w t : devs w = devs (a_world t) -> awg_inv t -> awg_inv (t <| a_world := w |>).
Proof. intros Hw. by apply inv_calm, calm_devs. Qed.

Lemma inv_kick t : awg_inv t -> awg_inv (kickHandshake t).
Proof.
  intros Ht. unfold kickHandshake. destruct (a_dev t); [|done].
  exact (inv_world _ t (devs_keepalives _ _ _) Ht).
Qed.

Lemma kick_fields t : a_running (kickHandshake t) = a_running t /\ a_cfg (kickHandshake t) = a_cfg t /\
  a_state (kickHandshake t) = a_state t /\ a_dev (kickHandshake t) = a_dev t.
Proof. unfold kickHandshake. destruct (a_dev t) eqn:E; split_and!; done. Qed.

(** A fresh readiness channel, with a state that is neither Stopped nor Connected. *)
Lemma inv_markNotReady s t :
  awg_inv t -> a_running t = true -> s <> StateStopped -> s <> StateConnected ->
  awg_inv ((markNotReady t) <| a_state := s |>).
Proof.
  intros [H1 H2 Hpk H3 H4 H5 H6 H7 H8 H9] Hr Hs1 Hs2. unfold markNotReady. rewrite Hr. cbn [negb].
  destruct (bool_decide_reflect (a_ready t ∈ a_closed t)) as [Hc|Hc]; split; try done; awg_fields t; try congruence.
  - lia.
  - intros c Hc'. specialize (H5 c Hc'). lia.
  - intros _ Hn. specialize (H5 _ Hn). lia.
Qed.

Lemma inv_Start t : awg_inv t -> awg_inv (Start_awg t).2.
Proof.
  intros Ht. unfold Start_awg. destruct (a_running t) eqn:Hr; [done|].
  destruct (a_cfg t) as [cfg|] eqn:Hcfg; [|done].
  pose proof Ht as [H1 H2 Hpk H3 H4 H5 H6 H7 H8 H9].
  assert (a_dev t = None) as Hd. { rewrite Hr in H1. by destruct (a_dev t). }
  rewrite Hd in H2.
  match goal with |- context [buildDevice cfg (a_world ?x)] => change (a_world x) with (a_world t) end.
  generalize (build_devices cfg (a_world t)).
  destruct (buildDevice cfg (a_world t)) as [[[d keys]|e] w].
  - intros [[Hn Hl [Hp _]] _]. cbn [snd]. apply inv_kick. unfold start_install. split; awg_fields t; try done.
    + rewrite Hl, H2. set_solver.
    + rewrite H2, size_empty in Hp. lia.
    + lia.
    + intros c Hc. specialize (H5 c Hc). lia.
    + intros _ Hc. specialize (H5 _ Hc). lia.
  - intros [Hl [Hp _]]. split; awg_fields t; try done; try congruence.
    all: first [by rewrite Hl, H2, Hd | rewrite H2, size_empty in Hp; lia | by right].
Qed.

Lemma inv_Stop t : awg_inv t -> awg_inv (Stop_awg t).
Proof.
  intros Ht. unfold Stop_awg, stop_lock. destruct (a_running t) eqn:Hr; [|done]. cbn [negb].
  pose proof Ht as [H1 H2 Hpk H3 H4 H5 H6 H7 H8 H9].
  destruct (a_dev t) as [d|] eqn:Hd; [|by rewrite Hr in H1].
  split; awg_fields t; try done.
  - unfold live in *. rewrite devs_Close. cbn [without v_live]. rewrite H2. set_solver.
  - unfold peak in *. by rewrite devs_Close.
  - intros c [->%elem_of_singleton|Hc]%elem_of_union; [done|]. by apply H5.
  - by left.
Qed.

Lemma inv_DialTCP timeout target t : awg_inv t -> awg_inv (DialTCP_awg timeout target t).2.
Proof.
  intros Ht. unfold DialTCP_awg. destruct (a_dev t) as [d|]; [|done].
  destruct (negb (a_running t)); [done|]. destruct (WaitReady t); [|done].
  generalize (devs_DialTCP d timeout target (a_world t)).
  destruct (net_DialTCP _ _ _ _) as [r w]. intros Hl. by apply inv_world.
Qed.

Lemma inv_ListenUDP ipv6 t : awg_inv t -> awg_inv (ListenUDP_awg ipv6 t).2.
Proof.
  intros Ht. unfold ListenUDP_awg. destruct (a_dev t) as [d|]; [|done].
  destruct (a_running t); [|done]. destruct (a_cfg t ≫= _) as [local|]; [|done].
  destruct (WaitReady t); [|done]. generalize (devs_ListenUDP d (AddrPortFrom local 0) (a_world t)).
  destruct (net_ListenUDP _ _ _) as [r w]. intros Hl. by apply inv_world.
Qed.

(** A change of the resolver alone. *)
Lemma inv_resolver f t : awg_inv t -> awg_inv (t <| a_resolver ::= f |>).
Proof. by intros [H1 H2 Hpk H3 H4 H5 H6 H7 H8 H9]. Qed.

Lemma inv_lookupUncached host t : awg_inv t -> awg_inv (lookupUncached host t).2.
Proof.
  intros Ht. unfold lookupUncached. destruct (a_dev t) as [d|]; [|done].
  destruct (a_cfg t) as [cfg|]; [|done]. destruct (negb (a_running t)); [done|].
  destruct (WaitReady t); [|done].
  generalize (devs_attempts d cfg host dnsAttemptTimeouts 1 None false (a_world t)).
  destruct (lookup_attempts _ _ _ _ _ _ _ _) as [r w]. intros Hl. by apply inv_world.
Qed.

Lemma inv_LookupHost host t : awg_inv t -> awg_inv (LookupHost_awg host t).2.
Proof.
  intros Ht. unfold LookupHost_awg. destruct (negb (a_running t)); [done|].
  destruct (negb (HasDNS_awg t)); [done|]. unfold resolver_Lookup.
  set (id := fresh _). set (r := lookup_begin _ _ _ _).
  pose proof (inv_lookupUncached host _ (inv_resolver (fun _ => r) t Ht)) as Hi.
  destruct (lookupUncached host (t <| a_resolver := r |>)) as [a t1] eqn:E.
  assert (forall (b : error -> Resolver -> Resolver) c, awg_inv ((match ctx_Err (a_world t1) with
      | Some e => t1 <| a_resolver ::= b e |> | None => t1 end) <| a_resolver ::= c |>)) as Hlead.
  { intros b c. apply inv_resolver. destruct (ctx_Err _); [by apply inv_resolver|done]. }
  destruct (r_threads r !! id) as [[| | | |]|]; first [by apply inv_resolver | apply (Hlead (fun e r => r <| r_cancelled ::= insert id e |>))].
Qed.

Lemma inv_lastErr m t : awg_inv t -> awg_inv (t <| a_lastErr := m |>).
Proof. by intros [H1 H2 Hpk H3 H4 H5 H6 H7 H8 H9]. Qed.

Lemma inv_rebind d t : awg_inv t -> awg_inv (rebind d t).
Proof.
  intros Ht. unfold rebind. generalize (devs_BindUpdate d (a_world t)).
  destruct (BindUpdate d (a_world t)) as [[e|] w]; intros Hw; [apply inv_lastErr|]; by apply inv_world.
Qed.

Lemma inv_reresolve d t : awg_inv t -> awg_inv (reresolve d t).
Proof.
  intros Ht. unfold reresolve. destruct (a_cfg t) as [cfg|]; [|done].
  destruct (negb (endpointNeedsResolution cfg)); [done|].
  generalize (devs_toUAPI cfg (a_world t)).
  destruct (toUAPI cfg (a_world t)) as [[uapi|e] w]; cbn [snd]; intros Hw;
    [|by apply inv_lastErr, inv_world].
  pose proof (calm_calm _ _ _ (calm_devs _ _ Hw) (calm_IpcSet d uapi w)) as Hc.
  destruct (IpcSet d uapi w) as [[e|] w3]; cbn [snd] in Hc; [apply inv_lastErr|]; by apply inv_calm.
Qed.

Lemma inv_performReconnect t : awg_inv t -> awg_inv (performReconnect t).
Proof.
  intros Ht. unfold performReconnect. destruct (a_dev t) as [d|] eqn:Hd; [|done].
  destruct (a_running t) eqn:Hr; [|done]. apply inv_kick, inv_reresolve, inv_rebind.
  apply (inv_markNotReady _ (t <| a_reconnects ::= Z.add 1 |>)); try done. by destruct Ht.
Qed.

Lemma inv_markReady t :
  awg_inv t -> a_running t = true -> awg_inv (markReady (t <| a_state := StateConnected |> <| a_lastErr := "" |>)).
Proof.
  intros [H1 H2 Hpk H3 H4 H5 H6 H7 H8 H9] Hr. unfold markReady, close_ready.
  split; awg_fields t; try done; try congruence.
  - intros c [->%elem_of_singleton|Hc]%elem_of_union; [done|]. by apply H5.
  - set_solver.
  - by left.
Qed.

Lemma inv_tick s t : awg_inv t -> awg_inv (supervise_tick s t).2.
Proof.
  intros Ht. unfold supervise_tick. destruct (readStats t) as [st|e] eqn:Hst; [|done].
  assert (a_running t = true) as Hr.
  { unfold readStats in Hst. destruct (a_dev t); [|done]. by destruct (a_running t). }
  destruct (healthy (a_now t) st); [by apply inv_markReady|].
  assert (forall st', st' <> StateStopped -> st' <> StateConnected ->
    awg_inv ((markNotReady t) <| a_state := st' |>)) as Hn by (intros st' H H'; by apply inv_markNotReady).
  set (st1 := if wasConnected s then _ else _).
  assert (awg_inv st1.2) as H1.
  { unfold st1. destruct (wasConnected s); cbn [snd].
    - by pose proof (Hn StateReconnecting ltac:(done) ltac:(done)) as [].
    - destruct (bool_decide_reflect (a_state (markNotReady t) = StateReconnecting)) as [Hs|Hs]; [|by apply Hn].
      pose proof (Hn StateReconnecting ltac:(done) ltac:(done)) as Hm.
      assert ((markNotReady t) <| a_state := StateReconnecting |> = markNotReady t) as <-; [|done].
      rewrite <-Hs. by destruct (markNotReady t). }
  destruct st1 as [s1 t1]. cbn [snd] in H1. destruct (a_now t <? nextKick s1); [done|]. by apply inv_kick.
Qed.

Lemma inv_cfg cfg t : awg_inv t -> (a_running t = true -> is_Some cfg) -> awg_inv (t <| a_cfg := cfg |>).
Proof. by intros [H1 H2 Hpk H3 H4 H5 H6 H7 H8 H9] Hc. Qed.

Lemma Stop_running t : a_running (Stop_awg t) = false.
Proof. unfold Stop_awg, stop_lock. destruct (a_running t) eqn:Hr; cbn [negb]; [by destruct (a_dev t)|done]. Qed.

Lemma inv_failed t : awg_inv t -> awg_inv (t <| a_state := StateFailed |>).
Proof. intros [H1 H2 Hpk H3 H4 H5 H6 H7 H8 H9]. split; awg_fields t; try done; by right. Qed.

Lemma inv_reload_uapi prev next d t :
  awg_inv t -> a_running t = true -> awg_inv (reload_uapi prev next d t).2.
Proof.
  intros Ht Hr. unfold reload_uapi.
  generalize (devs_toUAPI prev (a_world t)). destruct (toUAPI prev _) as [[pu|e] w1]; cbn [snd]; intros H1;
    [|by apply inv_world].
  generalize (devs_toUAPI next w1). destruct (toUAPI next w1) as [[nu|e] w2]; cbn [snd]; intros H2;
    [|apply inv_world; [congruence|done]].
  assert (calm (a_world t) w2) as Hc2 by (apply calm_devs; congruence).
  pose proof (calm_calm _ _ _ Hc2 (calm_IpcSet d nu w2)) as Hc3. destruct (IpcSet d nu w2) as [[e|] w3]; cbn [snd] in Hc3.
  - pose proof (calm_calm _ _ _ Hc3 (calm_IpcSet d pu w3)) as Hc4.
    destruct (IpcSet d pu w3) as [[e'|] w4]; cbn [snd] in Hc4; pose proof (inv_calm w4 t Hc4 Ht) as Hi;
      [by apply inv_lastErr, inv_failed|done].
  - apply inv_kick. pose proof (inv_calm w3 t Hc3 Ht) as Hi0.
    apply inv_markNotReady; [|by destruct (peerKeys next)|done|done].
    assert (awg_inv ((t <| a_world := w3 |>) <| a_cfg := Some next |>)) as Hi by by apply inv_cfg.
    destruct (peerKeys next); [|done]. by destruct Hi.
Qed.

(** [Start] takes the tunnel up, or leaves it stopped with its configuration. *)
Lemma Start_outcome t : a_running t = false ->
  match Start_awg t with
  | (None, t') => a_running t' = true /\ a_cfg t' = a_cfg t
  | (Some _, t') => a_running t' = false /\ a_cfg t' = a_cfg t /\ (a_cfg t <> None -> a_state t' = StateFailed) /\
      (a_cfg t = None -> a_state t' = a_state t)
  end.
Proof.
  intros Hr. unfold Start_awg. rewrite Hr. destruct (a_cfg t) as [cfg|] eqn:Hc; [|done].
  match goal with |- context [buildDevice cfg (a_world ?x)] => change (a_world x) with (a_world t) end.
  destruct (buildDevice cfg (a_world t)) as [[[d keys]|e] w]; [|done]. by split.
Qed.

Lemma inv_reload_rebuild next t : awg_inv t -> awg_inv (reload_rebuild next t).2.
Proof.
  intros Ht. unfold reload_rebuild. pose proof (inv_Stop t Ht) as Hs. pose proof (Stop_running t) as Hr.
  set (t0 := Stop_awg t) in *. clearbody t0.
  pose proof (inv_Start _ (inv_cfg (Some next) _ Hs ltac:(done))) as H1.
  pose proof (Start_outcome (t0 <| a_cfg := Some next |>)) as Ho. specialize (Ho Hr).
  destruct (Start_awg (t0 <| a_cfg := Some next |>)) as [[e|] t1] eqn:E1; [|done].
  destruct Ho as (Hr1 & _). cbn [snd] in H1.
  pose proof (inv_Start _ (inv_cfg (a_cfg t) t1 H1 ltac:(congruence))) as H2.
  by destruct (Start_awg (t1 <| a_cfg := a_cfg t |>)) as [[e'|] t2].
Qed.

(** A dry run beside the tunnel: the second device is closed again. *)
Lemma inv_DryRun cfg t : awg_inv t -> awg_inv (t <| a_world := (DryRun cfg (a_world t)).2 |>).
Proof.
  intros [H1 H2 Hpk H3 H4 H5 H6 H7 H8 H9]. destruct (DryRun_devices cfg (a_world t)) as [Hl [Hp _]].
  destruct (DryRun cfg (a_world t)) as [o w]. cbn [snd] in *. split; try done; awg_fields t; [by rewrite Hl|].
  rewrite H2 in Hp. destruct (a_dev t); rewrite ?size_singleton, ?size_empty in Hp; lia.
Qed.

Lemma inv_Reload next t : awg_inv t -> awg_inv (Reload next t).2.
Proof.
  intros Ht. unfold Reload. destruct next as [cfg|]; [|done].
  pose proof (inv_DryRun (Some cfg) t Ht) as H1. destruct (DryRun _ _) as [[e|] w]; cbn [snd] in H1; [done|].
  destruct (a_running (t <| a_world := w |>)) eqn:Hr; cbn [negb]; [|by apply inv_cfg].
  destruct (stackEqual _ _); [|by apply inv_reload_rebuild].
  destruct (a_cfg (t <| a_world := w |>)); [|done]. destruct (a_dev (t <| a_world := w |>)); [|done].
  by apply inv_reload_uapi.
Qed.

Lemma aop_inv t t' : aop t t' -> awg_inv t -> awg_inv t'.
Proof.
  intros Hop Ht. destruct Hop.
  - by apply inv_Start.
  - by apply inv_Stop.
  - by apply inv_Reload.
  - by destruct Ht.
  - by apply inv_tick.
  - apply inv_performReconnect. by destruct Ht.
  - by apply inv_DialTCP.
  - by apply inv_LookupHost.
  - by apply inv_ListenUDP.
  - by destruct Ht.
Qed.

Lemma aops_inv t t' : rtc aop t t' -> awg_inv t -> awg_inv t'.
Proof. induction 1; [done|]. eauto using aop_inv. Qed.

Lemma New_inv cfg now w : live w = ∅ -> peak w = 0%nat -> awg_inv (NewWithBindAndNetstack cfg now w).
Proof. intros Hw Hp. split; try done; simpl; [lia|lia|by left]. Qed.

(** *** Reload *)

Lemma markNotReady_fields (t : AWG) :
  a_running (markNotReady t) = a_running t /\ a_cfg (markNotReady t) = a_cfg t /\
  a_dev (markNotReady t) = a_dev t /\ a_keys (markNotReady t) = a_keys t /\ a_world (markNotReady t) = a_world t.
Proof. unfold markNotReady. destruct (negb (a_running t)); [done|]. by destruct (bool_decide _). Qed.

Lemma markNotReady_open (t : AWG) : awg_inv t -> a_running t = true -> a_ready (markNotReady t) ∉ a_closed (markNotReady t).
Proof.
  intros Ht Hr. unfold markNotReady. rewrite Hr. cbn [negb].
  destruct (bool_decide_reflect (a_ready t ∈ a_closed t)) as [Hc|Hc]; [|done].
  simpl. intros Hn. pose proof (ai_closed _ Ht _ Hn). lia.
Qed.

(** The device of a tunnel that has one has taken a document of its configuration. *)
Definition faithful (t : AWG) : Prop :=
  forall d, a_dev t = Some d -> exists cfg, a_cfg t = Some cfg /\ configured (a_world t) (dev_id d) cfg.

Lemma faithful_conf (t t' : AWG) : a_dev t' = a_dev t -> a_cfg t' = a_cfg t ->
  (forall d, a_dev t = Some d -> conf (a_world t') !! dev_id d = conf (a_world t) !! dev_id d) -> faithful t -> faithful t'.
Proof.
  intros Hd Hc Hw Hf d Hd'. rewrite Hd in Hd'. destruct (Hf d Hd') as (cfg & Hcfg & u & Hu & Hr).
  exists cfg. split; [congruence|]. exists u. by rewrite Hw.
Qed.

(** The tunnel waits for a handshake of this configuration, whose document and peers its
    device has. *)
Definition fresh_for (cfg : Tunnel) (t : AWG) : Prop :=
  a_cfg t = Some cfg /\ faithful t /\ peerKeys cfg = Ok (a_keys t) /\ a_state t = StateConnecting /\
  a_ready t ∉ a_closed t.

Lemma kick_fresh cfg t : fresh_for cfg t -> fresh_for cfg (kickHandshake t).
Proof.
  intros (H1 & H2 & H3 & H4 & H5). unfold kickHandshake. destruct (a_dev t) as [d|] eqn:Hd; [|done].
  split_and!; try done. apply (faithful_conf t); try done. intros d' _. simpl. unfold conf. by rewrite devs_keepalives.
Qed.

Lemma Start_fresh (t : AWG) : awg_inv t -> a_running t = false ->
  match Start_awg t with
  | (None, t') => a_running t' = true /\ exists cfg, a_cfg t = Some cfg /\ fresh_for cfg t'
  | (Some e, t') => a_running t' = false /\ a_cfg t' = a_cfg t /\ a_dev t' = None /\
      (forall cfg, a_cfg t = Some cfg -> a_state t' = StateFailed /\ exists w w', buildDevice cfg w = (Err e, w'))
  end.
Proof.
  intros Ht Hr. assert (a_dev t = None) as Hd.
  { pose proof (ai_dev _ Ht) as H. rewrite Hr in H. by destruct (a_dev t). }
  unfold Start_awg. rewrite Hr. destruct (a_cfg t) as [cfg|] eqn:Hc; [|by split_and!].
  match goal with |- context [buildDevice cfg (a_world ?x)] => change (a_world x) with (a_world t) end.
  pose proof (build_devices cfg (a_world t)) as Hb.
  destruct (buildDevice cfg (a_world t)) as [[[d keys]|e] w] eqn:Hbuild.
  - destruct Hb as (_ & Hk & Hcf). split; [match goal with |- a_running (kickHandshake ?x) = _ => by destruct (kick_fields x) as (-> & _) end|].
    exists cfg. split; [done|]. apply kick_fresh. split_and!; try done.
    + intros d' [= <-]. by exists cfg.
    + simpl. intros Hn. pose proof (ai_closed _ Ht _ Hn). lia.
  - split_and!; try done. intros cfg' [= <-]. split; [done|]. by exists (a_world t), w.
Qed.

(** What became of a reload that failed: the tunnel is as it was, with its configuration;
    or that could not be had again, because the device refused its document or could not be
    made anew, and the state says Failed. *)
Definition restored (t t' : AWG) : Prop :=
  a_running t' = a_running t /\ faithful t' \/
  exists prev, a_running t = true /\ a_cfg t = Some prev /\ a_state t' = StateFailed /\
    ((exists d u w e w', renders prev u /\ IpcSet d u w = (Some e, w') /\ a_running t' = true) \/
     (exists w e w', buildDevice prev w = (Err e, w') /\ a_running t' = false /\ a_dev t' = None)).

Lemma reload_uapi_outcome prev next d t r t' :
  awg_inv t -> a_running t = true -> faithful t -> a_dev t = Some d -> a_cfg t = Some prev ->
  (exists keys, peerKeys next = Ok keys) ->
  reload_uapi prev next d t = (r, t') ->
  match r with
  | Ok _ => a_running t' = true /\ fresh_for next t'
  | Err _ => a_cfg t' = a_cfg t /\ restored t t'
  end.
Proof.
  intros Ht Hrun Hf Hd Hp [keys Hkeys]. unfold reload_uapi.
  pose proof (devs_toUAPI prev (a_world t)) as H1. destruct (toUAPI prev (a_world t)) as [[pu|e] w1] eqn:Hpu; cbn [snd] in H1.
  2:{ intros [= <- <-]. split; [done|]. left. split; [done|]. apply (faithful_conf t); try done.
      intros d' _. simpl. unfold conf. by rewrite H1. }
  pose proof (devs_toUAPI next w1) as H2. destruct (toUAPI next w1) as [[nu|e] w2] eqn:Hnu; cbn [snd] in H2.
  2:{ intros [= <- <-]. split; [done|]. left. split; [done|]. apply (faithful_conf t); try done.
      intros d' _. simpl. unfold conf. by rewrite H2, H1. }
  assert (renders prev pu) as Hrp by by exists (a_world t), w1.
  assert (calm (a_world t) w2) as Hc2 by (apply calm_devs; congruence).
  pose proof (calm_calm _ _ _ Hc2 (calm_IpcSet d nu w2)) as Hc3.
  pose proof (conf_IpcSet d nu w2) as Hn. destruct (IpcSet d nu w2) as [[e|] w3] eqn:Hi1; cbn [fst snd] in *.
  - pose proof (conf_IpcSet d pu w3) as Hn'. destruct (IpcSet d pu w3) as [[e'|] w4] eqn:Hi2; cbn [fst snd] in *;
      intros [= <- <-]; (split; [done|]).
    + right. exists prev. split_and!; try done. left. by exists d, pu, w3, e', w4.
    + left. split; [done|]. intros d' Hd'. simpl in Hd'. rewrite Hd in Hd'. injection Hd' as <-.
      exists prev. split; [done|]. exists pu. split; [by apply Hn'|done].
  - set (t1 := match peerKeys next with Ok _ => _ | Err _ => _ end).
    assert (t1 = t <| a_world := w3 |> <| a_cfg := Some next |> <| a_keys := keys |>) as E
      by (unfold t1; by rewrite Hkeys).
    clearbody t1. intros [= <- <-].
    assert (awg_inv t1) as Hi.
    { assert (awg_inv ((t <| a_world := w3 |>) <| a_cfg := Some next |>)) as [] by (by apply inv_cfg; [apply inv_calm|]).
      rewrite E. by split. }
    assert (faithful t1) as Hf1.
    { rewrite E. intros d' Hd'. simpl in Hd'. rewrite Hd in Hd'. injection Hd' as <-.
      exists next. split; [done|]. exists nu. split; [by apply Hn|by exists w1, w2]. }
    assert (peerKeys next = Ok (a_keys t1) /\ a_cfg t1 = Some next /\ a_running t1 = true) as (G1 & G2 & G3) by (by rewrite E).
    clear E. pose proof (markNotReady_open t1 Hi G3) as Ho. destruct (markNotReady_fields t1) as (F1 & F2 & F3 & F4 & F5).
    split.
    { pose proof (kick_fields ((markNotReady t1) <| a_state := StateConnecting |>)) as (-> & _). simpl. congruence. }
    apply kick_fresh. split_and!; try done; simpl; [congruence| |congruence].
    apply (faithful_conf t1); try done. intros d' _. simpl. by rewrite F5.
Qed.

Lemma reload_rebuild_outcome next t r t' :
  awg_inv t -> a_running t = true -> reload_rebuild next t = (r, t') ->
  match r with
  | Ok _ => a_running t' = true /\ fresh_for next t'
  | Err _ => a_cfg t' = a_cfg t /\ restored t t'
  end.
Proof.
  intros Ht Hrun. unfold reload_rebuild. destruct (ai_cfg _ Ht Hrun) as [prev Hprev].
  pose proof (inv_Stop t Ht) as Hs. pose proof (Stop_running t) as Hr.
  set (t0 := Stop_awg t) in *. clearbody t0.
  assert (awg_inv (t0 <| a_cfg := Some next |>)) as Hi by (by apply inv_cfg).
  pose proof (Start_fresh _ Hi Hr) as Ho. pose proof (inv_Start _ Hi) as Hi1.
  destruct (Start_awg (t0 <| a_cfg := Some next |>)) as [[e|] t1]; cbn [snd] in Hi1.
  2:{ intros [= <- <-]. destruct Ho as (H1 & cfg & [= <-] & H2). done. }
  destruct Ho as (Hr1 & _).
  assert (awg_inv (t1 <| a_cfg := a_cfg t |>)) as Hi2 by (apply inv_cfg; [done|congruence]).
  pose proof (Start_fresh _ Hi2 Hr1) as Ho2.
  destruct (Start_awg (t1 <| a_cfg := a_cfg t |>)) as [[e'|] t2]; intros [= <- <-].
  - destruct Ho2 as (H1 & H2 & H3 & H4). split; [done|]. right. exists prev. destruct (H4 prev Hprev) as (H5 & w & w' & Hb).
    split_and!; try done. right. by exists w, e', w'.
  - destruct Ho2 as (H1 & cfg & H2 & H3 & H4 & _). split; [rewrite H3; by rewrite <-H2|]. left. split; [congruence|done].
Qed.

Lemma DryRun_keys cfg w : (DryRun (Some cfg) w).1 = None -> exists keys, peerKeys cfg = Ok keys.
Proof.
  unfold DryRun. repeat case_match; try done; simplify_eq/=; by eexists.
Qed.
End Invariant.

(** ** Properties *)

(** C15: whatever sequence of operations a new tunnel goes through, each of which ends
    before the next begins: between two of them exactly one device is open while the tunnel
    runs and none while it does not, so that no start that failed, no dry run, no reload and
    no stop leaves a device behind; and at no moment, within an operation either, have there
    been more than two (a dry run opens its own beside the running one).  A stopped tunnel
    is in state Stopped or Failed, a running one has a configuration, its state is Connected
    only while its readiness channel is closed, and the channel is closed only while the
    state is Connected or Failed. *)
Theorem tunnel_invariant {W Dev Sock Key} (U : Upstream W Dev Sock Key)
    (UL : UpstreamLaws W Dev Sock Key) cfg now w t :
  live w = ∅ -> peak w = 0%nat -> rtc aop (NewWithBindAndNetstack cfg now w) t -> awg_inv t.
Proof. intros Hw Hp Hr. by eapply aops_inv, New_inv. Qed.

(** C18: [Reload] on a tunnel whose device has taken the document of its configuration.
    When it succeeds, the tunnel has the new configuration, runs if it ran before, and then
    its device has taken a document of the new one, its keys are the new peers' and it waits
    for a handshake.  When it fails, the configuration is the previous one, and the tunnel
    runs or not as before, with a device that has taken a document of that one, unless the
    device refused it when it was to be put back, or could not be made again with it: then
    the state is Failed.  A configuration that the dry run refuses changes nothing of the
    tunnel. *)
Theorem Reload_outcomes {W Dev Sock Key} (U : Upstream W Dev Sock Key)
    (UL : UpstreamLaws W Dev Sock Key) next (t : AWG W Dev Key) r t' :
  awg_inv t -> faithful t -> Reload next t = (r, t') ->
  match r with
  | Ok _ => exists cfg, next = Some cfg /\ a_cfg t' = Some cfg /\ a_running t' = a_running t /\ faithful t' /\
      (a_running t = true -> fresh_for cfg t') /\ (DryRun next (a_world t)).1 = None
  | Err _ => a_cfg t' = a_cfg t /\ restored t t'
  end /\
  ((DryRun next (a_world t)).1 <> None ->
   is_ok r = false /\ exists w, t' = t <| a_world := w |>).
Proof.
  intros Ht Hf. unfold Reload. destruct next as [cfg|].
  2:{ intros [= <- <-]. split; [split; [done|by left]|]. intros _. split; [done|].
      exists (a_world t). by destruct t. }
  pose proof (inv_DryRun (Some cfg) t Ht) as Hi. destruct (DryRun_devices (Some cfg) (a_world t)) as [_ [_ Hcf]].
  pose proof (DryRun_keys cfg (a_world t)) as Hk.
  assert (faithful (t <| a_world := (DryRun (Some cfg) (a_world t)).2 |>)) as Hf0.
  { apply (faithful_conf t); try done. intros d Hd. apply Hcf. rewrite (ai_live _ Ht), Hd. set_solver. }
  destruct (DryRun (Some cfg) (a_world t)) as [[e|] w]; cbn [fst snd] in *.
  { intros [= <- <-]. split; [split; [done|by left]|]. intros _. split; [done|]. by exists w. }
  set (t0 := t <| a_world := w |>) in *.
  assert (a_running t0 = a_running t /\ a_cfg t0 = a_cfg t) as [Hr0 Hc0] by done. clearbody t0.
  intros Hr. split; [|done]. specialize (Hk eq_refl).
  assert (forall t', restored t0 t' -> restored t t') as Hrest by (unfold restored; rewrite Hr0, Hc0; done).
  destruct (a_running t0) eqn:Hrun; cbn [negb] in Hr.
  2:{ injection Hr as <- <-. exists cfg. split_and!; try done; simpl; [congruence| |congruence].
      intros d Hd. simpl in Hd. pose proof (ai_dev _ Hi) as E. rewrite Hrun, Hd in E. done. }
  assert (match r with
    | Ok _ => a_running t' = true /\ fresh_for cfg t'
    | Err _ => a_cfg t' = a_cfg t0 /\ restored t0 t'
    end) as Hout.
  { destruct (stackEqual (a_cfg t0) (Some cfg)); [|by apply (reload_rebuild_outcome cfg t0)].
    destruct (ai_cfg _ Hi Hrun) as [prev Hprev]. rewrite Hprev in Hr.
    destruct (a_dev t0) as [d|] eqn:Hd; [|by rewrite (ai_dev _ Hi), Hd in Hrun].
    rewrite Hprev. pose proof (reload_uapi_outcome prev cfg d t0 r t' Hi Hrun Hf0 Hd Hprev Hk Hr) as Ho.
    by rewrite Hprev in Ho. }
  destruct r as [[]|e].
  - destruct Hout as [H1 H2]. exists cfg. split_and!; try done; [apply H2|congruence|apply H2].
  - destruct Hout as [H1 H2]. split; [congruence|by apply Hrest].
Qed.

(** C3: While the tunnel does not run, a SOCKS5 session served over it, whatever its
    client asks and sends, leaves the tunnel and the network as they were. *)
Theorem session_over_stopped_tunnel {W Dev Sock Key} (U : Upstream W Dev Sock Key)
    (peer : Sock -> AWG W Dev Key -> Conn) en sc c (t : AWG W Dev Key) st :
  a_running t = false -> ss_world (handle peer en sc c t st) = t.
Proof. intros Hr. by apply (down_world (DL := awg_dialer_laws)). Qed.

(** Egress while [WaitReady] fails. *)
Section NotReady.
Context {W Dev Sock Key : Type} `{U : !Upstream W Dev Sock Key} `{UL : !UpstreamLaws W Dev Sock Key}.

Lemma dial_not_ready timeout target (t : AWG W Dev Key) e :
  awg_inv t -> WaitReady t = Err e -> DialTCP_awg timeout target t = (Err e, t).
Proof.
  intros Ht He. unfold DialTCP_awg. destruct (a_running t) eqn:Hrun; cbn [negb].
  - rewrite He. rewrite (ai_dev _ Ht) in Hrun. by destruct (a_dev t).
  - unfold WaitReady in He. rewrite Hrun in He. injection He as <-. by destruct (a_dev t).
Qed.

Lemma listen_not_ready ipv6 (t : AWG W Dev Key) e :
  awg_inv t -> WaitReady t = Err e ->
  exists e', ListenUDP_awg ipv6 t = (Err e', t) /\ (e' = e \/ Is e' ErrNoRoute = true).
Proof.
  intros Ht He. unfold ListenUDP_awg. destruct (a_running t) eqn:Hrun; cbn [negb].
  - rewrite He. rewrite (ai_dev _ Ht) in Hrun. destruct (a_dev t); [|done].
    destruct (a_cfg t ≫= _); eexists; (split; [done|]); [by left|by right].
  - unfold WaitReady in He. rewrite Hrun in He. injection He as <-.
    exists (ESentinel ErrTunnelDown). destruct (a_dev t); (split; [done|by left]).
Qed.

(** The resolver's state does not matter. *)
Lemma query_not_ready host cache (t : AWG W Dev Key) e :
  awg_inv t -> WaitReady t = Err e ->
  lookupUncached host (t <| a_resolver := cache |>) = (Err e, t <| a_resolver := cache |>).
Proof.
  intros Ht He. set (t1 := t <| a_resolver := cache |>).
  assert (a_dev t1 = a_dev t /\ a_cfg t1 = a_cfg t /\ a_running t1 = a_running t /\ WaitReady t1 = WaitReady t)
    as (Hd & Hc & Hr & Hw) by done.
  clearbody t1. unfold lookupUncached. rewrite Hd, Hc, Hr, Hw, He.
  destruct (a_running t) eqn:Hrun; cbn [negb].
  - destruct (ai_cfg _ Ht Hrun) as [cfg ->]. rewrite (ai_dev _ Ht) in Hrun. by destruct (a_dev t).
  - unfold WaitReady in He. rewrite Hrun in He. injection He as <-.
    destruct (a_dev t); [|done]. by destruct (a_cfg t).
Qed.

Lemma lookup_not_ready host (t : AWG W Dev Key) e :
  awg_inv t -> WaitReady t = Err e ->
  exists a cache, LookupHost_awg host t = (a, t <| a_resolver := cache |>) /\
    (a = Err e \/ HasDNS_awg t = false /\ a = Err (ESentinel ErrNoDNS) \/
     exists x, r_entries (a_resolver t) !! host = Some x /\ a_now t < expires x /\ a = e_answer x).
Proof.
  intros Ht He. assert (t = t <| a_resolver := a_resolver t |>) as Hsame by (by destruct t).
  unfold LookupHost_awg. destruct (a_running t) eqn:Hrun; cbn [negb].
  2:{ unfold WaitReady in He. rewrite Hrun in He. injection He as <-. eexists _, _. split; [by rewrite <-Hsame|by left]. }
  destruct (HasDNS_awg t) eqn:Hdns; cbn [negb].
  2:{ eexists _, _. split; [by rewrite <-Hsame|]. right; left. done. }
  unfold resolver_Lookup. set (id := fresh _). set (r := lookup_begin _ _ _ _).
  assert (r_threads (a_resolver t) !! id = None) as Hid by (apply not_elem_of_dom, is_fresh).
  set (t1 := t <| a_resolver := r |>). pose proof (query_not_ready host r t e Ht He) as Hl1. fold t1 in Hl1.
  assert (exists cache, (let '(a, t) := lookupUncached host t1 in
      let t := match ctx_Err (a_world t) with
               | Some e => t <| a_resolver ::= (fun r => r <| r_cancelled ::= insert id e |>) |>
               | None => t end in
      (a, t <| a_resolver ::= lookup_end (a_now t) host (a_now t) a id |>)) = (Err e, t <| a_resolver := cache |>)) as [cache Hlead].
  { rewrite Hl1. destruct (ctx_Err _); by eexists. }
  destruct (r_threads r !! id) as [p|] eqn:Hp; [|exists (Err e), cache; by split; [|left]].
  destruct p as [| | | |h a]; try (exists (Err e), cache; by split; [|left]).
  exists a, r. split; [done|]. right; right. revert Hp. subst r. unfold lookup_begin.
  destruct (r_entries (a_resolver t) !! host) as [x|] eqn:Hx; [destruct (Z.ltb_spec (a_now t) (expires x))|];
    try (destruct (r_inflight (a_resolver t) !! host); simpl; by rewrite lookup_insert_eq).
  simpl. rewrite lookup_insert_eq. intros [= <- <-]. by exists x.
Qed.
End NotReady.


(** *** Readiness *)

Section Waiters.
Context {W Dev Sock Key : Type} `{U : !Upstream W Dev Sock Key}.

Abbreviation AWG := (AWG W Dev Key).

(** Channels are numbered below the next number. *)
Definition chan_ok (t : AWG) : Prop :=
  (a_ready t < a_next t)%nat /\ forall c, c ∈ a_closed t -> (c < a_next t)%nat.

(** A waiter that has received did so from a closed channel, and no number is reused. *)
Definition waiting (s : AWG * nat * wait_pc) : Prop :=
  chan_ok s.1.1 /\ match s.2 with WRecv ch => ch ∈ a_closed s.1.1 | _ => True end.

(** When calls of [Start] do not overlap, the one in progress finds the tunnel still down,
    and a waiter is at a channel that is closed, or the current one of a running tunnel. *)
Definition waiting_serial (s : AWG * nat * wait_pc) : Prop :=
  (s.1.2 = 0%nat \/ s.1.2 = 1%nat /\ a_running s.1.1 = false) /\
  match s.2 with WSelect ch => ch ∈ a_closed s.1.1 \/ a_running s.1.1 = true /\ ch = a_ready s.1.1 | _ => True end.

Lemma chan_close (t : AWG) : chan_ok t -> chan_ok (close_ready t).
Proof.
  intros [Hn Hc]. split; [done|].
  change (a_closed (close_ready t)) with ({[a_ready t]} ∪ a_closed t).
  intros c [->%elem_of_singleton|H]%elem_of_union; [done|by apply Hc].
Qed.

Lemma tenv_chan (t t' : AWG) : tenv t t' -> chan_ok t -> chan_ok t'.
Proof.
  intros Hs [Hn Hc]. destruct Hs; try done.
  - by apply chan_close.
  - unfold markNotReady. destruct (negb (a_running t)); [done|]. destruct (bool_decide _); [|done].
    split; simpl; [lia|]. intros c H. specialize (Hc c H). simpl. lia.
  - unfold stop_lock. destruct (negb (a_running t)); [done|]. by apply chan_close.
Qed.

Lemma install_chan d keys (t : AWG) : chan_ok t -> chan_ok (start_install d keys t).
Proof. intros [Hn Hc]. split; simpl; [lia|]. intros c H0. specialize (Hc c H0). simpl. lia. Qed.

Lemma tenv_running (t t' : AWG) : tenv t t' -> a_running t = false -> a_running t' = false.
Proof.
  intros Hs Hr. destruct Hs; try done.
  - unfold markNotReady. by rewrite Hr.
  - unfold stop_lock. by destruct (a_running t) eqn:E.
Qed.

(** The others only close channels, and replace closed ones. *)
Lemma tenv_waits (t t' : AWG) ch :
  tenv t t' -> ch ∈ a_closed t \/ a_running t = true /\ ch = a_ready t ->
  (ch ∈ a_closed t -> ch ∈ a_closed t') /\
  (ch ∈ a_closed t' \/ a_running t' = true /\ ch = a_ready t').
Proof.
  intros Hs Hw. destruct Hs; try done.
  - change (a_closed (markReady t)) with ({[a_ready t]} ∪ a_closed t). set_solver.
  - unfold markNotReady. destruct (a_running t) eqn:Hr; cbn [negb]; [|split; [done|]; rewrite Hr; naive_solver].
    destruct (bool_decide_reflect (a_ready t ∈ a_closed t)) as [Hc|Hc]; [|split; [done|]; rewrite Hr; naive_solver].
    split; [done|]. left. destruct Hw as [Hw|[_ ->]]; done.
  - unfold stop_lock. destruct (a_running t) eqn:Hr; cbn [negb]; [|split; [done|]; rewrite Hr; naive_solver].
    change (a_closed (close_ready (t <| a_dev := None |> <| a_running := false |>)))
      with ({[a_ready t]} ∪ a_closed t). set_solver.
Qed.

Lemma wait_sys_waiting b s s' : wait_sys b s s' -> waiting s -> waiting s'.
Proof.
  intros Hs [Hc Hw]. destruct Hs as [t t' n pc He|t n pc|d keys t n pc|t n pc|t n pc pc' Hp]; try done; simpl in *.
  - split; [by eapply tenv_chan|]. simpl. destruct pc as [|ch|ch|r]; try done.
    apply (tenv_waits t t' ch He); [by left|done].
  - split; [by apply install_chan|]. by destruct pc.
  - split; [done|]. by destruct Hp.
Qed.

Lemma wait_sys_serial s s' : wait_sys true s s' -> waiting s -> waiting_serial s -> waiting_serial s'.
Proof.
  intros Hs [Hc _] [Hn Hw]. destruct Hs as [t t' n pc He|t n pc Hr H0|d keys t n pc|t n pc|t n pc pc' Hp]; unfold waiting_serial; simpl in *.
  - split; [destruct Hn as [?|[? Hr]]; [by left|right; split; [done|by eapply tenv_running]]|].
    destruct pc as [|ch|ch|r]; try done. by apply (tenv_waits t t' ch He Hw).
  - split; [right|done]. by rewrite H0.
  - destruct Hn as [?|[[= ->] Hr]]; [done|]. split; [by left|].
    destruct pc as [|ch|ch|r]; try done. left. destruct Hw as [Hw|[Hw _]]; [done|congruence].
  - split; [left|done]. destruct Hn as [?|[? _]]; congruence.
  - split; [done|]. destruct Hp; simpl; try done. by right.
Qed.

Lemma waits_waiting b (t0 : AWG) s : chan_ok t0 -> rtc (wait_sys b) (t0, 0%nat, WLoop) s ->
  waiting s /\ (b = true -> waiting_serial s).
Proof.
  intros Hc Hr. assert (waiting (t0, 0%nat, WLoop) /\ (b = true -> waiting_serial (t0, 0%nat, WLoop))) as Hw
    by (split; [done|intros _; split; [by left|done]]).
  induction Hr as [|s s1 s2 Hs Hr IH]; [done|]. apply IH. destruct Hw as [H1 H2].
  split; [by eapply wait_sys_waiting|]. intros ->. by eapply wait_sys_serial; eauto.
Qed.

(** From the receive, and from the head of the loop. *)
Lemma loop_down (t : AWG) : a_running t = false -> rtc (wait_step t) WLoop (WDone (Err (ESentinel ErrTunnelDown))).
Proof. intros Hr. by apply rtc_once, ws_down. Qed.

Lemma loop_ready (t : AWG) :
  a_running t = true -> a_ready t ∈ a_closed t -> rtc (wait_step t) WLoop (WDone (Ok tt)).
Proof.
  intros Hr Hc. eapply rtc_l; [by apply ws_enter|]. eapply rtc_l; [by apply ws_recv|].
  by apply rtc_once, ws_recv_same.
Qed.

Lemma recv_ready (t : AWG) ch :
  a_running t = true -> a_ready t ∈ a_closed t -> rtc (wait_step t) (WRecv ch) (WDone (Ok tt)).
Proof.
  intros Hr Hc. destruct (decide (a_ready t = ch)) as [He|He].
  - by apply rtc_once, ws_recv_same.
  - eapply rtc_l; [by apply ws_recv_replaced|]. by apply loop_ready.
Qed.
End Waiters.

(** C30: [WaitReady], beside any interleaving of the critical sections of the other
    operations, calls of [Start] that overlap included.  It returns nil only at a moment
    when the tunnel runs and its readiness channel is closed, or its context is done and the
    state reads Connected; and an error only when the tunnel is down or the context is done.
    As long as no two calls of [Start] overlap, no wake-up is lost: as soon as the tunnel is
    down a waiter can return ErrTunnelDown, and as soon as it is ready nil, by steps of its
    own, whatever channel it was waiting on.  (When they overlap one can be lost:
    [overlapping_Starts_lose_wakeup].) *)
Theorem WaitReady_sound {W Dev Sock Key} (U : Upstream W Dev Sock Key) serial (t0 t : AWG W Dev Key) n pc :
  chan_ok t0 -> rtc (wait_sys serial) (t0, 0%nat, WLoop) (t, n, pc) ->
  (forall r, wait_step t pc (WDone r) ->
     match r with
     | Ok _ => a_running t = true /\ a_ready t ∈ a_closed t \/
               is_Some (ctx_Err (a_world t)) /\ a_state t = StateConnected
     | Err e => a_running t = false /\ e = ESentinel ErrTunnelDown \/
                is_Some (ctx_Err (a_world t)) /\ Is e ErrNotReady = true
     end) /\
  (serial = true -> (forall r, pc <> WDone r) ->
   (a_running t = false -> rtc (wait_step t) pc (WDone (Err (ESentinel ErrTunnelDown)))) /\
   (a_running t = true -> a_ready t ∈ a_closed t -> rtc (wait_step t) pc (WDone (Ok tt)))).
Proof.
  intros Hc Hr. apply waits_waiting in Hr as [[_ Hw] Hser]; [|done]. simpl in Hw. split.
  - intros r Hs. inversion Hs; subst; eauto 6.
  - intros Hb Hpc. destruct (Hser Hb) as [_ Hsel]. simpl in Hsel. clear Hser Hb. split.
    + intros Hd. destruct pc as [|ch|ch|r]; [by apply loop_down| | |by destruct (Hpc r)].
      * destruct Hsel as [Hs|[Hs _]]; [|congruence]. eapply rtc_l; [by apply ws_recv|].
        by apply rtc_once, ws_recv_down.
      * by apply rtc_once, ws_recv_down.
    + intros Hd Hcl. destruct pc as [|ch|ch|r]; [by apply loop_ready| | |by destruct (Hpc r)].
      * eapply rtc_l; [|by apply recv_ready]. apply ws_recv. by destruct Hsel as [Hs|[_ ->]].
      * by apply recv_ready.
Qed.

(** A tick of the supervisor that reads the device's statistics.  With a handshake
    younger than 180 seconds the tunnel is Connected and ready, its error is cleared and
    nothing is sent.  Without one the tunnel is not ready and either Connecting or
    Reconnecting; when the handshake has just gone stale, or the time of the next kick
    has come, one keepalive goes to every peer and the next kick is set a backoff ahead,
    which doubles between one second and sixty; otherwise nothing is sent. *)
Theorem supervise_tick_spec {W Dev Sock Key} (U : Upstream W Dev Sock Key) s (t : AWG W Dev Key) st s' t' :
  a_running t = true -> chan_ok t -> readStats t = Ok st ->
  minBackoff <= backoff s <= maxBackoff ->
  supervise_tick s t = (s', t') ->
  if healthy (a_now t) st then
    a_state t' = StateConnected /\ a_ready t' ∈ a_closed t' /\ a_lastErr t' = "" /\
    a_world t' = a_world t /\ backoff s' = minBackoff /\ wasConnected s' = true
  else
    (a_ready t' ∉ a_closed t') /\ (a_state t' = StateConnecting \/ a_state t' = StateReconnecting) /\
    wasConnected s' = false /\ minBackoff <= backoff s' <= maxBackoff /\
    (if wasConnected s || (nextKick s <=? a_now t) then
       let b := if wasConnected s then minBackoff else backoff s in
       nextKick s' = a_now t + b /\ backoff s' = Z.min maxBackoff (2 * b) /\
       a_world t' = a_world (kickHandshake t)
     else nextKick s' = nextKick s /\ a_world t' = a_world t).
Proof.
  intros Hrun [Hn Hcl] Hst Hb. unfold supervise_tick. rewrite Hst.
  destruct (healthy (a_now t) st).
  - intros [= <- <-]. unfold markReady, close_ready. split_and!; try done. simpl. set_solver.
  - set (t1 := markNotReady t).
    assert ((a_ready t1 ∉ a_closed t1) /\ a_state t1 = a_state t /\ a_world t1 = a_world t /\
            a_dev t1 = a_dev t /\ a_keys t1 = a_keys t) as (Hnr & Hs1 & Hw1 & Hd1 & Hk1).
    { unfold t1, markNotReady. rewrite Hrun. cbn [negb].
      destruct (bool_decide_reflect (a_ready t ∈ a_closed t)) as [Hc|Hc]; [|done].
      split_and!; try done. simpl. intros Hc'. specialize (Hcl _ Hc'). lia. }
    clearbody t1.
    assert (forall x : AWG W Dev Key, a_dev x = a_dev t1 -> a_keys x = a_keys t1 -> a_world x = a_world t1 ->
      a_world (kickHandshake x) = a_world (kickHandshake t)) as Hkick.
    { intros x Hx1 Hx2 Hx3. unfold kickHandshake. rewrite Hx1, Hd1.
      destruct (a_dev t); simpl; congruence. }
    assert (forall x : AWG W Dev Key, a_ready (kickHandshake x) = a_ready x /\ a_closed (kickHandshake x) = a_closed x)
      as Hch by (intros x; unfold kickHandshake; by destruct (a_dev x)).
    destruct (wasConnected s) eqn:Hwas; cbn [orb nextKick backoff wasConnected].
    + set (x := t1 <| a_state := StateReconnecting |> <| a_reconnects ::= Z.add 1 |>).
      rewrite Z.ltb_irrefl. intros [= <- <-]. destruct (Hch x) as [-> ->]. destruct (kick_fields x) as (_ & _ & -> & _).
      split_and!; try done; [by right|by apply Hkick].
    + set (x := if bool_decide _ then t1 else _).
      assert (a_ready x = a_ready t1 /\ a_closed x = a_closed t1 /\ a_world x = a_world t1 /\
              a_dev x = a_dev t1 /\ a_keys x = a_keys t1 /\
              (a_state x = StateConnecting \/ a_state x = StateReconnecting)) as (Hx1 & Hx2 & Hx3 & Hx4 & Hx5 & Hx6).
      { unfold x. destruct (bool_decide_reflect (a_state t1 = StateReconnecting)); split_and!; try done; auto. }
      clearbody x. destruct (Z.ltb_spec (a_now t) (nextKick s)) as [Hk|Hk], (Z.leb_spec (nextKick s) (a_now t));
        try lia; intros [= <- <-].
      * rewrite Hx1, Hx2. split_and!; try congruence; try done; lia.
      * destruct (Hch x) as [-> ->]. destruct (kick_fields x) as (_ & _ & -> & _).
        cbn [nextKick backoff wasConnected]. rewrite Hx1, Hx2. split_and!; try congruence; try done.
        all: try (by apply Hkick; congruence).
        all: unfold grow_backoff, minBackoff, maxBackoff, Second in *; repeat case_match; lia.
Qed.

(** ** A concrete device

    Devices are numbered; a document is the endpoint host of the first peer, and the
    document "bad" is refused; the last handshake and the keepalives sent are part of
    the world. *)

Module ToyDevice.
Record world := MkWorld {
  open : gset nat;
  next_dev : nat;
  keepalives : nat;
  uapi : string;
  stats_doc : string;
  ctx : option error;
  most : nat;
  docs : gmap nat string;
}.

#[global] Instance world_fields : Fields world := fun r =>
  MkWorld (open r) (next_dev r) (keepalives r) (uapi r) (stats_doc r) (ctx r) (most r) (docs r).

#[global] Instance toy_upstream : Upstream world nat nat string := {|
  CreateNetTUN _ _ mtu w := (if mtu <? 576 then Some (EMsg "the MTU is too small") else None, w);
  NewDevice w :=
    let d := fresh (open w) in
    (d, w <| open ::= union {[d]} |> <| most ::= Nat.max (size ({[d]} ∪ open w)) |> <| docs ::= delete d |>);
  ToUAPI cfg w :=
    (match cfg_Peers cfg with
     | p :: _ => Rendered (Ok (peer_endpoint_host p))
     | [] => UapiTimeout
     end, w);
  FromHex s := Ok s;
  IpcSet d u w :=
    if bool_decide (u = "bad") then (Some (EMsg "refused"), w) else (None, w <| uapi := u |> <| docs ::= insert d u |>);
  IpcGet _ w := Ok (stats_doc w);
  dev_Up _ w := (None, w);
  dev_Close d w := w <| open ::= (fun o => o ∖ {[d]}) |> <| docs ::= delete d |>;
  BindUpdate _ w := (None, w);
  SendKeepalive _ _ w := w <| keepalives ::= S |>;
  net_discard _ _ w := w;
  net_DialTCP _ _ _ w := (Ok 0%nat, w);
  net_LookupHost _ _ _ w := (Ok ["93.184.216.34"], w);
  net_LookupNetIP _ _ _ _ w := (Ok [Addr4 1], w);
  net_ListenUDP _ _ w := (Ok 0%nat, w);
  net_WriteTo _ payload _ w := (Ok (Z.of_nat (length payload)), w);
  net_CloseSock _ w := w;
  ctx_Err := ctx;
|}.

#[global] Instance toy_laws : UpstreamLaws world nat nat string.
Proof.
  refine {| devs w := MkDevices (open w) (most w) (docs w); dev_id d := d |}; intros; try done.
  - split; [apply is_fresh|]. unfold with_new. cbn. f_equal. apply Nat.max_comm.
  - cbn. case_bool_decide.
    + exists (docs w !! d). split; [|done]. unfold with_conf. cbn. f_equal. symmetry. by apply partial_alter_id.
    + by exists (Some u).
Defined.

Definition empty_world : world := MkWorld ∅ 0 0 "" "" None 0 ∅.

(** Statistics with a handshake at one second past the epoch. *)
Definition shaken : string := Join ["public_key=ab"; "last_handshake_time_sec=1"] (String nl "").

Definition config (host : string) (mtu : Z) : Tunnel :=
  MkTunnel (MkConfig 0 [] [] [] [MkPeer false "ab" false host 51820 []])
    "" [Addr4 167772162] [] [Addr4 16843009] [] [] mtu true "" [] [] 0.

Definition stopped : AWG world nat string :=
  NewWithBindAndNetstack (Some (config "203.0.113.5" 1280)) (2 * Second) empty_world.

Definition started : AWG world nat string := (Start_awg stopped).2.

(** Started, with a handshake that the supervisor has seen. *)
Definition shaking : AWG world nat string :=
  started <| a_world ::= (fun w => w <| stats_doc := shaken |>) |>.

Definition connected : AWG world nat string :=
  (supervise_tick (supervise_start 0) shaking).2.

Definition with_ctx (e : error) (t : AWG world nat string) : AWG world nat string :=
  t <| a_world ::= (fun w => w <| ctx := Some e |>) |>.
End ToyDevice.

Import ToyDevice.

Example toy_connected : (a_running connected, a_state connected, is_ok (WaitReady connected)) = (true, StateConnected, true).
Proof. by vm_compute. Qed.

Lemma started_inv : awg_inv started.
Proof. apply inv_Start. by apply New_inv. Qed.

Lemma tunnel_invariant_witness : awg_inv started /\ open (a_world started) <> ∅.
Proof.
  split; [|by vm_compute].
  apply (tunnel_invariant toy_upstream toy_laws (Some (config "203.0.113.5" 1280)) (2 * Second) empty_world started);
    [done|done|]. apply rtc_once. apply (ao_Start stopped).
Defined.

Lemma started_faithful : faithful started.
Proof.
  pose proof (Start_fresh stopped ltac:(by apply New_inv) eq_refl) as Hs. unfold started.
  destruct (Start_awg stopped) as [[e|] t] eqn:E; [by vm_compute in E|]. destruct Hs as (_ & cfg & _ & _ & Hf & _). done.
Qed.

(** A refused document keeps the running tunnel as it is, and another endpoint is taken by
    the same device. *)
Lemma Reload_outcomes_witness :
  a_cfg (Reload (Some (config "bad" 1280)) started).2 = a_cfg started /\
  fresh_for (config "203.0.113.6" 1280) (Reload (Some (config "203.0.113.6" 1280)) started).2 /\
  docs (a_world (Reload (Some (config "203.0.113.6" 1280)) started).2) = {[0%nat := "203.0.113.6"]}.
Proof.
  split_and!; [| |by vm_compute].
  - exact (proj1 (proj1 (Reload_outcomes toy_upstream toy_laws (Some (config "bad" 1280)) started _ _
      started_inv started_faithful eq_refl))).
  - destruct (Reload (Some (config "203.0.113.6" 1280)) started) as [r t'] eqn:E.
    pose proof (proj1 (Reload_outcomes toy_upstream toy_laws _ started r t' started_inv started_faithful E)) as H.
    destruct r as [u|e]; [|by vm_compute in E]. destruct H as (cfg & [= <-] & _ & _ & _ & H & _). by apply H.
Defined.

Lemma session_over_stopped_tunnel_witness :
  ss_world (handle (fun _ _ => conn_sending []) true quiet (client_of x01) stopped Stats_zero) = stopped.
Proof. by apply (session_over_stopped_tunnel toy_upstream). Defined.


Lemma WaitReady_sound_witness :
  rtc (wait_step connected) WLoop (WDone (Ok tt)).
Proof.
  refine (proj2 (proj2 (WaitReady_sound toy_upstream true connected connected 0 WLoop _ _) eq_refl _) _ _).
  - split; [vm_compute; lia|]. intros c Hc.
    assert (a_closed connected = {[1%nat]}) as Hcl by (by vm_compute).
    rewrite Hcl in Hc. apply elem_of_singleton in Hc as ->. vm_compute. lia.
  - done.
  - done.
  - by vm_compute.
  - by vm_compute.
Defined.

(** [WaitReady] returns nil for a stopped tunnel: between the critical section of
    [Stop] and its last store the state still reads Connected, and a waiter whose
    context is done takes that for a handshake. *)
Theorem WaitReady_nil_while_stopped :
  exists (t0 t : AWG world nat string) pc, chan_ok t0 /\ rtc (wait_sys true) (t0, 0%nat, WLoop) (t, 0%nat, pc) /\
    a_running t = false /\ wait_step t pc (WDone (Ok tt)).
Proof.
  pose (e := ESentinel DeadlineExceeded).
  exists connected, (stop_lock (with_ctx e connected)), (WSelect 1). split_and!.
  - split; [vm_compute; lia|]. intros c Hc.
    assert (a_closed connected = {[1%nat]}) as Hcl by (by vm_compute).
    rewrite Hcl in Hc. apply elem_of_singleton in Hc as ->. vm_compute. lia.
  - eapply rtc_l; [apply sys_wait; by apply ws_enter|].
    eapply rtc_l; [apply sys_env, te_world|]. by apply rtc_once, sys_env, te_stop.
  - by vm_compute.
  - apply ws_ctx_connected; [by eexists|by vm_compute].
Qed.

(** Two calls of [Start] that overlap: the second replaces the readiness channel of the
    running tunnel without closing the old one, and a waiter that is at that one stays there
    although the tunnel is ready. *)
Theorem overlapping_Starts_lose_wakeup :
  exists (t : AWG world nat string) ch, chan_ok stopped /\
    rtc (wait_sys false) (stopped, 0%nat, WLoop) (t, 0%nat, WSelect ch) /\
    a_running t = true /\ a_ready t ∈ a_closed t /\ ctx_Err (a_world t) = None /\
    forall pc, ~ wait_step t (WSelect ch) pc.
Proof.
  pose (t1 := start_install 0%nat ["ab"] stopped). pose (t2 := markReady (start_install 1%nat ["ab"] t1)).
  exists t2, 1%nat. split_and!.
  - split; [vm_compute; lia|]. intros c Hc. by vm_compute in Hc.
  - eapply rtc_l; [by apply sys_begin|]. eapply rtc_l; [by apply sys_begin|].
    eapply rtc_l; [apply (sys_install _ 0%nat ["ab"])|]. eapply rtc_l; [apply sys_wait; by apply ws_enter|].
    eapply rtc_l; [apply (sys_install _ 1%nat ["ab"])|]. eapply rtc_l; [apply sys_env, te_mark_ready|]. apply rtc_refl.
  - by vm_compute.
  - by vm_compute.
  - by vm_compute.
  - intros pc Hs. inversion Hs as [| |? Hc| |? e He| | |]; subst.
    + by vm_compute in Hc.
    + match goal with H : is_Some _ |- _ => by destruct H end.
    + by vm_compute in He.
Qed.

(** A lookup whose context is already done reports neither its error nor a cause: the
    error that it wraps is nil. *)
Theorem lookup_drops_context_error :
  (lookupUncached "example.com" (with_ctx (ESentinel DeadlineExceeded) connected)).1
  = Err (EMsg "in-tunnel DNS resolution failed for example.com: %!w(<nil>)").
Proof. by vm_compute. Qed.

Lemma supervise_tick_spec_witness :
  a_state (supervise_tick (supervise_start 0) shaking).2 = StateConnected.
Proof.
  destruct (readStats shaking) as [st|] eqn:Hst; [|by vm_compute in Hst].
  destruct (supervise_tick (supervise_start 0) shaking) as [s' t'] eqn:Ht.
  assert (chan_ok shaking) as Hc.
  { split; [vm_compute; lia|]. intros c Hc. by vm_compute in Hc. }
  pose proof (supervise_tick_spec toy_upstream (supervise_start 0) shaking st s' t'
    eq_refl Hc Hst ltac:(vm_compute; split; congruence) Ht) as Hs.
  assert (healthy (a_now shaking) st = true) as Hh.
  { vm_compute in Hst. injection Hst as <-. by vm_compute. }
  rewrite Hh in Hs. apply Hs.
Defined.
