(* ===== verification/Supervise.v ===== *)
(** The supervisor of the tunnel as a loop: [supervise] of src/internal/awg/tunnel.go, whose
    branches are in AwgTunnel.v.  While there is no live handshake it never gives up, and it
    never floods the peers either. *)

From S2P Require Import Prelude GoErrors SocksProto AwgStats AwgTunnel.

#[local] Set Default Proof Using "Type".

(** ** The locals alone

    What a tick makes of the locals, and whether it triggers a handshake; [live] is whether
    the newest handshake can still carry traffic, if the statistics could be read. *)
Definition sup_next (s : Supervisor) (now : Z) (live : option bool) : Supervisor * bool :=
  match live with
  | None => (s, false)
  | Some true => (MkSup minBackoff (now + handshakeStaleAfter / 2) true, false)
  | Some false =>
      let s := if wasConnected s then MkSup minBackoff now false else s in
      if now <? nextKick s then (s, false)
      else (MkSup (grow_backoff (backoff s)) (now + backoff s) (wasConnected s), true)
  end.

Section Loop.
Context {W Dev Sock Key : Type} `{U : !Upstream W Dev Sock Key}.

Abbreviation AWG := (AWG W Dev Key).

Definition sees_live (t : AWG) : option bool :=
  match readStats t with Ok st => Some (healthy (a_now t) st) | Err _ => None end.

Lemma kick_world (x y : AWG) : a_dev x = a_dev y -> a_keys x = a_keys y -> a_world x = a_world y ->
  a_world (kickHandshake x) = a_world (kickHandshake y).
Proof. unfold kickHandshake. intros -> -> Hw. by destruct (a_dev y); simpl; rewrite Hw. Qed.

Lemma markNotReady_same (t : AWG) : a_dev (markNotReady t) = a_dev t /\ a_keys (markNotReady t) = a_keys t /\
  a_world (markNotReady t) = a_world t /\ a_now (markNotReady t) = a_now t.
Proof. unfold markNotReady. destruct (negb _); [done|]. by destruct (bool_decide _). Qed.

(** A tick does to the locals what [sup_next] says, and the peers are sent a keepalive
    exactly when that says so; nothing else is sent. *)
Lemma supervise_tick_next s (t : AWG) : let '(s', kick) := sup_next s (a_now t) (sees_live t) in
  (supervise_tick s t).1 = s' /\ a_now (supervise_tick s t).2 = a_now t /\
  a_world (supervise_tick s t).2 = if kick : bool then a_world (kickHandshake t) else a_world t.
Proof.
  unfold supervise_tick, sup_next, sees_live. destruct (readStats t) as [st|e]; [|done].
  destruct (healthy (a_now t) st); [done|]. destruct (markNotReady_same t) as (Hd & Hk & Hw & Hn).
  set (t1 := markNotReady t) in *. clearbody t1.
  assert (forall x : AWG, a_now (kickHandshake x) = a_now x) as Hkn by (intros x; unfold kickHandshake; by destruct (a_dev x)).
  destruct (wasConnected s); cbn [nextKick backoff wasConnected].
  - rewrite Z.ltb_irrefl. cbn [fst snd]. rewrite Hkn. split_and!; try done. by apply kick_world.
  - set (x := if bool_decide _ then _ else _).
    assert (a_dev x = a_dev t /\ a_keys x = a_keys t /\ a_world x = a_world t /\ a_now x = a_now t) as (H1 & H2 & H3 & H4).
    { unfold x. by destruct (bool_decide _). }
    clearbody x. destruct (a_now t <? nextKick s); cbn [fst snd]; [done|]. rewrite Hkn. split_and!; try done. by apply kick_world.
Qed.

(** ** The loop

    [v_last] is when the handshake was last triggered or the loop started over, and
    [v_outage] the times, the newest first, at which it was triggered since the last live
    handshake or request. *)
Record supervision := MkSupervision {
  v_sup : Supervisor;
  v_tun : AWG;
  v_ended : bool;
  v_last : Z;
  v_outage : list Z;
}.

#[export] Instance supervision_fields : Fields supervision := fun r =>
  MkSupervision (v_sup r) (v_tun r) (v_ended r) (v_last r) (v_outage r).

Definition supervise_begin (t : AWG) : supervision := MkSupervision (supervise_start (a_now t)) t false (a_now t) [].

(** The branch of the ticker. *)
Definition on_tick (s : supervision) : supervision :=
  let now := a_now (v_tun s) in
  let live := sees_live (v_tun s) in
  let '(sup, t) := supervise_tick (v_sup s) (v_tun s) in
  let s' := s <| v_sup := sup |> <| v_tun := t |> in
  if (sup_next (v_sup s) now live).2
  then s' <| v_last := now |> <| v_outage := now :: v_outage s |>
  else if bool_decide (live = Some true) then s' <| v_outage := [] |> else s'.

(** The branch of a request. *)
Definition on_request (s : supervision) : supervision :=
  let '(sup, t) := supervise_kick (v_tun s) in
  s <| v_sup := sup |> <| v_tun := t |> <| v_last := a_now (v_tun s) |> <| v_outage := [] |>.

(** Everything else may happen to the tunnel in between, and time passes. *)
Inductive vstep : supervision -> supervision -> Prop :=
| vs_other s t : a_now (v_tun s) <= a_now t -> vstep s (s <| v_tun := t |>)
| vs_tick s : v_ended s = false -> vstep s (on_tick s)
| vs_request s : v_ended s = false -> a_kick (v_tun s) = true -> vstep s (on_request s)
| vs_done s : vstep s (s <| v_ended := true |>).

(** ** Pace *)

(** The backoff before the next handshake, after so many. *)
Definition pace (n : nat) : Z := Z.min maxBackoff (2 ^ Z.of_nat n * minBackoff).

Lemma pace_S n : pace (S n) = grow_backoff (pace n).
Proof.
  unfold pace, grow_backoff, maxBackoff, minBackoff, Second. rewrite Nat2Z.inj_succ, Z.pow_succ_r by lia.
  repeat case_match; lia.
Qed.

Lemma pace_0 : pace 0 = minBackoff.
Proof. done. Qed.

Lemma pace_bounds n : minBackoff <= pace n <= maxBackoff.
Proof.
  unfold pace, maxBackoff, minBackoff, Second. assert (1 <= 2 ^ Z.of_nat n) by (apply Z.lt_pred_le, Z.pow_pos_nonneg; lia). lia.
Qed.

(** Each handshake after the first comes its backoff after the one before. *)
Fixpoint paced (l : list Z) : Prop :=
  match l with
  | k1 :: ((k0 :: rest) as l) => k0 + pace (length rest) <= k1 /\ paced l
  | _ => True
  end.

Record sup_inv (s : supervision) : Prop := {
  vi_last : v_last s <= a_now (v_tun s);
  vi_next : wasConnected (v_sup s) = false -> nextKick (v_sup s) <= v_last s + maxBackoff;
  vi_backoff : backoff (v_sup s) = pace (length (v_outage s));
  vi_paced : paced (v_outage s);
  vi_outage : match v_outage s with
    | [] => True
    | k :: l => k = v_last s /\ wasConnected (v_sup s) = false /\ nextKick (v_sup s) = k + pace (length l)
    end;
}.

Lemma sup_inv_begin t : sup_inv (supervise_begin t).
Proof. split; simpl; unfold maxBackoff, minBackoff, Second; done || lia. Qed.

Lemma request_now (t : AWG) : a_now (supervise_kick t).2 = a_now t.
Proof.
  unfold supervise_kick, performReconnect. cbn [snd]. simpl a_dev. destruct (a_dev t) as [d|]; [|done].
  simpl a_running. destruct (negb (a_running t)); [done|]. set (x := _ <| a_state := _ |>).
  assert (a_now x = a_now t) as Hx.
  { unfold x. cbn [set_field a_now]. lazymatch goal with |- context [markNotReady ?y] => destruct (markNotReady_same y) as (_ & _ & _ & Hn) end.
    exact Hn. }
  rewrite <-Hx. clearbody x. unfold kickHandshake.
  assert (a_now (reresolve d (rebind d x)) = a_now x) as Hr.
  { unfold rebind. destruct (BindUpdate d (a_world x)) as [e w]. destruct e; unfold reresolve; simpl;
      (destruct (a_cfg x) as [cfg|]; [|done]); (destruct (negb _); [done|]);
      (destruct (toUAPI cfg w) as [[u|?] w']; [|done]); by destruct (IpcSet d u w') as [[?|] ?]. }
  by destruct (a_dev (reresolve d (rebind d x))).
Qed.

Lemma sup_inv_step s s' : sup_inv s -> vstep s s' -> sup_inv s'.
Proof.
  intros [H1 H2 H3 H4 H5] Hs. destruct Hs as [s t Hle|s He|s He Hk|s].
  - destruct s. simpl in *. split; simpl; try done. lia.
  - unfold on_tick. pose proof (supervise_tick_next (v_sup s) (v_tun s)) as Ht.
    destruct (supervise_tick (v_sup s) (v_tun s)) as [sup t]. destruct s as [sup0 t0 en last out]. simpl in *.
    unfold sup_next in *. destruct (sees_live t0) as [[|]|].
    + destruct Ht as (-> & Hn & _). split; simpl; try done. lia.
    + destruct (wasConnected sup0) eqn:Hw; cbn [nextKick backoff wasConnected] in Ht |- *.
      * rewrite Z.ltb_irrefl in *. destruct Ht as (-> & Hn & _). destruct out as [|k l]; [|by destruct H5 as (_ & ? & _)].
        split; simpl; try done; unfold maxBackoff, minBackoff, Second in *; lia.
      * destruct (Z.ltb_spec (a_now t0) (nextKick sup0)) as [Hlt|Hge]; destruct Ht as (-> & Hn & _).
        -- split; simpl; try done; [lia|intros _; by apply H2|by rewrite Hw].
        -- pose proof (pace_bounds (length out)) as Hp. split; cbn [v_sup v_tun v_last v_outage set_field backoff nextKick wasConnected length].
           ++ simpl. lia.
           ++ intros _. simpl. lia.
           ++ simpl. by rewrite pace_S, H3.
           ++ simpl. destruct out as [|k l]; [done|]. destruct H5 as (-> & _ & Hnk). split; [lia|done].
           ++ simpl. by rewrite H3.
    + destruct Ht as (-> & Hn & _). split; simpl; try done. lia.
  - pose proof (request_now (v_tun s)) as Hn. unfold on_request, supervise_kick in *. destruct s as [sup t en last out].
    cbn [snd v_tun] in *. split; simpl; try done; unfold maxBackoff, minBackoff, Second in *; lia.
  - by destruct s.
Qed.

Lemma sup_inv_run s s' : sup_inv s -> rtc vstep s s' -> sup_inv s'.
Proof. intros Hi Hr. induction Hr as [|s s1 s2 Hs _ IH]; [done|]. by eapply IH, sup_inv_step. Qed.

(** So many handshakes take so long: from the seventh on there is a minute between two. *)
Fixpoint total_pace (n : nat) : Z := match n with O => 0 | S n => pace n + total_pace n end.

Lemma total_pace_slow n : maxBackoff * (Z.of_nat n - 6) <= total_pace n.
Proof.
  induction n as [|n IH]; [unfold maxBackoff, Second; simpl; lia|]. cbn [total_pace].
  destruct (decide (n < 6)%nat) as [Hn|Hn].
  - pose proof (pace_bounds n) as Hp. assert (0 <= total_pace n) as H0.
    { clear. induction n as [|n IH]; [done|]. pose proof (pace_bounds n). unfold minBackoff, Second in *. simpl. lia. }
    unfold maxBackoff, minBackoff, Second in *. lia.
  - assert (pace n = maxBackoff) as ->; [|lia]. unfold pace. apply Z.min_l.
    assert (2 ^ 6 <= 2 ^ Z.of_nat n) by (apply Z.pow_le_mono_r; lia). unfold maxBackoff, minBackoff, Second in *. lia.
Qed.

Lemma paced_total k l : paced (k :: l) -> default k (last l) + total_pace (length l) <= k.
Proof.
  revert k. induction l as [|k0 l IH]; intros k Hp; [simpl; lia|]. destruct Hp as [H1 H2].
  specialize (IH k0 H2). cbn [length total_pace].
  assert (default k (last (k0 :: l)) = default k0 (last l)) as -> by (destruct l as [|x l]; [done|]; rewrite !last_cons; by destruct (last l)).
  lia.
Qed.

Lemma paced_length k l : paced (k :: l) -> Z.of_nat (length l) <= 6 + (k - default k (last l)) / maxBackoff.
Proof.
  intros Hp%paced_total. pose proof (total_pace_slow (length l)) as Ht.
  assert (Z.of_nat (length l) - 6 <= (k - default k (last l)) / maxBackoff); [|lia].
  apply Z.div_le_lower_bound; [done|lia].
Qed.

(** C29: the supervisor, in every interleaving with whatever else happens to the tunnel.  It
    never gives up: when the statistics show no live handshake, and the last attempt is a
    minute ago or the tunnel was connected until now, the tick sends a keepalive to every
    peer.  It does not flood them: during an outage the gaps between two attempts double
    from one second to a minute, so that an outage of so many minutes sees at most seven
    attempts more; and a tick sends nothing else. *)
Theorem supervise_paced t0 s : rtc vstep (supervise_begin t0) s ->
  (v_ended s = false -> sees_live (v_tun s) = Some false ->
     v_last s + maxBackoff <= a_now (v_tun s) \/ wasConnected (v_sup s) = true ->
     vstep s (on_tick s) /\ a_world (v_tun (on_tick s)) = a_world (kickHandshake (v_tun s)) /\ v_last (on_tick s) = a_now (v_tun s)) /\
  paced (v_outage s) /\
  (forall k l, v_outage s = k :: l -> Z.of_nat (length (v_outage s)) <= 7 + (k - default k (last l)) / maxBackoff) /\
  (a_world (v_tun (on_tick s)) = a_world (v_tun s) \/ v_outage (on_tick s) = a_now (v_tun s) :: v_outage s).
Proof.
  intros Hr. assert (sup_inv s) as [H1 H2 H3 H4 H5] by (eapply sup_inv_run; [apply sup_inv_begin|done]).
  pose proof (supervise_tick_next (v_sup s) (v_tun s)) as Ht. split_and!; [|done| |].
  - intros He Hl Hdue. split; [by apply vs_tick|]. unfold on_tick. rewrite Hl in Ht |- *.
    assert (sup_next (v_sup s) (a_now (v_tun s)) (Some false) = ((sup_next (v_sup s) (a_now (v_tun s)) (Some false)).1, true)) as Hnext.
    { unfold sup_next. destruct (wasConnected (v_sup s)) eqn:Hw; cbn [nextKick]; [by rewrite Z.ltb_irrefl|].
      destruct Hdue as [Hdue|]; [|done]. specialize (H2 eq_refl). by destruct (Z.ltb_spec (a_now (v_tun s)) (nextKick (v_sup s))); [lia|]. }
    rewrite Hnext in Ht |- *. destruct (supervise_tick (v_sup s) (v_tun s)) as [sup t]. destruct Ht as (_ & _ & Hw).
    destruct s. by split.
  - intros k l Hout. rewrite Hout in *. pose proof (paced_length k l H4). cbn [length]. lia.
  - unfold on_tick. destruct (sup_next (v_sup s) (a_now (v_tun s)) (sees_live (v_tun s))) as [sup' kick].
    destruct (supervise_tick (v_sup s) (v_tun s)) as [sup t]. destruct Ht as (_ & _ & Hw). destruct s. cbn [snd].
    destruct kick; [by right|left]. by destruct (bool_decide _).
Qed.
End Loop.

Import ToyDevice.

(** A minute without a handshake: the tick sends a keepalive to the peer. *)
Lemma supervise_paced_witness :
  let s0 := supervise_begin started in
  let s := s0 <| v_tun := started <| a_now := 62 * Second |> |> in
  a_world (v_tun (on_tick s)) = a_world (kickHandshake (v_tun s)) /\
  keepalives (a_world (v_tun (on_tick s))) = S (keepalives (a_world (v_tun s))).
Proof.
  intros s0 s. assert (rtc vstep s0 s) as Hr.
  { apply rtc_once. apply (vs_other s0 (started <| a_now := 62 * Second |>)). by vm_compute. }
  destruct (supervise_paced started s Hr) as [Hk _].
  destruct Hk as (_ & Hw & _); [done|by vm_compute|left; by vm_compute|].
  split; [exact Hw|by vm_compute].
Defined.
