(* ===== verification/BatchTun.v ===== *)
(** The packet handoff of src/internal/awg/netstack.go: the reader goroutine that reads
    ahead of the device, the bounded queue, and the batched [Read] that the device calls;
    and the choice of the UDP bind, src/internal/awg/bind.go.

    The buffers are numbered and keep their contents, so that a buffer used in two
    places would show; the reader, the device's reader and [Close] are three threads whose
    steps are the channel operations and the copies.  The wrapped device is the
    environment: what its [Read] gives is any packet or error. *)

From S2P Require Import Prelude GoStrings.

(** ** bind.go *)

Inductive BindMode := BindStd | BindRIO.

#[global] Instance BindMode_eq_dec : EqDecision BindMode.
Proof. solve_decision. Defined.

Definition BindMode_name (m : BindMode) : string := match m with BindStd => "std" | BindRIO => "rio" end.

Definition ParseBindMode (s : string) : option BindMode :=
  let s := ToLower (TrimSpace s) in
  if bool_decide (s = "") || bool_decide (s = BindMode_name BindStd) then Some BindStd
  else if bool_decide (s = BindMode_name BindRIO) then Some BindRIO else None.

Definition bindDescription (m : BindMode) : string :=
  if bool_decide (m = BindRIO) then "rio (Windows Registered I/O, conn.NewWinRingBind)"
  else "std (conn.NewStdNetBind)".

(** ** State *)

Abbreviation packet := (list byte).

(** The modes, by name, and the batch size and queue depth each asks for. *)
Definition netstackBatchSize : nat := 128.

Definition wrapNetstackTUN (mode : string) : option (nat * nat) :=
  if bool_decide (mode = "buffered") then Some (1, 256)%nat
  else if bool_decide (mode = "batched") then Some (netstackBatchSize, netstackBatchSize)
  else if bool_decide (mode = "batched-buffered") then Some (netstackBatchSize, 512%nat)
  else None.

(** What [inner.Read] gives: a packet or nothing, and an error or none. *)
Record inner_result := MkInner { in_packet : option packet; in_err : option string }.

(** The reader goroutine: waiting for a free buffer; in [inner.Read]; with a filled
    buffer, or an empty one, and the error of the read; after its send; gone. *)
Inductive reader_pc :=
| RSelect
| RRead (p : nat)
| RPut (p : nat) (e : option string)
| RFree (p : nat) (e : option string)
| RAfter (e : option string)
| RDone.

(** The device's reader, in a [Read] with buffers of given lengths beyond the offset:
    taking the packet number [n]; copying it; returning its buffer, the copy having
    failed or not; and what [Read] has returned. *)
Inductive device_pc :=
| DIdle
| DTake (caps : list nat) (limit n : nat)
| DCopy (caps : list nat) (limit n p : nat)
| DRelease (caps : list nat) (limit n p : nat) (failed : bool)
| DReturned (limit n : nat) (e : option string).

Record BatchTun := MkBatchTun {
  b_batch : nat;
  b_depth : nat;
  b_store : gmap nat packet;
  b_free : list nat;
  b_queue : list nat;
  b_qclosed : bool;
  b_readErr : option string;
  b_done : bool;
  b_reader : reader_pc;
  b_device : device_pc;
  b_in : list packet;
  b_out : list (packet * bool);
  b_lost : list packet;
}.

#[export] Instance BatchTun_fields : Fields BatchTun := fun r =>
  MkBatchTun (b_batch r) (b_depth r) (b_store r) (b_free r) (b_queue r) (b_qclosed r) (b_readErr r)
    (b_done r) (b_reader r) (b_device r) (b_in r) (b_out r) (b_lost r).

(** [newBatchTun]. *)
Definition newBatchTun (batch depth : nat) : BatchTun :=
  let batch := if (batch <? 1)%nat then 1%nat else batch in
  let depth := if (depth <? batch)%nat then batch else depth in
  MkBatchTun batch depth ∅ (seq 0 depth) [] false None false RSelect DIdle [] [] [].

(** ** Steps *)

Definition contents (s : BatchTun) (p : nat) : packet := default [] (b_store s !! p).

(** [readLoop] after [inner.Read] has filled its buffer. *)
Definition reader_got (p : nat) (r : inner_result) (s : BatchTun) : BatchTun :=
  match in_packet r with
  | Some pkt =>
      if bool_decide (pkt = []) then s <| b_reader := RFree p (in_err r) |>
      else s <| b_store ::= <[p := pkt]> |> <| b_in ::= (fun l => l ++ [pkt]) |> <| b_reader := RPut p (in_err r) |>
  | None => s <| b_reader := RFree p (in_err r) |>
  end.

(** What [Read] does first, and what it does when the queue has nothing. *)
Definition Read_begin (caps : list nat) (sizes : nat) (s : BatchTun) : BatchTun :=
  let limit := Nat.min (Nat.min (length caps) sizes) (b_batch s) in
  if (limit <? 1)%nat then s <| b_device := DReturned 0 0 None |> else s <| b_device := DTake caps limit 0 |>.

Definition readError (s : BatchTun) : string := default "file already closed" (b_readErr s).

(** The copy of [deliver]. *)
Definition deliver_copy (caps : list nat) (limit n p : nat) (s : BatchTun) : BatchTun :=
  let pkt := contents s p in
  let failed := (default 0%nat (caps !! n) <? length pkt)%nat in
  s <| b_out ::= (fun l => l ++ [(pkt, negb failed)]) |> <| b_device := DRelease caps limit n p failed |>.

Definition deliver_error : string := "the packet does not fit the device buffer".

Definition after_deliver (caps : list nat) (limit n : nat) (failed : bool) : device_pc :=
  if failed then DReturned limit n (Some deliver_error)
  else if (S n <? limit)%nat then DTake caps limit (S n) else DReturned limit (S n) None.

Inductive bstep : BatchTun -> BatchTun -> Prop :=
| b_take_free p rest s :
    b_reader s = RSelect -> b_free s = p :: rest ->
    bstep s (s <| b_free := rest |> <| b_reader := RRead p |>)
| b_take_done s :
    b_reader s = RSelect -> b_done s = true ->
    bstep s (s <| b_reader := RDone |> <| b_qclosed := true |>)
| b_inner_read p r s : b_reader s = RRead p -> bstep s (reader_got p r s)
| b_put p e s :
    b_reader s = RPut p e -> (length (b_queue s) < b_depth s)%nat ->
    bstep s (s <| b_queue ::= (fun q => q ++ [p]) |> <| b_reader := RAfter e |>)
| b_put_done p e s :
    b_reader s = RPut p e -> b_done s = true ->
    bstep s (s <| b_reader := RDone |> <| b_qclosed := true |> <| b_lost := [contents s p] |>)
| b_put_back p e s :
    b_reader s = RFree p e -> (length (b_free s) < b_depth s)%nat ->
    bstep s (s <| b_free ::= (fun q => q ++ [p]) |> <| b_reader := RAfter e |>)
| b_again s : b_reader s = RAfter None -> bstep s (s <| b_reader := RSelect |>)
| b_fail e s :
    b_reader s = RAfter (Some e) ->
    bstep s (s <| b_readErr := Some e |> <| b_reader := RDone |> <| b_qclosed := true |>)
| b_read caps sizes s :
    (b_device s = DIdle \/ exists l n e, b_device s = DReturned l n e) ->
    bstep s (Read_begin caps sizes s)
| b_receive caps limit n p rest s :
    b_device s = DTake caps limit n -> b_queue s = p :: rest ->
    bstep s (s <| b_queue := rest |> <| b_device := DCopy caps limit n p |>)
| b_none caps limit n s :
    b_device s = DTake caps limit (S n) -> b_queue s = [] ->
    bstep s (s <| b_device := DReturned limit (S n) None |>)
| b_closed caps limit s :
    b_device s = DTake caps limit 0 -> b_queue s = [] -> b_qclosed s = true ->
    bstep s (s <| b_device := DReturned limit 0 (Some (readError s)) |>)
| b_copy caps limit n p s :
    b_device s = DCopy caps limit n p -> bstep s (deliver_copy caps limit n p s)
| b_release caps limit n p failed s :
    b_device s = DRelease caps limit n p failed -> (length (b_free s) < b_depth s)%nat ->
    bstep s (s <| b_free ::= (fun q => q ++ [p]) |> <| b_device := after_deliver caps limit n failed |>)
| b_close s : bstep s (s <| b_done := true |>).

(** ** Invariant *)

Definition reader_held (r : reader_pc) : list nat :=
  match r with RRead p | RPut p _ | RFree p _ => [p] | _ => [] end.

Definition device_held (d : device_pc) : list nat :=
  match d with DCopy _ _ _ p | DRelease _ _ _ p _ => [p] | _ => [] end.

(** The buffers in use: every one is in exactly one place. *)
Definition buffers (s : BatchTun) : list nat :=
  b_free s ++ b_queue s ++ reader_held (b_reader s) ++ device_held (b_device s).

(** The packets that have been read and not yet copied, in order. *)
Definition in_flight (s : BatchTun) : list packet :=
  match b_device s with DCopy _ _ _ p => [contents s p] | _ => [] end ++
  (contents s <$> b_queue s) ++
  match b_reader s with RPut p _ => [contents s p] | _ => [] end.

Record batch_inv (s : BatchTun) : Prop := {
  bi_sizes : (1 <= b_batch s <= b_depth s)%nat;
  bi_nodup : NoDup (buffers s);
  bi_count : b_lost s = [] -> length (buffers s) = b_depth s;
  bi_bound : (length (buffers s) <= b_depth s)%nat;
  bi_fifo : b_in s = (b_out s).*1 ++ in_flight s ++ b_lost s;
  bi_lost : b_lost s <> [] -> b_done s = true /\ b_reader s = RDone;
  bi_closed : b_qclosed s = true <-> b_reader s = RDone;
  bi_done : b_reader s = RDone -> b_done s = true \/ is_Some (b_readErr s);
  bi_device : match b_device s with
    | DTake _ limit n => (n < limit <= b_batch s)%nat
    | DCopy _ limit n _ | DRelease _ limit n _ _ => (n < limit <= b_batch s)%nat
    | DReturned limit n e => (n <= limit)%nat /\ (n = 0%nat -> limit = 0%nat \/ is_Some e)
    | DIdle => True
    end;
}.

(** The fields of a state that is given. *)
Ltac bt := simpl in *; unfold buffers, in_flight in *; simpl in *.

Lemma contents_other s q p pkt :
  q <> p -> default [] (<[p := pkt]> (b_store s) !! q) = contents s q.
Proof. intros Hne. unfold contents. by rewrite lookup_insert_ne. Qed.

Lemma contents_fmap_other s (l : list nat) p pkt :
  p ∉ l -> (fun q => default [] (<[p := pkt]> (b_store s) !! q)) <$> l = contents s <$> l.
Proof.
  intros Hp. apply list_fmap_ext. intros i q Hq. apply contents_other. intros ->.
  by apply Hp; eapply list_elem_of_lookup_2.
Qed.

Lemma newBatchTun_inv batch depth : batch_inv (newBatchTun batch depth).
Proof.
  unfold newBatchTun. set (batch' := if (batch <? 1)%nat then 1%nat else batch).
  set (depth' := if (depth <? batch')%nat then batch' else depth).
  assert (1 <= batch' <= depth')%nat as Hs.
  { unfold depth', batch'. destruct (Nat.ltb_spec batch 1); case_match eqn:Hd; try apply Nat.ltb_ge in Hd; lia. }
  clearbody batch' depth'. constructor; bt; rewrite ?app_nil_r, ?length_seq; try done. apply NoDup_seq.
Qed.

(** The place of each thread before a step. *)
Ltac places :=
  try match goal with H : _ \/ (exists _ _ _, _) |- _ => destruct H as [H|(? & ? & ? & H)] end;
  repeat match goal with
  | H : b_reader _ = _ |- _ => rewrite H in *; clear H
  | H : b_device _ = _ |- _ => rewrite H in *; clear H
  | H : b_free _ = _ |- _ => rewrite H in *; clear H
  | H : b_queue _ = _ |- _ => rewrite H in *; clear H
  end; simpl in *.

(** A buffer moves from one place to another, or is lost. *)
Lemma bstep_buffers s s' :
  bstep s s' -> buffers s' ≡ₚ buffers s \/ exists p, buffers s ≡ₚ p :: buffers s' /\ b_lost s' <> [].
Proof.
  intros Hst. destruct Hst; unfold buffers; simpl;
    unfold reader_got, Read_begin, deliver_copy, after_deliver; repeat case_match; simpl; places;
    try (left; solve_Permutation).
  right. exists p. split; [solve_Permutation|done].
Qed.

Lemma none_lost s : batch_inv s -> b_reader s <> RDone -> b_lost s = [].
Proof. intros HI Hr. destruct (b_lost s) eqn:Hl; [done|]. destruct (bi_lost s HI); [congruence|done]. Qed.

Lemma bstep_fifo s s' : bstep s s' -> batch_inv s -> b_in s' = (b_out s').*1 ++ in_flight s' ++ b_lost s'.
Proof.
  intros Hst HI. pose proof (bi_fifo s HI) as Hff. pose proof (none_lost s HI) as Hl.
  pose proof (bi_nodup s HI) as Hnd. clear HI. unfold buffers, in_flight, contents in *.
  destruct Hst; simpl; unfold reader_got, Read_begin, deliver_copy, after_deliver; places;
    try rewrite Hl in Hff by done; try rewrite Hl by done; rewrite ?app_nil_r in *; simpl in *; try done.
  - specialize (Hl ltac:(done)). destruct (in_packet r) as [pkt|]; [|simpl; by rewrite Hl, !app_nil_r].
    destruct (bool_decide (pkt = [])); simpl; [by rewrite Hl, !app_nil_r|].
    apply NoDup_app in Hnd as (_ & _ & Hnd). apply NoDup_app in Hnd as (_ & Hq & Hnd).
    apply NoDup_cons in Hnd as [Hd _].
    rewrite Hff, ?Hl, lookup_insert_eq, contents_fmap_other, ?app_nil_r, <-!app_assoc
      by (intros Hin; apply (Hq p Hin); by left).
    destruct (b_device s); simpl in *; try done. by rewrite contents_other by set_solver.
  - by rewrite fmap_app, Hff, <-?app_assoc.
  - by rewrite Hff, <-?app_assoc.
  - by destruct (_ <? 1)%nat; simpl; rewrite Hff, <-?app_assoc.
  - by destruct (_ <? 1)%nat; simpl; rewrite Hff, <-?app_assoc.
  - by rewrite fmap_app, Hff, <-!app_assoc.
  - by destruct failed, (S n <? limit)%nat.
Qed.


(** The bounds, the states of the threads, and what a closed queue says. *)
Lemma bstep_rest s s' :
  bstep s s' -> batch_inv s ->
  (b_batch s' = b_batch s /\ b_depth s' = b_depth s) /\
  (b_lost s' <> [] -> b_done s' = true /\ b_reader s' = RDone) /\
  (b_qclosed s' = true <-> b_reader s' = RDone) /\
  (b_reader s' = RDone -> b_done s' = true \/ is_Some (b_readErr s')) /\
  match b_device s' with
  | DTake _ limit n | DCopy _ limit n _ | DRelease _ limit n _ _ => (n < limit <= b_batch s')%nat
  | DReturned limit n e => (n <= limit)%nat /\ (n = 0%nat -> limit = 0%nat \/ is_Some e)
  | DIdle => True
  end.
Proof.
  intros Hst [Hsz _ _ _ _ Hlo Hcl Hdn Hdv].
  assert (b_reader s <> RDone -> b_qclosed s = false /\ b_lost s = []) as Hr.
  { intros Hne. split; [by destruct (b_qclosed s); [destruct Hne; apply Hcl|]|].
    destruct (b_lost s); [done|]. by destruct Hne, Hlo. }
  destruct Hst; simpl; unfold reader_got, Read_begin, deliver_copy, after_deliver;
    repeat match goal with |- context [match in_packet ?r with _ => _ end] => destruct (in_packet r)
      | |- context [bool_decide ?P] => destruct (bool_decide P)
      | |- context [if ?b then _ else _] => destruct b eqn:? end; simpl; places;
    try (destruct Hr as [Hr1 Hr2]; [done|]; rewrite ?Hr1, ?Hr2 in * ); simpl.
  all: (split; [done|]); split_and!; try done; try tauto; try (by intros []); eauto.
  all: repeat match goal with H : (_ <? _)%nat = true |- _ => apply Nat.ltb_lt in H
    | H : (_ <? _)%nat = false |- _ => apply Nat.ltb_ge in H end; lia.
Qed.

Lemma bstep_inv s s' : bstep s s' -> batch_inv s -> batch_inv s'.
Proof.
  intros Hst HI. destruct (bstep_rest _ _ Hst HI) as ((Hb & Hd) & Hlo & Hcl & Hdn & Hdv).
  pose proof (bstep_buffers _ _ Hst) as Hbuf. pose proof HI as [Hsz Hnd Hct Hbd _ Hlo0 _ _ _].
  assert (b_lost s' = [] -> b_lost s = []) as Hl by (clear -Hst; destruct Hst; simpl; try done;
    unfold reader_got, Read_begin, deliver_copy; repeat case_match; done).
  constructor; rewrite ?Hb, ?Hd; try done.
  - destruct Hbuf as [Hp|(p & Hp & _)]; [by rewrite Hp|]. rewrite Hp in Hnd. by apply NoDup_cons in Hnd as [_ ?].
  - intros Hl'. destruct Hbuf as [Hp|(p & Hp & Hn)]; [rewrite Hp; auto|done].
  - destruct Hbuf as [Hp|(p & Hp & _)]; [by rewrite Hp|]. rewrite Hp in Hbd. simpl in Hbd. lia.
  - by apply (bstep_fifo s).
  - by rewrite Hb in Hdv.
Qed.

Lemma reach_batch_inv batch depth s : rtc bstep (newBatchTun batch depth) s -> batch_inv s.
Proof.
  intros Hr. pose proof (newBatchTun_inv batch depth) as HI.
  induction Hr as [|x y z H1 _ IH]; [done|]. apply IH. by eapply bstep_inv.
Qed.

(** ** Theorems *)

(** C34: the handoff keeps every packet, in order: at any moment what has been read from the
    wrapped device is what has been handed to the device (a packet longer than the buffer
    it offers being refused with an error), then the packet being copied,
    then the queue, then what the reader holds; only a packet that the reader holds when
    [Close] is called can be lost, and it is the last.  No buffer is in two places, so
    none is refilled before it is copied. *)
Theorem handoff_in_order batch depth s :
  rtc bstep (newBatchTun batch depth) s ->
  b_in s = (b_out s).*1 ++ in_flight s ++ b_lost s /\
  (b_lost s <> [] -> b_done s = true /\ b_reader s = RDone) /\
  NoDup (buffers s).
Proof. intros Hr. destruct (reach_batch_inv _ _ _ Hr). done. Qed.

(** A [Read] of the device gives between one packet and its limit, or an error; no
    channel send of the handoff ever blocks, since both channels have room for every
    buffer; and the device never waits for a packet while the reader waits for a buffer,
    so the two cannot stop each other. *)
Theorem handoff_never_stuck batch depth s :
  rtc bstep (newBatchTun batch depth) s ->
  (forall limit n e, b_device s = DReturned limit n e ->
     (n <= limit)%nat /\ (n = 0%nat -> limit = 0%nat \/ is_Some e)) /\
  (forall p e, b_reader s = RPut p e -> (length (b_queue s) < b_depth s)%nat) /\
  (forall p e, b_reader s = RFree p e -> (length (b_free s) < b_depth s)%nat) /\
  (forall caps limit n p failed, b_device s = DRelease caps limit n p failed ->
     (length (b_free s) < b_depth s)%nat) /\
  (forall caps limit, b_device s = DTake caps limit 0 -> b_queue s = [] -> b_qclosed s = false ->
     b_reader s = RSelect -> b_free s <> []).
Proof.
  intros Hr. destruct (reach_batch_inv _ _ _ Hr) as [Hsz Hnd Hct Hbd _ Hlo Hcl _ Hdv].
  unfold buffers in *. split_and!.
  - intros limit n e Hd. by rewrite Hd in Hdv.
  - intros p e Hp. rewrite Hp in Hbd. rewrite !length_app in Hbd. simpl in Hbd. lia.
  - intros p e Hp. rewrite Hp in Hbd. rewrite !length_app in Hbd. simpl in Hbd. lia.
  - intros caps limit n p failed Hp. rewrite Hp in Hbd. rewrite !length_app in Hbd. simpl in Hbd. lia.
  - intros caps limit Hd Hq Hc Hrd Hf. rewrite Hd, Hq, Hrd, Hf in Hct. simpl in Hct.
    destruct (b_lost s) eqn:Hl; [specialize (Hct eq_refl); lia|]. destruct Hlo as [_ ?]; [done|congruence].
Qed.

Definition one_packet : packet := [x01; x02].

(** A packet read, queued, taken and copied. *)
Definition handoff_run : BatchTun :=
  MkBatchTun 1 2 {[0%nat := one_packet]} [1%nat; 0%nat] [] false None false (RAfter None) (DReturned 1 1 None)
    [one_packet] [(one_packet, true)] [].

Lemma handoff_run_reach : rtc bstep (newBatchTun 1 2) handoff_run.
Proof.
  eapply rtc_l; [by eapply b_take_free|]. eapply rtc_l; [by apply (b_inner_read 0 (MkInner (Some one_packet) None))|].
  eapply rtc_l; [eapply b_put; [done|simpl; lia]|].
  eapply rtc_l; [apply (b_read [1500%nat] 1); by left|]. eapply rtc_l; [by eapply b_receive|].
  eapply rtc_l; [by eapply b_copy|]. eapply rtc_l; [eapply b_release; [done|simpl; lia]|]. apply rtc_refl.
Qed.

Lemma handoff_in_order_witness :
  b_in handoff_run = (b_out handoff_run).*1 ++ in_flight handoff_run ++ b_lost handoff_run /\
  (b_lost handoff_run <> [] -> b_done handoff_run = true /\ b_reader handoff_run = RDone) /\
  NoDup (buffers handoff_run).
Proof. exact (handoff_in_order 1 2 handoff_run handoff_run_reach). Defined.

Lemma handoff_never_stuck_witness :
  (forall limit n e, b_device handoff_run = DReturned limit n e ->
     (n <= limit)%nat /\ (n = 0%nat -> limit = 0%nat \/ is_Some e)) /\
  (forall p e, b_reader handoff_run = RPut p e -> (length (b_queue handoff_run) < b_depth handoff_run)%nat) /\
  (forall p e, b_reader handoff_run = RFree p e -> (length (b_free handoff_run) < b_depth handoff_run)%nat) /\
  (forall caps limit n p failed, b_device handoff_run = DRelease caps limit n p failed ->
     (length (b_free handoff_run) < b_depth handoff_run)%nat) /\
  (forall caps limit, b_device handoff_run = DTake caps limit 0 -> b_queue handoff_run = [] ->
     b_qclosed handoff_run = false -> b_reader handoff_run = RSelect -> b_free handoff_run <> []).
Proof. exact (handoff_never_stuck 1 2 handoff_run handoff_run_reach). Defined.

(** Only the names of the experimental modes change the production path. *)
Lemma wrapNetstackTUN_default mode :
  wrapNetstackTUN mode <> None -> mode ∈ ["buffered"; "batched"; "batched-buffered"].
Proof. unfold wrapNetstackTUN. repeat case_bool_decide; set_solver. Qed.

Lemma ParseBindMode_name m : ParseBindMode (BindMode_name m) = Some m.
Proof. by destruct m. Qed.
