(* ===== verification/Redact.v ===== *)
(** The secret scan of the log: src/internal/logging/redact.go.

    The three regular expressions are matchers: at a place in the text, the length of
    the match that Go's leftmost-first search finds there, if any.  The text is the
    list of its bytes, which for these expressions reads the same as its runes: \b and
    \s are ASCII in Go, \S is any other rune, and the two code points outside ASCII
    that (?i) folds to a letter of a label are matched by their bytes. *)

From S2P Require Import Prelude GoStrings.

Definition chars (s : string) : list ascii := String.list_ascii_of_string s.

Definition text (l : list ascii) : string := String.string_of_list_ascii l.

Definition redacted : list ascii := chars "[REDACTED]".

(** ** Classes of characters *)

Definition is_word (c : ascii) : bool := is_digit c || is_upper c || is_lower c || bool_decide (c = "_"%char).

Definition is_hex (c : ascii) : bool :=
  is_digit c || ((97 <=? code c) && (code c <=? 102)) || ((65 <=? code c) && (code c <=? 70)).

Definition is_b64 (c : ascii) : bool :=
  is_digit c || is_upper c || is_lower c || in_chars c "+/".

(** \s: unlike [unicode.IsSpace], without the vertical tab. *)
Definition is_re_space (c : ascii) : bool :=
  (code c =? 9) || (code c =? 10) || (code c =? 12) || (code c =? 13) || (code c =? 32).

Definition word_at (o : option ascii) : bool := match o with Some c => is_word c | None => false end.

(** \b between what comes before and the text. *)
Definition boundary (prev : option ascii) (s : list ascii) : bool := xorb (word_at prev) (word_at (head s)).

(** ** The matchers *)

Definition matcher := option ascii -> list ascii -> option nat.

(** \b[0-9a-fA-F]{64}\b *)
Definition reHexKey : matcher := fun prev s =>
  if boundary prev s && (64 <=? length s)%nat && forallb is_hex (take 64 s) && boundary (last (take 64 s)) (drop 64 s)
  then Some 64%nat else None.

(** \b[A-Za-z0-9+/]{43}= *)
Definition reBase64Key : matcher := fun prev s =>
  if boundary prev s && (43 <=? length s)%nat && forallb is_b64 (take 43 s) &&
     bool_decide (head (drop 43 s) = Some "="%char)
  then Some 44%nat else None.

(** A label of (?i)(private[_ ]?key|...): its letters, and the places of [_ ]?. *)
Inductive label_item := Lit (c : ascii) | OptSep.

(** A letter under (?i): either case, U+212A for a k and U+017F for an s. *)
Definition match_letter (c : ascii) (s : list ascii) : option (list ascii) :=
  match s with
  | d :: r =>
      if bool_decide (lower_char d = c) then Some r
      else if bool_decide (c = "k"%char) && bool_decide (take 3 s = chr <$> [226; 132; 170]) then Some (drop 3 s)
      else if bool_decide (c = "s"%char) && bool_decide (take 2 s = chr <$> [197; 191]) then Some (drop 2 s)
      else None
  | [] => None
  end.

(** What is left after a label.  A separator is taken when there is one: no label goes
    on with it otherwise. *)
Fixpoint match_label (l : list label_item) (s : list ascii) : option (list ascii) :=
  match l with
  | [] => Some s
  | Lit c :: l' => r ← match_letter c s; match_label l' r
  | OptSep :: l' =>
      match s with
      | d :: r => if in_chars d "_ " then match_label l' r else match_label l' s
      | [] => match_label l' s
      end
  end.

Definition lits (s : string) : list label_item := Lit <$> chars s.

Definition labels : list (list label_item) :=
  [ lits "private" ++ OptSep :: lits "key"; lits "preshared" ++ OptSep :: lits "key";
    lits "header" ++ OptSep :: lits "protection" ++ OptSep :: lits "key";
    lits "privatekey"; lits "presharedkey"; lits "headerprotectionkey" ].

Fixpoint skip_while (p : ascii -> bool) (s : list ascii) : list ascii :=
  match s with
  | c :: r => if p c then skip_while p r else s
  | [] => []
  end.

(** \s*[=:]\s*\S+ after a label: what is left.  The classes are disjoint, so nothing is
    ever given back. *)
Definition match_value (s : list ascii) : option (list ascii) :=
  match skip_while is_re_space s with
  | c :: r =>
      if in_chars c "=:" then
        match skip_while is_re_space r with
        | [] => None
        | v => Some (skip_while (fun c => negb (is_re_space c)) v)
        end
      else None
  | [] => None
  end.

Definition reSecretAssign : matcher := fun prev s =>
  if boundary prev s then
    (fun rest => (length s - length rest)%nat) <$> head (omap (fun l => match_label l s ≫= match_value) labels)
  else None.

(** ** Replacing *)

(** [ReplaceAllStringFunc]: the text that is left of it at a place, with the character
    before; every round consumes a character, so the length of the text is fuel
    enough. *)
Fixpoint replace_all (m : matcher) (f : list ascii -> list ascii) (fuel : nat) (prev : option ascii)
    (s : list ascii) : list ascii :=
  match fuel with
  | O => s
  | S fuel =>
      match m prev s with
      | Some n => f (take n s) ++ replace_all m f fuel (last (take n s)) (drop n s)
      | None =>
          match s with
          | [] => []
          | c :: r => c :: replace_all m f fuel (Some c) r
          end
      end
  end.

Definition ReplaceAll (m : matcher) (f : list ascii -> list ascii) (s : list ascii) : list ascii :=
  replace_all m f (length s) None s.

(** [m[:i+1] + redacted], for the index [i] of the first separator. *)
Fixpoint to_separator (m : list ascii) : option (list ascii) :=
  match m with
  | [] => None
  | c :: r => if in_chars c "=:" then Some [c] else (cons c) <$> to_separator r
  end.

Definition redact_assign (m : list ascii) : list ascii :=
  match to_separator m with None => redacted | Some p => p ++ redacted end.

(** The two expressions for keys, after the one for labelled values. *)
Definition redact_keys (l : list ascii) : string :=
  text (ReplaceAll reBase64Key (fun _ => redacted) (ReplaceAll reHexKey (fun _ => redacted) l)).

Definition Redact (s : string) : string :=
  if bool_decide (s = "") then s else redact_keys (ReplaceAll reSecretAssign redact_assign (chars s)).

(** [RedactUAPI]. *)
Definition redact_line (line : string) : string :=
  match Cut "=" line with
  | Some (key, _) =>
      if bool_decide (ToLower (TrimSpace key) ∈ ["private_key"; "preshared_key"; "header_protection_key"])
      then key +:+ "=" +:+ "[REDACTED]" else line
  | None => line
  end.

Definition RedactUAPI (uapi : string) : string :=
  TrimRightChars (String.concat "" ((fun l => redact_line l +:+ String nl "") <$> Split nl uapi)) (String nl "").

Example redact_label :
  Redact "Private Key : yAnz5TF+lXXJte14tji3zlMNq+hd2rYUIgJBgB3fBmk= end" = "Private Key :[REDACTED] end".
Proof. by vm_compute. Qed.

Example redact_base64 :
  Redact "got xAnz5TF+lXXJte14tji3zlMNq+hd2rYUIgJBgB3fBmk=!" = "got [REDACTED]!".
Proof. by vm_compute. Qed.

(** ** What is left of a text *)

(** An occurrence of a pattern in a text, with what comes before it. *)
Definition before (prev : option ascii) (pre : list ascii) : option ascii :=
  match last pre with Some c => Some c | None => prev end.

(** A pattern: what it matches, and whether a boundary has to follow. *)
Record pattern := MkPattern {
  pat : list ascii -> Prop;
  closed : bool;
  pat_long k : pat k -> (10 <= length k)%nat;
  pat_plain k c : pat k -> c ∈ k -> c <> "["%char /\ c <> "]"%char;
}.

Definition occurs (P : pattern) (prev : option ascii) (s pre k post : list ascii) : Prop :=
  s = pre ++ k ++ post /\ pat P k /\ boundary (before prev pre) (k ++ post) = true /\
  (closed P = true -> boundary (last k) post = true).

Lemma pat_nil (P : pattern) : ~ pat P [].
Proof. intros Hk. pose proof (pat_long P _ Hk) as Hl. simpl in Hl. lia. Qed.

Section Replace.
#[local] Set Default Proof Using "Type*".
Context (P : pattern) (m : matcher).

(** What the matchers of keys have in common: a match is in the text, starts at a
    boundary, and leaves a place where a pattern starts at a boundary exactly when it
    does after the replacement. *)
Class KeyMatcher : Prop := {
  km_bounds prev s n : m prev s = Some n -> (0 < n <= length s)%nat;
  km_start prev s n : m prev s = Some n -> boundary prev s = true;
  km_end prev s n : m prev s = Some n ->
    word_at (last (take n s)) = false \/
    word_at (head (drop n s)) = false /\ forall k, pat P k -> word_at (head k) = true;
}.

Context `{KM : KeyMatcher}.

Lemma last_cons_before prev c (pre : list ascii) : before prev (c :: pre) = before (Some c) pre.
Proof. unfold before. rewrite last_cons. by destruct (last pre). Qed.

Lemma bracket_in_occurrence prev out pre k post :
  occurs P prev (redacted ++ out) pre k post ->
  exists pre', pre = redacted ++ pre' /\ occurs P (Some "]"%char) out pre' k post.
Proof.
  intros (Hs & Hk & Hb & He). pose proof (pat_long P k Hk) as Hlen.
  assert (10 <= length pre)%nat as Hpre.
  { destruct (decide (10 <= length pre)%nat) as [|Hlt]; [done|]. exfalso.
    assert ((redacted ++ out) !! 9%nat = Some "]"%char) as H9 by done.
    rewrite Hs, lookup_app_r, lookup_app_l in H9 by lia.
    apply list_elem_of_lookup_2 in H9. by destruct (pat_plain P _ _ Hk H9). }
  exists (drop 10 pre). assert (pre = redacted ++ drop 10 pre) as Heq.
  { rewrite <-(take_drop 10 pre) at 1. f_equal. 
    change redacted with (take 10 (redacted ++ out)). rewrite Hs. by rewrite take_app_le by lia. }
  split; [done|]. rewrite Heq, <-app_assoc in Hs. apply app_inv_head in Hs.
  split; [done|]. split; [done|]. split; [|done]. rewrite Heq in Hb. unfold before in *.
  rewrite last_app in Hb. by destruct (last (drop 10 pre)).
Qed.

(** A plain prefix of the output is one of the text, and nothing matched within it. *)
Lemma replace_plain fuel prev s k post :
  replace_all m (fun _ => redacted) fuel prev s = k ++ post -> (length s <= fuel)%nat ->
  (forall c, c ∈ k -> c <> "["%char) ->
  exists r fuel', s = k ++ r /\ (length r <= fuel')%nat /\ post = replace_all m (fun _ => redacted) fuel' (before prev k) r.
Proof.
  revert prev s k. induction fuel as [|fuel IH]; intros prev s k Hout Hf Hk.
  - destruct s; [|simpl in Hf; lia]. simpl in Hout. symmetry in Hout. apply app_nil in Hout as [-> ->].
    exists [], 0%nat. done.
  - destruct k as [|c k].
    { exists s, (S fuel). simpl. split_and!; [done|done|]. simpl in Hout. by rewrite <-Hout. }
    simpl in Hout. destruct (m prev s) as [n|].
    { injection Hout as Hc _. by destruct (Hk c (list_elem_of_here _ _)). }
    destruct s as [|d r]; [done|]. injection Hout as -> Hout. simpl in Hf.
    destruct (IH (Some c) r k Hout) as (r' & fuel' & -> & Hl & Hp); [lia|intros; apply Hk; by right|].
    exists r', fuel'. rewrite last_cons_before. done.
Qed.

(** An occurrence that is left was one before, at a place where nothing matched. *)
Lemma replace_occurs fuel prev prev' s pre k post :
  (length s <= fuel)%nat ->
  (word_at prev = word_at prev' \/ word_at (head s) = false /\ forall k, pat P k -> word_at (head k) = true) ->
  occurs P prev' (replace_all m (fun _ => redacted) fuel prev s) pre k post ->
  exists pre0 post0, occurs P prev s pre0 k post0 /\ m (before prev pre0) (k ++ post0) = None.
Proof.
  revert prev prev' s pre. induction fuel as [|fuel IH]; intros prev prev' s pre Hf Hctx Hocc.
  { destruct s; [|simpl in Hf; lia]. destruct Hocc as (Hs & Hk & _). simpl in Hs.
    symmetry in Hs. apply app_nil in Hs as [_ [-> _]%app_nil]. by destruct (pat_nil P). }
  simpl in Hocc. destruct (m prev s) as [n|] eqn:Hm.
  - pose proof (km_bounds _ _ _ Hm) as Hn.
    destruct (bracket_in_occurrence _ _ _ _ _ Hocc) as (pre' & -> & Hocc').
    destruct (IH (last (take n s)) (Some "]"%char) (drop n s) pre') as (pre0 & post0 & (Hs & Hk & Hb & He) & Hno);
      [rewrite length_drop; lia| |done|].
    { destruct (km_end _ _ _ Hm) as [Hw|Hw]; [by left|by right]. }
    assert (before (last (take n s)) pre0 = before prev (take n s ++ pre0)) as Hbef.
    { unfold before. rewrite last_app. destruct (last pre0); [done|].
      destruct (last (take n s)) eqn:Hl; [done|]. apply last_None in Hl.
      destruct s; simpl in *; [lia|]. destruct n; simpl in *; [lia|done]. }
    exists (take n s ++ pre0), post0. rewrite <-Hbef. split; [|done].
    split_and!; [|done|by rewrite <-Hbef|done]. rewrite <-app_assoc, <-Hs. by rewrite take_drop.
  - destruct s as [|c r].
    { destruct Hocc as (Hs & Hk & _). symmetry in Hs. apply app_nil in Hs as [_ [-> _]%app_nil].
      by destruct (pat_nil P). }
    destruct pre as [|c' pre].
    + destruct Hocc as (Hs & Hk & Hb & He). unfold before in Hb. simpl in *.
      assert (k <> []) as Hne by (intros ->; by destruct (pat_nil P)).
      destruct k as [|d k']; [done|]. injection Hs as <- Hs.
      destruct (replace_plain _ _ _ _ _ Hs) as (r' & fuel' & -> & Hl & Hp);
        [lia|intros e Hd; apply (pat_plain P _ e Hk); by right|].
      exists [], r'. split; [|done]. split_and!; [done|done| |].
      * unfold before, boundary in *. simpl in *. destruct Hctx as [->|[Hw Hall]]; [done|].
        specialize (Hall _ Hk). simpl in Hall. congruence.
      * intros Hcl. specialize (He Hcl). rewrite Hp in He.
        assert (before (Some c) k' = last (c :: k')) as Hbk by (by unfold before; rewrite last_cons).
        rewrite Hbk in He. destruct fuel' as [|fuel']; simpl in He; [by destruct r'; [|simpl in Hl; lia]|].
        destruct (m (last (c :: k')) r') as [n|] eqn:Hm'; [by apply (km_start _ _ _ Hm')|].
        by destruct r'.
    + destruct Hocc as (Hs & Hk & Hb & He). injection Hs as <- Hs. simpl in Hf.
      destruct (IH (Some c) (Some c) r pre) as (pre0 & post0 & (Hs0 & _ & Hb0 & He0) & Hno);
        [lia|by left|by split_and!; [|  |rewrite last_cons_before in Hb|]|].
      exists (c :: pre0), post0. rewrite last_cons_before. split; [|done].
      split_and!; [by rewrite Hs0|done|by rewrite last_cons_before|done].
Qed.

Lemma ReplaceAll_occurs s pre k post :
  occurs P None (ReplaceAll m (fun _ => redacted) s) pre k post ->
  exists pre0 post0, occurs P None s pre0 k post0 /\ m (before None pre0) (k ++ post0) = None.
Proof. by apply replace_occurs; [|left]. Qed.
End Replace.

(** ** Keys *)

Lemma is_hex_word c : is_hex c = true -> is_word c = true.
Proof. by destruct c as [[] [] [] [] [] [] [] []]. Qed.

Lemma is_b64_plain c : is_b64 c = true -> c <> "["%char /\ c <> "]"%char.
Proof. intros Hc. by split; intros ->. Qed.

Lemma is_hex_plain c : is_hex c = true -> c <> "["%char /\ c <> "]"%char.
Proof. intros Hc. by split; intros ->. Qed.

(** A 32-byte key in hex, as a word of its own; one in base64, that starts at \b. *)
Program Definition hex_key : pattern :=
  {| pat k := length k = 64%nat /\ forallb is_hex k = true; closed := true |}.
Next Obligation. intros k [Hk _]. lia. Qed.
Next Obligation.
  intros k c [_ Hk] Hc. apply is_hex_plain. rewrite forallb_forall in Hk. by apply Hk, list_elem_of_In.
Qed.

Program Definition base64_key : pattern :=
  {| pat k := exists b, length b = 43%nat /\ forallb is_b64 b = true /\ k = b ++ ["="%char]; closed := false |}.
Next Obligation. intros k (b & Hb & _ & ->). rewrite length_app. simpl. lia. Qed.
Next Obligation.
  intros k c (b & _ & Hb & ->) [Hc|Hc]%elem_of_app.
  - apply is_b64_plain. rewrite forallb_forall in Hb. by apply Hb, list_elem_of_In.
  - by apply list_elem_of_singleton in Hc as ->.
Qed.

Lemma hex_head k : pat hex_key k -> word_at (head k) = true.
Proof.
  intros [Hl Hk]. destruct k as [|c k]; [done|]. simpl in *. apply andb_prop in Hk as [Hc _]. by apply is_hex_word.
Qed.

Lemma hex_last l : forallb is_hex l = true -> l <> [] -> word_at (last l) = true.
Proof.
  intros Hl Hne. destruct (last l) as [c|] eqn:Hc; [|by apply last_None in Hc].
  apply is_hex_word. rewrite forallb_forall in Hl. apply Hl, list_elem_of_In.
  rewrite last_lookup in Hc. by eapply list_elem_of_lookup_2.
Qed.

#[export] Instance reHexKey_matcher : KeyMatcher hex_key reHexKey.
Proof.
  constructor; unfold reHexKey; intros prev s n Hm; case_match eqn:Hc; try done; injection Hm as <-;
    apply andb_prop in Hc as [[[Hb Hl]%andb_prop Hx]%andb_prop He].
  - apply Nat.leb_le in Hl. lia.
  - done.
  - right. split; [|apply hex_head]. unfold boundary in He. rewrite hex_last in He; [|done|].
    + by destruct (word_at (head _)).
    + destruct s; [done|]. by simpl.
Qed.

Lemma base64_match prev s n :
  reBase64Key prev s = Some n ->
  n = 44%nat /\ boundary prev s = true /\ (44 <= length s)%nat /\ last (take 44 s) = Some "="%char.
Proof.
  unfold reBase64Key. intros Hm. case_match eqn:Hc; [|done]. injection Hm as <-.
  apply andb_prop in Hc as [[[Hb Hl]%andb_prop Hx]%andb_prop He]. apply bool_decide_eq_true in He.
  rewrite head_lookup, lookup_drop, Nat.add_0_r in He. pose proof (lookup_lt_Some _ _ _ He).
  split_and!; [done|done|lia|]. rewrite last_lookup, length_take, Nat.min_l by lia. simpl.
  by rewrite lookup_take_lt by lia.
Qed.

#[export] Instance reBase64Key_matcher P : KeyMatcher P reBase64Key.
Proof.
  constructor; intros prev s n Hm; destruct (base64_match _ _ _ Hm) as (-> & Hb & Hl & He).
  - lia.
  - done.
  - left. by rewrite He.
Qed.

(** What occurs matches. *)
Lemma hex_occurs_matches prev k post :
  pat hex_key k -> boundary prev (k ++ post) = true -> boundary (last k) post = true ->
  reHexKey prev (k ++ post) <> None.
Proof.
  intros [Hl Hk] Hb He. unfold reHexKey.
  rewrite Hb, length_app, <-Hl, take_app_length, drop_app_length, Hk, He.
  by rewrite (proj2 (Nat.leb_le _ _)) by lia.
Qed.

Lemma base64_occurs_matches prev k post :
  pat base64_key k -> boundary prev (k ++ post) = true -> reBase64Key prev (k ++ post) <> None.
Proof.
  intros (b & Hl & Hk & ->) Hb. unfold reBase64Key. rewrite Hb, <-app_assoc.
  rewrite <-Hl, take_app_length, drop_app_length, length_app, Hk.
  rewrite (proj2 (Nat.leb_le _ _)) by lia. by rewrite bool_decide_true.
Qed.

Lemma chars_text l : chars (text l) = l.
Proof. apply String.list_ascii_of_string_of_list_ascii. Qed.

(** C36: no line of the log holds key material in one of the two encodings: in the output
    of [Redact] no 64 hex digits stand as a word of their own, and nothing that starts
    at a word boundary is 43 base64 digits and an equals sign.  Replacing one key never
    uncovers another. *)
Theorem Redact_no_keys s pre k post :
  ~ occurs hex_key None (chars (Redact s)) pre k post /\
  ~ occurs base64_key None (chars (Redact s)) pre k post.
Proof.
  unfold Redact. destruct (bool_decide_reflect (s = "")) as [->|_].
  { split; intros (Hs & Hk & _); symmetry in Hs; apply app_nil in Hs as [_ [-> _]%app_nil];
      by destruct (pat_nil _ Hk). }
  unfold redact_keys. rewrite !chars_text. split; intros Hocc.
  - apply (ReplaceAll_occurs hex_key reBase64Key) in Hocc as (pre0 & post0 & Hocc & _).
    apply (ReplaceAll_occurs hex_key reHexKey) in Hocc as (pre1 & post1 & (_ & Hk & Hb & He) & Hno).
    by destruct (hex_occurs_matches _ _ _ Hk Hb (He eq_refl)).
  - apply (ReplaceAll_occurs base64_key reBase64Key) in Hocc as (pre0 & post0 & (_ & Hk & Hb & _) & Hno).
    by destruct (base64_occurs_matches _ _ _ Hk Hb).
Qed.

(** ** Labelled values *)

Definition secret_labels : list string :=
  ["private_key"; "preshared_key"; "header_protection_key"; "PrivateKey"; "PresharedKey"; "HeaderProtectionKey"].

Lemma replace_whole fuel f s :
  reSecretAssign None s = Some (length s) -> (0 < length s <= fuel)%nat -> replace_all reSecretAssign f fuel None s = f s.
Proof.
  intros Hm Hf. destruct fuel as [|fuel]; [lia|]. simpl. rewrite Hm, firstn_all, drop_all.
  destruct fuel as [|fuel]; simpl; [by rewrite app_nil_r|].
  unfold reSecretAssign at 1. destruct (boundary _ []); [|by rewrite app_nil_r].
  simpl. by rewrite app_nil_r.
Qed.

Lemma skip_all p v : forallb p v = true -> skip_while p v = [].
Proof. induction v as [|c v IH]; simpl; [done|]. intros [-> Hv]%andb_prop. by apply IH. Qed.

Lemma value_whole v :
  v <> [] -> forallb (fun c => negb (is_re_space c)) v = true ->
  skip_while is_re_space v = v /\ skip_while (fun c => negb (is_re_space c)) v = [].
Proof.
  intros Hne Hv. split; [|by apply skip_all]. destruct v as [|c v]; [done|]. simpl in *.
  apply andb_prop in Hv as [Hc _]. by destruct (is_re_space c).
Qed.

Lemma chars_app a b : chars (a +:+ b) = chars a ++ chars b.
Proof. induction a as [|c a IH]; [done|]. unfold chars in *. simpl. by rewrite IH. Qed.

Lemma value_matches sep v :
  sep ∈ ["="; " = "; ": "] -> v <> [] -> forallb (fun c => negb (is_re_space c)) v = true ->
  match_value (chars sep ++ v) = Some [].
Proof.
  intros Hs Hne Hv. destruct (value_whole _ Hne Hv) as [H1 H2].
  repeat (apply elem_of_cons in Hs as [->|Hs]; [|]); [..|by apply elem_of_nil in Hs];
    unfold match_value; cbn -[is_re_space]; simpl; rewrite ?H1; destruct v; simpl in *; congruence.
Qed.

Lemma label_matches lbl sep v mv :
  lbl ∈ secret_labels -> sep ∈ ["="; " = "; ": "] -> mv (chars sep ++ v) = Some [] ->
  head (omap (fun l => match_label l (chars lbl ++ chars sep ++ v) ≫= mv) labels) = Some ([] : list ascii).
Proof.
  intros Hl Hs Hm.
  repeat (apply elem_of_cons in Hl as [->|Hl]; [|]); [..|by apply elem_of_nil in Hl].
  all: repeat (apply elem_of_cons in Hs as [->|Hs]; [|]); [..|by apply elem_of_nil in Hs].
  all: vm_compute in Hm |- *; rewrite Hm; reflexivity.
Qed.

(** The start of a labelled value is a word, and what replaces the value is no key. *)
Lemma label_boundary lbl v : lbl ∈ secret_labels -> boundary None (chars lbl ++ v) = true.
Proof. intros Hl. repeat (apply elem_of_cons in Hl as [->|Hl]; [done|]). by apply elem_of_nil in Hl. Qed.

Lemma labelled_replacement lbl sep v :
  lbl ∈ secret_labels -> sep ∈ ["="; " = "; ": "] ->
  redact_assign (chars lbl ++ chars sep ++ v) = chars (lbl +:+ TrimRightChars sep " " +:+ "[REDACTED]") /\
  redact_keys (chars (lbl +:+ TrimRightChars sep " " +:+ "[REDACTED]")) =
    lbl +:+ TrimRightChars sep " " +:+ "[REDACTED]".
Proof.
  intros Hl Hs.
  repeat (apply elem_of_cons in Hl as [->|Hl]; [|]); [..|by apply elem_of_nil in Hl].
  all: repeat (apply elem_of_cons in Hs as [->|Hs]; [|]); [..|by apply elem_of_nil in Hs].
  all: split; vm_compute; reflexivity.
Qed.

Lemma chars_nil s : chars s = [] -> s = "".
Proof. by destruct s. Qed.

(** The value of a labelled secret is removed whatever it looks like: after any of
    the labels of the device's and of the configuration's keys, a separator and spaces,
    the whole word is replaced. *)
Theorem Redact_labelled lbl sep v :
  lbl ∈ secret_labels -> sep ∈ ["="; " = "; ": "] -> v <> "" ->
  all_chars (fun c => negb (is_re_space c)) v = true ->
  Redact (lbl +:+ sep +:+ v) = lbl +:+ TrimRightChars sep " " +:+ "[REDACTED]".
Proof.
  intros Hl Hs Hne Hv.
  assert (forallb (fun c => negb (is_re_space c)) (chars v) = true) as Hv'.
  { clear -Hv. induction v as [|c v IH]; simpl in *; [done|].
    apply andb_prop in Hv as [-> Hv]. by apply IH. }
  assert (chars v <> []) as Hne' by (intros H; by apply chars_nil in H).
  assert (reSecretAssign None (chars lbl ++ chars sep ++ chars v)
    = Some (length (chars lbl ++ chars sep ++ chars v))) as Hm.
  { unfold reSecretAssign. rewrite (label_boundary _ _ Hl).
    rewrite (label_matches _ _ _ _ Hl Hs (value_matches _ _ Hs Hne' Hv')). simpl. by rewrite Nat.sub_0_r. }
  destruct (labelled_replacement lbl sep (chars v) Hl Hs) as [Hr Hfix].
  unfold Redact. rewrite bool_decide_false by (intros H; apply Hne; by destruct lbl, sep, v).
  unfold ReplaceAll. rewrite !chars_app, replace_whole, Hr; [done|done|].
  split; [|done]. rewrite !length_app. destruct (chars v); [done|]. simpl. lia.
Qed.

Lemma Redact_labelled_witness :
  Redact ("PrivateKey" +:+ " = " +:+ "short") = "PrivateKey" +:+ TrimRightChars " = " " " +:+ "[REDACTED]".
Proof. apply Redact_labelled; [by vm_compute; set_solver|set_solver|done|done]. Defined.

(** A base64 key that starts with + or / is not recognised: \b stands between a
    letter and what is not one, so the expression finds no start before such a key, and
    one character later the key is too short.  One key in 32 passes the scan. *)
Theorem Redact_misses_keys :
  let key := "+AnAz5TFlXXJte14tji3zlMNqhd2rYUIgJBgB3fBmk4=" in
  String.length key = 44%nat /\ forallb (fun c => is_b64 c || bool_decide (c = "="%char)) (chars key) = true /\
  Redact ("handshake with peer " +:+ key) = "handshake with peer " +:+ key.
Proof. by vm_compute. Qed.
