(* ===== verification/Logging.v ===== *)
(** The log: src/internal/logging/logging.go.  Levels, the limits, and the file with its
    rotation and pruning.

    The directory of the log is a map from names to contents, and [fault] says which
    calls of the operating system fail this time; the time stamps and the formatted
    message are arguments.  The secret scan is in Redact.v. *)

From stdpp Require Import sorting.
From S2P Require Import Prelude GoStrings Redact.

(** ** Levels *)

Inductive Level := LevelDebug | LevelInfo | LevelWarn | LevelError.

#[global] Instance Level_eq_dec : EqDecision Level.
Proof. solve_decision. Defined.

Definition level_val (l : Level) : Z :=
  match l with LevelDebug => 0 | LevelInfo => 1 | LevelWarn => 2 | LevelError => 3 end.

(** [ParseLevel]: the level, and whether the name is one. *)
Definition ParseLevel (s : string) : option Level :=
  let s := ToLower (TrimSpace s) in
  if bool_decide (s = "debug") then Some LevelDebug
  else if bool_decide (s = "info") || bool_decide (s = "") then Some LevelInfo
  else if bool_decide (s = "warn") || bool_decide (s = "warning") then Some LevelWarn
  else if bool_decide (s = "error") then Some LevelError
  else None.

Definition Level_String (l : Level) : string :=
  match l with LevelDebug => "DEBUG" | LevelInfo => "INFO" | LevelWarn => "WARN" | LevelError => "ERROR" end.

(** ** The directory *)

(** Which calls fail: [MkdirAll], [OpenFile], [Stat], [Rename], [Remove], [ReadDir] and
    [WriteString]. *)
Inductive call := FMkdir | FOpen | FStat | FRename | FRemove (name : string) | FReadDir | FWrite.

#[global] Instance call_eq_dec : EqDecision call.
Proof. solve_decision. Defined.

Abbreviation files := (gmap string string).

(** ** State *)

Record Options := MkOptions {
  o_Dir : string;
  o_FileName : string;
  o_Level : Level;
  o_MaxSizeBytes : Z;
  o_MaxFiles : Z;
  o_Console : bool;
}.

#[export] Instance Options_fields : Fields Options := fun r =>
  MkOptions (o_Dir r) (o_FileName r) (o_Level r) (o_MaxSizeBytes r) (o_MaxFiles r) (o_Console r).

(** [g_open] is [file != nil]; [g_console] is what the console was given, newest last;
    [g_files] the files of the directory. *)
Record Logger := MkLogger {
  g_opts : Options;
  g_open : bool;
  g_size : Z;
  g_closed : bool;
  g_maxSize : Z;
  g_maxFiles : Z;
  g_console : list string;
  g_files : files;
}.

#[export] Instance Logger_fields : Fields Logger := fun r =>
  MkLogger (g_opts r) (g_open r) (g_size r) (g_closed r) (g_maxSize r) (g_maxFiles r) (g_console r)
    (g_files r).

(** ** Names *)

(** [filepath.Ext] of a name without separators, and the name without it. *)
Definition Ext (name : string) : string :=
  match CutLast "." name with Some (_, e) => String "." e | None => "" end.

Definition base_name (name : string) : string :=
  match CutLast "." name with Some (b, _) => b | None => name end.

Definition HasSuffix (s suf : string) : bool :=
  let n := (String.length s - String.length suf)%nat in
  (String.length suf <=? String.length s)%nat && bool_decide (String.substring n (String.length suf) s = suf).

(** The names that [pruneLocked] counts. *)
Definition is_rotated (base ext name : string) : bool := HasPrefix name (base +:+ "-") && HasSuffix name ext.

(** ** Operations *)

Section Logger.
Variable fault : call -> bool.

Definition openFile (l : Logger) : bool * Logger :=
  let name := o_FileName (g_opts l) in
  if fault FOpen then (false, l)
  else
    let l := l <| g_files ::= (fun fs => match fs !! name with Some _ => fs | None => <[name := ""]> fs end) |> in
    if fault FStat then (false, l)
    else (true, l <| g_open := true |> <| g_size := len (default "" (g_files l !! name)) |>).

(** [New] over a directory with its files: whether it gives no error, and the logger. *)
Definition New_logger (opts : Options) (fs : files) : bool * Logger :=
  let opts := if bool_decide (o_FileName opts = "") then opts <| o_FileName := "awgsocks.log" |> else opts in
  let opts := if o_MaxSizeBytes opts <=? 0 then opts <| o_MaxSizeBytes := 8 * 2 ^ 20 |> else opts in
  let opts := if o_MaxFiles opts <=? 0 then opts <| o_MaxFiles := 5 |> else opts in
  let l := MkLogger opts false 0 false (o_MaxSizeBytes opts) (o_MaxFiles opts) [] fs in
  if bool_decide (o_Dir opts = "") then (true, l)
  else if fault FMkdir then (false, l)
  else openFile l.

Definition SetLevel (level : Level) (l : Logger) : Logger := l <| g_opts ::= set_field o_Level (fun _ => level) |>.

Definition SetRotation (maxSizeBytes maxFiles : Z) (l : Logger) : Logger :=
  let l := if 0 <? maxSizeBytes then l <| g_maxSize := maxSizeBytes |> else l in
  if 0 <? maxFiles then l <| g_maxFiles := maxFiles |> else l.

Definition Rotation (l : Logger) : Z * Z := (g_maxSize l, g_maxFiles l).

(** [sort.Strings]: by bytes. *)
Definition name_le (a b : string) : Prop := String.leb a b = true.

#[global] Instance name_le_dec a b : Decision (name_le a b).
Proof. unfold name_le. apply _. Defined.

(** What [pruneLocked] removes: of the names it counts, in order, all but the last ones. *)
Definition pruned (base ext : string) (maxFiles : Z) (fs : files) : list string :=
  let rotated := List.filter (is_rotated base ext) (map_to_list fs).*1 in
  if Z.of_nat (length rotated) <=? maxFiles then []
  else take (length rotated - Z.to_nat maxFiles) (merge_sort name_le rotated).

Definition remove (name : string) (fs : files) : files := if fault (FRemove name) then fs else delete name fs.

Definition pruneLocked (base ext : string) (l : Logger) : Logger :=
  if fault FReadDir then l
  else l <| g_files ::= (fun fs => foldl (fun fs n => remove n fs) fs (pruned base ext (g_maxFiles l) fs)) |>.

(** [os.Rename], which replaces a file that is there. *)
Definition rename (a b : string) (fs : files) : files :=
  match fs !! a with Some s => <[b := s]> (delete a fs) | None => fs end.

Definition rotateLocked (stamp : string) (l : Logger) : Logger :=
  if negb (g_open l) then l
  else
    let l := l <| g_open := false |> in
    let active := o_FileName (g_opts l) in
    let rotated := base_name active +:+ "-" +:+ stamp +:+ Ext active in
    let l := if fault FRename then l <| g_files ::= remove active |> else l <| g_files ::= rename active rotated |> in
    let l := pruneLocked (base_name active) (Ext active) l in
    match openFile l with
    | (true, l) => l
    | (false, l) =>
        if o_Console (g_opts l) then l <| g_console ::= (fun c => c ++ ["could not reopen the log file"]) |> else l
    end.

(** The line of a formatted message. *)
Definition log_line (now : string) (level : Level) (msg : string) : string :=
  now +:+ " [" +:+ Level_String level +:+ "] " +:+
  Redact (TrimRightChars msg (String "013" (String nl ""))) +:+ String nl "".

(** [logf], with the time as it is printed in the line and in the name of a rotated
    file. *)
Definition logf (now stamp : string) (level : Level) (msg : string) (l : Logger) : Logger :=
  if g_closed l || (level_val level <? level_val (o_Level (g_opts l))) then l
  else
    let line := log_line now level msg in
    let l := if o_Console (g_opts l) then l <| g_console ::= (fun c => c ++ [line]) |> else l in
    if negb (g_open l) then l
    else
      let l := if g_maxSize l <? g_size l + len line then rotateLocked stamp l else l in
      if negb (g_open l) || fault FWrite then l
      else
        let name := o_FileName (g_opts l) in
        l <| g_files ::= (fun fs => <[name := default "" (fs !! name) +:+ line]> fs) |>
          <| g_size ::= Z.add (len line) |>.

Definition Close_logger (l : Logger) : Logger :=
  if g_closed l then l else l <| g_closed := true |> <| g_open := false |>.
End Logger.

(** The four that the program calls. *)
Definition Debugf fault now stamp := logf fault now stamp LevelDebug.
Definition Infof fault now stamp := logf fault now stamp LevelInfo.
Definition Warnf fault now stamp := logf fault now stamp LevelWarn.
Definition Errorf fault now stamp := logf fault now stamp LevelError.

Definition Level_of (l : Logger) : Level := o_Level (g_opts l).

(** [DeviceLogger]: the device's own messages, which go through the same log behind a
    prefix. *)
Definition DeviceLogger fault now stamp (prefix : string) (is_error : bool) (msg : string) (l : Logger) : Logger :=
  (if is_error then Errorf else Debugf) fault now stamp (prefix +:+ msg) l.

(** ** Names and their order *)

Lemma CutLast_app sep s a b : CutLast sep s = Some (a, b) -> s = a +:+ String sep b.
Proof.
  revert a b. induction s as [|c s IH]; simpl; [done|]. intros a b H.
  destruct (CutLast sep s) as [[a0 b0]|]; [injection H as <- <-; rewrite (IH a0 b0) by done; reflexivity|].
  case_decide; by simplify_eq.
Qed.

Lemma app_empty_r s : s +:+ "" = s.
Proof. induction s as [|c s IH]; [done|]. change (String c (s +:+ "") = String c s). by rewrite IH. Qed.

Lemma name_parts name : base_name name +:+ Ext name = name.
Proof.
  unfold base_name, Ext. destruct (CutLast "." name) as [[b e]|] eqn:Hc; [|apply app_empty_r].
  by rewrite (CutLast_app _ _ _ _ Hc).
Qed.

Lemma length_string_app a b : String.length (a +:+ b) = (String.length a + String.length b)%nat.
Proof. induction a as [|c a IH]; [done|]. change (S (String.length (a +:+ b)) = S (String.length a + String.length b)). by rewrite IH. Qed.

(** A rotated file never takes the name of the active one. *)
Lemma rotated_ne name stamp : base_name name +:+ "-" +:+ stamp +:+ Ext name <> name.
Proof.
  intros H. apply (f_equal String.length) in H. pose proof (f_equal String.length (name_parts name)) as Hn.
  rewrite !length_string_app in *. simpl in H. rewrite ?length_string_app in H. lia.
Qed.

#[global] Instance name_le_trans : Transitive name_le.
Proof.
  unfold name_le, String.leb. intros a. induction a as [|x a IH]; intros [|y b] [|z c]; simpl; try done.
  unfold Ascii.compare.
  destruct (N.compare_spec (N_of_ascii x) (N_of_ascii y)), (N.compare_spec (N_of_ascii y) (N_of_ascii z)),
    (N.compare_spec (N_of_ascii x) (N_of_ascii z)); try done; try lia. apply IH.
Qed.

#[global] Instance name_le_total : Total name_le.
Proof. intros a b. unfold name_le. destruct (String.leb_total a b); auto. Qed.

(** ** Removing files *)

Lemma foldl_remove fault ns fs n s :
  foldl (fun fs n => remove fault n fs) fs ns !! n = Some s -> fs !! n = Some s.
Proof.
  revert fs. induction ns as [|m ns IH]; simpl; [done|]. intros fs Hn%IH. unfold remove in Hn.
  case_match; [done|]. by apply lookup_delete_Some in Hn as [_ ?].
Qed.

Lemma foldl_remove_all fault ns fs n :
  (forall m, fault (FRemove m) = false) ->
  foldl (fun fs n => remove fault n fs) fs ns !! n = if bool_decide (n ∈ ns) then None else fs !! n.
Proof.
  intros Hf. revert fs. induction ns as [|m ns IH]; intros fs; simpl; [done|]. rewrite IH. unfold remove. rewrite Hf.
  destruct (bool_decide_reflect (n ∈ ns)) as [Hin|Hn]; destruct (bool_decide_reflect (n ∈ m :: ns)) as [Hin'|Hn']; try done.
  - by destruct Hn'; right.
  - apply elem_of_cons in Hin' as [->|?]; [by apply lookup_delete_eq|done].
  - apply lookup_delete_ne. intros ->. by destruct Hn'; left.
Qed.

Definition rotated_names (base ext : string) (fs : files) : list string :=
  List.filter (is_rotated base ext) (map_to_list fs).*1.

Lemma rotated_names_spec base ext fs n :
  n ∈ rotated_names base ext fs <-> is_Some (fs !! n) /\ is_rotated base ext n = true.
Proof.
  unfold rotated_names. rewrite list_elem_of_In, List.filter_In, <-list_elem_of_In, list_elem_of_fmap.
  split; intros [H1 H2]; (split; [|done]).
  - destruct H1 as ([m s] & -> & Hm). apply elem_of_map_to_list in Hm. by exists s.
  - destruct H1 as [s Hs]. exists (n, s). split; [done|]. by apply elem_of_map_to_list.
Qed.

Lemma rotated_names_NoDup base ext fs : NoDup (rotated_names base ext fs).
Proof. apply NoDup_ListNoDup, List.NoDup_filter, NoDup_ListNoDup, NoDup_fst_map_to_list. Qed.

(** What is removed: some of the names, of which enough are left, and none that comes
    after one that stays. *)
Lemma pruned_spec base ext maxFiles fs :
  0 <= maxFiles ->
  let rot := rotated_names base ext fs in
  let gone := pruned base ext maxFiles fs in
  NoDup gone /\ (forall n, n ∈ gone -> n ∈ rot) /\
  (forall n n', n ∈ gone -> n' ∈ rot -> n' ∉ gone -> name_le n n') /\
  Z.of_nat (length gone) = Z.max 0 (Z.of_nat (length rot) - maxFiles).
Proof.
  intros Hmax rot gone. unfold gone, pruned. fold (rotated_names base ext fs). fold rot.
  destruct (Z.leb_spec (Z.of_nat (length rot)) maxFiles) as [Hle|Hgt].
  { split_and!; [constructor|set_solver..|simpl; lia]. }
  pose proof (merge_sort_Permutation name_le rot) as Hperm.
  pose proof (StronglySorted_merge_sort name_le rot) as Hsorted.
  set (sorted := merge_sort name_le rot) in *. set (n := (length rot - Z.to_nat maxFiles)%nat).
  assert (NoDup sorted) as Hnd by (rewrite Hperm; apply rotated_names_NoDup).
  rewrite <-(take_drop n sorted) in Hnd, Hsorted.
  split_and!.
  - by apply NoDup_app in Hnd as [? _].
  - intros m Hm. rewrite <-Hperm, <-(take_drop n sorted). apply elem_of_app. by left.
  - intros m m' Hm Hm' Hn. rewrite <-Hperm, <-(take_drop n sorted) in Hm'.
    apply elem_of_app in Hm' as [?|Hm']; [done|]. by eapply StronglySorted_app_1_elem_of.
  - assert (length sorted = length rot) as Hl by (by rewrite Hperm).
    rewrite length_take, Hl. unfold n. lia.
Qed.

(** ** What the operations leave in the directory *)

(** No file of [fs'] has a content that no file of [fs] had, save the empty one. *)
Definition no_new (fs fs' : files) : Prop :=
  forall n s, fs' !! n = Some s -> s = "" \/ exists n0, fs !! n0 = Some s.

#[global] Instance no_new_refl : Reflexive no_new.
Proof. intros fs n s Hs. right. by exists n. Qed.

#[global] Instance no_new_trans : Transitive no_new.
Proof. intros f1 f2 f3 H12 H23 n s Hs. destruct (H23 n s Hs) as [->|[m Hm]]; [by left|by apply (H12 m)]. Qed.

Lemma no_new_sub fs fs' : (forall n s, fs' !! n = Some s -> fs !! n = Some s) -> no_new fs fs'.
Proof. intros H n s Hs. right. exists n. by apply H. Qed.

Lemma no_new_remove fault n fs : no_new fs (remove fault n fs).
Proof. apply no_new_sub. intros m s. unfold remove. case_match; [done|]. by intros [_ ?]%lookup_delete_Some. Qed.

Lemma no_new_rename a b fs : no_new fs (rename a b fs).
Proof.
  unfold rename. destruct (fs !! a) as [s|] eqn:Ha; [|done]. intros n s' Hs. right.
  apply lookup_insert_Some in Hs as [[_ <-]|[_ [_ Hs]%lookup_delete_Some]]; eauto.
Qed.

Lemma openFile_spec fault l :
  let '(ok, l') := openFile fault l in
  no_new (g_files l) (g_files l') /\ g_console l' = g_console l /\ g_opts l' = g_opts l /\
  g_maxSize l' = g_maxSize l /\ g_closed l' = g_closed l /\
  g_open l' = (ok || g_open l) /\
  (ok = true -> exists s, g_files l' !! o_FileName (g_opts l) = Some s /\ g_size l' = len s /\
     s = default "" (g_files l !! o_FileName (g_opts l))).
Proof.
  unfold openFile. destruct (fault FOpen); [done|]. set (name := o_FileName (g_opts l)).
  assert (no_new (g_files l) (match g_files l !! name with Some _ => g_files l | None => <[name := ""]> (g_files l) end)) as Hn.
  { destruct (g_files l !! name) eqn:Hl; [done|]. intros n s Hs.
    apply lookup_insert_Some in Hs as [[_ <-]|[_ Hs]]; [by left|right]. by exists n. }
  destruct (fault FStat); simpl; fold name; split_and!; try done.
  intros _. destruct (g_files l !! name) as [s|] eqn:Hl.
  - exists s. by rewrite Hl.
  - exists "". assert (<[name := ""]> (g_files l) !! name = Some "") as Hi by apply lookup_insert_eq.
    split_and!; [done|by rewrite Hi|done].
Qed.

Lemma pruneLocked_spec fault base ext l :
  no_new (g_files l) (g_files (pruneLocked fault base ext l)) /\
  (forall n, g_files l !! n = None -> g_files (pruneLocked fault base ext l) !! n = None) /\
  exists fs, pruneLocked fault base ext l = l <| g_files := fs |>.
Proof.
  unfold pruneLocked. destruct (fault FReadDir).
  { split; [done|]. split; [done|]. exists (g_files l). by destruct l. }
  cbn. split; [|split; [|by eexists]].
  - apply no_new_sub. intros n s. apply foldl_remove.
  - intros n Hn. match goal with |- ?x = None => destruct x as [s|] eqn:Hs end; [|done]. apply foldl_remove in Hs. congruence.
Qed.

(** A rotation: an open logger stays open unless the file cannot be opened again, and it
    then starts empty unless the old one could be neither renamed nor removed. *)
Lemma rotateLocked_spec fault stamp l :
  g_open l = true ->
  let l' := rotateLocked fault stamp l in
  no_new (g_files l) (g_files l') /\ g_opts l' = g_opts l /\ g_maxSize l' = g_maxSize l /\
  g_closed l' = g_closed l /\
  (g_console l' = g_console l \/ g_console l' = g_console l ++ ["could not reopen the log file"]) /\
  (g_open l' = true -> exists s, g_files l' !! o_FileName (g_opts l) = Some s /\ g_size l' = len s /\
     (fault FRename = false \/ fault (FRemove (o_FileName (g_opts l))) = false -> s = "")).
Proof.
  intros Ho. unfold rotateLocked. rewrite Ho. cbn -[openFile pruneLocked]. set (active := o_FileName (g_opts l)).
  set (l1 := if fault FRename then _ else _).
  assert (no_new (g_files l) (g_files l1) /\ g_opts l1 = g_opts l /\ g_maxSize l1 = g_maxSize l /\
    g_closed l1 = g_closed l /\ g_console l1 = g_console l /\ g_open l1 = false /\
    (fault FRename = false \/ fault (FRemove active) = false -> g_files l1 !! active = None)) as
    (N1 & O1 & M1 & C1 & K1 & P1 & A1).
  { unfold l1. destruct (fault FRename) eqn:Hr; cbn; split_and!; try done.
    - apply (no_new_remove fault active).
    - intros [?|Hf]; [done|]. change (remove fault active (g_files l) !! active = None).
      unfold remove. rewrite Hf. apply lookup_delete_eq.
    - apply no_new_rename.
    - intros _. change (rename active (base_name active +:+ "-" +:+ stamp +:+ Ext active) (g_files l) !! active = None).
      unfold rename. destruct (g_files l !! active) eqn:Ha; [|done].
      rewrite lookup_insert_ne by apply rotated_ne. apply lookup_delete_eq. }
  clearbody l1. destruct (pruneLocked_spec fault (base_name active) (Ext active) l1) as (N2 & A2 & fs & Hp).
  set (l2 := pruneLocked _ _ _ l1) in *. assert (g_files l2 = fs) as <- by (by rewrite Hp).
  assert (g_opts l2 = g_opts l /\ g_maxSize l2 = g_maxSize l /\ g_closed l2 = g_closed l /\
    g_console l2 = g_console l /\ g_open l2 = false) as (O2 & M2 & C2 & K2 & P2)
    by (rewrite Hp; cbn; by split_and!).
  clearbody l2. pose proof (openFile_spec fault l2) as Hs. destruct (openFile fault l2) as [ok l3].
  destruct Hs as (N3 & K3 & O3 & M3 & C3 & P3 & F3). rewrite P2, orb_false_r in P3.
  assert (no_new (g_files l) (g_files l3)) as N by (by do 2 (etransitivity; [done|])).
  destruct ok.
  - split_and!; [done|congruence..|left; congruence|]. intros _. destruct (F3 eq_refl) as (s & Hf & Hsz & Hd).
    rewrite O2 in Hf, Hd. exists s. split; [done|]. split; [done|]. intros Hor. by rewrite Hd, A2 by auto.
  - destruct l3; simpl in *. destruct (o_Console _); simpl; split_and!; try congruence; try done.
    + right. congruence.
    + left. congruence.
Qed.

(** The size that the logger counts is that of the file. *)
Definition logger_ok (l : Logger) : Prop :=
  g_open l = true -> exists s, g_files l !! o_FileName (g_opts l) = Some s /\ g_size l = len s.

Lemma logf_spec fault now stamp level msg l :
  logger_ok l ->
  let line := log_line now level msg in
  let l' := logf fault now stamp level msg l in
  logger_ok l' /\
  (forall n s, g_files l' !! n = Some s ->
     exists s0, (s0 = "" \/ exists n0, g_files l !! n0 = Some s0) /\ (s = s0 \/ s = s0 +:+ line)) /\
  (forall m, m ∈ g_console l' -> m ∈ g_console l \/ m = line \/ m = "could not reopen the log file") /\
  (fault FRename = false \/ fault (FRemove (o_FileName (g_opts l))) = false ->
     g_open l' = true -> g_size l' <= Z.max (Z.max (g_maxSize l) (g_size l)) (len line)).
Proof.
  intros Hok line l'. unfold l', logf. destruct (g_closed l || _) eqn:Hskip.
  { split; [done|]. split; [intros n s Hs; exists s; eauto|]. split; [auto|lia]. }
  fold line.
  set (l1 := if o_Console (g_opts l) then _ else l).
  assert (g_files l1 = g_files l /\ g_open l1 = g_open l /\ g_size l1 = g_size l /\ g_opts l1 = g_opts l /\
    g_maxSize l1 = g_maxSize l /\ (forall m, m ∈ g_console l1 -> m ∈ g_console l \/ m = line)) as
    (F1 & P1 & S1 & O1 & M1 & K1).
  { unfold l1. destruct (o_Console _); split_and!; auto. intros m Hm.
    change (m ∈ g_console l ++ [line]) in Hm. rewrite elem_of_app, list_elem_of_singleton in Hm. tauto. }
  assert (logger_ok l1) as Hok1 by (unfold logger_ok; by rewrite F1, P1, S1, O1).
  clearbody l1. destruct (g_open l1) eqn:Hopen; cbn [negb]; cycle 1.
  { split; [done|]. split; [intros n s Hs; rewrite F1 in Hs; exists s; eauto|]. split; [naive_solver|congruence]. }
  set (l2 := if g_maxSize l1 <? g_size l1 + len line then rotateLocked fault stamp l1 else l1).
  assert (no_new (g_files l) (g_files l2) /\ g_opts l2 = g_opts l /\
    (forall m, m ∈ g_console l2 -> m ∈ g_console l \/ m = line \/ m = "could not reopen the log file") /\
    logger_ok l2 /\
    (fault FRename = false \/ fault (FRemove (o_FileName (g_opts l))) = false ->
       g_open l2 = true -> g_size l2 + len line <= g_maxSize l \/ g_size l2 = 0)) as (N2 & O2 & K2 & Hok2 & B2).
  { unfold l2. destruct (Z.ltb_spec (g_maxSize l1) (g_size l1 + len line)) as [Hlt|Hge].
    - destruct (rotateLocked_spec fault stamp l1 Hopen) as (N & O & M & C & K & F).
      rewrite F1 in N. rewrite O1 in O, F. split_and!; [done|done| | |].
      + intros m Hm. destruct K as [K|K]; rewrite K in Hm; [naive_solver|]. apply elem_of_app in Hm as [Hm|Hm]; [naive_solver|].
        apply list_elem_of_singleton in Hm. auto.
      + intros Ho. destruct (F Ho) as (s & ? & ? & _). rewrite O. eauto.
      + intros Hf Ho. right. destruct (F Ho) as (s & _ & -> & Hs). by rewrite (Hs Hf).
    - rewrite F1. split_and!; [done|done|naive_solver|done|]. intros _ _. left. lia. }
  clearbody l2. destruct (g_open l2) eqn:Hopen2; cbn [negb orb].
  2: { split; [done|]. split; [|split; [done|congruence]]. intros n s Hs. exists s. split; [|by left]. by apply (N2 n). }
  destruct (fault FWrite).
  { split; [done|]. split; [|split; [done|]]. 
    - intros n s Hs. exists s. split; [|by left]. by apply (N2 n).
    - intros Hf _. destruct (B2 Hf eq_refl); unfold len in *; lia. }
  destruct (Hok2 Hopen2) as (s2 & Hs2 & Hsz).
  destruct l2 as [o2 op2 sz2 cl2 mx2 mf2 co2 fs2]. simpl in *. subst o2 op2. split_and!.
  - intros _. simpl. exists (s2 +:+ line). rewrite lookup_insert_eq, Hs2. split; [done|].
    rewrite Hsz. unfold len. simpl. rewrite length_string_app. lia.
  - intros n s [[<- <-]|[_ Hs]]%lookup_insert_Some.
    + exists s2. rewrite Hs2. split; [by apply (N2 _ _ Hs2)|by right].
    + exists s. split; [by apply (N2 n)|by left].
  - done.
  - intros Hf _. destruct (B2 Hf eq_refl); lia.
Qed.

(** *** Theorems *)

(** Whatever the operating system refuses, a call of the logger adds one redacted line
    or nothing: every file of the directory afterwards has the content of a file from
    before, or is empty, or is such a content followed by the line of the message after
    the secret scan, and the same line is all that the console is given, save the notice
    that the file could not be opened again. *)
Theorem logf_only_redacted fault now stamp level msg l :
  logger_ok l ->
  let line := now +:+ " [" +:+ Level_String level +:+ "] " +:+
    Redact (TrimRightChars msg (String "013" (String nl ""))) +:+ String nl "" in
  let l' := logf fault now stamp level msg l in
  (forall n s, g_files l' !! n = Some s ->
     exists s0, (s0 = "" \/ exists n0, g_files l !! n0 = Some s0) /\ (s = s0 \/ s = s0 +:+ line)) /\
  (forall m, m ∈ g_console l' -> m ∈ g_console l \/ m = line \/ m = "could not reopen the log file").
Proof. intros Hok. by destruct (logf_spec fault now stamp level msg l Hok) as (_ & ? & ? & _). Qed.

(** The log file stays within its limit: the size that the logger counts is that of
    the file it writes, whatever fails, and as long as the full file can be renamed or
    removed a line never makes it longer than the limit, unless the line alone is. *)
Theorem logf_bounded fault now stamp level msg l :
  logger_ok l -> g_size l <= g_maxSize l ->
  fault FRename = false \/ fault (FRemove (o_FileName (g_opts l))) = false ->
  let l' := logf fault now stamp level msg l in
  logger_ok l' /\
  (g_open l' = true -> g_size l' <= Z.max (g_maxSize l) (len (log_line now level msg))).
Proof.
  intros Hok Hs Hf. destruct (logf_spec fault now stamp level msg l Hok) as (Hok' & _ & _ & B).
  split; [done|]. intros Ho. pose proof (B Hf Ho). lia.
Qed.

(** Pruning keeps the newest: of the rotated files at most [maxFiles] stay, none that
    was removed has a name after one that stayed, and no other file is touched. *)
Theorem pruneLocked_keeps_newest fault base ext l :
  fault FReadDir = false -> (forall n, fault (FRemove n) = false) -> 0 <= g_maxFiles l ->
  let l' := pruneLocked fault base ext l in
  Z.of_nat (length (rotated_names base ext (g_files l'))) <= g_maxFiles l /\
  (forall n n', is_Some (g_files l !! n) -> g_files l' !! n = None ->
     is_rotated base ext n = true /\
     (is_Some (g_files l' !! n') -> is_rotated base ext n' = true -> name_le n n')) /\
  (forall n s, g_files l' !! n = Some s -> g_files l !! n = Some s).
Proof.
  intros Hd Hr Hm l'. destruct (pruned_spec base ext (g_maxFiles l) (g_files l) Hm) as (Hnd & Hin & Hle & Hlen).
  set (gone := pruned base ext (g_maxFiles l) (g_files l)) in *.
  assert (forall n, g_files l' !! n = if bool_decide (n ∈ gone) then None else g_files l !! n) as Hl'.
  { intros n. unfold l', pruneLocked. rewrite Hd. by apply foldl_remove_all. }
  clearbody l'. split_and!.
  - assert (length (rotated_names base ext (g_files l)) =
      (length gone + length (rotated_names base ext (g_files l')))%nat) as Heq; [|lia].
    rewrite <-length_app. apply Permutation_length, NoDup_Permutation.
    + apply rotated_names_NoDup.
    + apply NoDup_app. split_and!; [done| |apply rotated_names_NoDup].
      intros n Hn [Hs _]%rotated_names_spec. rewrite Hl', bool_decide_true in Hs by done. by destruct Hs.
    + intros n. rewrite elem_of_app, !rotated_names_spec, Hl'.
      destruct (bool_decide_reflect (n ∈ gone)) as [Hg|Hg].
      * pose proof (proj1 (rotated_names_spec _ _ _ _) (Hin _ Hg)). tauto.
      * tauto.
  - intros n n' Hn Hn'. rewrite Hl' in Hn'. destruct (bool_decide_reflect (n ∈ gone)) as [Hg|Hg]; cycle 1.
    { rewrite Hn' in Hn. by destruct Hn. }
    split; [by apply Hin, rotated_names_spec in Hg as [_ ?]|]. intros Hs Hrot. apply Hle; [done| |].
    + apply rotated_names_spec. split; [|done]. rewrite Hl' in Hs. by case_match; [destruct Hs|].
    + intros Hg'. rewrite Hl', bool_decide_true in Hs by done. by destruct Hs.
  - intros n s Hs. rewrite Hl' in Hs. by case_match.
Qed.

Definition no_fault (_ : call) : bool := false.

Definition some_logger : Logger :=
  MkLogger (MkOptions "C:\logs" "awgsocks.log" LevelInfo 0 0 true) true 3 false 20 1 []
    {[ "awgsocks.log" := "abc"; "awgsocks-1.log" := "x"; "awgsocks-2.log" := "y"; "other" := "z" ]}.

Lemma some_logger_ok : logger_ok some_logger.
Proof. intros _. by exists "abc". Qed.

Example some_log :
  let l := logf no_fault "12:00" "3" LevelInfo ("PrivateKey = secret" +:+ String nl "") some_logger in
  g_files l !! "awgsocks.log" = Some ("12:00 [INFO] PrivateKey =[REDACTED]" +:+ String nl "") /\
  g_files l !! "awgsocks-3.log" = Some "abc" /\ g_files l !! "awgsocks-2.log" = None.
Proof. by vm_compute. Qed.

Lemma logf_only_redacted_witness :
  let line := "12:00" +:+ " [" +:+ Level_String LevelInfo +:+ "] " +:+
    Redact (TrimRightChars "hello" (String "013" (String nl ""))) +:+ String nl "" in
  let l' := logf no_fault "12:00" "3" LevelInfo "hello" some_logger in
  (forall n s, g_files l' !! n = Some s ->
     exists s0, (s0 = "" \/ exists n0, g_files some_logger !! n0 = Some s0) /\ (s = s0 \/ s = s0 +:+ line)) /\
  (forall m, m ∈ g_console l' -> m ∈ g_console some_logger \/ m = line \/ m = "could not reopen the log file").
Proof. apply logf_only_redacted, some_logger_ok. Defined.

Lemma logf_bounded_witness :
  let l' := logf no_fault "12:00" "3" LevelInfo "hello" some_logger in
  logger_ok l' /\ (g_open l' = true -> g_size l' <= Z.max 20 (len (log_line "12:00" LevelInfo "hello"))).
Proof. apply (logf_bounded no_fault "12:00" "3" LevelInfo "hello" some_logger some_logger_ok); [done|by left]. Defined.

Lemma pruneLocked_keeps_newest_witness :
  let l' := pruneLocked no_fault "awgsocks" ".log" some_logger in
  Z.of_nat (length (rotated_names "awgsocks" ".log" (g_files l'))) <= 1 /\
  (forall n n', is_Some (g_files some_logger !! n) -> g_files l' !! n = None ->
     is_rotated "awgsocks" ".log" n = true /\
     (is_Some (g_files l' !! n') -> is_rotated "awgsocks" ".log" n' = true -> name_le n n')) /\
  (forall n s, g_files l' !! n = Some s -> g_files some_logger !! n = Some s).
Proof. by apply (pruneLocked_keeps_newest no_fault "awgsocks" ".log" some_logger). Defined.
