(* ===== verification/Ipc.v ===== *)
(** The management channel: src/internal/ipc.  The commands, the status report, the
    dispatch of a request over the service's [Handler], and the two ends of a call.

    The named pipe is the operating system's and the JSON text is [encoding/json]'s:
    a pipe is what its calls answer, and the encoding is a pair of functions of which the
    theorem on a whole call assumes that decoding undoes encoding. *)

From S2P Require Import Prelude GoStrings GoErrors.

Definition CmdStatus : string := "status".
Definition CmdReload : string := "reload".
Definition CmdReconnect : string := "reconnect".
Definition CmdStart : string := "start".
Definition CmdStop : string := "stop".
Definition CmdPing : string := "ping".

(** ** The status report *)

Record DNSCacheStatus := MkDNSCacheStatus { dc_Hits : Z; dc_Misses : Z; dc_Coalesced : Z; dc_Entries : Z }.

Record TunnelStatus := MkTunnelStatus {
  ts_State : string;
  ts_Endpoint : string;
  ts_LastHandshake : Z;
  ts_TxBytes : Z;
  ts_RxBytes : Z;
  ts_Reconnects : Z;
  ts_LastError : string;
  ts_StartedAt : option Z;
  ts_AWGParams : gmap string string;
  ts_Generation : string;
  ts_Addresses : list string;
  ts_DNS : list string;
  ts_LocalDNS : list string;
  ts_MTU : Z;
  ts_AllowedIPs : list string;
  ts_DNSCache : DNSCacheStatus;
  ts_PausedBy : string;
}.

#[export] Instance TunnelStatus_fields : Fields TunnelStatus := fun r =>
  MkTunnelStatus (ts_State r) (ts_Endpoint r) (ts_LastHandshake r) (ts_TxBytes r) (ts_RxBytes r)
    (ts_Reconnects r) (ts_LastError r) (ts_StartedAt r) (ts_AWGParams r) (ts_Generation r)
    (ts_Addresses r) (ts_DNS r) (ts_LocalDNS r) (ts_MTU r) (ts_AllowedIPs r) (ts_DNSCache r)
    (ts_PausedBy r).

Record SocksStatus := MkSocksStatus {
  ss_Listen : string;
  ss_Listening : bool;
  ss_Active : Z;
  ss_Total : Z;
  ss_Rejected : Z;
  ss_Failed : Z;
  ss_Hostnames : Z;
  ss_Unresolved : Z;
  ss_BytesUp : Z;
  ss_BytesDown : Z;
  ss_UDPEnabled : bool;
  ss_UDPAssociations : Z;
  ss_UDPDatagramsUp : Z;
  ss_UDPDatagramsDown : Z;
  ss_UDPDropped : Z;
  ss_UDPBytesUp : Z;
  ss_UDPBytesDown : Z;
}.

#[export] Instance SocksStatus_fields : Fields SocksStatus := fun r =>
  MkSocksStatus (ss_Listen r) (ss_Listening r) (ss_Active r) (ss_Total r) (ss_Rejected r) (ss_Failed r)
    (ss_Hostnames r) (ss_Unresolved r) (ss_BytesUp r) (ss_BytesDown r) (ss_UDPEnabled r)
    (ss_UDPAssociations r) (ss_UDPDatagramsUp r) (ss_UDPDatagramsDown r) (ss_UDPDropped r)
    (ss_UDPBytesUp r) (ss_UDPBytesDown r).

Record VersionStatus := MkVersionStatus {
  vs_AWGSocks : string;
  vs_AmneziaWGGo : string;
  vs_AmneziaWGCommit : string;
  vs_AWGParser : string;
  vs_AWGParserCommit : string;
  vs_Wintun : string;
  vs_GoVersion : string;
  vs_SystemRouteState : string;
  vs_UDPBind : string;
}.

#[export] Instance VersionStatus_fields : Fields VersionStatus := fun r =>
  MkVersionStatus (vs_AWGSocks r) (vs_AmneziaWGGo r) (vs_AmneziaWGCommit r) (vs_AWGParser r)
    (vs_AWGParserCommit r) (vs_Wintun r) (vs_GoVersion r) (vs_SystemRouteState r) (vs_UDPBind r).

(** [w] is the type of the warnings. *)
Record Status (w : Type) := MkStatus {
  st_Service : string;
  st_ConfigPath : string;
  st_Tunnel : TunnelStatus;
  st_Socks5 : SocksStatus;
  st_Versions : VersionStatus;
  st_Warnings : list w;
  st_Uptime : option Z;
}.
Arguments MkStatus {w}.
Arguments st_Service {w}.
Arguments st_ConfigPath {w}.
Arguments st_Tunnel {w}.
Arguments st_Socks5 {w}.
Arguments st_Versions {w}.
Arguments st_Warnings {w}.
Arguments st_Uptime {w}.

#[export] Instance Status_fields {w} : Fields (Status w) := fun r =>
  MkStatus (st_Service r) (st_ConfigPath r) (st_Tunnel r) (st_Socks5 r) (st_Versions r) (st_Warnings r)
    (st_Uptime r).

(** ** Requests and responses *)

Record Request := MkRequest { Command : string }.

Record Response (w : Type) := MkResponse {
  r_OK : bool;
  r_Error : string;
  r_Message : string;
  r_Status : option (Status w);
}.
Arguments MkResponse {w}.
Arguments r_OK {w}.
Arguments r_Error {w}.
Arguments r_Message {w}.
Arguments r_Status {w}.

Definition ok_message {w} (m : string) : Response w := MkResponse true "" m None.
Definition failed {w} (e : string) : Response w := MkResponse false e "" None.

(** What the service promises to the pipe: the [Handler] interface over its state. *)
Class Handler (M w : Type) := {
  h_Status : M -> Status w;
  h_Reload : M -> result string string * M;
  h_Reconnect : M -> option string * M;
  h_StartTunnel : M -> option string * M;
  h_StopTunnel : M -> option string * M;
}.

Section Server.
Context {M w : Type} `{H : !Handler M w}.
Variable quote : string -> string.

(** The case of a command that only says whether it worked. *)
Definition acknowledge (m : string) (r : option string * M) : Response w * M :=
  match r with
  | (Some e, s) => (failed e, s)
  | (None, s) => (ok_message m, s)
  end.

Definition dispatch (req : Request) (s : M) : Response w * M :=
  let c := Command req in
  if bool_decide (c = CmdPing) then (ok_message "pong", s)
  else if bool_decide (c = CmdStatus) then (MkResponse true "" "" (Some (h_Status s)), s)
  else if bool_decide (c = CmdReload) then
    match h_Reload s with
    | (Err e, s) => (failed e, s)
    | (Ok msg, s) => (ok_message (if bool_decide (msg = "") then "configuration reloaded" else msg), s)
    end
  else if bool_decide (c = CmdReconnect) then acknowledge "reconnect triggered" (h_Reconnect s)
  else if bool_decide (c = CmdStart) then acknowledge "tunnel started" (h_StartTunnel s)
  else if bool_decide (c = CmdStop) then acknowledge "tunnel stopped" (h_StopTunnel s)
  else (failed ("unknown command: " +:+ quote c), s).

(** *** The two ends of a call

    [json.Marshal] and [json.Unmarshal] of the two messages, the second with the text of
    its error; a line is read up to its newline, or the read fails. *)
Variable marshal_request : Request -> string.
Variable unmarshal_request : string -> result string Request.
Variable marshal_response : Response w -> option string.
Variable unmarshal_response : string -> option (Response w).

(** [writeResponse]: what is written. *)
Definition writeResponse (r : Response w) : string :=
  default (Join ["{"; "ok"; ":false,"; "error"; ":"; "could not serialise the response"; "}"] (String "034" ""))
    (marshal_response r).

(** [serve] on the line that was read, or on none. *)
Definition serve (line : option string) (s : M) : option string * M :=
  match line with
  | None => (None, s)
  | Some line =>
      match unmarshal_request line with
      | Err e => (Some (writeResponse (failed ("could not parse the request: " +:+ e))), s)
      | Ok req => let '(r, s) := dispatch req s in (Some (writeResponse r), s)
      end
  end.

Inductive call_error := ErrNotRunning | SendFailed | ReadFailed | ParseFailed.

(** [Call], over what the pipe does: whether it connects, whether the write succeeds, and
    whether the line of the response arrives before the deadline. *)
Definition Call (connects writes arrives : bool) (cmd : string) (s : M) : result call_error (Response w) * M :=
  if negb connects then (Err ErrNotRunning, s)
  else if negb writes then (Err SendFailed, s)
  else
    match serve (Some (marshal_request (MkRequest cmd))) s with
    | (None, s) => (Err ReadFailed, s)
    | (Some line, s) =>
        if negb arrives then (Err ReadFailed, s)
        else match unmarshal_response line with
             | None => (Err ParseFailed, s)
             | Some r => (Ok r, s)
             end
    end.
End Server.

(** ** What a caller can rely on *)

Section Dispatch.
Context {M w : Type} `{H : !Handler M w}.

(** A response says what happened: it is positive exactly when the operation of the
    service that the command names succeeded, it carries the operation's own error when
    it failed and its report when there is one, and a command that is not one of the six
    changes nothing and is refused. *)
Theorem dispatch_truthful quote c s :
  let '(r, s') := dispatch quote (MkRequest c) s in
  (c = CmdReload -> s' = (h_Reload s).2 /\
     match (h_Reload s).1 with
     | Ok msg => r_OK r = true /\ (msg <> "" -> r_Message r = msg)
     | Err e => r = failed e
     end) /\
  (forall op, c = CmdReconnect /\ op = h_Reconnect s \/ c = CmdStart /\ op = h_StartTunnel s \/
              c = CmdStop /\ op = h_StopTunnel s ->
     s' = op.2 /\ (r_OK r = true <-> op.1 = None) /\ forall e, op.1 = Some e -> r = failed e) /\
  (c = CmdStatus -> s' = s /\ r_Status r = Some (h_Status s)) /\
  (c ∉ [CmdPing; CmdStatus; CmdReload; CmdReconnect; CmdStart; CmdStop] -> s' = s /\ r_OK r = false).
Proof.
  destruct (dispatch quote (MkRequest c) s) as [r s'] eqn:Hd. unfold dispatch in Hd. cbn [Command] in Hd.
  split_and!.
  - intros ->. cbn in Hd. destruct (h_Reload s) as [[msg|e] s1]; simplify_eq/=; split_and!; try done.
    intros Hm. by rewrite bool_decide_false.
  - intros op [[-> ->]|[[-> ->]|[-> ->]]]; cbn in Hd;
      [destruct (h_Reconnect s) as [[e|] s1]|destruct (h_StartTunnel s) as [[e|] s1]
      |destruct (h_StopTunnel s) as [[e|] s1]]; simplify_eq/=; split_and!; try done; naive_solver.
  - intros ->. cbn in Hd. by simplify_eq/=.
  - intros Hc. repeat (rewrite bool_decide_false in Hd by (intros ->; apply Hc; set_solver)). by simplify_eq/=.
Qed.

(** A call and what it answers.  When the pipe connects and takes the request, the
    service has carried the command out, and the response that arrives is the service's;
    when the response does not arrive, the caller sees a failure although the command
    took effect; in every other case nothing happened. *)
Theorem Call_spec quote mq uq mr ur connects writes arrives c s :
  uq (mq (MkRequest c)) = Ok (MkRequest c) ->
  (exists t, mr (dispatch quote (MkRequest c) s).1 = Some t /\
     ur t = Some (dispatch quote (MkRequest c) s).1) ->
  let '(answer, s') := Call quote mq uq mr ur connects writes arrives c s in
  let '(r, after) := dispatch quote (MkRequest c) s in
  if connects && writes
  then s' = after /\ answer = (if arrives then Ok r else Err ReadFailed)
  else s' = s /\ is_ok answer = false.
Proof.
  intros Hq Hr. unfold Call, serve. rewrite Hq.
  destruct (dispatch quote (MkRequest c) s) as [r after]. simpl in Hr. destruct Hr as (t & Ht & Ht').
  destruct connects; simpl; [|done]. destruct writes; simpl; [|done]. unfold writeResponse.
  rewrite Ht. simpl. rewrite Ht'.
  by destruct arrives.
Qed.
End Dispatch.

(** A service with one switch. *)
#[local] Instance switch_handler : Handler bool string := {|
  h_Status (b : bool) := MkStatus (if b then "running" else "stopped") ""
    (MkTunnelStatus "" "" 0 0 0 0 "" None ∅ "" [] [] [] 0 [] (MkDNSCacheStatus 0 0 0 0) "")
    (MkSocksStatus "" false 0 0 0 0 0 0 0 0 false 0 0 0 0 0 0) (MkVersionStatus "" "" "" "" "" "" "" "" "") [] None;
  h_Reload (b : bool) := (Err "cannot", b);
  h_Reconnect (b : bool) := (if b then None else Some "off", b);
  h_StartTunnel (b : bool) := (None, true);
  h_StopTunnel (b : bool) := (None, false);
|}.

Lemma Call_spec_witness :
  let codec := ok_message (w := string) "tunnel stopped" in
  Call (w := string) id Command (fun t => Ok (MkRequest t)) (fun _ => Some "ok") (fun _ => Some codec) true true true CmdStop true
  = (Ok codec, false).
Proof.
  intros codec.
  pose proof (Call_spec (w := string) id Command (fun t => Ok (MkRequest t)) (fun _ => Some "ok") (fun _ => Some codec)
    true true true CmdStop true eq_refl (ex_intro _ "ok" (conj eq_refl eq_refl))) as H.
  match type of H with (let (_, _) := ?x in _) => destruct x as [answer s1] end. simpl in H. by destruct H as [-> ->].
Defined.
