(* ===== verification/PipeServer.v ===== *)
(** The management pipe's server: [Server], [Start], [acceptLoop], [serve] and [Stop] of
    src/internal/ipc/server_windows.go as one machine.

    The accept loop, one goroutine per connection and [Stop] run at once; their atomic
    sections are the steps.  What a request calls on the service is an operation of many
    steps of its own ([Service]), so that the operations of two connections interleave with
    each other and with what the service does by itself, as the goroutines of the code do.
    The server has no lock around them: it promises nothing about their order. *)

From S2P Require Import Prelude GoStrings GoErrors Ipc.

(** ** The service *)

(** The calls on the [Handler], and what each returns. *)
Inductive handler_call := CallStatus | CallReload | CallReconnect | CallStart | CallStop.

Definition outcome (w : Type) (k : handler_call) : Type :=
  match k with
  | CallStatus => Status w
  | CallReload => result string string
  | _ => option string
  end.

(** A service that carries out several calls at once: an operation in progress, the steps
    that it takes on the state of the service, its outcome once it has one; and the steps
    that the service takes by itself. *)
Class Service (M w : Type) := {
  op : handler_call -> Type;
  op_begin k : op k;
  op_step k : op k -> M -> op k -> M -> Prop;
  op_result k : op k -> option (outcome w k);
  own_step : M -> M -> Prop;
}.

(** ** State *)

Inductive pipe_loop := LoopIdle | LoopAccepting | LoopEnded.

Inductive pipe_stop := StopNone | StopSwapped | StopTaken (had : bool) | StopClosed | StopDone.

(** Where the goroutine of a connection is: it reads the request; the call that it asked
    for is in progress; the response is about to be written; it returns from [serve]; the
    connection is closed. *)
Inductive conn_pc {M w : Type} `{S : !Service M w} :=
| ConnReading
| ConnRunning (k : handler_call) (o : op k)
| ConnAnswering (r : Response w)
| ConnClosing
| ConnClosed.
Arguments conn_pc M w {S}.

(** What happens on a connection: a line is read, with the request on it or why it did not
    parse; the call returns; the response is written, or its write is attempted. *)
Inductive pipe_event (w : Type) :=
| Asked (q : result string Request)
| Returned (k : handler_call) (o : outcome w k)
| Answered (r : Response w).
Arguments Asked {w}.
Arguments Returned {w}.
Arguments Answered {w}.

(** [ps_ln] is the field [ln], [ps_open] the pipe itself; [ps_serving] the goroutines of
    connections, [ps_conns] the connections that are open; [ps_events] what has happened,
    with the connection; [ps_state] is the service behind the [Handler]. *)
Record PipeServer (M w : Type) `{S : !Service M w} := MkPipeServer {
  ps_ln : bool;
  ps_open : bool;
  ps_closing : bool;
  ps_loop : pipe_loop;
  ps_serving : gmap nat (conn_pc M w);
  ps_conns : gset nat;
  ps_accepted : gset nat;
  ps_stop : pipe_stop;
  ps_events : list (nat * pipe_event w);
  ps_state : M;
}.
Arguments MkPipeServer {M w S}.
Arguments ps_ln {M w S}.
Arguments ps_open {M w S}.
Arguments ps_closing {M w S}.
Arguments ps_loop {M w S}.
Arguments ps_serving {M w S}.
Arguments ps_conns {M w S}.
Arguments ps_accepted {M w S}.
Arguments ps_stop {M w S}.
Arguments ps_events {M w S}.
Arguments ps_state {M w S}.

#[export] Instance PipeServer_fields {M w} `{S : !Service M w} : Fields (PipeServer M w) := fun r =>
  MkPipeServer (ps_ln r) (ps_open r) (ps_closing r) (ps_loop r) (ps_serving r) (ps_conns r) (ps_accepted r)
    (ps_stop r) (ps_events r) (ps_state r).

(** *** Dispatch

    The cases of [dispatch]: the call of a command, the response to what it returned, and
    the response to a command that calls nothing. *)
Definition call_of (c : string) : option handler_call :=
  if bool_decide (c = CmdPing) then None
  else if bool_decide (c = CmdStatus) then Some CallStatus
  else if bool_decide (c = CmdReload) then Some CallReload
  else if bool_decide (c = CmdReconnect) then Some CallReconnect
  else if bool_decide (c = CmdStart) then Some CallStart
  else if bool_decide (c = CmdStop) then Some CallStop
  else None.

Definition told_done {w} (m : string) (e : option string) : Response w :=
  match e with Some e => failed e | None => ok_message m end.

Definition respond {w} (k : handler_call) : outcome w k -> Response w :=
  match k with
  | CallStatus => fun st => MkResponse true "" "" (Some st)
  | CallReload => fun r =>
      match r with
      | Err e => failed e
      | Ok msg => ok_message (if bool_decide (msg = "") then "configuration reloaded" else msg)
      end
  | CallReconnect => told_done "reconnect triggered"
  | CallStart => told_done "tunnel started"
  | CallStop => told_done "tunnel stopped"
  end.

Definition plain_answer {w} (quote : string -> string) (c : string) : Response w :=
  if bool_decide (c = CmdPing) then ok_message "pong" else failed ("unknown command: " +:+ quote c).

Definition unparsed {w} (e : string) : Response w := failed ("could not parse the request: " +:+ e).

Section Pipe.
Context {M w : Type} `{S : !Service M w}.
Variable quote : string -> string.

Abbreviation PipeServer := (PipeServer M w).

Definition NewServer (m : M) : PipeServer := MkPipeServer false false false LoopIdle ∅ ∅ ∅ StopNone [] m.

(** [Start], with what [winio.ListenPipe] answers. *)
Definition Start_pipe (listens : bool) (s : PipeServer) : result error unit * PipeServer :=
  if listens then (Ok tt, s <| ps_ln := true |> <| ps_open := true |> <| ps_loop := LoopAccepting |>)
  else (Err (EMsg "could not open the management pipe"), s).

(** The goroutine of [c] goes on at [pc]. *)
Definition at_pc (c : nat) (pc : conn_pc M w) (s : PipeServer) : PipeServer := s <| ps_serving ::= <[c := pc]> |>.

Definition note (c : nat) (e : pipe_event w) (s : PipeServer) : PipeServer := s <| ps_events ::= (fun l => l ++ [(c, e)]) |>.

(** Where [serve] is once it has read a line. *)
Definition after_read (q : result string Request) : conn_pc M w :=
  match q with
  | Err e => ConnAnswering (unparsed e)
  | Ok req =>
      match call_of (Command req) with
      | Some k => ConnRunning k (op_begin k)
      | None => ConnAnswering (plain_answer quote (Command req))
      end
  end.

(** [wg.Wait]: the accept loop and the goroutines of the connections have ended. *)
Definition pipe_quiet (s : PipeServer) : Prop := ps_loop s <> LoopAccepting /\ ps_serving s = ∅.

(** [ps_accept]: [Accept] gives a connection; [ps_accept_error]: it fails, as it does once
    the pipe is closed.  A connection's goroutine: [ps_read] reads a line, [ps_unread] does
    not get one before the error or the deadline, [ps_call] takes a step of the call,
    [ps_return] returns from it, [ps_write] writes the response; [ps_close] and
    [ps_wg_done] are its two deferred calls.  [ps_own] is the rest of the service.  [Stop]
    takes the other steps; a second one returns at once and changes nothing. *)
Inductive pstep : PipeServer -> PipeServer -> Prop :=
| ps_accept c s : ps_loop s = LoopAccepting -> ps_open s = true -> c ∉ ps_accepted s ->
    pstep s (at_pc c ConnReading (s <| ps_accepted ::= union {[c]} |> <| ps_conns ::= union {[c]} |>))
| ps_accept_error s : ps_loop s = LoopAccepting -> pstep s (s <| ps_loop := LoopEnded |>)
| ps_read c q s : ps_serving s !! c = Some ConnReading -> pstep s (at_pc c (after_read q) (note c (Asked q) s))
| ps_unread c s : ps_serving s !! c = Some ConnReading -> pstep s (at_pc c ConnClosing s)
| ps_call c k o o' m s : ps_serving s !! c = Some (ConnRunning k o) -> op_step k o (ps_state s) o' m ->
    pstep s (at_pc c (ConnRunning k o') (s <| ps_state := m |>))
| ps_return c k o r s : ps_serving s !! c = Some (ConnRunning k o) -> op_result k o = Some r ->
    pstep s (at_pc c (ConnAnswering (respond k r)) (note c (Returned k r) s))
| ps_write c r s : ps_serving s !! c = Some (ConnAnswering r) -> pstep s (at_pc c ConnClosing (note c (Answered r) s))
| ps_close c s : ps_serving s !! c = Some ConnClosing -> pstep s (at_pc c ConnClosed (s <| ps_conns ::= (.∖ {[c]}) |>))
| ps_wg_done c s : ps_serving s !! c = Some ConnClosed -> pstep s (s <| ps_serving ::= delete c |>)
| ps_own m s : own_step (ps_state s) m -> pstep s (s <| ps_state := m |>)
| ps_swap s : ps_closing s = false -> ps_stop s = StopNone -> pstep s (s <| ps_closing := true |> <| ps_stop := StopSwapped |>)
| ps_take s : ps_stop s = StopSwapped -> pstep s (s <| ps_ln := false |> <| ps_stop := StopTaken (ps_ln s) |>)
| ps_close_pipe had s : ps_stop s = StopTaken had -> pstep s (s <| ps_open := (if had then false else ps_open s) |> <| ps_stop := StopClosed |>)
| ps_wait s : ps_stop s = StopClosed -> pipe_quiet s -> pstep s (s <| ps_stop := StopDone |>).

Definition pruns : PipeServer -> PipeServer -> Prop := rtc pstep.

(** ** Invariant *)

(** A whole conversation. *)
Inductive talk : list (pipe_event w) -> Prop :=
| talk_unparsed e : talk [Asked (Err e); Answered (unparsed e)]
| talk_plain req : call_of (Command req) = None -> talk [Asked (Ok req); Answered (plain_answer quote (Command req))]
| talk_call req k r : call_of (Command req) = Some k ->
    talk [Asked (Ok req); Returned k r; Answered (respond k r)].

Definition events_of (c : nat) (s : PipeServer) : list (pipe_event w) := (filter (fun x => x.1 = c) (ps_events s)).*2.

(** What has happened on a connection, by where its goroutine is. *)
Definition talked (pc : option (conn_pc M w)) (l : list (pipe_event w)) : Prop :=
  match pc with
  | Some ConnReading => l = []
  | Some (ConnRunning k _) => exists req, call_of (Command req) = Some k /\ l = [Asked (Ok req)]
  | Some (ConnAnswering r) => talk (l ++ [Answered r])
  | Some ConnClosing | Some ConnClosed | None => l = [] \/ talk l
  end.

Definition is_open (pc : option (conn_pc M w)) : bool :=
  match pc with Some ConnClosed | None => false | Some _ => true end.

Record pinv (s : PipeServer) : Prop := {
  pi_conns c : c ∈ ps_conns s <-> is_open (ps_serving s !! c) = true;
  pi_accepted c : c ∉ ps_accepted s -> ps_serving s !! c = None /\ events_of c s = [];
  pi_talked c : talked (ps_serving s !! c) (events_of c s);
  pi_ln : match ps_stop s with
          | StopNone | StopSwapped => ps_ln s = ps_open s
          | StopTaken had => ps_ln s = false /\ ps_open s = had
          | StopClosed | StopDone => ps_ln s = false /\ ps_open s = false
          end;
  pi_done : ps_stop s = StopDone -> pipe_quiet s;
}.

Lemma events_note c d e s : events_of d (note c e s) = events_of d s ++ (if decide (c = d) then [e] else []).
Proof.
  unfold events_of, note. simpl. rewrite filter_app, fmap_app. f_equal.
  destruct (decide (c = d)) as [->|Hn]; [by rewrite filter_cons_True|by rewrite filter_cons_False].
Qed.

(** A goroutine of a connection goes on: what it must respect. *)
Lemma pinv_conn c pc pc' es s s' :
  pinv s -> ps_serving s !! c = Some pc -> talked (Some pc') (events_of c s ++ es) ->
  ps_serving s' = <[c := pc']> (ps_serving s) ->
  (forall d, events_of d s' = events_of d s ++ (if decide (c = d) then es else [])) ->
  (forall d, d ∈ ps_conns s' <-> if decide (c = d) then is_open (Some pc') = true else d ∈ ps_conns s) ->
  ps_accepted s' = ps_accepted s -> ps_stop s' = ps_stop s -> ps_ln s' = ps_ln s -> ps_open s' = ps_open s ->
  pinv s'.
Proof.
  intros [I1 I2 I3 I4 I5] Hpc Ht Hs He Hc Ha Hst Hl Ho. split; rewrite ?Ha, ?Hst, ?Hl, ?Ho; try done.
  - intros d. rewrite Hc, Hs. destruct (decide (c = d)) as [<-|Hn]; [by rewrite lookup_insert_eq|]. by rewrite lookup_insert_ne.
  - intros d Hd. destruct (I2 d Hd) as [Hn Hev]. assert (c <> d) as Hcd by congruence.
    rewrite Hs, He, lookup_insert_ne, decide_False by done. by rewrite Hev.
  - intros d. rewrite Hs, He. destruct (decide (c = d)) as [<-|Hn]; [by rewrite lookup_insert_eq|].
    rewrite lookup_insert_ne by done. by rewrite app_nil_r.
  - intros Hd. destruct (I5 Hd) as [_ Hq]. by rewrite Hq in Hpc.
Qed.

Lemma talked_read q : talked (Some (after_read q)) ([] ++ [Asked q]).
Proof.
  destruct q as [req|e]; simpl; [|constructor]. destruct (call_of (Command req)) as [k|] eqn:Hk; simpl; [by exists req|by constructor].
Qed.

(** A step that leaves the connections alone. *)
Lemma pinv_frame s s' : pinv s -> ps_serving s' = ps_serving s -> ps_conns s' = ps_conns s -> ps_accepted s' = ps_accepted s ->
  ps_events s' = ps_events s ->
  match ps_stop s' with
  | StopNone | StopSwapped => ps_ln s' = ps_open s'
  | StopTaken had => ps_ln s' = false /\ ps_open s' = had
  | StopClosed | StopDone => ps_ln s' = false /\ ps_open s' = false
  end -> (ps_stop s' = StopDone -> pipe_quiet s') -> pinv s'.
Proof.
  intros [I1 I2 I3 I4 I5] H1 H2 H3 H4 H5 H6. split; unfold events_of in *; rewrite ?H1, ?H2, ?H3, ?H4; done.
Qed.

(** A goroutine that goes on with its connection open, and with [es] happening there. *)
Lemma pinv_goes_on c pc pc' es s s' :
  pinv s -> ps_serving s !! c = Some pc -> is_open (Some pc) = true -> is_open (Some pc') = true ->
  talked (Some pc') (events_of c s ++ es) -> ps_serving s' = <[c := pc']> (ps_serving s) ->
  ps_events s' = ps_events s ++ ((fun e => (c, e)) <$> es) -> (length es <= 1)%nat ->
  (ps_conns s', ps_accepted s', ps_stop s', ps_ln s', ps_open s') = (ps_conns s, ps_accepted s, ps_stop s, ps_ln s, ps_open s) ->
  pinv s'.
Proof.
  intros I Hc Ho Ho' Ht Hs He Hl [= H1 H2 H3 H4 H5]. apply (pinv_conn c pc pc' es s s'); try done.
  - intros d. unfold events_of. rewrite He, filter_app, fmap_app. f_equal. destruct es as [|e [|? ?]]; simpl in Hl; try lia.
    + by case_decide.
    + cbn. by destruct (decide (c = d)).
  - intros d. rewrite H1. destruct (decide (c = d)) as [<-|]; [|done]. rewrite (pi_conns s I), Hc. by rewrite Ho, Ho'.
Qed.

Lemma pinv_call c k o o' m s : pinv s -> ps_serving s !! c = Some (ConnRunning k o) ->
  pinv (at_pc c (ConnRunning k o') (s <| ps_state := m |>)).
Proof.
  intros I Hc. pose proof (pi_talked s I c) as Ht. rewrite Hc in Ht.
  apply (pinv_goes_on c (ConnRunning k o) (ConnRunning k o') [] s); try done; simpl; [|by rewrite app_nil_r|lia].
  by rewrite app_nil_r.
Qed.

Lemma pinv_accept c s : pinv s -> c ∉ ps_accepted s -> ps_stop s <> StopDone ->
  pinv (at_pc c ConnReading (s <| ps_accepted ::= union {[c]} |> <| ps_conns ::= union {[c]} |>)).
Proof.
  intros [I1 I2 I3 I4 I5] Hc Hd. destruct (I2 c Hc) as [Hn He]. split; simpl; try done.
  - intros d. destruct (decide (c = d)) as [<-|Hcd]; [rewrite lookup_insert_eq; set_solver|].
    rewrite lookup_insert_ne by done. rewrite <-I1. set_solver.
  - intros d Hd'. assert (c <> d) by set_solver. rewrite lookup_insert_ne by done. apply I2. set_solver.
  - intros d. destruct (decide (c = d)) as [<-|Hcd]; [by rewrite lookup_insert_eq|]. rewrite lookup_insert_ne by done. apply I3.
Qed.

Lemma pinv_close c s : pinv s -> ps_serving s !! c = Some ConnClosing ->
  pinv (at_pc c ConnClosed (s <| ps_conns ::= (.∖ {[c]}) |>)).
Proof.
  intros I Hc. pose proof (pi_talked s I c) as Ht. rewrite Hc in Ht.
  apply (pinv_conn c ConnClosing ConnClosed [] s); try done; simpl.
  - by rewrite app_nil_r.
  - intros d. unfold events_of. simpl. case_decide; by rewrite app_nil_r.
  - intros d. case_decide; set_solver.
Qed.

Lemma pinv_wg_done c s : pinv s -> ps_serving s !! c = Some ConnClosed -> pinv (s <| ps_serving ::= delete c |>).
Proof.
  intros [I1 I2 I3 I4 I5] Hc. split; simpl; try done.
  - intros d. rewrite I1. destruct (decide (c = d)) as [<-|Hcd]; [by rewrite lookup_delete_eq, Hc|by rewrite lookup_delete_ne].
  - intros d Hd. destruct (I2 d Hd) as [Hn He]. split; [|done]. destruct (decide (c = d)) as [<-|Hcd];
      [by rewrite lookup_delete_eq|by rewrite lookup_delete_ne].
  - intros d. specialize (I3 d). change (events_of d _) with (events_of d s).
    destruct (decide (c = d)) as [<-|Hcd]; [rewrite lookup_delete_eq; by rewrite Hc in I3|by rewrite lookup_delete_ne].
  - intros Hd. destruct (I5 Hd) as [Hl Hq]. by rewrite Hq in Hc.
Qed.

Lemma pstep_inv s s' : pinv s -> pstep s s' -> pinv s'.
Proof.
  intros I Hs. pose proof (pi_talked s I) as Ht. pose proof (pi_ln s I) as Hln. pose proof (pi_done s I) as Hdn.
  destruct Hs as [c s Hl Ho Hc|s Hl|c q s Hc|c s Hc|c k o o' m s Hc Hop|c k o r s Hc Hr|c r s Hc|c s Hc|c s Hc|m s Hm|s Hc Hst|s Hst|had s Hst|s Hst Hq];
    try (specialize (Ht c); rewrite Hc in Ht; simpl in Ht); try rewrite Hst in Hln.
  - apply pinv_accept; [done..|]. intros Hd. by destruct (Hdn Hd).
  - apply (pinv_frame s); try done. intros Hd. by destruct (Hdn Hd).
  - apply (pinv_goes_on c ConnReading (after_read q) [Asked q] s); try done; [|rewrite Ht; apply talked_read].
    destruct q as [req|e]; [|done]. simpl. by destruct (call_of _).
  - apply (pinv_goes_on c ConnReading ConnClosing [] s); try done; simpl; [|by rewrite app_nil_r|lia]. rewrite Ht. by left.
  - by apply (pinv_call c k o).
  - destruct Ht as (req & Hk & Ht). apply (pinv_goes_on c (ConnRunning k o) (ConnAnswering (respond k r)) [Returned k r] s); try done.
    rewrite Ht. by constructor.
  - apply (pinv_goes_on c (ConnAnswering r) ConnClosing [Answered r] s); try done. by right.
  - by apply pinv_close.
  - by apply pinv_wg_done.
  - by apply (pinv_frame s).
  - by apply (pinv_frame s).
  - by apply (pinv_frame s).
  - apply (pinv_frame s); try done. simpl. destruct Hln as [Hn Ho]. split; [done|]. by destruct had.
  - by apply (pinv_frame s).
Qed.

Lemma pinv_start m : pinv (Start_pipe true (NewServer m)).2.
Proof. split; simpl; try done; intros c. rewrite lookup_empty. set_solver. Qed.

Lemma pruns_inv s s' : pinv s -> pruns s s' -> pinv s'.
Proof. intros I Hr. induction Hr as [|s0 s1 s2 Hs Hr IH]; [done|]. apply IH. by eapply pstep_inv. Qed.

(** C35: the management pipe, in every interleaving of its accept loop, its connections
    with the calls that they make on the service, what the service does by itself, and
    [Stop].  What happens on each connection is, as far as it has come, one conversation:
    a line that does not parse is refused, a command that calls nothing is answered, and
    any other makes one call and, once that has returned, is answered with what it
    returned; no connection has a second request or a second answer.  A connection is open
    until its conversation is over.  When [Stop] has returned, the pipe is closed, the
    accept loop has ended, no connection is open and no call is still running: every
    connection either never sent a request or has had its answer written; and the server
    does nothing any more.  The order of overlapping calls is the service's own. *)
Theorem pipe_serves m s :
  pruns (Start_pipe true (NewServer m)).2 s ->
  (forall c, talked (ps_serving s !! c) (events_of c s) /\ (c ∈ ps_conns s <-> is_open (ps_serving s !! c) = true)) /\
  (ps_stop s = StopDone ->
     ps_open s = false /\ ps_loop s <> LoopAccepting /\ ps_conns s = ∅ /\ ps_serving s = ∅ /\
     (forall c, events_of c s = [] \/ talk (events_of c s)) /\
     forall s', pstep s s' -> exists m', own_step (ps_state s) m' /\ s' = s <| ps_state := m' |>).
Proof.
  intros Hr. destruct (pruns_inv _ _ (pinv_start m) Hr) as [I1 I2 I3 I4 I5]. split_and!.
  - intros c. split; [apply I3|apply I1].
  - intros Hd. rewrite Hd in I4. destruct (I5 Hd) as [Hl He], I4 as [_ Ho].
    assert (ps_conns s = ∅) as Hcs by (apply set_eq; intros c; rewrite I1, He, lookup_empty; set_solver).
    split_and!; try done.
    + intros c. specialize (I3 c). by rewrite He, lookup_empty in I3.
    + intros s' Hs. destruct Hs; try congruence;
        try (match goal with H : ps_serving _ !! _ = Some _ |- _ => by rewrite He in H end). by eexists.
Qed.

(** [Stop] does not only wait for requests: a client that has connected and sends nothing
    holds it until that connection's own deadline. *)
Lemma Stop_waits_for_idle s s' c : ps_serving s !! c = Some ConnReading -> ps_stop s = StopClosed -> pstep s s' ->
  ps_stop s' = StopClosed.
Proof.
  intros Hc Hs Hst. destruct Hst as [| | | | | | | | | | | | |s Hst [_ He]]; simpl; try congruence. by rewrite He in Hc.
Qed.
End Pipe.

(** ** Calls carried out at once *)

Section AtOnce.
Context {M w : Type} `{H : !Handler M w}.

Definition handled (k : handler_call) (m : M) : outcome w k * M :=
  match k with
  | CallStatus => (h_Status m, m)
  | CallReload => h_Reload m
  | CallReconnect => h_Reconnect m
  | CallStart => h_StartTunnel m
  | CallStop => h_StopTunnel m
  end.

(** A request whose call is carried out at once is what [dispatch] of Ipc.v says. *)
Lemma dispatch_at_once quote req (m : M) :
  dispatch quote req m =
  match call_of (Command req) with
  | Some k => let '(o, m') := handled k m in (respond k o, m')
  | None => (plain_answer quote (Command req), m)
  end.
Proof.
  unfold dispatch, call_of, plain_answer.
  case_bool_decide as Hp; [done|]. case_bool_decide; [done|].
  case_bool_decide; [cbn; by destruct (h_Reload m) as [[?|?] ?]|].
  case_bool_decide; [cbn; by destruct (h_Reconnect m) as [[?|] ?]|].
  case_bool_decide; [cbn; by destruct (h_StartTunnel m) as [[?|] ?]|].
  case_bool_decide; [cbn; by destruct (h_StopTunnel m) as [[?|] ?]|done].
Qed.

(** The service whose calls take one step each. *)
Definition at_once : Service M w := {|
  op k := option (outcome w k);
  op_begin k := None;
  op_step k o m o' m' := o = None /\ o' = Some (handled k m).1 /\ m' = (handled k m).2;
  op_result k o := o;
  own_step _ _ := False;
|}.
End AtOnce.

(** A service with one switch.  One client asks to start it and, before that is carried
    out, another to stop it; the second call is the first one to take effect, and [Stop]
    waits for both. *)
#[local] Existing Instance switch_handler.
#[local] Instance switch_service : Service bool string := at_once.

Tactic Notation "go" uconstr(rule) := eapply rtc_l; [eapply rule; first [reflexivity|by repeat split|set_solver|by vm_compute]|].

Lemma pipe_serves_witness :
  exists s : PipeServer bool string, pruns id (Start_pipe true (NewServer false)).2 s /\ ps_stop s = StopDone /\
    ps_state s = true /\ ps_conns s = ∅ /\
    events_of 0 s = [Asked (Ok (MkRequest CmdStart)); Returned CallStart None; Answered (ok_message "tunnel started")] /\
    (events_of 1 s = [] \/ talk id (events_of 1 s)).
Proof.
  assert (exists s, pruns id (Start_pipe true (NewServer false)).2 s /\ ps_stop s = StopDone /\ ps_state s = true /\
    events_of 0 s = [Asked (Ok (MkRequest CmdStart)); Returned CallStart None; Answered (ok_message "tunnel started")])
    as (s & Hr & Hd & Hs & He).
  { eexists. split.
    - go (ps_accept id 0%nat). go (ps_accept id 1%nat). go (ps_read id 0%nat (Ok (MkRequest CmdStart))).
      go (ps_read id 1%nat (Ok (MkRequest CmdStop))). go (ps_swap id). go (ps_call id 1%nat CallStop).
      go (ps_call id 0%nat CallStart). go (ps_return id 0%nat CallStart).
      go (ps_take id). go (ps_return id 1%nat CallStop). go (ps_write id 1%nat).
      go (ps_close id 1%nat). go (ps_wg_done id 1%nat). go (ps_close_pipe id true).
      go (ps_write id 0%nat). go (ps_close id 0%nat). go (ps_accept_error id).
      go (ps_wg_done id 0%nat). eapply rtc_l; [apply ps_wait; [by vm_compute|split; [done|by vm_compute]]|]. apply rtc_refl.
    - split_and!; by vm_compute. }
  destruct (pipe_serves id false s Hr) as [_ H]. destruct (H Hd) as (_ & _ & Hc & _ & Ht & _).
  exists s. by split_and!.
Defined.
