(* ===== verification/NetWatch.v ===== *)
(** src/internal/winsys/netchange_windows.go: the notification of address changes.  A
    watcher hands Windows a callback, which reaches the watcher through a variable of the
    package; a burst of changes leaves one token in its channel. *)

From S2P Require Import Prelude.

(** ** State *)

(** [NetworkWatcher]: registered, and the token of [events], which has room for one. *)
Record watcher := MkWatcher { w_started : bool; w_token : bool }.

#[export] Instance watcher_fields : Fields watcher := fun r => MkWatcher (w_started r) (w_token r).

(** The watchers of the process, and [watcherCh]: whose channel the callback sends to. *)
Record watching := MkWatching { n_watchers : gmap nat watcher; n_channel : option nat }.

#[export] Instance watching_fields : Fields watching := fun r => MkWatching (n_watchers r) (n_channel r).

Definition NewNetworkWatcher (i : nat) (n : watching) : watching := n <| n_watchers ::= insert i (MkWatcher false false) |>.

(** [Start], with whether the function is there and whether Windows takes the callback. *)
Definition Start_watcher (found taken : bool) (i : nat) (n : watching) : bool * watching :=
  match n_watchers n !! i with
  | None => (false, n)
  | Some w =>
      if w_started w then (true, n)
      else if negb found then (false, n)
      else
        let n := n <| n_channel := Some i |> in
        if negb taken then (false, n)
        else (true, n <| n_watchers ::= insert i (w <| w_started := true |>) |>)
  end.

Definition Stop_watcher (i : nat) (n : watching) : watching :=
  match n_watchers n !! i with
  | None => n
  | Some w =>
      if negb (w_started w) then n
      else n <| n_watchers ::= insert i (w <| w_started := false |>) |> <| n_channel := None |>
  end.

(** The callback, which does not block, and what Windows does when an address changes: it
    calls the callback of every registration. *)
Definition callback (n : watching) : watching :=
  match n_channel n with
  | None => n
  | Some i => n <| n_watchers ::= alter (set_field w_token (fun _ => true)) i |>
  end.

Definition registered (n : watching) : nat := size (filter (fun p => w_started p.2 = true) (n_watchers n)).

Definition address_change (n : watching) : watching := Nat.iter (registered n) callback n.

(** A receive from [Events], when there is a token. *)
Definition receive (i : nat) (n : watching) : option watching :=
  match n_watchers n !! i with
  | Some w => if w_token w then Some (n <| n_watchers ::= insert i (w <| w_token := false |>) |>) else None
  | None => None
  end.

(** ** One watcher *)

Section One.
Variable i : nat.

(** What the service does with its watcher, and whether a change is due to it: one has
    happened while it was registered, and it has not been told since. *)
Inductive nstep : watching * bool -> watching * bool -> Prop :=
| ns_start found taken n d : nstep (n, d) ((Start_watcher found taken i n).2, d)
| ns_stop n d : nstep (n, d) (Stop_watcher i n, d)
| ns_change n d w : n_watchers n !! i = Some w -> nstep (n, d) (address_change n, d || w_started w)
| ns_receive n n' d : receive i n = Some n' -> nstep (n, d) (n', false).

Definition watch_inv (s : watching * bool) : Prop :=
  exists w, n_watchers s.1 = {[i := w]} /\ (w_started w = true -> n_channel s.1 = Some i) /\
    (n_channel s.1 = None \/ n_channel s.1 = Some i) /\ (s.2 = true -> w_token w = true).

Lemma callback_own n w : n_watchers n = {[i := w]} -> n_channel n = Some i ->
  callback n = n <| n_watchers := {[i := w <| w_token := true |>]} |>.
Proof. intros Hw Hc. unfold callback. rewrite Hc. destruct n as [ws c]. simpl in *. subst. by rewrite alter_singleton_eq. Qed.

Lemma address_change_own n w : n_watchers n = {[i := w]} ->
  (w_started w = true -> n_channel n = Some i) ->
  address_change n = if w_started w then n <| n_watchers := {[i := w <| w_token := true |>]} |> else n.
Proof.
  intros Hw Hc. unfold address_change, registered. rewrite Hw. destruct (w_started w) eqn:Hs.
  - rewrite map_filter_singleton_True by done. rewrite map_size_singleton. simpl. by apply callback_own, Hc.
  - rewrite map_filter_singleton_False by (simpl; congruence). by rewrite map_size_empty.
Qed.

Lemma nstep_inv s s' : watch_inv s -> nstep s s' -> watch_inv s'.
Proof.
  intros (w & Hw & Hc & Hch & Hd) Hs. destruct Hs as [found taken n d|n d|n d w' Hw'|n n' d Hr]; cbn [fst snd] in *.
  - unfold Start_watcher. rewrite Hw, lookup_singleton_eq. destruct (w_started w) eqn:Hst; [exists w; rewrite Hst; by split_and!|].
    destruct found; cbn [negb]; [|exists w; rewrite Hst; by split_and!].
    destruct taken; cbn [negb fst snd]; [|exists w; rewrite Hst; split_and!; try done; by right].
    exists (w <| w_started := true |>). split_and!; try done; [|by right]. simpl. by rewrite Hw, insert_singleton_eq.
  - unfold Stop_watcher. rewrite Hw, lookup_singleton_eq. destruct (w_started w) eqn:Hst; cbn [negb]; [|exists w; rewrite Hst; by split_and!].
    exists (w <| w_started := false |>). split_and!; try done; [|by left]. simpl. by rewrite Hw, insert_singleton_eq.
  - rewrite Hw, lookup_singleton_eq in Hw'. injection Hw' as <-. rewrite (address_change_own n w) by done.
    destruct (w_started w) eqn:Hst.
    + exists (w <| w_token := true |>). split_and!; try done. intros _. by apply Hc.
    + exists w. rewrite orb_false_r, Hst. by split_and!.
  - unfold receive in Hr. rewrite Hw, lookup_singleton_eq in Hr. destruct (w_token w); [|done]. injection Hr as <-.
    exists (w <| w_token := false |>). split_and!; try done. simpl. by rewrite Hw, insert_singleton_eq.
Qed.

(** No address change is lost and bursts collapse.  Whatever the order of starts,
    failed starts, stops, changes and receives of a watcher, as long as it is the only one:
    when a change is due to it there is a token in its channel, so that a receive does not
    wait, and after that receive nothing is due. *)
Theorem no_change_lost n d : rtc nstep (NewNetworkWatcher i (MkWatching ∅ None), false) (n, d) ->
  (d = true -> exists n', receive i n = Some n' /\ nstep (n, d) (n', false)) /\
  forall w, n_watchers n !! i = Some w -> w_started w = true -> n_channel n = Some i.
Proof.
  intros Hr. assert (watch_inv (n, d)) as (w & Hw & Hc & _ & Hd).
  { remember (NewNetworkWatcher i (MkWatching ∅ None), false) as s0 eqn:E. remember (n, d) as s1 eqn:E1.
    assert (watch_inv s0) as I by (subst; exists (MkWatcher false false); split_and!; try done; by left).
    clear E E1. induction Hr as [|s0 s1 s2 Hs Hr IH]; [done|]. apply IH. by eapply nstep_inv. }
  cbn [fst snd] in *. split.
  - intros Hdue. specialize (Hd Hdue). assert (exists n', receive i n = Some n') as [n' Hn'].
    { unfold receive. rewrite Hw, lookup_singleton_eq, Hd. by eexists. }
    exists n'. split; [done|]. by apply ns_receive.
  - intros w'. rewrite Hw, lookup_singleton_eq. by intros [= <-].
Qed.
End One.

(** The one who is told is kept per process, not per watcher: when a watcher is stopped
    after another was started, the other hears of no change any more. *)
Lemma Stop_deafens_another :
  let n := (Start_watcher true true 1 (NewNetworkWatcher 1 (Start_watcher true true 0 (NewNetworkWatcher 0 (MkWatching ∅ None))).2)).2 in
  let n := address_change (Stop_watcher 0 n) in
  w_started <$> n_watchers n !! 1%nat = Some true /\ receive 1 n = None.
Proof. by vm_compute. Qed.

Lemma no_change_lost_witness :
  let n := address_change (Start_watcher true true 0 (NewNetworkWatcher 0 (MkWatching ∅ None))).2 in
  exists n', receive 0 n = Some n'.
Proof.
  intros n. assert (rtc (nstep 0) (NewNetworkWatcher 0 (MkWatching ∅ None), false) (n, true)) as Hr.
  { eapply rtc_l; [apply (ns_start 0 true true)|]. eapply rtc_l; [|apply rtc_refl].
    apply (ns_change 0 _ false (MkWatcher true false)). by vm_compute. }
  destruct (no_change_lost 0 n true Hr) as [Hd _]. destruct (Hd eq_refl) as (n' & Hn' & _). exists n'. exact Hn'.
Defined.
