(* ===== verification/HostConflict.v ===== *)
(** src/internal/service/conflict.go: the sign that the tunnel's own configuration is
    connected through another client, a Windows adapter that holds one of its
    addresses.

    What the operating system reports of its adapters is a parameter: a list of
    [Interface]s, each with its flags and what its [Addrs] call returns. *)

From S2P Require Import Prelude GoBytes GoNetip.

Record hostAddress := MkHostAddress { Adapter : string; h_addr : Addr }.

#[global] Instance hostAddress_eq_dec : EqDecision hostAddress.
Proof. solve_decision. Defined.

(** [hostAddress.String]; [quote] is [strconv.Quote], which %q prints with. *)
Definition hostAddress_String (quote : string -> string) (h : hostAddress) : string :=
  quote (Adapter h) +:+ " (" +:+ Addr_String (h_addr h) +:+ ")".

(** What [net.Interface.Addrs] returns of an address: a [*net.IPNet] with the bytes of
    its [IP], or something else. *)
Inductive adapter_addr := IPNet (ip : list byte) | OtherAddr.

Record Interface := MkInterface {
  if_name : string;
  if_up : bool;
  if_addrs : option (list adapter_addr);
}.

(** The addresses of one interface, and [systemHostAddresses] on what
    [net.Interfaces] returned. *)
Definition interface_addresses (ifc : Interface) : list hostAddress :=
  if negb (if_up ifc) then []
  else match if_addrs ifc with
       | None => []
       | Some addrs =>
           omap (fun a =>
             match a with
             | OtherAddr => None
             | IPNet ip => (fun x => MkHostAddress (if_name ifc) (Unmap x)) <$> AddrFromSlice ip
             end) addrs
       end.

Definition systemHostAddresses (ifaces : option (list Interface)) : option (list hostAddress) :=
  (fun l => l ≫= interface_addresses) <$> ifaces.

(** [configConflict]: the loop over the prefixes, with the loop over the adapters inside. *)
Definition held_by (want : Addr) (host : list hostAddress) : option hostAddress :=
  List.find (fun h => bool_decide (h_addr h = want)) host.

Definition comparable (want : Addr) : bool :=
  negb (negb (IsValid want) || IsUnspecified want || IsLoopback want).

Fixpoint configConflict (tunnel : list Prefix) (host : list hostAddress) : option hostAddress :=
  match tunnel with
  | [] => None
  | p :: rest =>
      let want := Unmap (p_addr p) in
      if comparable want
      then match held_by want host with Some h => Some h | None => configConflict rest host end
      else configConflict rest host
  end.

(** ** What it detects *)

Lemma held_by_Some want host h : held_by want host = Some h -> h ∈ host /\ h_addr h = want.
Proof.
  intros Hf. apply List.find_some in Hf as [Hin Hd]. apply bool_decide_eq_true in Hd.
  by apply list_elem_of_In in Hin.
Qed.

Lemma held_by_None want host : held_by want host = None <-> forall h, h ∈ host -> h_addr h <> want.
Proof.
  split.
  - intros Hn h Hin Heq. pose proof (List.find_none _ _ Hn h) as Hb.
    apply list_elem_of_In in Hin. specialize (Hb Hin). by apply bool_decide_eq_false in Hb.
  - intros Hall. unfold held_by. destruct (List.find _ host) as [h|] eqn:Hf; [|done].
    destruct (held_by_Some _ _ _ Hf) as [Hin Heq]. by destruct (Hall h Hin).
Qed.

(** The address is one of the tunnel's own, and says something about another client. *)
Definition own (tunnel : list Prefix) (a : Addr) : Prop :=
  comparable a = true /\ exists p, p ∈ tunnel /\ Unmap (p_addr p) = a.

Lemma configConflict_Some tunnel host h :
  configConflict tunnel host = Some h -> h ∈ host /\ own tunnel (h_addr h).
Proof.
  induction tunnel as [|p rest IH]; simpl; [done|]. intros Hc.
  assert (configConflict rest host = Some h -> h ∈ host /\ own (p :: rest) (h_addr h)) as Hrest.
  { intros Hr. destruct (IH Hr) as (Hin & Hcmp & q & Hq & Ha). split; [done|].
    split; [done|]. exists q. split; [by right|done]. }
  destruct (comparable (Unmap (p_addr p))) eqn:Hcmp; [|by apply Hrest].
  destruct (held_by _ host) as [h'|] eqn:Hh; [|by apply Hrest].
  injection Hc as ->. destruct (held_by_Some _ _ _ Hh) as [Hin Ha]. split; [done|].
  rewrite Ha. split; [done|]. exists p. split; [by left|done].
Qed.

Lemma configConflict_None tunnel host :
  configConflict tunnel host = None <-> forall h, h ∈ host -> ~ own tunnel (h_addr h).
Proof.
  induction tunnel as [|p rest IH]; simpl.
  { split; [|done]. intros _ h _ (_ & q & Hq & _). by apply elem_of_nil in Hq. }
  assert ((forall h, h ∈ host -> ~ own (p :: rest) (h_addr h)) <->
    (comparable (Unmap (p_addr p)) = true -> held_by (Unmap (p_addr p)) host = None) /\
    (forall h, h ∈ host -> ~ own rest (h_addr h))) as Hsplit.
  { rewrite held_by_None. split.
    - intros Hn. split.
      + intros Hc h Hin Ha. apply (Hn h Hin). rewrite Ha. split; [done|]. exists p. split; [by left|done].
      + intros h Hin (Hc & q & Hq & Ha). apply (Hn h Hin). split; [done|]. exists q. split; [by right|done].
    - intros [Hp Hr] h Hin (Hc & q & [->|Hq]%elem_of_cons & Ha).
      + rewrite Ha in Hp. by apply (Hp Hc h Hin).
      + apply (Hr h Hin). split; [done|]. by exists q. }
  rewrite Hsplit, <-IH. destruct (comparable _); [|naive_solver].
  destruct (held_by _ host); naive_solver.
Qed.

(** The tunnel is in conflict exactly when an adapter that is up holds one of its own
    addresses, an IPv4 address and its IPv4-mapped form being the same, and loopback and
    unspecified addresses never counting; the address reported is one of those.  When
    the adapters cannot be listed nothing is decided. *)
Theorem configConflict_detects ifaces host tunnel :
  systemHostAddresses (Some ifaces) = Some host ->
  (configConflict tunnel host = None <->
   forall ifc addrs ip a, ifc ∈ ifaces -> if_up ifc = true -> if_addrs ifc = Some addrs ->
     IPNet ip ∈ addrs -> AddrFromSlice ip = Some a -> ~ own tunnel (Unmap a)) /\
  (forall h, configConflict tunnel host = Some h ->
     own tunnel (h_addr h) /\
     exists ifc addrs ip a, ifc ∈ ifaces /\ if_up ifc = true /\ if_addrs ifc = Some addrs /\
       IPNet ip ∈ addrs /\ AddrFromSlice ip = Some a /\ h = MkHostAddress (if_name ifc) (Unmap a)).
Proof.
  intros [= <-].
  assert (forall h, h ∈ ifaces ≫= interface_addresses <->
    exists ifc addrs ip a, ifc ∈ ifaces /\ if_up ifc = true /\ if_addrs ifc = Some addrs /\
       IPNet ip ∈ addrs /\ AddrFromSlice ip = Some a /\ h = MkHostAddress (if_name ifc) (Unmap a)) as Hin.
  { intros h. rewrite list_elem_of_bind. split.
    - intros (ifc & Hh & Hifc). unfold interface_addresses in Hh.
      destruct (if_up ifc) eqn:Hup; simpl in Hh; [|by apply elem_of_nil in Hh].
      destruct (if_addrs ifc) as [addrs|] eqn:Ha; [|by apply elem_of_nil in Hh].
      apply list_elem_of_omap in Hh as ([ip|] & Hip & Hx); [|done].
      destruct (AddrFromSlice ip) as [a|] eqn:Hs; [|done]. injection Hx as <-.
      by exists ifc, addrs, ip, a.
    - intros (ifc & addrs & ip & a & Hifc & Hup & Ha & Hip & Hs & ->). exists ifc. split; [|done].
      unfold interface_addresses. rewrite Hup, Ha. simpl. apply list_elem_of_omap.
      exists (IPNet ip). split; [done|]. by rewrite Hs. }
  split.
  - rewrite configConflict_None. split.
    + intros Hn ifc addrs ip a H1 H2 H3 H4 H5. apply (Hn (MkHostAddress (if_name ifc) (Unmap a))).
      apply Hin. by exists ifc, addrs, ip, a.
    + intros Hn h (ifc & addrs & ip & a & H1 & H2 & H3 & H4 & H5 & ->)%Hin. by apply (Hn ifc addrs ip a).
  - intros h Hc. destruct (configConflict_Some _ _ _ Hc) as [Hh Hown]. split; [done|]. by apply Hin.
Qed.

Definition wg_interfaces : list Interface :=
  [ MkInterface "Loopback" true (Some [IPNet (be_bytes 4 2130706433)]);
    MkInterface "Ethernet" true (Some [OtherAddr; IPNet (be_bytes 4 3232235777)]);
    MkInterface "old" false (Some [IPNet (be_bytes 4 167772162)]);
    MkInterface "AmneziaVPN" true (Some [IPNet (be_bytes 16 (281470681743360 + 167772162))]) ].

Lemma configConflict_detects_witness :
  exists host, systemHostAddresses (Some wg_interfaces) = Some host /\
    configConflict [MkPrefix (Addr4 167772162) 32] host = Some (MkHostAddress "AmneziaVPN" (Addr4 167772162)) /\
    own [MkPrefix (Addr4 167772162) 32] (Addr4 167772162).
Proof.
  eexists. split; [reflexivity|]. split; [by vm_compute|].
  refine (proj1 (proj2 (configConflict_detects wg_interfaces _ [MkPrefix (Addr4 167772162) 32] eq_refl)
    (MkHostAddress "AmneziaVPN" (Addr4 167772162)) _)). by vm_compute.
Defined.
