(* ===== verification/Acl.v ===== *)
(** src/internal/winsys: who may do what with the files and the pipe of the program.  The
    security descriptors of security_windows.go and pipesec_windows.go, and the identity of
    the service account of servicesid.go with the SHA-1 digest it is made of.

    A descriptor is text in the security descriptor definition language of Windows; its
    meaning here is the list of entries that it is the printing of, each with the documented
    mask of its rights. *)

From S2P Require Import Prelude GoStrings GoBytes TextDecode ConfValues ConfScan.

(** ** Entries *)

Inductive principal := LocalSystem | Administrators | Users | Sid (s : string).

#[global] Instance principal_eq_dec : EqDecision principal.
Proof. solve_decision. Defined.

Inductive rights := FileAll | FileRead | FileReadExecute | FileModify | GenericAll.

Record ace := MkAce { a_inherit : bool; a_rights : rights; a_who : principal }.

Definition principal_text (p : principal) : string :=
  match p with LocalSystem => "SY" | Administrators => "BA" | Users => "BU" | Sid s => s end.

Definition readExecute : string := "0x1200a9".
Definition modify : string := "0x1301bf".

Definition rights_text (r : rights) : string :=
  match r with
  | FileAll => "FA" | FileRead => "FR" | FileReadExecute => readExecute | FileModify => modify | GenericAll => "GA"
  end.

Definition ace_text (a : ace) : string :=
  "(A;" +:+ (if a_inherit a then "OICI" else "") +:+ ";" +:+ rights_text (a_rights a) +:+ ";;;" +:+
  principal_text (a_who a) +:+ ")".

(** A protected list of entries: nothing is inherited from the directory above. *)
Definition dacl_text (l : list ace) : string := "D:P" +:+ foldr (fun a s => ace_text a +:+ s) "" l.

(** The access masks of the mnemonics (FILE_ALL_ACCESS, FILE_GENERIC_READ; for a pipe
    GENERIC_ALL is FILE_ALL_ACCESS) and of the two constants. *)
Definition mask (r : rights) : Z :=
  match r with
  | FileAll | GenericAll => 0x1f01ff
  | FileRead => 0x120089
  | FileReadExecute => 0x1200a9
  | FileModify => 0x1301bf
  end.

Definition can (bits : Z) (r : rights) : bool := negb (Z.land (mask r) bits =? 0).

(** Reading data; changing data or attributes, adding or deleting; changing the list itself
    or the owner. *)
Definition read_bits : Z := 0x1.
Definition change_bits : Z := 0x2 + 0x4 + 0x10 + 0x40 + 0x100 + 0x10000.
Definition own_bits : Z := 0x40000 + 0x80000.

Definition allows (bits : Z) (l : list ace) (p : principal) : bool :=
  existsb (fun a => bool_decide (a_who a = p) && can bits (a_rights a)) l.

(** ** The descriptors, as the code writes them *)

Definition secureSDDL : string := "D:P(A;OICI;FA;;;SY)(A;OICI;FA;;;BA)".
Definition readableSDDL : string := "D:P(A;;FA;;;SY)(A;;FA;;;BA)(A;;FR;;;BU)".

Definition dataDirSDDL (sid : string) : string := "D:P(A;OICI;FA;;;SY)(A;OICI;FA;;;BA)(A;OICI;FR;;;" +:+ sid +:+ ")".

Definition logDirSDDL (sid : string) : string :=
  "D:P(A;OICI;FA;;;SY)(A;OICI;FA;;;BA)(A;OICI;" +:+ modify +:+ ";;;" +:+ sid +:+ ")".

Definition secretSDDL (sid : string) : string := "D:P(A;;FA;;;SY)(A;;FA;;;BA)(A;;FR;;;" +:+ sid +:+ ")".

Definition userReadableSDDL (sid : string) : string := readableSDDL +:+ "(A;;FR;;;" +:+ sid +:+ ")".

Definition programDirSDDL (sid : string) : string :=
  "D:P(A;OICI;FA;;;SY)(A;OICI;FA;;;BA)(A;OICI;" +:+ readExecute +:+ ";;;BU)(A;OICI;" +:+ readExecute +:+ ";;;" +:+ sid +:+ ")".

Definition programFileSDDL (sid : string) : string :=
  "D:P(A;;FA;;;SY)(A;;FA;;;BA)(A;;" +:+ readExecute +:+ ";;;BU)(A;;" +:+ readExecute +:+ ";;;" +:+ sid +:+ ")".

Definition basePipeSDDL : string := "D:P(A;;GA;;;SY)(A;;GA;;;BA)".

(** [PipeSecurityDescriptor], of the account the process runs as, if it can be read. *)
Definition PipeSecurityDescriptor (sid : option string) : string :=
  match sid with
  | None => basePipeSDDL
  | Some sid =>
      if bool_decide (sid = "") || bool_decide (sid = "S-1-5-18") then basePipeSDDL
      else basePipeSDDL +:+ "(A;;GA;;;" +:+ sid +:+ ")"
  end.

(** ** The service account *)

Definition ServiceAccount (name : string) : string := "NT SERVICE\" +:+ name.

(** SHA-1, as in FIPS 180-4: 32-bit words, five of state, eighty rounds a block. *)
Definition word (x : Z) : Z := x mod 2 ^ 32.
Definition rotl (n x : Z) : Z := Z.lor (word (Z.shiftl x n)) (Z.shiftr x (32 - n)).

(** The words of the schedule, the newest first. *)
Fixpoint schedule (n : nat) (w : list Z) : list Z :=
  match n with
  | O => w
  | S n =>
      let at_ i := nth i w 0 in
      schedule n (rotl 1 (Z.lxor (Z.lxor (at_ 2%nat) (at_ 7%nat)) (Z.lxor (at_ 13%nat) (at_ 15%nat))) :: w)
  end.

Definition sha_f (t : nat) (b c d : Z) : Z * Z :=
  if (t <? 20)%nat then (Z.lor (Z.land b c) (Z.land (Z.lxor b 0xffffffff) d), 0x5a827999)
  else if (t <? 40)%nat then (Z.lxor (Z.lxor b c) d, 0x6ed9eba1)
  else if (t <? 60)%nat then (Z.lor (Z.lor (Z.land b c) (Z.land b d)) (Z.land c d), 0x8f1bbcdc)
  else (Z.lxor (Z.lxor b c) d, 0xca62c1d6).

Definition sha_round (st : nat * (Z * Z * Z * Z * Z)) (w : Z) : nat * (Z * Z * Z * Z * Z) :=
  let '(t, (a, b, c, d, e)) := st in
  let '(f, k) := sha_f t b c d in
  (S t, (word (rotl 5 a + f + e + k + w), a, rotl 30 b, c, d)).

Definition sha_block (h : Z * Z * Z * Z * Z) (ws : list Z) : Z * Z * Z * Z * Z :=
  let '(h0, h1, h2, h3, h4) := h in
  let '(_, (a, b, c, d, e)) := foldl sha_round (0%nat, h) (reverse (schedule 64 (reverse ws))) in
  (word (h0 + a), word (h1 + b), word (h2 + c), word (h3 + d), word (h4 + e)).

Fixpoint words_of (l : list byte) : list Z :=
  match l with
  | a :: b :: c :: d :: rest => be_uint [a; b; c; d] :: words_of rest
  | _ => []
  end.

Definition sha_pad (m : list byte) : list byte :=
  let n := length m in
  m ++ byte_of 128 :: replicate ((119 - n mod 64) mod 64) (byte_of 0) ++ be_bytes 8 (8 * Z.of_nat n).

Fixpoint sha_blocks (n : nat) (h : Z * Z * Z * Z * Z) (ws : list Z) : Z * Z * Z * Z * Z :=
  match n with O => h | S n => sha_blocks n (sha_block h (take 16 ws)) (drop 16 ws) end.

(** [sha1.Sum]. *)
Definition sha1 (m : list byte) : list byte :=
  let ws := words_of (sha_pad m) in
  let '(a, b, c, d, e) :=
    sha_blocks (length ws / 16) (0x67452301, 0xefcdab89, 0x98badcfe, 0x10325476, 0xc3d2e1f0) ws in
  concat (be_bytes 4 <$> [a; b; c; d; e]).

(** The little endian 32-bit words of a digest. *)
Fixpoint le_words (l : list byte) : list Z :=
  match l with
  | a :: b :: c :: d :: rest => be_uint [d; c; b; a] :: le_words rest
  | _ => []
  end.

(** [ServiceSID] of a name of ASCII characters, whose runes are its bytes. *)
Definition ServiceSID (name : string) : string :=
  let buf := utf16_bytes false (byte_val <$> bytes_of (ToUpper name)) in
  foldl (fun sid w => sid +:+ "-" +:+ Itoa w) "S-1-5-80" (le_words (sha1 buf)).

(** The values of servicesid_test.go. *)
Example ServiceSID_known :
  ServiceSID "TrustedInstaller" = "S-1-5-80-956008885-3418522649-1831038044-1853292631-2271478464" /\
  ServiceSID "trustedinstaller" = ServiceSID "TrustedInstaller" /\
  ServiceSID "AWGSocks" = "S-1-5-80-2865769778-1580442700-1829327410-1325704189-3198177760".
Proof. by vm_compute. Qed.

(** ** What the descriptors say *)

(** An account written out as [S-...], of digits and dashes: not a mnemonic. *)
Definition sid_char (c : ascii) : Prop := digit_char c \/ c = "-"%char.

Definition sid_text (s : string) : Prop := exists r, s = String "S" (String "-" r) /\ all_str sid_char r.

Definition ace_ok (a : ace) : Prop := match a_who a with Sid s => sid_text s | _ => True end.

Lemma le_words_nonneg l : Forall (fun w => 0 <= w) (le_words l).
Proof.
  assert (forall n l, (length l <= n)%nat -> Forall (fun w => 0 <= w) (le_words l)) as H.
  { clear l. induction n as [|n IH]; intros l Hl; [by destruct l; [|simpl in Hl; lia]|].
    destruct l as [|a [|b [|c [|d r]]]]; try done. simpl. constructor; [apply be_uint_bounds|].
    apply IH. simpl in Hl. lia. }
  by apply (H (length l)).
Qed.

Lemma ServiceSID_text name : sid_text (ServiceSID name).
Proof.
  unfold ServiceSID. pose proof (le_words_nonneg (sha1 (utf16_bytes false (byte_val <$> bytes_of (ToUpper name))))) as Hws.
  set (ws := le_words _) in *. clearbody ws.
  assert (sid_text "S-1-5-80") as H by (exists "1-5-80"; split; [done|]; simpl; unfold sid_char, digit_char; naive_solver).
  revert H. generalize "S-1-5-80"%string. induction Hws as [|w ws Hw _ IH]; intros s Hs; [done|]. simpl. apply IH.
  destruct Hs as (r & -> & Hr). exists (r +:+ "-" +:+ Itoa w). split; [done|]. rewrite !all_str_app. split; [done|].
  split; [by split; [right|]|]. eapply all_str_impl; [|by apply Itoa_digits]. by left.
Qed.

(** The text of an entry between its brackets. *)
Definition ace_body (a : ace) : string :=
  "(A;" +:+ (if a_inherit a then "OICI" else "") +:+ ";" +:+ rights_text (a_rights a) +:+ ";;;" +:+ principal_text (a_who a).

Lemma ace_text_body a r : ace_text a +:+ r = ace_body a +:+ String ")" r.
Proof. unfold ace_text, ace_body. by rewrite !string_app_assoc. Qed.

Lemma ace_body_closed a : ace_ok a -> all_str (fun c => c <> ")"%char) (ace_body a).
Proof.
  intros Ha. unfold ace_body. rewrite !all_str_app. split_and!; try (by simpl; naive_solver); [by destruct (a_inherit a); simpl; naive_solver| |].
  - destruct (a_rights a); simpl; naive_solver.
  - unfold ace_ok in Ha. destruct (a_who a) as [| | |s]; try (simpl; naive_solver).
    destruct Ha as (r & -> & Hr). simpl. split; [done|]. split; [done|]. eapply all_str_impl; [|exact Hr].
    intros c [Hc| ->]; [|done]. by intros ->.
Qed.

Lemma principal_text_inj p q : (forall s, p = Sid s -> sid_text s) -> (forall s, q = Sid s -> sid_text s) ->
  principal_text p = principal_text q -> p = q.
Proof.
  intros Hp Hq. destruct p as [| | |s], q as [| | |s']; simpl; try done; try congruence; intros He;
    first [specialize (Hp _ eq_refl); destruct Hp as (r & -> & _); done|specialize (Hq _ eq_refl); destruct Hq as (r & -> & _); done].
Qed.

Lemma ace_body_inj a b : ace_ok a -> ace_ok b -> ace_body a = ace_body b -> a = b.
Proof.
  destruct a as [i r p], b as [j q s]. unfold ace_ok, ace_body. simpl. intros Ha Hb He.
  assert (i = j /\ r = q /\ principal_text p = principal_text s) as (-> & -> & Hps).
  { destruct i, j, r, q; simpl in He; try done; injection He as He; by split_and!. }
  f_equal. apply principal_text_inj; [by intros ? ->|by intros ? ->|done].
Qed.

(** A descriptor has one reading. *)
Lemma dacl_text_inj l1 l2 : Forall ace_ok l1 -> Forall ace_ok l2 -> dacl_text l1 = dacl_text l2 -> l1 = l2.
Proof.
  unfold dacl_text. intros H1 H2 [= He]. assert (forall x, "" +:+ x = x) as Hnil by done. rewrite !Hnil in He. clear Hnil.
  revert l2 H2 He. induction H1 as [|a l1 Ha _ IH]; intros [|b l2] H2 He; simpl in He.
  - done.
  - rewrite ace_text_body in He. unfold ace_body in He. done.
  - rewrite ace_text_body in He. unfold ace_body in He. done.
  - apply Forall_cons in H2 as [Hb H2]. rewrite !ace_text_body in He. apply (f_equal (Cut ")")) in He.
    rewrite !Cut_app in He by (by apply ace_body_closed). apply Some_inj, pair_equal_spec in He as [Hab Hl].
    f_equal; [by apply ace_body_inj|by apply IH].
Qed.

(** The readings of the descriptors. *)
Definition full (i : bool) : list ace := [MkAce i FileAll LocalSystem; MkAce i FileAll Administrators].

Lemma descriptors_read sid :
  secureSDDL = dacl_text (full true) /\
  dataDirSDDL sid = dacl_text (full true ++ [MkAce true FileRead (Sid sid)]) /\
  logDirSDDL sid = dacl_text (full true ++ [MkAce true FileModify (Sid sid)]) /\
  secretSDDL sid = dacl_text (full false ++ [MkAce false FileRead (Sid sid)]) /\
  userReadableSDDL sid = dacl_text (full false ++ [MkAce false FileRead Users; MkAce false FileRead (Sid sid)]) /\
  programDirSDDL sid = dacl_text (full true ++ [MkAce true FileReadExecute Users; MkAce true FileReadExecute (Sid sid)]) /\
  programFileSDDL sid = dacl_text (full false ++ [MkAce false FileReadExecute Users; MkAce false FileReadExecute (Sid sid)]).
Proof.
  unfold secureSDDL, dataDirSDDL, logDirSDDL, secretSDDL, userReadableSDDL, readableSDDL, programDirSDDL, programFileSDDL.
  split_and!; unfold dacl_text, full, app; cbn [foldr]; unfold ace_text; cbn [a_inherit a_rights a_who rights_text principal_text];
    rewrite ?string_app_assoc; reflexivity.
Qed.

Lemma pipe_read own : PipeSecurityDescriptor (Some own) =
  dacl_text ([MkAce false GenericAll LocalSystem; MkAce false GenericAll Administrators] ++
    if bool_decide (own = "") || bool_decide (own = "S-1-5-18") then [] else [MkAce false GenericAll (Sid own)]).
Proof.
  unfold PipeSecurityDescriptor. destruct (_ || _); unfold dacl_text, app; cbn [foldr]; unfold ace_text;
    cbn [a_inherit a_rights a_who rights_text principal_text]; rewrite ?string_app_assoc; reflexivity.
Qed.

(** Nobody beyond [ps] is allowed [bits]. *)
Definition only (bits : Z) (l : list ace) (ps : list principal) : Prop :=
  Forall (fun a => can bits (a_rights a) = true -> a_who a ∈ ps) l.

Lemma only_allows bits l ps p : only bits l ps -> allows bits l p = true -> p ∈ ps.
Proof.
  intros Ho (a & Ha & [Hp Hc]%andb_true_iff)%existsb_exists. apply bool_decide_eq_true in Hp as <-.
  apply list_elem_of_In in Ha. unfold only in Ho. rewrite Forall_forall in Ho. by apply Ho.
Qed.

Ltac acl_ok := unfold full; simpl app; rewrite ?Forall_cons; split_and!; first [by apply Forall_nil|done].

Ltac only_listed :=
  unfold only, full; simpl app; rewrite ?Forall_cons; split_and!; try (by apply Forall_nil); intros Hc; (discriminate Hc || (cbn; set_solver)).

(** C25: the descriptors of the files, each of which has only one reading, give what they
    should and no more, whatever the service is called: only the system, the administrators
    and the service account may read the configuration with the private key, the data
    directory and the logs; nobody but the system and the administrators may change
    anything, the service account in the log directory excepted, which may not change its
    permissions either; any user may read the settings and the program; and only the
    system, the administrators and the account of the process may use the pipe. *)
Theorem descriptors_least name l : let sid := ServiceSID name in
  Forall ace_ok l ->
  (dacl_text l ∈ [secureSDDL; secretSDDL sid; dataDirSDDL sid; logDirSDDL sid] ->
     forall p, allows read_bits l p = true -> p ∈ [LocalSystem; Administrators; Sid sid]) /\
  (dacl_text l ∈ [secureSDDL; secretSDDL sid; dataDirSDDL sid; userReadableSDDL sid; programDirSDDL sid; programFileSDDL sid] ->
     forall p, allows (change_bits + own_bits) l p = true -> p ∈ [LocalSystem; Administrators]) /\
  (dacl_text l = logDirSDDL sid -> forall p, allows own_bits l p = true -> p ∈ [LocalSystem; Administrators]) /\
  (dacl_text l ∈ [userReadableSDDL sid; programDirSDDL sid; programFileSDDL sid] -> allows read_bits l Users = true) /\
  (forall own, sid_text own -> dacl_text l = PipeSecurityDescriptor (Some own) ->
     forall p, allows (mask GenericAll) l p = true -> p ∈ [LocalSystem; Administrators; Sid own]).
Proof.
  intros sid Hl. assert (sid_text sid) as Hsid by apply ServiceSID_text. clearbody sid.
  destruct (descriptors_read sid) as (E1 & E2 & E3 & E4 & E5 & E6 & E7). rewrite E1, E2, E3, E4, E5, E6, E7.
  assert (forall k, Forall ace_ok k -> dacl_text l = dacl_text k -> l = k) as Hinj by (intros k Hk; by apply dacl_text_inj).
  split_and!.
  - intros Hd p. apply only_allows. repeat (apply elem_of_cons in Hd as [Hd|Hd]); [..|by apply elem_of_nil in Hd];
      (apply Hinj in Hd as ->; [only_listed|acl_ok]).
  - intros Hd p. apply only_allows. repeat (apply elem_of_cons in Hd as [Hd|Hd]); [..|by apply elem_of_nil in Hd];
      (apply Hinj in Hd as ->; [only_listed|acl_ok]).
  - intros Hd p. apply only_allows. apply Hinj in Hd as ->; [only_listed|acl_ok].
  - intros Hd. repeat (apply elem_of_cons in Hd as [Hd|Hd]); [..|by apply elem_of_nil in Hd];
      (apply Hinj in Hd as ->; [by vm_compute|acl_ok]).
  - intros own Hown Hd p. apply only_allows. rewrite pipe_read in Hd. destruct (_ || _);
      (apply Hinj in Hd as ->; [only_listed|acl_ok]).
Qed.

Lemma descriptors_least_witness :
  let l := full false ++ [MkAce false FileRead (Sid (ServiceSID "AWGSocks"))] in
  dacl_text l = secretSDDL (ServiceSID "AWGSocks") /\ allows read_bits l Users = false.
Proof.
  intros l. assert (dacl_text l = secretSDDL (ServiceSID "AWGSocks")) as Hl by (by vm_compute). split; [done|].
  destruct (descriptors_least "AWGSocks" l) as (H & _).
  { apply Forall_app. split; [acl_ok|]. repeat constructor. apply ServiceSID_text. }
  destruct (allows read_bits l Users) eqn:Ha; [|done]. apply H in Ha; [|rewrite Hl; set_solver].
  exfalso. revert Ha. rewrite !elem_of_cons. intros [?|[?|[?|?%elem_of_nil]]]; done.
Defined.
