(* ===== verification/Version.v ===== *)
(** src/internal/version/version.go: the identities that the program prints.  [Version],
    [Commit] and [BuildDate] are the defaults, which the linker may override. *)

From S2P Require Import Prelude GoStrings.

Definition Version : string := "1.0.0".
Definition Commit : string := "unknown".
Definition BuildDate : string := "unknown".

Definition AmneziaWGGoModule : string := "github.com/amnezia-vpn/amneziawg-go/v3".
Definition AmneziaWGGoVersion : string := "v3.1.20260828".
Definition AmneziaWGGoCommit : string := "b5928efb6ca19f0153958460c3d141f04abc5c2e".
Definition AmneziaWGWindowsModule : string := "github.com/amnezia-vpn/amneziawg-windows/v3".
Definition AmneziaWGWindowsVersion : string := "v3.1.20260814".
Definition AmneziaWGWindowsCommit : string := "e90531d15802cb976773f3b63443bc281f738ca3".
Definition WintunStatus : string := "not used (userspace gVisor netstack; no Windows adapter is created)".
Definition ServiceName : string := "AWGSocks".
Definition ServiceDisplayName : string := "AWGSocks AmneziaWG SOCKS5 Proxy".

Definition Version_String (version commit date : string) : string :=
  "AWGSocks " +:+ version +:+ " (commit " +:+ commit +:+ ", built " +:+ date +:+ ")" +:+ String nl "" +:+
  "AmneziaWG   " +:+ AmneziaWGGoModule +:+ " " +:+ AmneziaWGGoVersion +:+
    " (commit " +:+ AmneziaWGGoCommit +:+ ")" +:+ String nl "" +:+
  "AWG parser  " +:+ AmneziaWGWindowsModule +:+ " " +:+ AmneziaWGWindowsVersion +:+
    " (commit " +:+ AmneziaWGWindowsCommit +:+ ")" +:+ String nl "" +:+
  "Wintun      " +:+ WintunStatus +:+ String nl "".

Definition Short (version : string) : string := "AWGSocks " +:+ version +:+ " / AmneziaWG " +:+ AmneziaWGGoVersion.
