(* ===== verification/HostDisk.v ===== *)
(** The files of the machine under the installer: src/internal/winsys/security_windows.go,
    [copyFile] of src/internal/service/control_windows.go and [Save] of
    src/internal/config/app.go as sequences of system calls, each of which may be refused
    or, where it does several things, stop half way.

    A path is resolved to the file it names before anything is done with it: two paths may
    name one file.  Every state of the disk that is passed through is kept, for what may be
    read between two calls. *)

From S2P Require Import Prelude GoStrings GoBytes GoErrors TextDecode Acl AppSave Version.

(** ** The disk *)

(** A file or a directory, with its list of access rights. *)
Record node := MkNode { n_dir : bool; n_acl : list ace; n_data : list byte }.

#[export] Instance node_fields : Fields node := fun r => MkNode (n_dir r) (n_acl r) (n_data r).

(** What is on the disk, by the files that paths are resolved to. *)
Abbreviation files := (gmap string node).

(** How a system call answers. *)
Inductive answer := Accepted | Refused (e : error) | Partly (n : nat) (e : error).

(** What Windows and package filepath do: [win_sd] is SecurityDescriptorFromString and
    [win_dacl] the method DACL; [win_mkdir] is MkdirAll, of so many of the directories when
    it fails; [win_set] is SetNamedSecurityInfo, which replaces the list of an object and
    hands the entries that are to be inherited down to what lies below it; [win_new] is the
    list of a file that is made in a directory. *)
Class Windows (SD : Type) : Type := {
  win_file : string -> string;
  win_Dir : string -> string;
  win_Join : string -> string -> string;
  win_sd : string -> result error SD;
  win_dacl : SD -> result error (list ace);
  win_mkdir : option nat -> files -> string -> files;
  win_set : files -> string -> list ace -> files;
  win_new : list ace -> list ace;
  win_below : string -> string -> bool;
  win_ReadDir : files -> string -> result error (list (string * bool));
  win_elevated : bool;
}.

(** What is relied upon.  A descriptor that is understood is read as it is written;
    creating a directory makes it and directories above it and leaves what is there alone; the list of an object becomes the one
    given, its content stays, and other objects gain nothing but entries that are to be
    inherited, below it; a new file in a directory with entries to be inherited has those only (without
    any it would get the default list of whoever makes it). *)
Class WindowsLaws (SD : Type) `{!Windows SD} : Prop := {
  wl_dacl s sd l : win_sd s = Ok sd -> win_dacl sd = Ok l -> Forall ace_ok l /\ s = dacl_text l;
  wl_mkdir k d p q n : d !! q = Some n -> win_mkdir k d p !! q = Some n;
  wl_mkdir_new k d p q n : d !! q = None -> win_mkdir k d p !! q = Some n ->
    n_dir n = true /\ (q = p \/ win_below q p = true);
  wl_set d p l n : d !! p = Some n -> win_set d p l !! p = Some (n <| n_acl := l |>);
  wl_set_absent d p l q : d !! q = None -> win_set d p l !! q = None;
  wl_set_other d p l q n : d !! q = Some n -> q <> p ->
    if win_below p q
    then exists acl, win_set d p l !! q = Some (n <| n_acl := acl |>) /\
      forall a, a ∈ acl -> a ∈ n_acl n \/ exists b, b ∈ l /\ a_inherit b = true /\ a_who b = a_who a /\ a_rights b = a_rights a
    else win_set d p l !! q = Some n;
  wl_new l a : Exists (fun b => a_inherit b = true) l -> a ∈ win_new l -> exists b, b ∈ l /\ a_inherit b = true /\ a_who b = a_who a /\ a_rights b = a_rights a;
}.

Section Disk.
Context {SD : Type} `{WI : !Windows SD}.

(** The answers of the machine, by the number of the call. *)
Variable ask : nat -> answer.

(** ** Calls *)

Record state := MkState { now : files; seen : list files; calls : nat }.

Definition D (A : Type) : Type := state -> result error A * state.

#[global] Instance d_ret : MRet D := fun A a st => (Ok a, st).
#[global] Instance d_bind : MBind D := fun A B f m st =>
  match m st with
  | (Ok a, st) => f a st
  | (Err e, st) => (Err e, st)
  end.

(** The state after a call that leaves the disk like this. *)
Definition leave (d : files) (st : state) : state := MkState d (d :: seen st) (S (calls st)).

(** A call that is accepted does [all], or fails by itself; one that stops half way has
    done [some]. *)
Definition call {A} (all : files -> result error (A * files)) (some : nat -> files -> files) : D A := fun st =>
  match ask (calls st) with
  | Accepted => match all (now st) with
                | Ok (a, d) => (Ok a, leave d st)
                | Err e => (Err e, leave (now st) st)
                end
  | Refused e => (Err e, leave (now st) st)
  | Partly n e => (Err e, leave (some n (now st)) st)
  end.

Definition nothing : nat -> files -> files := fun _ d => d.

Definition wrap {A} (msg : string) (m : D A) : D A := fun st =>
  let '(r, st) := m st in (map_err (Wrapf msg) r, st).

Definition lift_d {A} (r : result error A) : D A := fun st => (r, st).

Definition os_MkdirAll (path : string) : D unit :=
  call (fun d => Ok (tt, win_mkdir None d (win_file path))) (fun n d => win_mkdir (Some n) d (win_file path)).

(** [os.Open] of a file. *)
Definition os_Open (path : string) : D string :=
  call (fun d => match d !! win_file path with
                 | Some n => if n_dir n then Err (EMsg "is a directory") else Ok (win_file path, d)
                 | None => Err (EMsg "the system cannot find the file specified")
                 end) nothing.

(** [os.OpenFile] with O_CREATE and O_TRUNC. *)
Definition os_Create (path : string) : D string :=
  call (fun d => let k := win_file path in
          match d !! k with
          | Some n => if n_dir n then Err (EMsg "is a directory") else Ok (k, <[k := n <| n_data := [] |>]> d)
          | None =>
              match d !! win_file (win_Dir path) with
              | Some parent => if n_dir parent then Ok (k, <[k := MkNode false (win_new (n_acl parent)) []]> d)
                               else Err (EMsg "the system cannot find the path specified")
              | None => Err (EMsg "the system cannot find the path specified")
              end
          end) nothing.

(** A read at an offset, of at most so many bytes. *)
Definition file_read (f : string) (off size : nat) : D (list byte) :=
  call (fun d => match d !! f with
                 | Some n => Ok (take size (drop off (n_data n)), d)
                 | None => Err (EMsg "the handle is invalid")
                 end) nothing.

Definition append_to (f : string) (bytes : list byte) (d : files) : files :=
  alter (set_field n_data (fun old => old ++ bytes)) f d.

(** A write at the end. *)
Definition file_write (f : string) (bytes : list byte) : D unit :=
  call (fun d => Ok (tt, append_to f bytes d)) (fun n d => append_to f (take n bytes) d).

Definition file_Close : D unit := call (fun d => Ok (tt, d)) nothing.

(** It replaces a file, not a directory. *)
Definition os_Rename (src dst : string) : D unit :=
  call (fun d => match d !! win_file src with
                 | Some n =>
                     if match d !! win_file dst with Some m => n_dir m | None => false end then Err (EMsg "access is denied")
                     else Ok (tt, <[win_file dst := n]> (delete (win_file src) d))
                 | None => Err (EMsg "the system cannot find the file specified")
                 end) nothing.

(** Something lies in this directory. *)
Definition has_entries (k : string) (d : files) : bool := existsb (fun x => win_below k x.1) (map_to_list d).

Definition os_Remove (path : string) : D unit :=
  call (fun d => match d !! win_file path with
                 | Some n => if n_dir n && has_entries (win_file path) d then Err (EMsg "the directory is not empty")
                             else Ok (tt, delete (win_file path) d)
                 | None => Err (EMsg "the system cannot find the file specified")
                 end) nothing.

(** ** copyFile *)

(** The buffer of [io.Copy]. *)
Definition copy_buffer : nat := Z.to_nat (32 * 1024).

(** [io.Copy] from one file at an offset to another; a read of nothing is the end. *)
Fixpoint io_Copy (fuel : nat) (src dst : string) (off : nat) : D unit :=
  match fuel with
  | O => lift_d (Err (EMsg "out of fuel"))
  | S fuel =>
      chunk ← file_read src off copy_buffer;
      match chunk with
      | [] => mret tt
      | _ => _ ← file_write dst chunk; io_Copy fuel src dst (off + length chunk)
      end
  end.

(** The size of a file, which bounds the rounds. *)
Definition size_of (f : string) (d : files) : nat := match d !! f with Some n => length (n_data n) | None => 0%nat end.

Definition copy_contents (i o : string) : D unit := fun st => io_Copy (S (size_of i (now st))) i o 0 st.

(** The file that is written is closed also when writing fails; the error of that is
    dropped then. *)
Definition then_close (m : D unit) : D unit := fun st =>
  match m st with
  | (Ok _, st) => file_Close st
  | (Err e, st) => let '(_, st) := file_Close st in (Err e, st)
  end.

Definition copyFile (src dst : string) : D unit :=
  i ← os_Open src;
  _ ← os_MkdirAll (win_Dir dst);
  o ← os_Create dst;
  then_close (copy_contents i o).

(** ** Save *)

(** [os.WriteFile]. *)
Definition os_WriteFile (path : string) (raw : list byte) : D unit :=
  f ← os_Create path;
  then_close (file_write f raw).

Definition rename_or_remove (tmp path : string) : D unit := fun st =>
  match os_Rename tmp path st with
  | (Ok _, st) => (Ok tt, st)
  | (Err e, st) => let '(_, st) := os_Remove tmp st in (Err (Wrapf "could not rename the temporary file" e), st)
  end.

Definition save_file (path : string) (raw : list byte) : D unit :=
  _ ← wrap "could not create the directory" (os_MkdirAll (win_Dir path));
  _ ← wrap "could not write the file" (os_WriteFile (tmp_of path) raw);
  rename_or_remove (tmp_of path) path.

(** ** security_windows.go *)

Definition ErrNotElevated : error := EMsg "this operation requires Administrator privileges".

Definition RequireElevation (action : string) : result error unit :=
  if win_elevated then Ok tt else Err (EWrap (action +:+ ": " +:+ Error ErrNotElevated) ErrNotElevated).

Definition set_info (path : string) (l : list ace) : D unit :=
  call (fun d => match d !! win_file path with
                 | Some _ => Ok (tt, win_set d (win_file path) l)
                 | None => Err (EMsg "the system cannot find the file specified")
                 end) nothing.

Definition applyDACL (path sddl : string) : D unit :=
  sd ← lift_d (map_err (Wrapf "could not build the security descriptor") (win_sd sddl));
  dacl ← lift_d (map_err (Wrapf "could not read the DACL") (win_dacl sd));
  wrap ("could not apply the ACL to " +:+ path) (set_info path dacl).

Definition winsys_ensureDir (path sddl : string) : D unit :=
  _ ← wrap ("could not create " +:+ path) (os_MkdirAll path);
  applyDACL path sddl.

Definition EnsureDir (path : string) : D unit := winsys_ensureDir path secureSDDL.
Definition Protect (path : string) : D unit := applyDACL path secureSDDL.
Definition ProtectUserReadable (path sid : string) : D unit := applyDACL path (userReadableSDDL sid).
Definition EnsureDataDir (path sid : string) : D unit := winsys_ensureDir path (dataDirSDDL sid).
Definition EnsureLogDir (path sid : string) : D unit := winsys_ensureDir path (logDirSDDL sid).
Definition EnsureProgramDir (path sid : string) : D unit := winsys_ensureDir path (programDirSDDL sid).
Definition ProtectSecret (path sid : string) : D unit := applyDACL path (secretSDDL sid).
Definition ProtectProgram (path sid : string) : D unit := applyDACL path (programFileSDDL sid).

Fixpoint protect_each (dir : string) (l : list (string * bool)) : D unit :=
  match l with
  | [] => mret tt
  | (name, isDir) :: l => _ ← (if isDir : bool then mret tt else Protect (win_Join dir name)); protect_each dir l
  end.

(** [ProtectTree]; a directory that cannot be read is left at that. *)
Definition os_ReadDir (dir : string) : D (list (string * bool)) :=
  call (fun d => match win_ReadDir d (win_file dir) with Ok entries => Ok (entries, d) | Err e => Err e end) nothing.

Definition protect_entries (dir : string) : D unit := fun st =>
  match os_ReadDir dir st with
  | (Ok entries, st) => protect_each dir entries st
  | (Err _, st) => (Ok tt, st)
  end.

Definition ProtectTree (dir : string) : D unit := _ ← Protect dir; protect_entries dir.

(** The operations of the installer, each with what it is for. *)
Record aclOps := MkAclOps {
  dataDir : string -> D unit;
  logDir : string -> D unit;
  secret : string -> D unit;
  readable : string -> D unit;
  programDir : string -> D unit;
  program : string -> D unit;
  protect : string -> D unit;
}.

Definition realACLs : aclOps :=
  let sid := ServiceSID ServiceName in
  MkAclOps (fun p => EnsureDataDir p sid) (fun p => EnsureLogDir p sid) (fun p => ProtectSecret p sid)
    (fun p => ProtectUserReadable p sid) (fun p => EnsureProgramDir p sid) (fun p => ProtectProgram p sid) Protect.

(** What a run passes through, the end included. *)
Definition states_of (st : state) : list files := now st :: seen st.
End Disk.

Definition DescribePermissions : string :=
  "SYSTEM and Administrators only, plus read for the service account (logs: modify); " +:+
  "the program directory is readable by any user and writable by Administrators only".
