(* ===== verification/DiskRules.v ===== *)
(** Reasoning about the disk of HostDisk.v: triples with an invariant of every state that
    is passed through, and what [copyFile], [applyDACL] and [ProtectTree] guarantee
    whatever the machine answers. *)

From S2P Require Import Prelude GoStrings GoBytes GoErrors Acl AppSave HostDisk.

#[local] Set Default Proof Using "Type*".

Section Rules.
Context {SD : Type} `{WI : !Windows SD} (ask : nat -> answer).

Abbreviation D := HostDisk.D.

(** ** Triples

    From a disk with [P], the command passes through states with [I] only, and ends with
    [Q] when it succeeds and with [E] when it does not. *)
Definition through (I : files -> Prop) (st st' : state) : Prop :=
  exists new, seen st' = new ++ seen st /\ Forall I (now st' :: new).

Definition triple {A} (I P : files -> Prop) (m : D A) (Q : A -> files -> Prop) (E : files -> Prop) : Prop :=
  forall st, I (now st) -> P (now st) ->
  let '(r, st') := m st in
  through I st st' /\ match r with Ok a => Q a (now st') | Err _ => E (now st') end.

Lemma through_refl I st : I (now st) -> through I st st.
Proof. intros Hi. exists []. split; [done|]. by repeat constructor. Qed.

Lemma through_trans I st1 st2 st3 : through I st1 st2 -> through I st2 st3 -> through I st1 st3.
Proof.
  intros (n1 & H1 & [_ Hf1]%Forall_cons) (n2 & H2 & [Hn Hf2]%Forall_cons). exists (n2 ++ n1).
  rewrite H2, H1, app_assoc. split; [done|]. constructor; [done|]. by apply Forall_app.
Qed.

Lemma through_now I st st' : through I st st' -> I (now st').
Proof. by intros (new & _ & [? _]%Forall_cons). Qed.

Lemma through_impl (I J : files -> Prop) st st' : (forall d, I d -> J d) -> through I st st' -> through J st st'.
Proof. intros HIJ (new & Hs & Hf). exists new. split; [done|]. by eapply Forall_impl. Qed.

Lemma through_leave I d st : I (now st) -> I d -> through I st (leave d st).
Proof. intros Hn Hd. exists [d]. split; [done|]. by repeat constructor. Qed.

Lemma triple_ret {A} I P (a : A) E : triple I P (mret a : D A) (fun _ => P) E.
Proof. intros st HI HP. split; [by apply through_refl|done]. Qed.

Lemma triple_bind {A B} I P (m : D A) Q (f : A -> D B) R E :
  triple I P m Q E -> (forall a, triple I (Q a) (f a) R E) -> triple I P (m ≫= f) R E.
Proof.
  intros Hm Hf st HI HP. specialize (Hm st HI HP). unfold mbind, d_bind.
  destruct (m st) as [[a|e] st1]; destruct Hm as [HI' HQ]; [|by split].
  specialize (Hf a st1 (through_now _ _ _ HI') HQ). destruct (f a st1) as [r st2]. destruct Hf as [H2 HR].
  split; [by eapply through_trans|done].
Qed.

Lemma triple_weaken {A} (I P P' E E' : files -> Prop) (m : D A) (Q Q' : A -> files -> Prop) :
  triple I P m Q E -> (forall d, P' d -> P d) -> (forall a d, Q a d -> Q' a d) -> (forall d, E d -> E' d) ->
  triple I P' m Q' E'.
Proof.
  intros Hm HP HQ HE st HI Hst. specialize (Hm st HI (HP _ Hst)). destruct (m st) as [[a|e] st'];
    (split; [by apply Hm|]); [by apply HQ, Hm|by apply HE, Hm].
Qed.

Lemma triple_error {A} (I P E E' : files -> Prop) (m : D A) Q :
  triple I P m Q E -> (forall d, E d -> E' d) -> triple I P m Q E'.
Proof. intros Hm HE. by eapply triple_weaken. Qed.

(** A stronger invariant is also known at the end. *)
Lemma triple_stronger {A} (I J P : files -> Prop) (m : D A) Q E :
  triple J P m Q E -> (forall d, P d -> I d -> J d) -> (forall d, J d -> I d) ->
  triple I P m (fun a d => Q a d /\ J d) (fun d => E d /\ J d).
Proof.
  intros Hm HP HJ st HI Hst. specialize (Hm st (HP _ Hst HI) Hst). destruct (m st) as [r st']. destruct Hm as [Ht Hr].
  split; [by eapply through_impl|]. apply through_now in Ht. by destruct r.
Qed.

(** From each single disk it starts from. *)
Lemma triple_from {A} (I P : files -> Prop) (m : D A) Q E :
  (forall d0, I d0 -> P d0 -> triple I (fun d => d = d0) m Q E) -> triple I P m Q E.
Proof. intros Hm st HI HP. by apply (Hm (now st)). Qed.

Lemma triple_wrap {A} I P msg (m : D A) Q E : triple I P m Q E -> triple I P (wrap msg m) Q E.
Proof. intros Hm st HI HP. specialize (Hm st HI HP). unfold wrap. by destruct (m st) as [[a|e] st']. Qed.

Lemma triple_lift {A} (I P : files -> Prop) (r : result error A) :
  triple I P (lift_d r) (fun a d => P d /\ r = Ok a) P.
Proof. intros st HI HP. unfold lift_d. destruct r; (split; [by apply through_refl|done]). Qed.

Lemma triple_known {A} (I P : files -> Prop) (K : Prop) (m : D A) Q E :
  (K -> triple I P m Q E) -> triple I (fun d => P d /\ K) m Q E.
Proof. intros Hm st HI [HP HK]. by apply Hm. Qed.

Lemma triple_call {A} (I P : files -> Prop) all some (Q : A -> files -> Prop) (E : files -> Prop) :
  (forall d, I d -> P d -> E d /\ match all d with Ok (a, d') => I d' /\ Q a d' | Err _ => True end /\
     forall n, I (some n d) /\ E (some n d)) ->
  triple I P (call ask all some) Q E.
Proof.
  intros Hc st HI HP. destruct (Hc _ HI HP) as (H1 & H2 & H3). unfold call.
  destruct (ask (calls st)) as [|e|n e].
  - destruct (all (now st)) as [[a d']|e]; [destruct H2|]; split; try done; by apply through_leave.
  - split; [by apply through_leave|done].
  - destruct (H3 n). split; [by apply through_leave|done].
Qed.

(** A call that does all or nothing. *)
Lemma triple_call_whole {A} (I P : files -> Prop) all (Q : A -> files -> Prop) (E : files -> Prop) :
  (forall d, I d -> P d -> E d /\ match all d with Ok (a, d') => I d' /\ Q a d' | Err _ => True end) ->
  triple I P (call ask all nothing) Q E.
Proof.
  intros Hc. apply triple_call. intros d Hi Hp. by destruct (Hc d Hi Hp).
Qed.

Lemma triple_close (I P Q E : files -> Prop) (m : D unit) :
  triple I P m (fun _ => Q) E -> (forall d, Q d -> E d) -> triple I P (then_close ask m) (fun _ => Q) E.
Proof.
  intros Hm HQE st HI HP. specialize (Hm st HI HP). unfold then_close.
  assert (forall R : files -> Prop, triple I R (file_Close ask) (fun _ => R) R) as Hc.
  { intros R. apply triple_call_whole. by intros d Hi Hr. }
  destruct (m st) as [[[]|e] st1]; destruct Hm as [HI' HQ].
  - specialize (Hc Q st1 (through_now _ _ _ HI') HQ). destruct (file_Close ask st1) as [[[]|e] st2]; destruct Hc as [H1 H2];
      (split; [by eapply through_trans|auto]).
  - specialize (Hc E st1 (through_now _ _ _ HI') HQ). destruct (file_Close ask st1) as [[[]|e'] st2]; destruct Hc as [H1 H2];
      (split; [by eapply through_trans|done]).
Qed.
End Rules.

(** ** Single calls *)

Section Calls.
Context {SD : Type} `{WI : !Windows SD} `{WL : !WindowsLaws SD} (ask : nat -> answer).

(** What a disk still has of another one, but for the file [k]: everything; and beyond
    that only new directories. *)
Definition kept (k : string) (d0 d : files) : Prop :=
  (forall q n, q <> k -> d0 !! q = Some n -> d !! q = Some n) /\
  (forall q n, q <> k -> d0 !! q = None -> d !! q = Some n -> n_dir n = true).

Lemma kept_refl k d : kept k d d.
Proof. split; [done|]. intros q n _ H1 H2. congruence. Qed.

Lemma kept_same k d0 d d' : kept k d0 d -> (forall q, q <> k -> d' !! q = d !! q) -> kept k d0 d'.
Proof. intros [H1 H2] Hd. split; intros q n Hq; rewrite Hd by done; eauto. Qed.

Lemma kept_mkdir k d0 d j p : kept k d0 d -> kept k d0 (win_mkdir j d p).
Proof.
  intros [H1 H2]. split; intros q n Hq H0.
  - by apply wl_mkdir, H1.
  - destruct (d !! q) as [n'|] eqn:Hd.
    + intros Hn. rewrite (wl_mkdir _ _ _ _ _ Hd) in Hn. injection Hn as <-. by eapply H2.
    + intros Hn. by apply (wl_mkdir_new _ _ _ _ _ Hd Hn).
Qed.

Lemma mkdir_absent j d p k : k <> p -> win_below k p = false -> d !! k = None -> win_mkdir j d p !! k = None.
Proof.
  intros Hp Hb Hk. destruct (win_mkdir j d p !! k) as [n|] eqn:Hn; [|done].
  destruct (wl_mkdir_new _ _ _ _ _ Hk Hn) as [_ [?|?]]; congruence.
Qed.

(** A file that is neither made nor passed on the way. *)
Lemma mkdir_other j d p k : k <> p -> win_below k p = false -> win_mkdir j d p !! k = d !! k.
Proof.
  intros Hp Hb. destruct (d !! k) as [n|] eqn:Hk; [by apply wl_mkdir|by apply mkdir_absent].
Qed.

Lemma copy_buffer_pos : (0 < copy_buffer)%nat.
Proof. unfold copy_buffer. lia. Qed.
#[local] Opaque copy_buffer.

(** ** copyFile *)

Section Copy.
Variables (src dst : string) (d0 : files).
Let s := win_file src.
Let k := win_file dst.
Let parent := win_file (win_Dir dst).

(** The two paths name different files, and the directory of [dst] does not lie in it. *)
Context (Hsk : s <> k) (Hpk : k <> parent) (Hbelow : win_below k parent = false).

Definition content : list byte := match d0 !! s with Some n => n_data n | None => [] end.

(** Who may use the copy: whoever might use the file that is overwritten; for a new file,
    what the directory has to inherit. *)
Definition copy_acl (d : files) (n : node) : Prop :=
  match d0 !! k with
  | Some n0 => n_acl n = n_acl n0 /\ n_dir n0 = false
  | None => exists p, d !! parent = Some p /\ n_acl n = win_new (n_acl p)
  end.

(** So much is written. *)
Definition wrote (j : nat) (d : files) : Prop :=
  kept k d0 d /\ exists n, d !! k = Some n /\ n_dir n = false /\ n_data n = take j content /\ copy_acl d n.

(** At every moment. *)
Definition copying (d : files) : Prop := (kept k d0 d /\ d !! k = d0 !! k) \/ exists j, wrote j d.

Lemma wrote_update d n (f : list byte -> list byte) j :
  kept k d0 d -> d !! k = Some n -> n_dir n = false -> copy_acl d n -> f (n_data n) = take j content ->
  wrote j (alter (set_field n_data f) k d).
Proof.
  intros Hkept Hn Hdir Hacl Hf. split.
  - apply (kept_same _ _ d); [done|]. intros q Hq. by rewrite lookup_alter_ne.
  - exists (n <| n_data ::= f |>). rewrite lookup_alter_eq, Hn. split_and!; try done.
    unfold copy_acl in *. destruct (d0 !! k); [done|]. rewrite lookup_alter_ne by done. done.
Qed.

Lemma triple_append off n chunk :
  chunk = take n (drop off content) -> (0 < length chunk)%nat ->
  triple copying (wrote off) (file_write ask k chunk) (fun _ => wrote (off + length chunk)) (fun _ => True).
Proof.
  intros -> Hlen. apply triple_call. intros d _ (Hkept & f & Hf & Hdir & Hdata & Hacl). split; [done|].
  assert (forall j, wrote (off + length (take j (take n (drop off content))))
                    (append_to k (take j (take n (drop off content))) d)) as Hw.
  { intros j. apply (wrote_update d f); [done..|]. rewrite Hdata, <-take_take_drop. f_equal.
    set (l := drop off content). rewrite !take_take, length_take.
    destruct (decide (Nat.min j n <= length l)%nat) as [Hl|Hl]; [by rewrite (Nat.min_l _ _ Hl)|].
    rewrite !take_ge; [done|lia..]. }
  split.
  - specialize (Hw n). rewrite (take_ge (take n _) n) in Hw by (rewrite length_take; lia).
    split; [right; by eexists|done].
  - intros j. split; [right; eexists; apply (Hw j)|done].
Qed.

Lemma triple_io_Copy fuel off : is_Some (d0 !! s) -> (off <= length content)%nat -> (length content - off < fuel)%nat ->
  triple copying (wrote off) (io_Copy ask fuel s k off) (fun _ => wrote (length content)) (fun _ => True).
Proof.
  intros [n0 Hs0]. revert off. induction fuel as [|fuel IH]; intros off Hoff Hfuel; [lia|]. cbn [io_Copy].
  apply (triple_bind _ _ _ (fun chunk d => wrote off d /\ chunk = take copy_buffer (drop off content))).
  { apply triple_call_whole. intros d _ Hw. split; [done|]. pose proof Hw as [[H1 _] _].
    rewrite (H1 _ _ Hsk Hs0). split; [right; by exists off|]. split; [done|].
    unfold content. by rewrite Hs0. }
  intros chunk. apply triple_known. intros Hc.
  assert (length chunk = Nat.min copy_buffer (length content - off)) as Hlen by (by rewrite Hc, length_take, length_drop).
  pose proof copy_buffer_pos as Hpos. destruct chunk as [|b chunk].
  - replace off with (length content) by (simpl in Hlen; lia). apply triple_ret.
  - apply (triple_bind _ _ _ (fun _ => wrote (off + length (b :: chunk)))).
    + by apply (triple_append off copy_buffer); [|simpl; lia].
    + intros _. apply IH; simpl in *; lia.
Qed.

Lemma kept_wrote_new d n : kept k d0 d -> d !! k = Some n -> n_dir n = false -> n_data n = [] -> copy_acl d n -> wrote 0 d.
Proof. intros H1 H2 H3 H4 H5. split; [done|]. by exists n. Qed.

Lemma triple_os_Create :
  triple copying (fun d => kept k d0 d /\ d !! k = d0 !! k) (os_Create ask dst) (fun o d => wrote 0 d /\ o = k) (fun _ => True).
Proof.
  apply triple_call_whole. intros d _ [Hkept Hk]. split; [done|]. cbv zeta. fold k parent. destruct (d !! k) as [n|] eqn:Hn.
  - destruct (n_dir n) eqn:Hdir; [done|]. assert (wrote 0 (<[k := n <| n_data := [] |>]> d)) as Hw.
    { apply (kept_wrote_new _ (n <| n_data := [] |>)); try done; [|by rewrite lookup_insert_eq|].
      - apply (kept_same _ _ d); [done|]. intros q Hq. by rewrite lookup_insert_ne.
      - unfold copy_acl. by rewrite <-Hk. }
    split; [right; by eexists|done].
  - destruct (d !! parent) as [p|] eqn:Hp; [|done]. destruct (n_dir p); [|done].
    assert (wrote 0 (<[k := MkNode false (win_new (n_acl p)) []]> d)) as Hw.
    { apply (kept_wrote_new _ (MkNode false (win_new (n_acl p)) [])); try done; [|by rewrite lookup_insert_eq|].
      - apply (kept_same _ _ d); [done|]. intros q Hq. by rewrite lookup_insert_ne.
      - unfold copy_acl. rewrite <-Hk. exists p. by rewrite lookup_insert_ne. }
    split; [right; by eexists|done].
Qed.

(** A copy, whatever is refused: only the file it is made in changes, which at every
    moment has its old content or the beginning of the source's, and no other users than
    those it had, or than its directory hands down; a copy that succeeds is complete. *)
Lemma triple_copyFile :
  triple copying (fun d => d = d0) (copyFile ask src dst) (fun _ => wrote (length content)) (fun _ => True).
Proof.
  unfold copyFile. apply (triple_bind _ _ _ (fun i d => d = d0 /\ i = s /\ is_Some (d0 !! s))).
  { apply triple_call_whole. intros d Hc ->. split; [done|]. fold s. destruct (d0 !! s) as [n|] eqn:Hs; [|done].
    destruct (n_dir n); [done|]. split; [done|]. by split_and!. }
  intros i. apply (triple_bind _ _ _ (fun _ d => (kept k d0 d /\ d !! k = d0 !! k) /\ i = s /\ is_Some (d0 !! s))).
  { apply triple_call. intros d _ [-> Hi]. split; [done|]. fold parent.
    assert (forall j, kept k d0 (win_mkdir j d0 parent) /\ win_mkdir j d0 parent !! k = d0 !! k) as Hm.
    { intros j. split; [apply kept_mkdir, kept_refl|by apply mkdir_other]. }
    split; [split; [left; apply Hm|split; [apply Hm|done]]|]. intros j. split; [left; apply Hm|done]. }
  intros _. apply triple_known. intros [-> Hs].
  apply (triple_bind _ _ _ _ _ _ _ triple_os_Create). intros o. apply triple_known. intros ->.
  apply triple_close; [|done]. intros st HI Hw.
  apply (triple_io_Copy (S (size_of s (now st))) 0 Hs); [lia| |done|done].
  unfold size_of, content. destruct Hs as [n Hs]. destruct Hw as [[H1 _] _]. rewrite (H1 _ _ Hsk Hs), Hs. lia.
Qed.
End Copy.

(** *** Two names of one file *)

(** The file that is copied over itself, under another name, is emptied first: what
    [copyFile] reports as a success has lost the content. *)
Lemma copyFile_alias src dst (d : files) n :
  win_file src = win_file dst -> d !! win_file src = Some n -> n_dir n = false ->
  (forall i, ask i = Accepted) ->
  let '(r, st) := copyFile ask src dst (MkState d [] 0) in
  r = Ok tt /\ exists n', now st !! win_file dst = Some n' /\ n_data n' = [].
Proof.
  intros He Hn Hdir Hask.
  assert (forall A all some st, call ask all some st = match all (now st) with
            | Ok (a, d) => (Ok (a : A), leave d st) | Err e => (Err e, leave (now st) st) end) as Hc.
  { intros A all some st. unfold call. by rewrite Hask. }
  unfold copyFile, mbind, d_bind, os_Open, os_MkdirAll, os_Create. rewrite Hc. cbn [now]. rewrite Hn, Hdir, Hc.
  unfold leave. cbn [now seen calls]. rewrite Hc, <-He. cbn [now]. rewrite (wl_mkdir _ _ _ _ _ Hn), Hdir.
  unfold then_close, copy_contents, leave. cbn [now seen calls size_of io_Copy]. unfold mbind, d_bind, file_read, file_Close.
  rewrite Hc. cbn [now]. rewrite lookup_insert_eq. unfold set_field. cbn [n_data]. rewrite drop_nil, take_nil.
  unfold mret, d_ret. rewrite Hc. cbn [now leave]. split; [done|]. eexists. by rewrite lookup_insert_eq.
Qed.

(** ** Descriptors *)

Lemma triple_applyDACL (I P Q : files -> Prop) path l :
  Forall ace_ok l ->
  (forall d n, I d -> P d -> d !! win_file path = Some n -> I (win_set d (win_file path) l) /\ Q (win_set d (win_file path) l)) ->
  triple I P (applyDACL ask path (dacl_text l)) (fun _ => Q) P.
Proof.
  intros Hl Hs. unfold applyDACL.
  apply (triple_bind _ _ _ (fun sd d => P d /\ map_err (Wrapf "could not build the security descriptor") (win_sd (dacl_text l)) = Ok sd));
    [apply triple_lift|]. intros sd. apply triple_known. intros Hsd%map_err_Ok.
  apply (triple_bind _ _ _ (fun dacl d => P d /\ map_err (Wrapf "could not read the DACL") (win_dacl sd) = Ok dacl));
    [apply triple_lift|]. intros dacl. apply triple_known. intros Hd%map_err_Ok.
  destruct (wl_dacl _ _ _ Hsd Hd) as [Hok He]. apply dacl_text_inj in He as <-; [|done..].
  apply triple_wrap, triple_call_whole. intros d Hi Hp. split; [done|].
  destruct (d !! win_file path) as [n|] eqn:Hn; [|done]. by apply (Hs d n).
Qed.

Lemma triple_ensureDir (I P Q R : files -> Prop) path l :
  Forall ace_ok l ->
  (forall d j, I d -> P d -> I (win_mkdir j d (win_file path)) /\ R (win_mkdir j d (win_file path))) ->
  (forall d, P d -> R d) ->
  (forall d n, I d -> R d -> d !! win_file path = Some n -> I (win_set d (win_file path) l) /\ Q (win_set d (win_file path) l)) ->
  triple I P (winsys_ensureDir ask path (dacl_text l)) (fun _ => Q) R.
Proof.
  intros Hl Hm HPR Hs. unfold winsys_ensureDir. apply (triple_bind _ _ _ (fun _ => R)).
  - apply triple_wrap, triple_call. intros d Hi Hp. split; [by apply HPR|]. split; [by apply Hm|]. intros n. by apply Hm.
  - intros _. by apply triple_applyDACL.
Qed.

(** *** ProtectTree *)

(** An object that only these may use. *)
Definition closed_to (ps : list principal) (d : files) (path : string) : Prop :=
  exists n, d !! win_file path = Some n /\ Forall (fun a => a_who a ∈ ps) (n_acl n).

(** Nothing is lost, and nobody but these gained a right. *)
Definition no_wider (ps : list principal) (d0 d : files) : Prop := forall q n, d0 !! q = Some n ->
  exists n', d !! q = Some n' /\ n_dir n' = n_dir n /\ n_data n' = n_data n /\
    forall a, a ∈ n_acl n' -> a ∈ n_acl n \/ a_who a ∈ ps.

Lemma set_entries d p l (ps : list principal) q n : Forall (fun a => a_who a ∈ ps) l -> d !! q = Some n ->
  exists n', win_set d p l !! q = Some n' /\ n_dir n' = n_dir n /\ n_data n' = n_data n /\
    forall a, a ∈ n_acl n' -> a ∈ n_acl n \/ a_who a ∈ ps.
Proof.
  rewrite Forall_forall. intros Hl Hn. destruct (decide (q = p)) as [->|Hq].
  - eexists. rewrite (wl_set _ _ _ _ Hn). split_and!; try done. intros a Ha. right. by apply Hl.
  - pose proof (wl_set_other d p l q n Hn Hq) as Hs. destruct (win_below p q).
    + destruct Hs as (acl & Hs & Ha). eexists. rewrite Hs. split_and!; try done. intros a Hin.
      destruct (Ha a Hin) as [|(b & Hb & _ & <- & _)]; [by left|right; by apply Hl].
    + exists n. rewrite Hs. by split_and!; try left.
Qed.

Lemma no_wider_set (ps : list principal) d0 d p l : Forall (fun a => a_who a ∈ ps) l -> no_wider ps d0 d -> no_wider ps d0 (win_set d p l).
Proof.
  intros Hl Hw q n Hq. destruct (Hw q n Hq) as (n1 & H1 & <- & <- & Ha).
  destruct (set_entries d p l ps q n1 Hl H1) as (n2 & H2 & Hd & He & Hb). exists n2. split_and!; try done.
  intros a Hin. destruct (Hb a Hin); auto.
Qed.

Lemma closed_set (ps : list principal) d p l path : Forall (fun a => a_who a ∈ ps) l -> closed_to ps d path -> closed_to ps (win_set d p l) path.
Proof.
  intros Hl (n & Hn & Hc). destruct (set_entries d p l ps _ n Hl Hn) as (n' & H1 & _ & _ & Ha). exists n'.
  split; [done|]. rewrite Forall_forall in *. intros a [Hin|Hin]%Ha; [by apply Hc|done].
Qed.

Abbreviation admins := [LocalSystem; Administrators].

Lemma full_admins i : Forall (fun a => a_who a ∈ admins) (full i).
Proof. unfold full. repeat constructor; set_solver. Qed.

Lemma full_ok i : Forall ace_ok (full i).
Proof. by unfold full; repeat constructor. Qed.

(** One object is closed, and what was closed before stays so. *)
Lemma triple_Protect d0 (paths : list string) path :
  triple (no_wider admins d0) (fun d => Forall (closed_to admins d) paths) (Protect ask path)
    (fun _ d => Forall (closed_to admins d) (path :: paths)) (fun _ => True).
Proof.
  unfold Protect. rewrite (proj1 (descriptors_read "")).
  eapply triple_weaken; [apply (triple_applyDACL _ (fun d => Forall (closed_to admins d) paths)
    (fun d => Forall (closed_to admins d) (path :: paths)) path (full true) (full_ok true))|done..].
  intros d n Hi Hp Hn. split; [apply no_wider_set; [apply full_admins|done]|]. constructor.
  - eexists. rewrite (wl_set _ _ _ _ Hn). split; [done|]. apply full_admins.
  - eapply Forall_impl; [exact Hp|]. intros q. apply closed_set, full_admins.
Qed.

Definition file_paths (dir : string) (l : list (string * bool)) : list string :=
  omap (fun e : string * bool => if e.2 then None else Some (win_Join dir e.1)) l.

Lemma triple_protect_each d0 dir l paths :
  triple (no_wider admins d0) (fun d => Forall (closed_to admins d) paths) (protect_each ask dir l)
    (fun _ d => Forall (closed_to admins d) (file_paths dir l ++ paths)) (fun _ => True).
Proof.
  revert paths. induction l as [|[name b] l IH]; intros paths; cbn [protect_each].
  - apply (triple_ret (no_wider admins d0) (fun d => Forall (closed_to admins d) paths) tt).
  - destruct b; cbn [file_paths omap list_omap fst snd].
    + apply (triple_bind _ _ _ (fun _ d => Forall (closed_to admins d) paths)); [apply triple_ret|].
      intros _. apply IH.
    + apply (triple_bind _ _ _ (fun _ d => Forall (closed_to admins d) (win_Join dir name :: paths))); [apply triple_Protect|].
      intros _. eapply triple_weaken; [apply (IH (win_Join dir name :: paths))|done| |done]. intros [] d. rewrite !Forall_app, !Forall_cons. tauto.
Qed.

(** Securing a directory.  Whatever is refused on the way, nothing is lost and nobody but
    the system and the administrators gains a right at any moment; when it succeeds the
    directory, and each file in it if it could be read, is closed to everybody else. *)
Theorem ProtectTree_closes dir d0 c :
  let st0 := MkState d0 [] c in
  let '(r, st) := ProtectTree ask dir st0 in
  Forall (no_wider admins d0) (states_of st) /\
  (r = Ok tt -> closed_to admins (now st) dir /\
     forall entries, (os_ReadDir ask dir (Protect ask dir st0).2).1 = Ok entries ->
       Forall (closed_to admins (now st)) (file_paths dir entries)).
Proof.
  intros st0. assert (no_wider admins d0 (now st0)) as H0.
  { intros q n Hq. exists n. split_and!; try done. by left. }
  pose proof (triple_Protect d0 [] dir st0 H0 ltac:(by constructor)) as H1.
  assert (forall st, through (no_wider admins d0) st0 st -> Forall (no_wider admins d0) (states_of st)) as Hseen.
  { intros st (new & Hs & Hf). unfold states_of. rewrite Hs. cbn [seen st0]. by rewrite app_nil_r. }
  unfold ProtectTree, mbind, d_bind. destruct (Protect ask dir st0) as [[[]|e] st1]; destruct H1 as [HI HP]; [|by split; [apply Hseen|]].
  unfold protect_entries. cbn [snd].
  assert (triple (no_wider admins d0) (fun d => Forall (closed_to admins d) [dir]) (os_ReadDir ask dir)
            (fun _ d => Forall (closed_to admins d) [dir]) (fun d => Forall (closed_to admins d) [dir])) as Hread.
  { apply triple_call_whole. intros d Hi Hp. split; [done|]. by destruct (win_ReadDir d (win_file dir)). }
  specialize (Hread st1 (through_now _ _ _ HI) HP).
  destruct (os_ReadDir ask dir st1) as [[entries|e] st2]; destruct Hread as [HI2 HP2]; pose proof (through_trans _ _ _ _ HI HI2) as HI3.
  - pose proof (triple_protect_each d0 dir entries [dir] st2 (through_now _ _ _ HI2) HP2) as H3.
    destruct (protect_each ask dir entries st2) as [[[]|e] st3]; destruct H3 as [HI4 HP3];
      (split; [apply Hseen; by eapply through_trans|]); [|done].
    intros _. apply Forall_app in HP3 as [Hf Hd]. split; [by apply Forall_cons in Hd as [? _]|].
    intros entries' Hentries. simpl in Hentries. by injection Hentries as <-.
  - split; [by apply Hseen|]. intros _. split; [by apply Forall_cons in HP2 as [? _]|]. intros entries' Hentries. discriminate Hentries.
Qed.
End Calls.
