(* ===== verification/Manager.v ===== *)
(** The runtime: src/internal/service/manager.go, operation by operation.

    The manager owns the tunnel and the SOCKS5 server through the interfaces
    [TunnelOps] and [ProxyOps], whose laws are what it relies on; ManagerParts.v
    gives both from AwgTunnel.v and SocksServer.v.  An operation here runs by itself;
    how the goroutines interleave is in ManagerLocks.v.  The files, the adapters and the
    clock are an [Env] given to each operation.  Of the log, its level and rotation are
    state here; the lines written to it are in Logging.v and left out. *)

From S2P Require Import Prelude GoStrings GoBytes GoNetip GoErrors SocksDial SocksServer ConfScan TunnelConf AppConf AwgStats AwgTunnel BatchTun Logging Version Ipc HostConflict.

(** ** What the manager uses *)

Class TunnelOps (T : Type) : Type := {
  tun_New : BindMode -> Tunnel -> T;
  tun_BindMode : T -> BindMode;
  tun_Config : T -> option Tunnel;
  tun_Running : T -> bool;
  tun_Start : T -> option error * T;
  tun_Stop : T -> T;
  tun_Reload : Tunnel -> T -> result error unit * T;
  tun_Reconnect : T -> T;
  tun_kicked : T -> bool;
  tun_State : T -> State;
  tun_Reconnects : T -> Z;
  tun_LastError : T -> string;
  tun_StartedAt : T -> option Z;
  tun_DNSStats : T -> DNSCacheStatus;
  tun_Stats : T -> result error DevStats;
}.

Class TunnelLaws (T : Type) `{TunnelOps T} : Prop := {
  tl_New b c : tun_Running (tun_New b c) = false /\ tun_Config (tun_New b c) = Some c /\
    tun_BindMode (tun_New b c) = b;
  tl_Start t : match tun_Start t with
    | (None, t') => tun_Running t' = true
    | (Some _, t') => tun_Running t' = tun_Running t
    end /\ tun_Config (tun_Start t).2 = tun_Config t /\ tun_BindMode (tun_Start t).2 = tun_BindMode t;
  tl_Stop t : tun_Running (tun_Stop t) = false /\ tun_Config (tun_Stop t) = tun_Config t /\
    tun_BindMode (tun_Stop t) = tun_BindMode t;
  tl_Stop_idle t : tun_Running t = false -> tun_Stop t = t;
  tl_Reload c t : match tun_Reload c t with
    | (Ok _, t') => tun_Running t' = tun_Running t /\ tun_Config t' = Some c
    | (Err _, t') => (tun_Running t' = true -> tun_Running t = true) /\ tun_Config t' = tun_Config t
    end /\ tun_BindMode (tun_Reload c t).2 = tun_BindMode t;
  tl_Reload_idle c t : tun_Running t = false -> tun_kicked (tun_Reload c t).2 = tun_kicked t;
  tl_Reconnect t : tun_Running (tun_Reconnect t) = tun_Running t /\
    tun_Config (tun_Reconnect t) = tun_Config t /\ tun_BindMode (tun_Reconnect t) = tun_BindMode t /\
    tun_kicked (tun_Reconnect t) = true;
}.

(** [N] is the addresses of the machine that are bound. *)
Class ProxyOps (P N : Type) : Type := {
  px_New : string -> Z -> bool -> P;
  px_Start : P -> N -> result error P * N;
  px_Stop : P -> N -> P * N;
  px_Addr : P -> string;
  px_MaxConns : P -> Z;
  px_UDP : P -> bool;
  px_Listening : P -> bool;
  px_Stats : P -> Stats;
}.

Class ProxyLaws (P N : Type) `{ProxyOps P N} : Prop := {
  pl_New a n u : px_MaxConns (px_New a n u) = ResolveMaxConns n /\ px_UDP (px_New a n u) = u /\
    px_Listening (px_New a n u) = false;
  pl_Start a k u n : match px_Start (px_New a k u) n with
    | (Ok p, _) => px_MaxConns p = ResolveMaxConns k /\ px_UDP p = u /\ px_Listening p = true
    | (Err _, n') => n' = n
    end;
  pl_Stop p n : px_Listening (px_Stop p n).1 = false;
}.

(** ** State *)

Section Manager.
Context {T P N : Type} `{TO : !TunnelOps T} `{PO : !ProxyOps P N}.

(** [NewManager] onwards.  [m_ctx] is the service's context, if it has one, and whether it
    is still live; [m_retry] the delay of the retry loop, when one is pending; [m_wake] a
    queued wake-up of it; [m_serving] and [m_watching] say that the pipe and the network
    watcher are up. *)
Record Manager := MkManager {
  m_app : option App;
  m_tunCfg : option Tunnel;
  m_tunnel : option T;
  m_socks : option P;
  m_serving : bool;
  m_watching : bool;
  m_started : option Z;
  m_running : bool;
  m_ctx : option bool;
  m_tunnelWanted : bool;
  m_pausedBy : option hostAddress;
  m_retry : option Z;
  m_wake : bool;
  m_log : Logger;
  m_net : N;
}.

#[export] Instance Manager_fields : Fields Manager := fun r =>
  MkManager (m_app r) (m_tunCfg r) (m_tunnel r) (m_socks r) (m_serving r) (m_watching r) (m_started r)
    (m_running r) (m_ctx r) (m_tunnelWanted r) (m_pausedBy r) (m_retry r) (m_wake r) (m_log r) (m_net r).

Definition NewManager (log : Logger) (net : N) : Manager :=
  MkManager None None None None false false None false None false None None false log net.

(** What the operations find around them: the path that the manager was created with, the
    files and their parsers, the adapters, the clock, and whether the pipe and the watcher
    can be set up. *)
Record Env := MkEnv {
  e_appCfgPath : string;
  e_TunnelConfigPath : string;
  e_AppConfigPath : string;
  e_Abs : string -> result error string;
  e_ReadFile : string -> result error (option (list byte));
  e_ParseJSON : string -> option (list (string * json));
  e_FromWgQuick : string -> string -> result error Config;
  e_TunnelNameIsValid : string -> bool;
  e_Base : string -> string;
  e_addresses : option (list hostAddress);
  e_now : Z;
  e_pipe_ok : bool;
  e_watch_ok : bool;
}.

Inductive load_err := LRead (e : error) | LNoFile | LParse (e : tunnel_err).

(** [config.LoadApp], and [config.LoadTunnel]. *)
Definition load_app (env : Env) : result app_err App :=
  LoadApp (e_TunnelConfigPath env) (e_AppConfigPath env) (e_Abs env) (e_ReadFile env) (e_ParseJSON env) (e_appCfgPath env).

Definition LoadTunnel (env : Env) (path : string) : result load_err Tunnel :=
  let abs := match e_Abs env path with Ok p => p | Err _ => path end in
  raw ← map_err LRead (e_ReadFile env abs);
  match raw with
  | None => Err LNoFile
  | Some raw => map_err LParse (ParseTunnel (e_FromWgQuick env) (e_TunnelNameIsValid env) raw abs (e_Base env abs))
  end.

(** The errors of the operations; the constructors with an argument wrap it. *)
Inductive manager_err :=
| EAlreadyRunning
| ENotRunning
| EApp (e : app_err)
| ETunnelConf (e : load_err)
| EBindMode (s : string)
| EPaused (by_ : hostAddress)
| ETunnel (e : error)
| EListener (e : error)
| EAppInvalid (e : app_err)
| ETunnelInvalid (e : load_err)
| EListenNew (e : error)
| EProxyDown (addr : string) (e : error).

(** ** Bringing the tunnel up and down *)

Definition startRetryMin : Z := 10 ^ 9.
Definition startRetryMax : Z := 60 * 10 ^ 9.

Definition startTunnelOnce (m : Manager) : option manager_err * Manager :=
  match m_tunnel m with
  | None => (Some ENotRunning, m)
  | Some t =>
      match m_pausedBy m with
      | Some h => (Some (EPaused h), m)
      | None =>
          if tun_Running t then (None, m)
          else let '(e, t) := tun_Start t in (ETunnel <$> e, m <| m_tunnel := Some t |>)
      end
  end.

(** [retryStart], whose goroutine ends at once when the context is done. *)
Definition retryStart (m : Manager) : Manager :=
  m <| m_retry := if decide (m_ctx m = Some true) then Some startRetryMin else None |>.

Definition cancelRetry (m : Manager) : Manager := m <| m_retry := None |>.

Definition wakeRetry (m : Manager) : Manager := m <| m_wake := true |>.

(** The delay of the next attempt. *)
Definition next_delay (d : Z) : Z := if startRetryMax <? 2 * d then startRetryMax else 2 * d.

(** One round of the retry loop, after its timer or a wake-up. *)
Definition retry_round (m : Manager) : Manager :=
  match m_retry m with
  | None => m
  | Some d =>
      let m := m <| m_wake := false |> in
      if match m_tunnel m with Some t => tun_Running t | None => false end then m <| m_retry := None |>
      else
        match startTunnelOnce m with
        | (None, m) | (Some (EPaused _), m) => m <| m_retry := None |>
        | (Some _, m) => m <| m_retry := Some (next_delay d) |>
        end
  end.

Definition stop_tunnel (m : Manager) : Manager := m <| m_tunnel ::= fmap tun_Stop |>.

Definition pause (hit : hostAddress) (m : Manager) : Manager :=
  stop_tunnel (cancelRetry (m <| m_pausedBy := Some hit |>)).

Definition resume (m : Manager) : Manager :=
  let m := m <| m_pausedBy := None |> in
  if negb (m_tunnelWanted m) || negb (bool_decide (is_Some (m_ctx m))) then m else retryStart m.

(** [checkConflict]: whether the tunnel is paused afterwards. *)
Definition checkConflict (env : Env) (m : Manager) : bool * Manager :=
  match m_tunCfg m, m_tunnel m with
  | Some cfg, Some _ =>
      match e_addresses env with
      | None => (bool_decide (is_Some (m_pausedBy m)), m)
      | Some host =>
          match configConflict (t_AddressPrefixes cfg) host, m_pausedBy m with
          | Some hit, None => (true, pause hit m)
          | Some hit, Some _ => (true, m <| m_pausedBy := Some hit |>)
          | None, Some _ => (false, resume m)
          | None, None => (false, m)
          end
      end
  | _, _ => (false, m)
  end.

(** ** Start and Stop *)

(** The first start of the tunnel. *)
Definition autostart (env : Env) (m : Manager) : Manager :=
  let '(_, m) := checkConflict env m in
  match startTunnelOnce m with
  | (None, m) | (Some (EPaused _), m) => m
  | (Some _, m) => retryStart m
  end.

Definition set_level (name : string) (m : Manager) : Manager :=
  match ParseLevel name with Some l => m <| m_log ::= SetLevel l |> | None => m end.

Definition Start_mgr (env : Env) (m : Manager) : option manager_err * Manager :=
  if m_running m then (Some EAlreadyRunning, m)
  else match load_app env with
  | Err e => (Some (EApp e), m)
  | Ok app =>
      let m := set_level (LogLevel app) m in
      match LoadTunnel env (ConfigPath app) with
      | Err e => (Some (ETunnelConf e), m)
      | Ok cfg =>
          match ParseBindMode (UDPBind app) with
          | None => (Some (EBindMode (UDPBind app)), m)
          | Some bind =>
              let socks := px_New (Socks5Listen app) (MaxConnections app) (UDPEnabled app) in
              let m := m <| m_app := Some app |> <| m_tunCfg := Some cfg |> <| m_tunnel := Some (tun_New bind cfg) |>
                         <| m_socks := Some socks |> <| m_ctx := Some true |> <| m_started := Some (e_now env) |>
                         <| m_running := true |> <| m_tunnelWanted := AutoStart app |> in
              let m := if AutoStart app then autostart env m else m in
              match px_Start socks (m_net m) with
              | (Err e, n) =>
                  (Some (EListener e),
                   stop_tunnel (m <| m_net := n |> <| m_ctx := Some false |> <| m_retry := None |>
                                  <| m_running := false |>))
              | (Ok socks, n) =>
                  (None, m <| m_net := n |> <| m_socks := Some socks |> <| m_serving := e_pipe_ok env |>
                           <| m_watching := e_watch_ok env |>)
              end
          end
      end
  end.

Definition Stop_mgr (m : Manager) : Manager :=
  if negb (m_running m) then m
  else
    let m := m <| m_running := false |> <| m_serving := false |> in
    let m := match m_socks m with
             | Some p => let '(p, n) := px_Stop p (m_net m) in m <| m_socks := Some p |> <| m_net := n |>
             | None => m
             end in
    stop_tunnel (m <| m_watching := false |> <| m_ctx := Some false |> <| m_retry := None |>).

(** ** What happens around it *)

Definition networkSettled (env : Env) (m : Manager) : Manager :=
  let '(paused, m) := checkConflict env m in
  if paused : bool then m
  else match m_tunnel m with
       | Some t => if tun_Running t then m <| m_tunnel := Some (tun_Reconnect t) |> else wakeRetry m
       | None => wakeRetry m
       end.

Definition OnPowerResume (m : Manager) : Manager :=
  match m_tunnel m with
  | Some t => if tun_Running t then m <| m_tunnel := Some (tun_Reconnect t) |> else m
  | None => m
  end.

(** ** The commands *)

Definition StartTunnel (m : Manager) : option manager_err * Manager :=
  match m_tunnel m with
  | None => (Some ENotRunning, m)
  | Some t =>
      let m := m <| m_tunnelWanted := true |> in
      if tun_Running t then (None, m) else startTunnelOnce m
  end.

Definition StopTunnel (m : Manager) : option manager_err * Manager :=
  match m_tunnel m with
  | None => (Some ENotRunning, m)
  | Some _ => (None, stop_tunnel (cancelRetry (m <| m_tunnelWanted := false |>)))
  end.

Definition Reconnect_mgr (m : Manager) : option manager_err * Manager :=
  match m_tunnel m with
  | None => (Some ENotRunning, m)
  | Some t =>
      if negb (tun_Running t) then StartTunnel m else (None, m <| m_tunnel := Some (tun_Reconnect t) |>)
  end.

(** *** Reload *)

Record reloadReport := MkReport {
  applied : list string;
  atNextStart : list string;
  needsRestart : list string;
  sessionsCut : bool;
  tunnelReapplied : bool;
}.

Definition line_of (label : string) (l : list string) : list string :=
  if bool_decide (l = []) then [] else [label +:+ Join l ", "].

Definition reloadReport_String (r : reloadReport) : string :=
  Join ((if bool_decide (applied r = []) then ["no setting in config.json changed"]
         else ["applied: " +:+ Join (applied r) ", "])
    ++ (if sessionsCut r
        then ["the SOCKS5 listener was rebuilt, so proxy sessions that were open are now closed"] else [])
    ++ (if tunnelReapplied r
        then ["the AmneziaWG configuration was re-applied and a fresh handshake was requested"] else [])
    ++ line_of "takes effect at the next service start: " (atNextStart r)
    ++ line_of "NOT applied, run `awgsocks restart` for it to take effect: " (needsRestart r))
    (String nl "").

(** [int64(x)<<20]. *)
Definition mb_bytes (x : Z) : Z := (x * 2 ^ 20 + 2 ^ 63) mod 2 ^ 64 - 2 ^ 63.

Definition bool_text (b : bool) : string := if b then "true" else "false".

(** [strings.EqualFold], on the level names that [Normalize] lets through. *)
Definition EqualFold (a b : string) : bool := bool_decide (ToLower a = ToLower b).

Definition change (label was now : string) : string := label +:+ " " +:+ was +:+ " -> " +:+ now.

(** The settings of the log: what is said to be applied, and the manager with them. *)
Definition reload_log (app : option App) (new : App) (m : Manager) : list string * Manager :=
  let level := match ParseLevel (LogLevel new), app with
               | Some _, Some app => if EqualFold (LogLevel new) (LogLevel app) then [] else ["log_level"]
               | _, _ => []
               end in
  let m := set_level (LogLevel new) m in
  match app with
  | Some app =>
      if bool_decide (LogMaxSizeMB new = LogMaxSizeMB app) && bool_decide (LogMaxFiles new = LogMaxFiles app)
      then (level, m)
      else (level ++ ["log_max_size_mb, log_max_files"],
            m <| m_log ::= SetRotation (mb_bytes (LogMaxSizeMB new)) (LogMaxFiles new) |>)
  | None => (level, m)
  end.

(** Why the listener has to be rebuilt. *)
Definition listener_changes (app new : App) (p : P) : list string :=
  (if bool_decide (Socks5Listen new = Socks5Listen app) then []
   else [change "socks5_listen" (Socks5Listen app) (Socks5Listen new)])
  ++ (if ResolveMaxConns (MaxConnections new) =? px_MaxConns p then []
      else [change "max_connections" (Itoa (px_MaxConns p)) (Itoa (ResolveMaxConns (MaxConnections new)))])
  ++ (if Bool.eqb (UDPEnabled new) (px_UDP p) then []
      else [change "udp_associate" (bool_text (px_UDP p)) (bool_text (UDPEnabled new))]).

(** The swap of the listener: the error that ends the reload, or what was applied. *)
Definition reload_listener (app new : App) (p : P) (m : Manager) : result manager_err (list string) * Manager :=
  let why := listener_changes app new p in
  if bool_decide (why = []) then (Ok [], m)
  else
    let newSocks := px_New (Socks5Listen new) (MaxConnections new) (UDPEnabled new) in
    if negb (bool_decide (Socks5Listen new = Socks5Listen app)) then
      match px_Start newSocks (m_net m) with
      | (Err e, n) => (Err (EListenNew e), m <| m_net := n |>)
      | (Ok newSocks, n) => let '(_, n) := px_Stop p n in (Ok why, m <| m_net := n |> <| m_socks := Some newSocks |>)
      end
    else
      let '(_, n) := px_Stop p (m_net m) in
      match px_Start newSocks n with
      | (Err e, n) => (Err (EProxyDown (Socks5Listen new) e), m <| m_net := n |> <| m_socks := Some newSocks |>)
      | (Ok newSocks, n) => (Ok why, m <| m_net := n |> <| m_socks := Some newSocks |>)
      end.

(** [Reload].  [Tunnel.Reload] answers that something changed whenever it does not fail, so
    [tunnelReapplied] is true in every report. *)
Definition Reload_mgr (env : Env) (m : Manager) : result manager_err reloadReport * Manager :=
  let app := m_app m in
  let socks := m_socks m in
  match m_tunnel m with
  | None => (Err ENotRunning, m)
  | Some t =>
      match load_app env with
      | Err e => (Err (EAppInvalid e), m)
      | Ok new =>
          match LoadTunnel env (ConfigPath new) with
          | Err e => (Err (ETunnelInvalid e), m)
          | Ok newTun =>
              let '(log, m) := reload_log app new m in
              match tun_Reload newTun t with
              | (Err e, t) => (Err (ETunnel e), m <| m_tunnel := Some t |>)
              | (Ok _, t) =>
                  let '(_, m) := checkConflict env (m <| m_tunnel := Some t |> <| m_tunCfg := Some newTun |>) in
                  let '(r, m) := match app, socks with
                                 | Some app, Some p => reload_listener app new p m
                                 | _, _ => (Ok [], m)
                                 end in
                  match r with
                  | Err e => (Err e, m)
                  | Ok why =>
                      (Ok (MkReport (log ++ why)
                             (match app with
                              | Some app => if Bool.eqb (AutoStart new) (AutoStart app) then []
                                  else [change "auto_start" (bool_text (AutoStart app)) (bool_text (AutoStart new))]
                              | None => []
                              end)
                             (match app with
                              | Some app => if bool_decide (UDPBind new = UDPBind app) then []
                                  else [change "udp_bind" (UDPBind app) (UDPBind new)]
                              | None => []
                              end)
                             (negb (bool_decide (why = []))) true),
                       m <| m_app := Some new |>)
                  end
              end
          end
      end
  end.

(** *** Status *)

Definition Prefix_String (p : Prefix) : string :=
  if negb (Prefix_IsValid p) then "invalid Prefix" else Addr_String (p_addr p) +:+ "/" +:+ Itoa (p_bits p).

Section Status.
(** [conf.Endpoint.String], [strconv.Quote], [runtime.Version()], and how a time.Duration is
    rounded and printed. *)
Variable endpoint_String : Peer -> string.
Variable quote : string -> string.
Variable GoVersion : string.

Definition Endpoint_String (c : Tunnel) : string :=
  match cfg_Peers (t_Config c) with [] => "" | p :: _ => endpoint_String p end.

Definition no_tunnel_status : TunnelStatus :=
  MkTunnelStatus "" "" zero_time 0 0 0 "" None ∅ "" [] [] [] 0 [] (MkDNSCacheStatus 0 0 0 0) "".

Definition no_socks_status : SocksStatus := MkSocksStatus "" false 0 0 0 0 0 0 0 0 false 0 0 0 0 0 0.

Definition config_status (c : Tunnel) (s : TunnelStatus) : TunnelStatus :=
  s <| ts_Generation := t_Generation c |> <| ts_MTU := t_MTU c |>
    <| ts_Addresses := Prefix_String <$> t_AddressPrefixes c |> <| ts_DNS := Addr_String <$> t_DNS c |>
    <| ts_LocalDNS := Addr_String <$> t_LocalDNS c |>.

Definition tunnel_status (cfg : option Tunnel) (paused : option hostAddress) (t : T) (s : TunnelStatus) : TunnelStatus :=
  let s := s <| ts_State := State_String (tun_State t) |> <| ts_Reconnects := tun_Reconnects t |>
             <| ts_LastError := tun_LastError t |> <| ts_StartedAt := tun_StartedAt t |>
             <| ts_PausedBy := match paused with Some h => hostAddress_String quote h | None => "" end |>
             <| ts_DNSCache := tun_DNSStats t |> in
  match tun_Stats t with
  | Ok st =>
      s <| ts_Endpoint := s_Endpoint st |> <| ts_LastHandshake := s_LastHandshake st |>
        <| ts_TxBytes := s_TxBytes st |> <| ts_RxBytes := s_RxBytes st |> <| ts_AWGParams := AWGParams st |>
        <| ts_AllowedIPs := match Peers st with p :: _ => AllowedIPs p | [] => [] end |>
  | Err _ => match cfg with Some c => s <| ts_Endpoint := Endpoint_String c |> | None => s end
  end.

Definition socks_status (p : P) : SocksStatus :=
  let s := px_Stats p in
  MkSocksStatus (px_Addr p) (px_Listening p) (statActive s) (statTotal s) (statRejected s) (statFailed s)
    (statHostname s) (statNoName s) (statTx s) (statRx s) (px_UDP p) (statUDPAssoc s) (statUDPSent s)
    (statUDPReceived s) (statUDPDropped s) (statUDPBytesUp s) (statUDPBytesDown s).

Definition Status_mgr (now : Z) (m : Manager) : Status warning :=
  let ts := no_tunnel_status in
  let ts := match m_tunCfg m with Some c => config_status c ts | None => ts end in
  let ts := match m_tunnel m with Some t => tunnel_status (m_tunCfg m) (m_pausedBy m) t ts | None => ts end in
  let bind := match m_tunnel m with
              | Some t => bindDescription (tun_BindMode t)
              | None => "std (conn.NewStdNetBind)"
              end in
  MkStatus (if m_running m then "running" else "stopped")
    (match m_app m with Some a => ConfigPath a | None => "" end) ts
    (match m_socks m, m_app m with
     | Some p, _ => socks_status p
     | None, Some a => no_socks_status <| ss_Listen := Socks5Listen a |>
     | None, None => no_socks_status
     end)
    (MkVersionStatus Version AmneziaWGGoVersion AmneziaWGGoCommit AmneziaWGWindowsVersion AmneziaWGWindowsCommit
       WintunStatus GoVersion "untouched (this is not a system wide VPN)" bind)
    (match m_tunCfg m with Some c => t_Warnings c | None => [] end)
    ((fun s => now - s) <$> m_started m).

(** *** Over the pipe

    The texts of the configuration errors are parameters. *)
Variable app_text : app_err -> string.
Variable load_text : load_err -> string.

(** [pausedError.Error], and the texts that the operations give their errors. *)
Definition paused_text (h : hostAddress) : string :=
  "the tunnel is paused because its configuration is connected on the Windows adapter " +:+ hostAddress_String quote h +:+
  ", and two clients using one key take the session from each other; it resumes when that adapter disconnects".

Definition manager_err_String (e : manager_err) : string :=
  match e with
  | EAlreadyRunning => "the service is already running"
  | ENotRunning => "the service is not running"
  | EApp e => app_text e
  | ETunnelConf e => load_text e
  | EBindMode s => "invalid udp_bind value " +:+ quote s +:+ " (std|rio)"
  | EPaused h => paused_text h
  | ETunnel e => Error e
  | EListener e => Error e
  | EAppInvalid e => "the application configuration is invalid, keeping the current settings: " +:+ app_text e
  | ETunnelInvalid e => "the tunnel configuration is invalid, keeping the running tunnel: " +:+ load_text e
  | EListenNew e => "could not bind the new SOCKS5 address, keeping the previous listener: " +:+ Error e
  | EProxyDown addr e =>
      "the SOCKS5 listener was closed to apply the new settings and " +:+ addr +:+
      " could not be bound again, the proxy is down until `awgsocks restart`: " +:+ Error e
  end.

Definition told {A} (r : option manager_err * A) : option string * A := (manager_err_String <$> r.1, r.2).

(** The manager as the handler of the pipe, at one moment. *)
Definition manager_handler (env : Env) : Handler Manager warning := {|
  h_Status m := Status_mgr (e_now env) m;
  h_Reload m :=
    let '(r, m) := Reload_mgr env m in
    (match r with Ok rep => Ok (reloadReport_String rep) | Err e => Err (manager_err_String e) end, m);
  h_Reconnect m := told (Reconnect_mgr m);
  h_StartTunnel m := told (StartTunnel m);
  h_StopTunnel m := told (StopTunnel m);
|}.
End Status.
End Manager.
