(* ===== verification/ManagerParts.v ===== *)
(** The parts of the runtime: the tunnel of AwgTunnel.v, with its bind mode, and the
    server of SocksServer.v give the interfaces that Manager.v asks for, with their
    laws. *)

From S2P Require Import Prelude GoStrings GoNetip GoErrors SocksDial SocksServer TunnelConf Resolver AwgStats AwgTunnel BatchTun Ipc Manager.

(** ** The tunnel *)

Section Tunnel.
Context {W Dev Sock Key : Type} `{U : !Upstream W Dev Sock Key}.
(** The device code's world and the time when a tunnel is made. *)
Context (w0 : W) (now0 : Z).

Abbreviation AWG := (AWG W Dev Key).

Definition dns_stats (t : AWG) : DNSCacheStatus :=
  MkDNSCacheStatus (r_hits (a_resolver t)) (r_misses (a_resolver t)) (r_coalesced (a_resolver t))
    (Z.of_nat (size (r_entries (a_resolver t)))).

#[export] Instance awg_ops : TunnelOps (BindMode * AWG) := {|
  tun_New b c := (b, NewWithBindAndNetstack (Some c) now0 w0);
  tun_BindMode := fst;
  tun_Config t := a_cfg t.2;
  tun_Running t := a_running t.2;
  tun_Start t := let '(e, t') := Start_awg t.2 in (e, (t.1, t'));
  tun_Stop t := (t.1, Stop_awg t.2);
  tun_Reload c t := let '(r, t') := Reload (Some c) t.2 in (r, (t.1, t'));
  tun_Reconnect t := (t.1, Reconnect t.2);
  tun_kicked t := a_kick t.2;
  tun_State t := a_state t.2;
  tun_Reconnects t := a_reconnects t.2;
  tun_LastError t := a_lastErr t.2;
  tun_StartedAt t := a_startedAt t.2;
  tun_DNSStats t := dns_stats t.2;
  tun_Stats t := readStats t.2;
|}.

Lemma Stop_cfg (t : AWG) : a_cfg (Stop_awg t) = a_cfg t.
Proof. unfold Stop_awg, stop_lock. destruct (a_running t); cbn [negb]; [by destruct (a_dev t)|done]. Qed.

Lemma Start_laws (t : AWG) :
  match Start_awg t with
  | (None, t') => a_running t' = true
  | (Some _, t') => a_running t' = a_running t
  end /\ a_cfg (Start_awg t).2 = a_cfg t.
Proof.
  destruct (a_running t) eqn:Hr.
  - unfold Start_awg. by rewrite Hr.
  - pose proof (Start_outcome t Hr) as Ho. destruct (Start_awg t) as [[e|] t']; naive_solver.
Qed.

Lemma reload_uapi_fields prev next d (t : AWG) r t' : reload_uapi prev next d t = (r, t') ->
  a_running t' = a_running t /\ match r with Ok _ => a_cfg t' = Some next | Err _ => a_cfg t' = a_cfg t end.
Proof.
  unfold reload_uapi. destruct (toUAPI prev _) as [[pu|e] w1]; [|by intros [= <- <-]].
  destruct (toUAPI next w1) as [[nu|e] w2]; [|by intros [= <- <-]].
  destruct (IpcSet d nu w2) as [[e|] w3].
  - by destruct (IpcSet d pu w3) as [[e'|] w4]; intros [= <- <-].
  - set (t1 := match peerKeys next with Ok _ => _ | Err _ => _ end).
    assert (a_running t1 = a_running t /\ a_cfg t1 = Some next) as [H1 H2] by (unfold t1; by destruct (peerKeys next)).
    clearbody t1. intros [= <- <-]. destruct (markNotReady_fields t1) as (H3 & H4 & _).
    pose proof (kick_fields ((markNotReady t1) <| a_state := StateConnecting |>)) as (-> & -> & _).
    by split; simpl; congruence.
Qed.

Lemma Reload_laws c (t : AWG) :
  match Reload (Some c) t with
  | (Ok _, t') => a_running t' = a_running t /\ a_cfg t' = Some c
  | (Err _, t') => (a_running t' = true -> a_running t = true) /\ a_cfg t' = a_cfg t
  end /\ (a_running t = false -> a_kick (Reload (Some c) t).2 = a_kick t).
Proof.
  unfold Reload. destruct (DryRun (Some c) (a_world t)) as [[e|] w]; [done|].
  set (t0 := t <| a_world := w |>).
  assert (a_running t0 = a_running t /\ a_cfg t0 = a_cfg t /\ a_kick t0 = a_kick t) as (Hr0 & Hc0 & Hk0) by done.
  clearbody t0. rewrite <-Hr0, <-Hc0, <-Hk0. destruct (a_running t0) eqn:Hrun; cbn [negb]; [|by split].
  split; [|done]. destruct (stackEqual (a_cfg t0) (Some c)).
  - destruct (a_cfg t0) as [prev|] eqn:Hc; [|by rewrite Hc]. destruct (a_dev t0) as [d|]; [|by rewrite Hc].
    destruct (reload_uapi prev c d t0) as [r t'] eqn:Hu. apply reload_uapi_fields in Hu as [H1 H2].
    destruct r; split; congruence.
  - unfold reload_rebuild. pose proof (Stop_running t0) as Hs. set (t1 := Stop_awg t0) in *. clearbody t1.
    pose proof (Start_laws (t1 <| a_cfg := Some c |>)) as [H1 H1'].
    destruct (Start_awg (t1 <| a_cfg := Some c |>)) as [[e|] t2]; [|by split].
    pose proof (Start_laws (t2 <| a_cfg := a_cfg t0 |>)) as [H2 H2'].
    by destruct (Start_awg (t2 <| a_cfg := a_cfg t0 |>)) as [[e'|] t3].
Qed.

#[export] Instance awg_ops_laws : TunnelLaws (BindMode * AWG).
Proof.
  constructor; unfold tun_New, tun_BindMode, tun_Config, tun_Running, tun_Start, tun_Stop, tun_Reload, tun_Reconnect,
    tun_kicked, awg_ops.
  - done.
  - intros [b t]. cbn [fst snd]. destruct (Start_laws t) as [H1 H2]. by destruct (Start_awg t) as [[e|] t'].
  - intros [b t]. cbn [fst snd]. split; [apply Stop_running|]. split; [apply Stop_cfg|done].
  - intros [b t]. cbn [fst snd]. intros Hr. unfold Stop_awg, stop_lock. by rewrite Hr.
  - intros c [b t]. cbn [fst snd]. destruct (Reload_laws c t) as [H1 _]. by destruct (Reload (Some c) t) as [[u|e] t'].
  - intros c [b t]. cbn [fst snd]. destruct (Reload_laws c t) as [_ H1].
    by destruct (Reload (Some c) t) as [[u|e] t'].
  - by intros [b t].
Qed.
End Tunnel.

(** ** The server *)

(** [net.Listen] on a machine where some addresses are taken. *)
Definition listen_on (taken : gset string) (a : string) : result error string :=
  if bool_decide (a ∈ taken) then Err (EMsg "bind: address already in use") else Ok a.

(** The state of a server once [Stop] has returned. *)
Definition stopped_server (s : Server) : Server :=
  s <| s_closing := true |> <| s_ln := None |> <| s_ln_open := false |> <| s_started := false |>
    <| s_loop := LoopDone |> <| s_stop := Stopped |> <| s_sessions := ∅ |> <| s_active := ∅ |>
    <| s_conn_closed := s_accepted s |>.

#[export] Instance server_ops : ProxyOps Server (gset string) := {|
  px_New := NewWithOptions;
  px_Start s n :=
    match Start (listen_on n) s with
    | Err e => (Err e, n)
    | Ok s => (Ok s, {[s_listen s]} ∪ n)
    end;
  px_Stop s n := (stopped_server s, if s_ln_open s then n ∖ {[s_listen s]} else n);
  px_Addr := Addr_of;
  px_MaxConns := MaxConns;
  px_UDP := UDPAssociateEnabled;
  px_Listening := Listening;
  px_Stats := s_stats;
|}.

#[export] Instance server_ops_laws : ProxyLaws Server (gset string).
Proof.
  constructor; simpl.
  - done.
  - intros a k u n. unfold Start. cbn [s_listen NewWithOptions].
    destruct (ParseAddrPort a) as [ap|]; [|done]. destruct (negb (IsLoopback (ap_addr ap))); [done|].
    unfold listen_on. by destruct (bool_decide (a ∈ n)).
  - done.
Qed.

(** [Stop] of a server that serves nobody takes it there. *)
Lemma stopped_server_reached listen maxConns udp n s :
  Start (listen_on n) (NewWithOptions listen maxConns udp) = Ok s -> rtc step s (stopped_server s).
Proof.
  intros Hs. unfold Start in Hs. cbn [s_listen NewWithOptions] in Hs.
  destruct (ParseAddrPort listen) as [ap|]; [|done]. destruct (negb (IsLoopback (ap_addr ap))); [done|].
  destruct (listen_on n listen) as [bound|]; [|done]. injection Hs as <-.
  eapply rtc_l; [by apply step_stop|]. eapply rtc_l; [by apply step_snapshot|].
  eapply rtc_l; [by apply (step_close_listener ∅)|]. eapply rtc_l; [by apply (step_close_conns ∅)|].
  eapply rtc_l; [by apply (step_accept_error 0)|]. eapply rtc_l; [by apply step_wait|]. apply rtc_refl.
Qed.
