(* ===== verification/ManagerInv.v ===== *)
(** What the runtime of Manager.v keeps true, against the interfaces of the tunnel and the
    server alone: the invariant of its states in every sequence of operations, what a
    reload, a start and a round of the retry loop come to, and what the commands of the
    pipe mean. *)

From S2P Require Import Prelude GoStrings GoNetip GoErrors SocksDial SocksServer ConfScan TunnelConf AppConf AwgStats AwgTunnel BatchTun Logging Ipc HostConflict Manager ManagerParts.

#[local] Set Default Proof Using "Type*".

Section Props.
Context {T P N : Type} `{TO : !TunnelOps T} `{TL : !TunnelLaws T} `{PO : !ProxyOps P N} `{PL : !ProxyLaws P N}.

Abbreviation Manager := (Manager (T := T) (P := P) (N := N)).

(** The tunnel is down. *)
Definition down (m : Manager) : Prop := forall t, m_tunnel m = Some t -> tun_Running t = false.

Record mgr_inv (m : Manager) : Prop := {
  mi_config : forall t, m_tunnel m = Some t -> tun_Config t = m_tunCfg m;
  mi_paused : is_Some (m_pausedBy m) -> down m /\ m_retry m = None;
  mi_wanted : m_tunnelWanted m = false -> down m /\ m_retry m = None;
  mi_stopped : m_running m = false ->
    down m /\ m_retry m = None /\ m_serving m = false /\ m_watching m = false /\ m_ctx m <> Some true /\
    forall p, m_socks m = Some p -> px_Listening p = false;
  mi_running : m_running m = true ->
    is_Some (m_app m) /\ is_Some (m_tunCfg m) /\ is_Some (m_tunnel m) /\ is_Some (m_socks m) /\ m_ctx m = Some true;
  mi_delay : forall d, m_retry m = Some d -> startRetryMin <= d <= startRetryMax;
}.

Lemma inv_idle m : mgr_inv m -> m_tunnelWanted m = false \/ m_running m = false -> down m /\ m_retry m = None.
Proof. intros I [H|H]; [apply (mi_wanted _ I H)|]. destruct (mi_stopped _ I H) as (? & ? & _). done. Qed.

(** What bringing the tunnel up and down leaves alone. *)
Definition rest (m : Manager) :=
  (m_app m, m_tunCfg m, m_socks m, m_serving m, m_watching m, m_running m, m_ctx m, m_tunnelWanted m, m_net m).

Lemma rest_fields m m' : rest m' = rest m ->
  m_app m' = m_app m /\ m_tunCfg m' = m_tunCfg m /\ m_socks m' = m_socks m /\ m_serving m' = m_serving m /\
  m_watching m' = m_watching m /\ m_running m' = m_running m /\ m_ctx m' = m_ctx m /\
  m_tunnelWanted m' = m_tunnelWanted m /\ m_net m' = m_net m.
Proof. intros [= ]. done. Qed.

(** [mgr_inv] after an operation that changes the tunnel, the pause and the retry only. *)
Lemma inv_rest m m' :
  mgr_inv m -> rest m' = rest m ->
  (m_tunnel m' = m_tunnel m \/ exists t t', m_tunnel m = Some t /\ m_tunnel m' = Some t' /\ tun_Config t' = tun_Config t) ->
  (is_Some (m_pausedBy m') -> down m' /\ m_retry m' = None) ->
  (m_tunnelWanted m = false \/ m_running m = false -> down m' /\ m_retry m' = None) ->
  (forall d, m_retry m' = Some d -> startRetryMin <= d <= startRetryMax) ->
  mgr_inv m'.
Proof.
  intros [I1 I2 I3 I4 I5 I6] Hr Ht Hp Hw Hd.
  apply rest_fields in Hr as (R1 & R2 & R3 & R4 & R5 & R6 & R7 & R8 & R9). split.
  - intros t' Ht'. rewrite R2. destruct Ht as [Ht|(t & t1 & Ht & Ht1 & Hc)].
    + apply I1. congruence.
    + assert (t1 = t') as <- by congruence. rewrite Hc. by apply I1.
  - done.
  - rewrite R8. intros ?. apply Hw. by left.
  - rewrite R6, R4, R5, R7, R3. intros Hf. destruct (I4 Hf) as (_ & _ & S1 & S2 & S3 & S4).
    destruct Hw as [? ?]; [by right|]. done.
  - rewrite R6, R1, R2, R3, R7. intros Hf. destruct (I5 Hf) as (S1 & S2 & S3 & S4 & S5). split_and!; try done.
    destruct Ht as [->|(t & t1 & Ht & -> & Hc)]; [done|by eexists].
  - done.
Qed.

Lemma next_delay_bounds d : startRetryMin <= d <= startRetryMax -> startRetryMin <= next_delay d <= startRetryMax.
Proof. unfold next_delay, startRetryMin, startRetryMax. destruct (Z.ltb_spec (60 * 10 ^ 9) (2 * d)); lia. Qed.

(** ** The parts *)

Lemma stop_tunnel_spec (m : Manager) :
  rest (stop_tunnel m) = rest m /\ down (stop_tunnel m) /\ m_retry (stop_tunnel m) = m_retry m /\
  m_pausedBy (stop_tunnel m) = m_pausedBy m /\
  (m_tunnel (stop_tunnel m) = m_tunnel m \/
   exists t t', m_tunnel m = Some t /\ m_tunnel (stop_tunnel m) = Some t' /\ tun_Config t' = tun_Config t).
Proof.
  destruct m as [app cfg tun socks srv wat st run ctx wanted paused retry wake log net].
  unfold stop_tunnel. cbn. split_and!; try done.
  - intros t'. cbn. destruct tun as [t|]; [|done]. intros [= <-]. apply tl_Stop.
  - destruct tun as [t|]; [|by left]. right. exists t, (tun_Stop t). split_and!; try done. apply tl_Stop.
Qed.

Lemma startTunnelOnce_spec (m : Manager) :
  rest (startTunnelOnce m).2 = rest m /\ m_retry (startTunnelOnce m).2 = m_retry m /\
  m_pausedBy (startTunnelOnce m).2 = m_pausedBy m /\
  (m_tunnel (startTunnelOnce m).2 = m_tunnel m \/
   exists t t', m_tunnel m = Some t /\ m_tunnel (startTunnelOnce m).2 = Some t' /\ tun_Config t' = tun_Config t) /\
  match (startTunnelOnce m).1 with
  | None => m_pausedBy m = None /\ exists t, m_tunnel (startTunnelOnce m).2 = Some t /\ tun_Running t = true
  | Some ENotRunning => m_tunnel m = None
  | Some (EPaused h) => m_pausedBy m = Some h /\ m_tunnel (startTunnelOnce m).2 = m_tunnel m
  | Some (ETunnel e) => m_pausedBy m = None /\ down (startTunnelOnce m).2 /\
      exists t, m_tunnel m = Some t /\ (tun_Start t).1 = Some e
  | Some _ => False
  end.
Proof.
  destruct m as [app cfg tun socks srv wat st run ctx wanted paused retry wake log net].
  unfold startTunnelOnce. cbn. destruct tun as [t|]; [|by cbn; auto 10].
  destruct paused as [h|]; [by cbn; auto 10|].
  destruct (tun_Running t) eqn:Hr; [by cbn; eauto 15|].
  pose proof (tl_Start t) as (H1 & H2 & _). destruct (tun_Start t) as [[e|] t'] eqn:Hs; cbn in *.
  - split_and!; try done; [right; by exists t, t'|intros t1 [= <-]; congruence|by exists t; rewrite Hs].
  - split_and!; try done; [right; by exists t, t'|by exists t'].
Qed.

Lemma inv_startTunnelOnce m :
  mgr_inv m -> m_tunnelWanted m = true -> m_running m = true -> mgr_inv (startTunnelOnce m).2.
Proof.
  intros I Hw Hr. pose proof (startTunnelOnce_spec m) as (H1 & H2 & H3 & H4 & H5).
  apply (inv_rest m); try done.
  - rewrite H3, H2. intros Hp. destruct (mi_paused _ I Hp) as [Hd Hn]. split; [|done].
    destruct (startTunnelOnce m).1 as [[]|]; try done.
    + intros t Ht. destruct H4 as [H4|(t1 & _ & H4 & _)]; congruence.
    + destruct H5 as [_ Ht]. intros t. rewrite Ht. apply Hd.
    + by destruct H5 as (_ & ? & _).
    + destruct H5 as [Hn' _]. rewrite Hn' in Hp. by destruct Hp.
  - intros [?|?]; congruence.
  - rewrite H2. apply I.
Qed.

Lemma inv_set_retry m d :
  mgr_inv m -> m_tunnelWanted m = true -> m_running m = true -> m_pausedBy m = None ->
  startRetryMin <= d <= startRetryMax -> mgr_inv (m <| m_retry := Some d |>).
Proof.
  intros I Hw Hr Hp Hd. apply (inv_rest m); try done; try (by left); destruct m; cbn in *.
  - intros [? ?]. congruence.
  - intros [?|?]; congruence.
  - intros d' [= <-]. done.
Qed.

Lemma inv_no_retry m : mgr_inv m -> mgr_inv (m <| m_retry := None |>).
Proof.
  intros I. apply (inv_rest m); try done; try (by left); destruct m; cbn in *.
  - intros Hp. split; [apply (mi_paused _ I Hp)|done].
  - intros H. split; [apply (inv_idle _ I H)|done].
Qed.

Lemma inv_wake m b : mgr_inv m -> mgr_inv (m <| m_wake := b |>).
Proof. destruct m. intros []. by split. Qed.

Lemma inv_retryStart m :
  mgr_inv m -> m_tunnelWanted m = true -> m_running m = true -> m_pausedBy m = None -> mgr_inv (retryStart m).
Proof.
  intros I Hw Hr Hp. unfold retryStart. destruct (decide _); [|by apply inv_no_retry].
  by apply inv_set_retry.
Qed.

Lemma inv_stop_tunnel m : mgr_inv m -> mgr_inv (stop_tunnel m).
Proof.
  intros I. pose proof (stop_tunnel_spec m) as (H1 & H2 & H3 & H4 & H5). apply (inv_rest m); try done.
  - rewrite H3, H4. intros Hp. split; [done|apply (mi_paused _ I Hp)].
  - rewrite H3. intros H. split; [done|apply (inv_idle _ I H)].
  - rewrite H3. apply I.
Qed.

(** A pause takes effect in any state. *)
Lemma pause_spec h m :
  rest (pause h m) = rest m /\ down (pause h m) /\ m_retry (pause h m) = None /\ m_pausedBy (pause h m) = Some h /\
  (mgr_inv m -> mgr_inv (pause h m)).
Proof.
  unfold pause, cancelRetry. set (m1 := (m <| m_pausedBy := Some h |>) <| m_retry := None |>).
  pose proof (stop_tunnel_spec m1) as (H1 & H2 & H3 & H4 & H5). split_and!; try done.
  intros I. by apply (inv_rest m).
Qed.

Lemma resume_spec m :
  rest (resume m) = rest m /\ m_tunnel (resume m) = m_tunnel m /\ m_pausedBy (resume m) = None /\
  m_retry (resume m) = if m_tunnelWanted m && bool_decide (is_Some (m_ctx m))
                       then (if decide (m_ctx m = Some true) then Some startRetryMin else None) else m_retry m.
Proof.
  destruct m as [app cfg tun socks srv wat st run ctx wanted paused retry wake log net].
  unfold resume, retryStart. cbn. destruct wanted; cbn; [|done]. by destruct (bool_decide _).
Qed.

Lemma inv_resume m : mgr_inv m -> is_Some (m_pausedBy m) -> mgr_inv (resume m).
Proof.
  intros I Hp. destruct (mi_paused _ I Hp) as [Hd Hn]. pose proof (resume_spec m) as (H1 & H2 & H3 & H4).
  apply (inv_rest m); try done; try (by left).
  - rewrite H3. by intros [? ?].
  - rewrite H4. unfold down. rewrite H2. intros [H|H]; (split; [done|]).
    + by rewrite H.
    + destruct (mi_stopped _ I H) as (_ & _ & _ & _ & Hc & _). destruct (_ && _); [|done]. by rewrite decide_False.
  - rewrite H4, Hn. intros d. destruct (_ && _); [|done]. destruct (decide _); [|done]. intros [= <-].
    unfold startRetryMin, startRetryMax. lia.
Qed.

(** ** The conflict check *)

(** The own addresses that an adapter holds, if there are any: [None] when the check
    does not look. *)
Definition conflict_seen (env : Env) (m : Manager) : option (option hostAddress) :=
  match m_tunCfg m, m_tunnel m, e_addresses env with
  | Some cfg, Some _, Some host => Some (configConflict (t_AddressPrefixes cfg) host)
  | _, _, _ => None
  end.

Lemma checkConflict_spec env m :
  rest (checkConflict env m).2 = rest m /\ (mgr_inv m -> mgr_inv (checkConflict env m).2) /\
  match conflict_seen env m with
  | None => (checkConflict env m).2 = m
  | Some hit => m_pausedBy (checkConflict env m).2 = hit /\ (checkConflict env m).1 = bool_decide (is_Some hit) /\
      match hit with
      | Some h => m_pausedBy m = None -> (checkConflict env m).2 = pause h m
      | None => (checkConflict env m).2 = match m_pausedBy m with Some _ => resume m | None => m end
      end
  end.
Proof.
  unfold checkConflict, conflict_seen. destruct (m_tunCfg m) as [cfg|]; [|done]. destruct (m_tunnel m) as [t|]; [|done].
  destruct (e_addresses env) as [host|]; [|done].
  destruct (configConflict (t_AddressPrefixes cfg) host) as [h|], (m_pausedBy m) as [h'|] eqn:Hp; cbn [fst snd]; split_and!; try done.
  - intros I. apply (inv_rest m); try done; try (by left).
    + intros _. apply (mi_paused _ I). by rewrite Hp.
    + apply (inv_idle _ I).
    + apply I.
  - apply pause_spec.
  - apply resume_spec.
  - intros I. apply inv_resume; [done|]. by rewrite Hp.
  - apply resume_spec.
Qed.

Lemma inv_autostart env m :
  mgr_inv m -> m_tunnelWanted m = true -> m_running m = true ->
  rest (autostart env m) = rest m /\ mgr_inv (autostart env m) /\
  (m_retry m = None ->
   (exists t, m_tunnel (autostart env m) = Some t /\ tun_Running t = true) \/ is_Some (m_pausedBy (autostart env m)) \/
   m_retry (autostart env m) = Some startRetryMin).
Proof.
  intros I Hw Hr. unfold autostart. pose proof (checkConflict_spec env m) as (R1 & I1 & _).
  destruct (checkConflict env m) as [b m1]. cbn [snd] in *. specialize (I1 I).
  apply rest_fields in R1 as R1f. destruct R1f as (_ & _ & _ & _ & _ & Er & _ & Ew & _).
  rewrite <-Ew in Hw. rewrite <-Er in Hr.
  pose proof (startTunnelOnce_spec m1) as (R2 & _ & Hp & _ & Ho). pose proof (inv_startTunnelOnce m1 I1 Hw Hr) as I2.
  destruct (startTunnelOnce m1) as [e m2]. cbn [fst snd] in *.
  apply rest_fields in R2 as R2f. destruct R2f as (_ & _ & _ & _ & _ & Er2 & _ & Ew2 & _).
  rewrite <-Er2 in Hr. rewrite <-Ew2 in Hw. destruct (mi_running _ I2 Hr) as (_ & _ & Ht & _ & Hc).
  destruct e as [[]|]; try done; cbn in Ho.
  - pose proof (startTunnelOnce_spec m1) as (_ & _ & _ & H & _).
    destruct (mi_running _ I1) as (_ & _ & [t Ht1] & _); congruence.
  - destruct Ho as [Ho _]. split; [congruence|]. split; [done|]. intros _. right. left. by rewrite Hp, Ho.
  - destruct Ho as (Ho & _). split; [by rewrite <-R1, <-R2; unfold retryStart|]. split.
    + apply inv_retryStart; congruence.
    + intros _. right. right. unfold retryStart. by rewrite Hc.
  - destruct Ho as (_ & Ho). split; [congruence|]. split; [done|]. intros _. by left.
Qed.

Lemma inv_wanted_of_retry m d : mgr_inv m -> m_retry m = Some d ->
  m_tunnelWanted m = true /\ m_running m = true /\ m_pausedBy m = None.
Proof.
  intros I Hr. split_and!.
  - destruct (m_tunnelWanted m) eqn:H; [done|]. destruct (mi_wanted _ I H). congruence.
  - destruct (m_running m) eqn:H; [done|]. destruct (mi_stopped _ I H) as (_ & ? & _). congruence.
  - destruct (m_pausedBy m) eqn:H; [|done]. destruct (mi_paused _ I) as [_ ?]; [by rewrite H|]. congruence.
Qed.

Lemma inv_retry_round m : mgr_inv m -> mgr_inv (retry_round m).
Proof.
  intros I. unfold retry_round. destruct (m_retry m) as [d|] eqn:Hd; [|done].
  destruct (inv_wanted_of_retry _ _ I Hd) as (Hw & Hr & Hp). pose proof (inv_wake m false I) as I1.
  set (m1 := m <| m_wake := false |>) in *.
  destruct (match m_tunnel m1 with Some t => tun_Running t | None => false end); [by apply inv_no_retry|].
  pose proof (startTunnelOnce_spec m1) as (R & _ & Hpp & _). pose proof (inv_startTunnelOnce m1 I1 Hw Hr) as I2.
  destruct (startTunnelOnce m1) as [e m2]. cbn [fst snd] in *.
  apply rest_fields in R as (_ & _ & _ & _ & _ & Er & _ & Ew & _).
  assert (mgr_inv (m2 <| m_retry := Some (next_delay d) |>)).
  { apply inv_set_retry; try congruence; [by rewrite Ew|by rewrite Er|by rewrite Hpp|].
    apply next_delay_bounds, (mi_delay _ I _ Hd). }
  by destruct e as [[]|]; try done; apply inv_no_retry.
Qed.

Lemma down_set m t t' : m_tunnel m = Some t -> (tun_Running t' = true -> tun_Running t = true) ->
  down m -> down (m <| m_tunnel := Some t' |>).
Proof.
  intros Ht Hr Hd t1 [= <-]. destruct (tun_Running t') eqn:H; [|done]. rewrite <-(Hr eq_refl). by apply Hd.
Qed.

Lemma inv_set_tunnel m t t' :
  mgr_inv m -> m_tunnel m = Some t -> tun_Config t' = tun_Config t -> (tun_Running t' = true -> tun_Running t = true) ->
  mgr_inv (m <| m_tunnel := Some t' |>).
Proof.
  intros I Ht Hc Hr.
  assert (down m -> down (m <| m_tunnel := Some t' |>)) as Hd by (intros Hd; by apply (down_set m t)).
  apply (inv_rest m); try done.
  - right. by exists t, t'.
  - intros Hp. destruct (mi_paused _ I Hp). split; [by apply Hd|done].
  - intros H. destruct (inv_idle _ I H). split; [by apply Hd|done].
  - apply I.
Qed.

Lemma inv_reconnect m t : mgr_inv m -> m_tunnel m = Some t -> mgr_inv (m <| m_tunnel := Some (tun_Reconnect t) |>).
Proof. intros I Ht. destruct (tl_Reconnect t) as (H1 & H2 & _). apply (inv_set_tunnel m t); congruence. Qed.

Lemma inv_OnPowerResume m : mgr_inv m -> mgr_inv (OnPowerResume m).
Proof.
  intros I. unfold OnPowerResume. destruct (m_tunnel m) as [t|] eqn:Ht; [|done].
  destruct (tun_Running t); [by apply inv_reconnect|done].
Qed.

Lemma inv_networkSettled env m : mgr_inv m -> mgr_inv (networkSettled env m).
Proof.
  intros I. unfold networkSettled. pose proof (checkConflict_spec env m) as (_ & I1 & _).
  destruct (checkConflict env m) as [paused m1]. cbn [snd] in I1. specialize (I1 I). destruct paused; [done|].
  destruct (m_tunnel m1) as [t|] eqn:Ht; [|by apply inv_wake].
  destruct (tun_Running t); [by apply inv_reconnect|by apply inv_wake].
Qed.

(** ** The commands *)

Lemma inv_set_wanted m : mgr_inv m -> m_running m = true -> mgr_inv (m <| m_tunnelWanted := true |>).
Proof. destruct m. cbn. intros [] ->. by split. Qed.

Lemma inv_StartTunnel m : mgr_inv m -> m_running m = true -> mgr_inv (StartTunnel m).2.
Proof.
  intros I Hr. unfold StartTunnel. destruct (m_tunnel m) as [t|] eqn:Ht; [|done].
  pose proof (inv_set_wanted m I Hr) as I1. destruct (tun_Running t); [done|].
  by apply inv_startTunnelOnce.
Qed.

Lemma inv_StopTunnel m : mgr_inv m -> mgr_inv (StopTunnel m).2.
Proof.
  intros I. unfold StopTunnel. destruct (m_tunnel m) as [t|] eqn:Ht; [|done]. cbn [snd]. unfold cancelRetry.
  set (m1 := (m <| m_tunnelWanted := false |>) <| m_retry := None |>).
  pose proof (stop_tunnel_spec m1) as (H1 & H2 & H3 & H4 & H5).
  apply rest_fields in H1 as (R1 & R2 & R3 & R4 & R5 & R6 & R7 & R8 & R9).
  split; rewrite ?R1, ?R2, ?R3, ?R4, ?R5, ?R6, ?R7, ?R8, ?H3; try done.
  - intros t' Ht'. destruct H5 as [H5|(t0 & t1 & Ht0 & Ht1 & Hc)].
    + apply (mi_config _ I). by rewrite <-Ht', H5.
    + rewrite Ht1 in Ht'. injection Ht' as <-. rewrite Hc. by apply (mi_config _ I).
  - intros Hf. split_and!; try done; by destruct (mi_stopped _ I Hf) as (_ & _ & ? & ? & ? & ?).
  - intros Hf. destruct (mi_running _ I Hf) as (? & ? & ? & ? & ?). split_and!; try done.
    destruct H5 as [->|(t0 & t1 & _ & -> & _)]; [done|by eexists].
Qed.

Lemma inv_Reconnect m : mgr_inv m -> m_running m = true -> mgr_inv (Reconnect_mgr m).2.
Proof.
  intros I Hr. unfold Reconnect_mgr. destruct (m_tunnel m) as [t|] eqn:Ht; [|done].
  destruct (tun_Running t); cbn [negb snd]; [by apply inv_reconnect|by apply inv_StartTunnel].
Qed.

(** *** Reload *)

Lemma inv_set_log (m : Manager) l : mgr_inv m -> mgr_inv (m <| m_log := l |>).
Proof. destruct m. intros []. by split. Qed.

Lemma reload_log_spec app new (m : Manager) : exists l, (reload_log app new m).2 = m <| m_log := l |>.
Proof.
  destruct m as [app' cfg tun socks srv wat st run ctx wanted paused retry wake log net]. unfold reload_log, set_level.
  destruct (ParseLevel (LogLevel new)), app; try destruct (_ && _); eexists; reflexivity.
Qed.

(** The manager with the configuration that its tunnel adopted. *)
Definition adopted (t : T) (c : Tunnel) (m : Manager) : Manager := m <| m_tunnel := Some t |> <| m_tunCfg := Some c |>.

Lemma inv_adopted m t t' c :
  mgr_inv m -> m_tunnel m = Some t -> tun_Config t' = Some c -> tun_Running t' = tun_Running t ->
  mgr_inv (adopted t' c m).
Proof.
  intros I Ht Hc Hr. assert (down m -> down (adopted t' c m)) as Hd.
  { intros Hd t1 [= <-]. rewrite Hr. by apply Hd. }
  split.
  - by intros t1 [= <-].
  - intros Hp. destruct (mi_paused _ I Hp). split; [by apply Hd|done].
  - intros Hp. destruct (mi_wanted _ I Hp). split; [by apply Hd|done].
  - intros Hp. destruct (mi_stopped _ I Hp) as [? ?]. split; [by apply Hd|done].
  - intros Hp. destruct (mi_running _ I Hp) as (? & ? & ? & ? & ?). split_and!; try done; by eexists.
  - apply (mi_delay _ I).
Qed.

Lemma inv_set_socks m p n :
  mgr_inv m -> m_running m = true -> mgr_inv (m <| m_net := n |> <| m_socks := Some p |>).
Proof.
  intros I Hr. destruct (mi_running _ I Hr) as (? & ? & ? & ? & ?). destruct I. split; try done.
  cbn. intros H'. change (m_running m = false) in H'. congruence.
Qed.

Lemma inv_set_net m n : mgr_inv m -> mgr_inv (m <| m_net := n |>).
Proof. destruct m. intros []. by split. Qed.

Lemma inv_reload_listener app new p m :
  mgr_inv m -> m_running m = true -> mgr_inv (reload_listener app new p m).2.
Proof.
  intros I Hr. unfold reload_listener. destruct (bool_decide _); [done|]. destruct (negb _).
  - destruct (px_Start _ _) as [[p'|e] n]; [|by apply inv_set_net].
    destruct (px_Stop p n) as [? n']. by apply inv_set_socks.
  - destruct (px_Stop p (m_net m)) as [? n]. destruct (px_Start _ _) as [[p'|e] n']; by apply inv_set_socks.
Qed.

Lemma inv_set_app m a : mgr_inv m -> mgr_inv (m <| m_app := Some a |>).
Proof.
  intros I. destruct I as [I1 I2 I3 I4 I5 I6]. split; try done. intros Hr.
  destruct (I5 Hr) as (? & ? & ? & ? & ?). split_and!; try done.
Qed.

Lemma mgr_Reload env m : mgr_inv m -> m_running m = true -> mgr_inv (Reload_mgr env m).2.
Proof.
  intros I Hr. unfold Reload_mgr. destruct (m_tunnel m) as [t|] eqn:Ht; [|done].
  destruct (load_app env) as [new|]; [|done]. destruct (LoadTunnel env (ConfigPath new)) as [c|]; [|done].
  destruct (reload_log_spec (m_app m) new m) as [l Hl]. destruct (reload_log (m_app m) new m) as [lines m1].
  cbn [snd] in Hl. subst m1. apply (inv_set_log m l) in I.
  destruct (tl_Reload c t) as [Ho _]. destruct (tun_Reload c t) as [[u|e] t'].
  - destruct Ho as [H1 H2]. pose proof (inv_adopted (m <| m_log := l |>) t t' c I Ht H2 H1) as I1.
    fold (adopted t' c (m <| m_log := l |>)). set (m1 := adopted t' c (m <| m_log := l |>)) in *.
    pose proof (checkConflict_spec env m1) as (R & I2 & _). specialize (I2 I1).
    destruct (checkConflict env m1) as [b m2]. cbn [snd] in *.
    apply rest_fields in R as (_ & _ & _ & _ & _ & Er & _).
    assert (m_running m2 = true) as Hr2 by (rewrite Er; exact Hr).
    destruct (m_app m) as [app|], (m_socks m) as [p|].
    2-4: by apply inv_set_app.
    pose proof (inv_reload_listener app new p m2 I2 Hr2) as I3.
    destruct (reload_listener app new p m2) as [[why|e] m3]; [by apply inv_set_app|done].
  - destruct Ho as [H1 H2]. by apply (inv_set_tunnel (m <| m_log := l |>) t).
Qed.

Lemma reload_listener_running app new p (m : Manager) : m_running (reload_listener app new p m).2 = m_running m.
Proof.
  unfold reload_listener. destruct (bool_decide _); [done|]. destruct (negb _).
  - destruct (px_Start _ _) as [[p'|e] n]; [|done]. by destruct (px_Stop p n).
  - destruct (px_Stop p (m_net m)) as [? n]. by destruct (px_Start _ _) as [[p'|e] n'].
Qed.

Lemma Reload_running env (m : Manager) : m_running (Reload_mgr env m).2 = m_running m.
Proof.
  unfold Reload_mgr. destruct (m_tunnel m) as [t|]; [|done]. destruct (load_app env) as [new|]; [|done].
  destruct (LoadTunnel env (ConfigPath new)) as [c|]; [|done].
  destruct (reload_log_spec (m_app m) new m) as [l Hl]. destruct (reload_log (m_app m) new m) as [lines m1].
  cbn [snd] in Hl. subst m1. destruct (tun_Reload c t) as [[u|e] t']; [|done].
  fold (adopted t' c (m <| m_log := l |>)). set (m1 := adopted t' c (m <| m_log := l |>)).
  destruct (checkConflict_spec env m1) as (R & _). destruct (checkConflict env m1) as [b m2]. cbn [snd] in R.
  apply rest_fields in R as (_ & _ & _ & _ & _ & R & _).
  destruct (m_app m) as [app|], (m_socks m) as [p|]; try exact R.
  pose proof (reload_listener_running app new p m2) as H. destruct (reload_listener app new p m2) as [[why|e] m3];
    cbn [snd] in *; rewrite R in H; exact H.
Qed.

(** An element of a list is in the text of the list. *)
Lemma Join_elem x l sep : x ∈ l -> exists pre post, Join l sep = pre +:+ x +:+ post.
Proof.
  induction l as [|y l IH]; [by intros ?%elem_of_nil|]. intros [->|Hx]%elem_of_cons.
  - exists "". destruct l as [|z l]; [exists ""; symmetry; apply app_empty_r|]. by exists (sep +:+ Join (z :: l) sep).
  - destruct (IH Hx) as (pre & post & He). exists (y +:+ sep +:+ pre), post.
    destruct l as [|z l]; [by apply elem_of_nil in Hx|]. change (Join (y :: z :: l) sep) with (y +:+ sep +:+ Join (z :: l) sep).
    rewrite He. by rewrite !string_app_assoc.
Qed.

(** What a reload says it applied: a line for each setting that differs from the one in
    force, the log limits sharing one. *)
Inductive applied_line (app new : App) (p : P) : string -> Prop :=
| al_level : ParseLevel (LogLevel new) <> None -> ToLower (LogLevel new) <> ToLower (LogLevel app) ->
    applied_line app new p "log_level"
| al_rotation : LogMaxSizeMB new <> LogMaxSizeMB app \/ LogMaxFiles new <> LogMaxFiles app ->
    applied_line app new p "log_max_size_mb, log_max_files"
| al_listen : Socks5Listen new <> Socks5Listen app ->
    applied_line app new p (change "socks5_listen" (Socks5Listen app) (Socks5Listen new))
| al_connections : ResolveMaxConns (MaxConnections new) <> px_MaxConns p ->
    applied_line app new p (change "max_connections" (Itoa (px_MaxConns p)) (Itoa (ResolveMaxConns (MaxConnections new))))
| al_udp : UDPEnabled new <> px_UDP p ->
    applied_line app new p (change "udp_associate" (bool_text (px_UDP p)) (bool_text (UDPEnabled new))).

(** A setting that the running proxy cannot take over differs. *)
Definition proxy_differs (app new : App) (p : P) : Prop :=
  Socks5Listen new <> Socks5Listen app \/ ResolveMaxConns (MaxConnections new) <> px_MaxConns p \/
  UDPEnabled new <> px_UDP p.

(** The report names exactly the settings that differ, each with its two values. *)
Record reported (app new : App) (p : P) (rep : reloadReport) : Prop := {
  rp_applied s : s ∈ applied rep <-> applied_line app new p s;
  rp_restart : needsRestart rep =
    if decide (UDPBind new = UDPBind app) then [] else [change "udp_bind" (UDPBind app) (UDPBind new)];
  rp_start : atNextStart rep =
    if decide (AutoStart new = AutoStart app) then []
    else [change "auto_start" (bool_text (AutoStart app)) (bool_text (AutoStart new))];
  rp_cut : sessionsCut rep = true <-> proxy_differs app new p;
  rp_tunnel : tunnelReapplied rep = true;
}.

(** The log has the level and the limits of the new settings, and nothing else changed. *)
Record relogged (app new : App) (l l' : Logger) : Prop := {
  rl_level : o_Level (g_opts l') = default (o_Level (g_opts l)) (ParseLevel (LogLevel new));
  rl_rotation : Rotation l' =
    if decide (LogMaxSizeMB new = LogMaxSizeMB app /\ LogMaxFiles new = LogMaxFiles app) then Rotation l
    else (if 0 <? mb_bytes (LogMaxSizeMB new) then mb_bytes (LogMaxSizeMB new) else g_maxSize l,
          if 0 <? LogMaxFiles new then LogMaxFiles new else g_maxFiles l);
  rl_rest : (g_open l', g_size l', g_closed l', g_console l', g_files l')
    = (g_open l, g_size l, g_closed l, g_console l, g_files l);
}.

(** The proxy is the one that was there, or one made from the new settings and started;
    it has the new limits, and listens if the old one did. *)
Definition reproxied (app new : App) (p : P) (m' : Manager) : Prop :=
  exists p', m_socks m' = Some p' /\ px_MaxConns p' = ResolveMaxConns (MaxConnections new) /\
    px_UDP p' = UDPEnabled new /\ (px_Listening p = true -> px_Listening p' = true) /\
    (~ proxy_differs app new p -> p' = p) /\
    (proxy_differs app new p -> exists n n',
       px_Start (px_New (Socks5Listen new) (MaxConnections new) (UDPEnabled new)) n = (Ok p', n')).

Lemma reload_log_relogged app new (m : Manager) :
  exists l, (reload_log (Some app) new m).2 = m <| m_log := l |> /\ relogged app new (m_log m) l.
Proof.
  destruct m as [app' cfg tun socks srv wat st run ctx wanted paused retry wake log net].
  destruct log as [[] ? ? ? ? ? ? ?]. unfold reload_log, set_level, SetRotation. cbn.
  destruct (bool_decide_reflect (LogMaxSizeMB new = LogMaxSizeMB app)),
    (bool_decide_reflect (LogMaxFiles new = LogMaxFiles app)),
    (ParseLevel (LogLevel new)) eqn:Hl; cbn; (eexists; split; [reflexivity|]);
    split; unfold Rotation; cbn; rewrite ?Hl; try done;
    repeat (case_match; cbn); try done; exfalso; destruct_and?; eauto.
Qed.

Lemma reload_log_lines app new (m : Manager) s :
  s ∈ (reload_log (Some app) new m).1 <->
  (s = "log_level" /\ ParseLevel (LogLevel new) <> None /\ ToLower (LogLevel new) <> ToLower (LogLevel app)) \/
  (s = "log_max_size_mb, log_max_files" /\
   (LogMaxSizeMB new <> LogMaxSizeMB app \/ LogMaxFiles new <> LogMaxFiles app)).
Proof.
  unfold reload_log, EqualFold.
  destruct (ParseLevel (LogLevel new)),
    (bool_decide_reflect (ToLower (LogLevel new) = ToLower (LogLevel app))),
    (bool_decide_reflect (LogMaxSizeMB new = LogMaxSizeMB app)),
    (bool_decide_reflect (LogMaxFiles new = LogMaxFiles app)); cbn; set_solver.
Qed.

Lemma listener_lines app new (p : P) s :
  s ∈ listener_changes (N := N) app new p <->
  (Socks5Listen new <> Socks5Listen app /\ s = change "socks5_listen" (Socks5Listen app) (Socks5Listen new)) \/
  (ResolveMaxConns (MaxConnections new) <> px_MaxConns p /\
   s = change "max_connections" (Itoa (px_MaxConns p)) (Itoa (ResolveMaxConns (MaxConnections new)))) \/
  (UDPEnabled new <> px_UDP p /\ s = change "udp_associate" (bool_text (px_UDP p)) (bool_text (UDPEnabled new))).
Proof.
  clear T TO TL. unfold listener_changes. rewrite !elem_of_app.
  destruct (bool_decide_reflect (Socks5Listen new = Socks5Listen app)),
    (Z.eqb_spec (ResolveMaxConns (MaxConnections new)) (px_MaxConns p)),
    (Bool.eqb_spec (UDPEnabled new) (px_UDP p)); set_solver.
Qed.

Lemma listener_changes_differ app new (p : P) :
  listener_changes (N := N) app new p <> [] <-> proxy_differs app new p.
Proof.
  clear T TO TL. unfold listener_changes, proxy_differs.
  destruct (bool_decide_reflect (Socks5Listen new = Socks5Listen app)),
    (Z.eqb_spec (ResolveMaxConns (MaxConnections new)) (px_MaxConns p)),
    (Bool.eqb_spec (UDPEnabled new) (px_UDP p)); cbn; naive_solver.
Qed.

(** What each outcome of a reload leaves. *)

Lemma reload_listener_spec app new p (m : Manager) : m_socks m = Some p ->
  match reload_listener app new p m with
  | (Ok why, m') => why = listener_changes (N := N) app new p /\ exists n p', m' = m <| m_net := n |> <| m_socks := Some p' |> /\
      px_MaxConns p' = ResolveMaxConns (MaxConnections new) /\ px_UDP p' = UDPEnabled new /\
      (px_Listening p = true -> px_Listening p' = true) /\ (why = [] -> p' = p) /\
      (why <> [] -> exists n1 n2,
         px_Start (px_New (Socks5Listen new) (MaxConnections new) (UDPEnabled new)) n1 = (Ok p', n2))
  | (Err (EListenNew _), m') => m' = m /\ Socks5Listen new <> Socks5Listen app
  | (Err (EProxyDown a _), m') => a = Socks5Listen new /\ Socks5Listen new = Socks5Listen app /\ proxy_differs app new p /\
      exists n p', m' = m <| m_net := n |> <| m_socks := Some p' |> /\ px_Listening p' = false
  | _ => False
  end.
Proof.
  intros Hp. unfold reload_listener. destruct (bool_decide_reflect (listener_changes app new p = [])) as [Hw|Hw].
  - split; [done|]. exists (m_net m), p. unfold listener_changes in Hw. apply app_eq_nil in Hw as [H1 [H2 H3]%app_eq_nil].
    destruct (Z.eqb_spec (ResolveMaxConns (MaxConnections new)) (px_MaxConns p)); [|done].
    destruct (Bool.eqb_spec (UDPEnabled new) (px_UDP p)); [|done]. split_and!; try done.
    destruct m. cbn in *. by subst.
  - set (fresh := px_New (Socks5Listen new) (MaxConnections new) (UDPEnabled new)).
    destruct (pl_New (P := P) (N := N) (Socks5Listen new) (MaxConnections new) (UDPEnabled new)) as (_ & _ & Hidle).
    pose proof (pl_Start (Socks5Listen new) (MaxConnections new) (UDPEnabled new)) as Hs. fold fresh in Hs, Hidle.
    destruct (bool_decide_reflect (Socks5Listen new = Socks5Listen app)) as [He|He]; cbn [negb].
    + destruct (px_Stop p (m_net m)) as [? n]. specialize (Hs n). destruct (px_Start fresh n) as [[p'|e] n'] eqn:Hst.
      * destruct Hs as (? & ? & ?). split; [done|]. exists n', p'. split_and!; try done. by eauto.
      * split_and!; try done; [by apply listener_changes_differ|]. by exists n', fresh.
    + specialize (Hs (m_net m)). destruct (px_Start fresh (m_net m)) as [[p'|e] n'] eqn:Hst.
      * destruct Hs as (? & ? & ?), (px_Stop p n') as [? n]. split; [done|]. exists n, p'. split_and!; try done. by eauto.
      * subst n'. split; [by destruct m|done].
Qed.

(** The tunnel after a conflict check is the one before it, or that one stopped. *)
Lemma checkConflict_tunnel env (m : Manager) t : m_tunnel m = Some t ->
  m_tunnel (checkConflict env m).2 = Some t \/ m_tunnel (checkConflict env m).2 = Some (tun_Stop t).
Proof.
  intros Ht. pose proof (checkConflict_spec env m) as (_ & _ & Hc). destruct (conflict_seen env m) as [[h|]|] eqn:Hs.
  - destruct Hc as (_ & _ & Hc). destruct (m_pausedBy m) eqn:Hp.
    + left. unfold checkConflict. unfold conflict_seen in Hs. rewrite Ht, Hp in *. destruct (m_tunCfg m); [|done].
      destruct (e_addresses env); [|done]. injection Hs as ->. done.
    + right. rewrite (Hc eq_refl). unfold pause, stop_tunnel, cancelRetry. destruct m. cbn in *. by subst.
  - destruct Hc as (_ & _ & ->). left. destruct (m_pausedBy m); [|done]. by destruct (resume_spec m) as (_ & -> & _).
  - left. by rewrite Hc.
Qed.

(** The two files as a reload finds them. *)
Definition loads (env : Env) (new : App) (c : Tunnel) : Prop :=
  load_app env = Ok new /\ LoadTunnel env (ConfigPath new) = Ok c.

(** The tunnel has the configuration [c], kept its bind, and was not started or kicked
    when it was down. *)
Definition retuned (c : Tunnel) (m m' : Manager) : Prop :=
  exists t t', m_tunnel m = Some t /\ m_tunnel m' = Some t' /\ tun_Config t' = Some c /\
    tun_BindMode t' = tun_BindMode t /\ (tun_Running t' = true -> tun_Running t = true) /\
    (tun_Running t = false -> tun_kicked t' = tun_kicked t).

(** A reload that got past the files: what the log settings and, in the second case, the
    tunnel's configuration are then. *)
Definition log_done (app new : App) (m m' : Manager) : Prop := relogged app new (m_log m) (m_log m').

Definition tunnel_done (app new : App) (c : Tunnel) (m m' : Manager) : Prop :=
  log_done app new m m' /\ m_tunCfg m' = Some c /\ retuned c m m'.

Lemma checkConflict_log env (m : Manager) : m_log (checkConflict env m).2 = m_log m.
Proof.
  unfold checkConflict, pause, resume, retryStart, stop_tunnel, cancelRetry, startTunnelOnce. repeat (case_match; try done).
Qed.

Lemma report_reported app new (p : P) lines :
  (forall s, s ∈ lines <->
     (s = "log_level" /\ ParseLevel (LogLevel new) <> None /\ ToLower (LogLevel new) <> ToLower (LogLevel app)) \/
     (s = "log_max_size_mb, log_max_files" /\
      (LogMaxSizeMB new <> LogMaxSizeMB app \/ LogMaxFiles new <> LogMaxFiles app))) ->
  reported app new p
    (MkReport (lines ++ listener_changes (N := N) app new p)
       (if Bool.eqb (AutoStart new) (AutoStart app) then []
        else [change "auto_start" (bool_text (AutoStart app)) (bool_text (AutoStart new))])
       (if bool_decide (UDPBind new = UDPBind app) then [] else [change "udp_bind" (UDPBind app) (UDPBind new)])
       (negb (bool_decide (listener_changes (N := N) app new p = []))) true).
Proof.
  intros Hl. split; cbn [applied needsRestart atNextStart sessionsCut tunnelReapplied].
  - intros s. rewrite elem_of_app, Hl, listener_lines. split.
    + intros [[(-> & ? & ?)|[-> ?]]|[[? ->]|[[? ->]|[? ->]]]]; by constructor.
    + intros []; naive_solver.
  - by destruct (bool_decide_reflect (UDPBind new = UDPBind app)), (decide (UDPBind new = UDPBind app)).
  - by destruct (Bool.eqb_spec (AutoStart new) (AutoStart app)), (decide (AutoStart new = AutoStart app)).
  - rewrite <-listener_changes_differ. by destruct (bool_decide_reflect (listener_changes (N := N) app new p = [])).
  - done.
Qed.

Lemma Reload_cases env (m : Manager) t app p :
  m_tunnel m = Some t -> m_app m = Some app -> m_socks m = Some p ->
  match Reload_mgr env m with
  | (Err (EAppInvalid e), m') => load_app env = Err e /\ m' = m
  | (Err (ETunnelInvalid e), m') => m' = m /\ exists new, load_app env = Ok new /\ LoadTunnel env (ConfigPath new) = Err e
  | (Err (ETunnel _), m') => exists new c l t', loads env new c /\ m' = m <| m_log := l |> <| m_tunnel := Some t' |> /\
      relogged app new (m_log m) l /\
      tun_Config t' = tun_Config t /\ tun_BindMode t' = tun_BindMode t /\ (tun_Running t' = true -> tun_Running t = true)
  | (Err (EListenNew _), m') => exists new c, loads env new c /\ Socks5Listen new <> Socks5Listen app /\
      m_app m' = Some app /\ tunnel_done app new c m m' /\ m_socks m' = Some p /\ m_net m' = m_net m
  | (Err (EProxyDown a _), m') => exists new c p', loads env new c /\ a = Socks5Listen new /\
      Socks5Listen new = Socks5Listen app /\ proxy_differs app new p /\
      m_app m' = Some app /\ tunnel_done app new c m m' /\ m_socks m' = Some p' /\ px_Listening p' = false
  | (Err _, _) => False
  | (Ok rep, m') => exists new c, loads env new c /\ m_app m' = Some new /\ tunnel_done app new c m m' /\
      reproxied app new p m' /\ reported app new p rep
  end.
Proof.
  intros Ht Ha Hp. unfold Reload_mgr. rewrite Ht. destruct (load_app env) as [new|e] eqn:Hl; [|done].
  destruct (LoadTunnel env (ConfigPath new)) as [c|e] eqn:Hc; [|by eauto].
  rewrite Ha. destruct (reload_log_relogged app new m) as (l & Hlog & Hrl). pose proof (reload_log_lines app new m) as Hlines.
  destruct (reload_log (Some app) new m) as [lines m1]. cbn [fst snd] in *. subst m1.
  pose proof (tl_Reload c t) as (Ho & Hb). pose proof (tl_Reload_idle c t) as Hi.
  destruct (tun_Reload c t) as [[u|e] t1]; cbn [snd] in *; [|destruct Ho; exists new, c, l, t1; by split_and!].
  fold (adopted t1 c (m <| m_log := l |>)). set (m1 := adopted t1 c (m <| m_log := l |>)).
  pose proof (checkConflict_log env m1) as Hml.
  assert (exists m2, (checkConflict env m1).2 = m2 /\ retuned c m m2 /\ rest m2 = rest m1) as (m2 & Hm2 & Hret & R).
  { exists (checkConflict env m1).2. split; [done|]. split; [|apply checkConflict_spec].
    destruct (tl_Stop t1) as (S1 & S2 & S3), Ho as [Ho1 Ho2].
    destruct (checkConflict_tunnel env m1 t1 eq_refl) as [Ht2|Ht2]; [exists t, t1|exists t, (tun_Stop t1)];
      split_and!; try done; try congruence. intros Hr. rewrite tl_Stop_idle by congruence. by apply Hi. }
  destruct (checkConflict env m1) as [b m2']. cbn [snd] in *. subst m2'.
  apply rest_fields in R as (R1 & R2 & R3 & _ & _ & _ & _ & _ & R9). rewrite Hp.
  assert (tunnel_done app new c m m2) as Htd by (unfold tunnel_done, log_done; by rewrite Hml).
  assert (m_socks m2 = Some p) as Hp2 by (rewrite R3; exact Hp).
  pose proof (reload_listener_spec app new p m2 Hp2) as Hlis.
  destruct (reload_listener app new p m2) as [[why|e] m3] eqn:Hwhy.
  - destruct Hlis as (-> & n & p' & -> & P1 & P2 & P3 & P4 & P5). exists new, c. split_and!; try done.
    + exists p'. split_and!; try done.
      * intros Hd. apply P4. destruct (listener_changes app new p) eqn:E; [done|]. destruct Hd. apply listener_changes_differ. by rewrite E.
      * intros Hd. by apply P5, listener_changes_differ.
    + by apply report_reported.
  - destruct e; try done.
    + destruct Hlis as [-> Hne]. exists new, c. split_and!; try done. by rewrite R1.
    + destruct Hlis as (-> & He & Hd & n & p' & -> & Hq). exists new, c, p'. split_and!; try done. by rewrite <-Ha.
Qed.

(** ** Start and stop *)

Lemma inv_shutdown (m : Manager) :
  (forall t, m_tunnel m = Some t -> tun_Config t = m_tunCfg m) -> m_running m = false -> m_retry m = None ->
  m_serving m = false -> m_watching m = false -> m_ctx m <> Some true ->
  (forall p, m_socks m = Some p -> px_Listening p = false) -> mgr_inv (stop_tunnel m).
Proof.
  intros Hc Hr Hn Hs Hw Hx Hp. pose proof (stop_tunnel_spec m) as (H1 & H2 & H3 & _ & H5).
  apply rest_fields in H1 as (R1 & R2 & R3 & R4 & R5 & R6 & R7 & R8 & R9).
  split; rewrite ?R1, ?R2, ?R3, ?R4, ?R5, ?R6, ?R7, ?R8, ?H3; try done; [|congruence..].
  intros t' Ht'. destruct H5 as [H5|(t0 & t1 & Ht0 & Ht1 & Hc')].
  - apply Hc. by rewrite <-Ht', H5.
  - rewrite Ht1 in Ht'. injection Ht' as <-. rewrite Hc'. by apply Hc.
Qed.

Lemma mgr_Stop m : mgr_inv m -> mgr_inv (Stop_mgr m).
Proof.
  intros I. unfold Stop_mgr. destruct (m_running m) eqn:Hr; cbn [negb]; [|done].
  destruct (mi_running _ I Hr) as (_ & _ & _ & [p Hp] & _). change (m_socks (m <| m_running := false |> <| m_serving := false |>)) with (m_socks m).
  change (m_net (m <| m_running := false |> <| m_serving := false |>)) with (m_net m).
  rewrite Hp. pose proof (pl_Stop p (m_net m)) as Hl. destruct (px_Stop p (m_net m)) as [p' n].
  apply inv_shutdown; try done; [apply (mi_config _ I)|]. by intros p1 [= <-].
Qed.

(** The manager that [Start] sets up before it brings anything up. *)
Definition set_up (app : App) (cfg : Tunnel) (bind : BindMode) (now : Z) (m : Manager) : Manager :=
  m <| m_app := Some app |> <| m_tunCfg := Some cfg |> <| m_tunnel := Some (tun_New bind cfg) |>
    <| m_socks := Some (px_New (Socks5Listen app) (MaxConnections app) (UDPEnabled app)) |> <| m_ctx := Some true |>
    <| m_started := Some now |> <| m_running := true |> <| m_tunnelWanted := AutoStart app |>.

Lemma inv_set_up app cfg bind now m : mgr_inv m -> m_running m = false -> mgr_inv (set_up app cfg bind now m).
Proof.
  intros I Hr. destruct (mi_stopped _ I Hr) as (_ & Hn & Hs & Hw & _).
  destruct (tl_New (T := T) bind cfg) as (H1 & H2 & _).
  assert (down (set_up app cfg bind now m)) as Hd by (by intros t [= <-]).
  split; try done.
  - by intros t [= <-].
  - intros d Hd'. change (m_retry m = Some d) in Hd'. congruence.
Qed.

Lemma set_level_spec name (m : Manager) : exists l, set_level name m = m <| m_log := l |>.
Proof.
  destruct m as [app cfg tun socks srv wat st run ctx wanted paused retry wake log net]. unfold set_level.
  destruct (ParseLevel name); eexists; reflexivity.
Qed.

(** What [Start] comes to. *)
Definition started_as (env : Env) (app : App) (cfg : Tunnel) (m : Manager) : Prop :=
  load_app env = Ok app /\ LoadTunnel env (ConfigPath app) = Ok cfg /\
  m_running m = true /\ m_app m = Some app /\ m_tunCfg m = Some cfg /\ m_serving m = e_pipe_ok env /\
  m_watching m = e_watch_ok env /\ m_tunnelWanted m = AutoStart app /\
  (exists p, m_socks m = Some p /\ px_Listening p = true /\ px_MaxConns p = ResolveMaxConns (MaxConnections app) /\
     px_UDP p = UDPEnabled app) /\
  if AutoStart app
  then (exists t, m_tunnel m = Some t /\ tun_Running t = true) \/ is_Some (m_pausedBy m) \/ m_retry m = Some startRetryMin
  else down m /\ m_retry m = None.

Lemma Start_outcomes env m : mgr_inv m ->
  mgr_inv (Start_mgr env m).2 /\
  match Start_mgr env m with
  | (None, m') => exists app cfg, started_as env app cfg m'
  | (Some EAlreadyRunning, m') => m_running m = true /\ m' = m
  | (Some (EListener _), m') => m_running m = false /\ m_running m' = false
  | (Some _, m') => m_running m = false /\ exists l, m' = m <| m_log := l |>
  end.
Proof.
  intros I. unfold Start_mgr. destruct (m_running m) eqn:Hr; [done|].
  destruct (load_app env) as [app|e] eqn:Ha; [|split; [done|split; [done|]]; exists (m_log m); by destruct m].
  destruct (set_level_spec (LogLevel app) m) as [l Hl]. rewrite Hl. apply (inv_set_log m l) in I.
  set (m0 := m <| m_log := l |>) in *.
  destruct (LoadTunnel env (ConfigPath app)) as [cfg|e] eqn:Hc; [|cbn; eauto].
  destruct (ParseBindMode (UDPBind app)) as [bind|]; [|cbn; eauto].
  set (px := px_New (Socks5Listen app) (MaxConnections app) (UDPEnabled app)).
  fold px (set_up app cfg bind (e_now env) m0).
  match goal with |- context [if AutoStart app then autostart env ?x else _] =>
    change x with (set_up app cfg bind (e_now env) m0) end.
  pose proof (inv_set_up app cfg bind (e_now env) m0 I Hr) as I1. destruct (mi_stopped _ I Hr) as (_ & Hn & Hs & Hw & _).
  set (m1 := set_up app cfg bind (e_now env) m0) in *.
  set (m2 := if AutoStart app then autostart env m1 else m1).
  assert (rest m2 = rest m1 /\ mgr_inv m2 /\ if AutoStart app
    then (exists t, m_tunnel m2 = Some t /\ tun_Running t = true) \/ is_Some (m_pausedBy m2) \/ m_retry m2 = Some startRetryMin
    else down m2 /\ m_retry m2 = None) as (R & I2 & Hup).
  { unfold m2. destruct (AutoStart app) eqn:Hauto.
    - destruct (inv_autostart env m1 I1 Hauto eq_refl) as (? & ? & H3). split_and!; try done. by apply H3.
    - split_and!; try done. by apply (mi_wanted _ I1). }
  clearbody m2. apply rest_fields in R as (R1 & R2 & R3 & R4 & R5 & R6 & R7 & R8 & R9).
  destruct (pl_New (P := P) (N := N) (Socks5Listen app) (MaxConnections app) (UDPEnabled app)) as (_ & _ & Hidle).
  pose proof (pl_Start (Socks5Listen app) (MaxConnections app) (UDPEnabled app) (m_net m2)) as Hpx.
  fold px in Hpx, Hidle. destruct (px_Start px (m_net m2)) as [[p|e] n].
  - destruct Hpx as (H1 & H2 & H3). split.
    + destruct (mi_running _ I2 R6) as (? & ? & ? & ? & ?). destruct I2. split; try done.
      intros H'. change (m_running m2 = false) in H'. by rewrite R6 in H'.
    + exists app, cfg. unfold started_as. split_and!; try done. by exists p.
  - split; [|by split]. apply inv_shutdown; try done.
    + apply (mi_config _ I2).
    + change (m_serving m2 = false). by rewrite R4.
    + change (m_watching m2 = false). by rewrite R5.
    + intros p Hp. change (m_socks m2 = Some p) in Hp. rewrite R3 in Hp. by injection Hp as <-.
Qed.
End Props.
