(* ===== verification/ManagerSpec.v ===== *)
(** What the runtime is for, without the tunnel, the proxy and the files: the service is
    off, or its tunnel is up, paused for another client, waiting for the next attempt, or
    idle; and somebody wants it up or not.  ManagerRefines.v shows that the operations of
    Manager.v are steps of this machine. *)

From S2P Require Import Prelude Ipc.

Inductive phase := POff | PIdle | PRetrying | PUp | PPaused.

#[global] Instance phase_eq_dec : EqDecision phase.
Proof. solve_decision. Defined.

Record service := MkService { s_phase : phase; s_wanted : bool }.

(** What happens: a start and a stop of the service, a round of the retries, a look at the
    adapters, a resume from sleep, a command over the pipe, and what the tunnel and the
    proxy do by themselves. *)
Inductive event := EvStart | EvStop | EvRetry | EvAdapters | EvResume | EvCommand (c : string) | EvOwn.

(** A look at the adapters pauses a tunnel, or ends its pause: a tunnel that is wanted is
    then tried again, never simply up. *)
Inductive look : service -> service -> Prop :=
| look_same s : look s s
| look_pause p w : p <> POff -> look (MkService p w) (MkService PPaused w)
| look_resume w : look (MkService PPaused w) (MkService (if w then PRetrying else PIdle) w).

(** A command that asks for the tunnel. *)
Inductive ask : service -> service -> Prop :=
| ask_paused w : ask (MkService PPaused w) (MkService PPaused true)
| ask_works p w : p <> POff -> p <> PPaused -> ask (MkService p w) (MkService PUp true)
| ask_fails p w : p = PIdle \/ p = PRetrying -> ask (MkService p w) (MkService p true).

Inductive spec_step : event -> service -> service -> Prop :=
| spec_start_again s : s_phase s <> POff -> spec_step EvStart s s
| spec_start_fails : spec_step EvStart (MkService POff false) (MkService POff false)
| spec_start_auto p : p = PUp \/ p = PRetrying \/ p = PPaused ->
    spec_step EvStart (MkService POff false) (MkService p true)
| spec_start_idle p : p = PIdle \/ p = PPaused -> spec_step EvStart (MkService POff false) (MkService p false)
| spec_stop s : spec_step EvStop s (MkService POff false)
| spec_retry_works p : p = PRetrying \/ p = PUp -> spec_step EvRetry (MkService p true) (MkService PUp true)
| spec_retry_fails : spec_step EvRetry (MkService PRetrying true) (MkService PRetrying true)
| spec_adapters s s' : look s s' -> spec_step EvAdapters s s'
| spec_resume s : spec_step EvResume s s
| spec_own s : spec_step EvOwn s s
| spec_ask c s s' : c = CmdStart \/ c = CmdReconnect -> ask s s' -> spec_step (EvCommand c) s s'
| spec_cmd_stop p w : p <> POff ->
    spec_step (EvCommand CmdStop) (MkService p w) (MkService (if decide (p = PPaused) then PPaused else PIdle) false)
| spec_reload s s' : look s s' -> spec_step (EvCommand CmdReload) s s'
| spec_reload_lost w p : p = PIdle \/ p = PRetrying ->
    spec_step (EvCommand CmdReload) (MkService PUp w) (MkService p w)
| spec_other c s : c ∉ [CmdStart; CmdReconnect; CmdStop] -> spec_step (EvCommand c) s s.

(** A sequence of events. *)
Inductive spec_run : list event -> service -> service -> Prop :=
| spec_nil s : spec_run [] s s
| spec_cons e es s1 s2 s3 : spec_step e s1 s2 -> spec_run es s2 s3 -> spec_run (e :: es) s1 s3.

(** The events that ask for the tunnel. *)
Definition asks (e : event) : bool :=
  match e with
  | EvStart => true
  | EvCommand c => bool_decide (c = CmdStart \/ c = CmdReconnect)
  | _ => false
  end.

(** The tunnel is neither up nor about to be. *)
Definition at_rest (s : service) : Prop := s_wanted s = false /\ s_phase s <> PUp /\ s_phase s <> PRetrying.

Lemma look_at_rest s s' : look s s' -> at_rest s -> at_rest s'.
Proof. unfold at_rest. intros []; simpl; naive_solver. Qed.

Lemma at_rest_step e s s' : spec_step e s s' -> at_rest s -> asks e = false -> at_rest s'.
Proof.
  intros Hs Hr He. destruct Hs; cbn [asks] in He; try done; try (by eapply look_at_rest);
    try (destruct Hr as (Hw & Hu & Hn); simpl in *; done).
  - by apply bool_decide_eq_false in He.
  - by destruct (decide (p = PPaused)) as [->|].
Qed.

(** Once the tunnel is at rest only an event that asks for it brings it back. *)
Lemma at_rest_run es s s' : spec_run es s s' -> at_rest s -> Forall (fun e => asks e = false) es -> at_rest s'.
Proof.
  induction 1 as [s|e es s1 s2 s3 Hs _ IH]; [done|]. intros Hr [He Hes]%Forall_cons. apply IH; [|done]. by eapply at_rest_step.
Qed.

(** Only a start and a stop turn the service on or off. *)
Lemma spec_off e s s' : spec_step e s s' -> e <> EvStart -> e <> EvStop -> (s_phase s' = POff <-> s_phase s = POff).
Proof.
  intros Hs H1 H2. assert (forall s s', look s s' -> (s_phase s' = POff <-> s_phase s = POff)) as Hlook.
  { intros s0 s1 []; simpl; try done. by destruct w. }
  destruct Hs as [| | | | | | | |s|s|c s s' _ Ha|p w Hp| |w p Hp|]; try done; try (by apply Hlook); simpl.
  - by destruct H as [->| ->].
  - destruct Ha as [w|p w Hp1 Hp2|p w [->| ->]]; simpl; done.
  - destruct (decide (p = PPaused)) as [->|]; by split.
  - by destruct Hp as [->| ->].
Qed.
