(* ===== verification/ManagerProps.v ===== *)
(** What the runtime of Manager.v promises, against the interfaces of the tunnel and the
    server alone: the invariant of its states in every sequence of operations, what a
    start, a reload, a conflict check and the retries come to, and what the commands of
    the pipe and the status report mean.  The witnesses put the tunnel of AwgTunnel.v and
    the server of SocksServer.v in it. *)

From S2P Require Import Prelude GoStrings GoBytes GoNetip GoErrors SocksDial SocksServer ConfScan TunnelConf AppConf AwgStats AwgTunnel BatchTun Logging Ipc HostConflict Manager ManagerParts ManagerInv ManagerSpec.

#[local] Set Default Proof Using "Type*".

Section Runtime.
Context {T P N : Type} `{TO : !TunnelOps T} `{TL : !TunnelLaws T} `{PO : !ProxyOps P N} `{PL : !ProxyLaws P N}.

Abbreviation Manager := (Manager (T := T) (P := P) (N := N)).

(** ** Start *)

(** A start.  It is refused when the service runs already; when a file cannot be
    loaded, the bind is unknown or the proxy cannot listen, it says so and nothing runs;
    otherwise the service runs with the settings of the files, its proxy listens, even if
    the tunnel did not come up, and the tunnel is up, paused, or about to be tried again
    within a second when the settings ask for it, and down otherwise. *)
Theorem Start_mgr_outcomes env m : mgr_inv m ->
  match Start_mgr env m with
  | (None, m') => exists app cfg, started_as env app cfg m'
  | (Some EAlreadyRunning, m') => m_running m = true /\ m' = m
  | (Some (EListener _), m') => m_running m = false /\ m_running m' = false /\ down m' /\ m_retry m' = None
  | (Some _, m') => m_running m = false /\ (exists l, m' = m <| m_log := l |>) /\ down m' /\ m_retry m' = None
  end.
Proof.
  intros I. destruct (Start_outcomes env m I) as [I' Ho]. destruct (Start_mgr env m) as [e m']. cbn [snd] in I'.
  assert (m_running m' = false -> down m' /\ m_retry m' = None) as Hoff by (intros H; apply (inv_idle _ I'); by right).
  destruct e as [[]|]; try done; destruct Ho as [Hr Ho]; try (by eauto);
    (split; [done|]); (split; [done|]); apply Hoff; try done; destruct Ho as [l ->]; exact Hr.
Qed.

(** ** Conflicts *)

(** C26: after every check that could read the adapters, the tunnel is paused exactly when
    an adapter holds one of the addresses of the configuration it runs; a paused tunnel is
    down with no retry pending, and when the conflict ends a tunnel that is still wanted is
    tried again within a second, and one that nobody wants stays down.  A check that could
    not read the adapters changes nothing. *)
Theorem checkConflict_follows_adapters env m c : mgr_inv m -> m_running m = true -> m_tunCfg m = Some c ->
  let '(paused, m') := checkConflict env m in
  match e_addresses env with
  | None => m' = m
  | Some host =>
      m_pausedBy m' = configConflict (t_AddressPrefixes c) host /\
      paused = bool_decide (is_Some (configConflict (t_AddressPrefixes c) host)) /\
      (is_Some (configConflict (t_AddressPrefixes c) host) -> down m' /\ m_retry m' = None) /\
      (configConflict (t_AddressPrefixes c) host = None -> is_Some (m_pausedBy m) ->
         down m' /\ m_retry m' = if m_tunnelWanted m then Some startRetryMin else None)
  end.
Proof.
  intros I Hr Hc. destruct (mi_running _ I Hr) as (_ & _ & [t Ht] & _ & Hx).
  destruct (checkConflict_spec env m) as (_ & I' & Hs). specialize (I' I). unfold conflict_seen in Hs. rewrite Hc, Ht in Hs.
  destruct (checkConflict env m) as [paused m']. cbn [fst snd] in *. destruct (e_addresses env) as [host|]; [|done].
  destruct Hs as (H1 & H2 & H3). split; [done|]. split; [done|]. split.
  - intros Hh. apply (mi_paused _ I'). by rewrite H1.
  - intros Hn Hp. rewrite Hn in H3. destruct (m_pausedBy m) eqn:Hpb; [|by destruct Hp]. subst m'.
    destruct (mi_paused _ I) as [Hd Hno]; [by rewrite Hpb|]. destruct (resume_spec m) as (_ & Ht' & _ & Hn').
    split; [intros t'; rewrite Ht'; apply Hd|]. rewrite Hn', Hx. by destruct (m_tunnelWanted m).
Qed.

(** ** Retries *)

Lemma retry_round_fails m d t e : mgr_inv m -> m_retry m = Some d -> m_tunnel m = Some t -> tun_Running t = false ->
  (tun_Start t).1 = Some e -> m_retry (retry_round m) = Some (next_delay d) /\ down (retry_round m).
Proof.
  intros I Hd Ht Hr He. destruct (inv_wanted_of_retry _ _ I Hd) as (_ & _ & Hp).
  pose proof (tl_Start t) as [Hs _]. unfold retry_round, startTunnelOnce. destruct m. cbn in *. subst. cbn. rewrite Hr.
  destruct (tun_Start t) as [e' t']. cbn in *. subst e'. cbn. split; [done|]. intros t1 [= <-]. by rewrite Hs.
Qed.

Lemma retry_round_works m d t : mgr_inv m -> m_retry m = Some d -> m_tunnel m = Some t -> (tun_Start t).1 = None ->
  m_retry (retry_round m) = None /\ exists t', m_tunnel (retry_round m) = Some t' /\ tun_Running t' = true.
Proof.
  intros I Hd Ht He. destruct (inv_wanted_of_retry _ _ I Hd) as (_ & _ & Hp).
  pose proof (tl_Start t) as [Hs _]. unfold retry_round, startTunnelOnce. destruct m. cbn in *. subst. cbn.
  destruct (tun_Running t) eqn:Hr; [by eauto|].
  destruct (tun_Start t) as [e' t']. cbn in *. subst e'. cbn. by eauto.
Qed.

(** C28: retries go on until one works.  After k attempts that failed one is still
    pending, its delay doubled k times from one second and never above a minute, and the
    first attempt that works leaves the tunnel running and no retry pending. *)
Theorem retry_backoff (m : Manager) k : mgr_inv m -> m_retry m = Some startRetryMin -> down m ->
  (forall j, (j < k)%nat -> exists t e, m_tunnel (Nat.iter j retry_round m) = Some t /\ (tun_Start t).1 = Some e) ->
  let mk := Nat.iter k retry_round m in
  m_retry mk = Some (Z.min (2 ^ Z.of_nat k * startRetryMin) startRetryMax) /\ down mk /\
  (forall t, m_tunnel mk = Some t -> (tun_Start t).1 = None ->
     m_retry (retry_round mk) = None /\ exists t', m_tunnel (retry_round mk) = Some t' /\ tun_Running t' = true).
Proof.
  intros I Hd Hdn Hfail.
  assert (mgr_inv (Nat.iter k retry_round m) /\ down (Nat.iter k retry_round m) /\
    m_retry (Nat.iter k retry_round m) = Some (Z.min (2 ^ Z.of_nat k * startRetryMin) startRetryMax)) as (I' & Hdn' & Hd').
  { induction k as [|k IH]; [done|]. destruct IH as (Ik & Hk & Hdk); [intros j Hj; apply Hfail; lia|].
    destruct (Hfail k) as (t & e & Ht & He); [lia|].
    change (Nat.iter (S k) retry_round m) with (retry_round (Nat.iter k retry_round m)).
    destruct (retry_round_fails _ _ t e Ik Hdk Ht) as [H1 H2]; [by apply Hk|done|].
    split; [by apply inv_retry_round|]. split; [done|]. rewrite H1. f_equal. unfold next_delay, startRetryMin, startRetryMax.
    rewrite Nat2Z.inj_succ, Z.pow_succ_r by lia. destruct (Z.ltb_spec (60 * 10 ^ 9) (2 * Z.min (2 ^ Z.of_nat k * 10 ^ 9) (60 * 10 ^ 9))); lia. }
  split; [done|]. split; [done|]. intros t Ht He. by apply (retry_round_works _ _ t I' Hd').
Qed.

(** ** Reload *)


(** The tunnel of the manager, and the settings and proxy that go with it. *)
Lemma Reload_Ok env m rep m' : mgr_inv m -> m_running m = true -> Reload_mgr env m = (Ok rep, m') ->
  mgr_inv m' /\ tunnelReapplied rep = true /\
  exists app p new c, m_app m = Some app /\ loads env new c /\ m_app m' = Some new /\ retuned c m m' /\ reported app new p rep.
Proof.
  intros I Hr He. destruct (mi_running _ I Hr) as ([app Ha] & _ & [t Ht] & [p Hp] & _).
  pose proof (mgr_Reload env m I Hr) as I'. pose proof (Reload_cases env m t app p Ht Ha Hp) as Ho. rewrite He in *.
  destruct Ho as (new & c & Hl & Ha' & (_ & _ & Hret) & _ & Hrep). split; [done|]. split; [apply Hrep|]. by exists app, p, new, c.
Qed.

(** A reload while the tunnel is down, stopped or paused, reports that the
    configuration was re-applied and a fresh handshake requested, although nothing is
    started or asked for one. *)
Theorem Reload_claims_handshake env m rep m' t : mgr_inv m -> m_running m = true -> m_tunnel m = Some t ->
  tun_Running t = false -> Reload_mgr env m = (Ok rep, m') ->
  (exists pre post, reloadReport_String rep =
     pre +:+ "the AmneziaWG configuration was re-applied and a fresh handshake was requested" +:+ post) /\
  exists t', m_tunnel m' = Some t' /\ tun_Running t' = false /\ tun_kicked t' = tun_kicked t.
Proof.
  intros I Hr Ht Hd He. destruct (Reload_Ok env m rep m' I Hr He) as (I' & Hta & app & p & new & c & _ & _ & _ & Hret & _).
  split.
  - unfold reloadReport_String. rewrite Hta. apply Join_elem. rewrite !elem_of_app. right. right. left. by left.
  - destruct Hret as (t0 & t' & Ht0 & Ht' & _ & _ & H1 & H2). assert (t0 = t) as -> by congruence.
    exists t'. split; [done|]. split; [|by apply H2]. destruct (tun_Running t') eqn:Hr'; [|done]. specialize (H1 eq_refl). congruence.
Qed.

(** A change of udp_bind is reported as needing a restart by the reload that finds it
    and by no later one: the second reload of the same files reports nothing pending,
    although the tunnel still has the bind that the service started with. *)
Theorem Reload_forgets_restart env1 env2 m rep1 m1 rep2 m2 t : mgr_inv m -> m_running m = true -> m_tunnel m = Some t ->
  Reload_mgr env1 m = (Ok rep1, m1) -> Reload_mgr env2 m1 = (Ok rep2, m2) -> load_app env2 = load_app env1 ->
  needsRestart rep1 <> [] ->
  needsRestart rep2 = [] /\ exists t', m_tunnel m2 = Some t' /\ tun_BindMode t' = tun_BindMode t.
Proof.
  intros I Hr Ht H1 H2 Hl Hn. destruct (Reload_Ok env1 m rep1 m1 I Hr H1) as (I1 & _ & app & p & new & c & _ & [L1 _] & Ha1 & Ret1 & _).
  assert (m_running m1 = true) as Hr1.
  { destruct (m_running m1) eqn:Hr1; [done|]. exfalso. pose proof (Reload_running env1 m) as Hk. rewrite H1 in Hk. cbn in Hk. congruence. }
  destruct (Reload_Ok env2 m1 rep2 m2 I1 Hr1 H2) as (_ & _ & app2 & p2 & new2 & c2 & Ha2 & [L2 _] & _ & Ret2 & Rep2).
  split.
  - rewrite (rp_restart _ _ _ _ Rep2). rewrite decide_True; [done|]. congruence.
  - destruct Ret1 as (t0 & t1 & Ht0 & Ht1 & _ & B1 & _), Ret2 as (t2 & t3 & Ht2 & Ht3 & _ & B2 & _).
    exists t3. split; [done|]. congruence.
Qed.

(** ** Commands *)

Lemma serving_running m : mgr_inv m -> m_serving m = true -> m_running m = true.
Proof.
  intros I Hs. destruct (m_running m) eqn:Hr; [done|]. destruct (mi_stopped _ I Hr) as (_ & _ & ? & _). congruence.
Qed.

Lemma StartTunnel_spec m t : mgr_inv m -> m_running m = true -> m_tunnel m = Some t ->
  match StartTunnel m with
  | (None, m') => m_pausedBy m = None /\ exists t', m_tunnel m' = Some t' /\ tun_Running t' = true
  | (Some e, m') => down m' /\ forall h, m_pausedBy m = Some h -> e = EPaused h
  end.
Proof.
  intros I Hr Ht. unfold StartTunnel. rewrite Ht. destruct (tun_Running t) eqn:Hrun.
  - split; [|by exists t]. destruct (m_pausedBy m) eqn:Hp; [|done]. destruct (mi_paused _ I) as [Hd _]; [by rewrite Hp|].
    specialize (Hd t Ht). congruence.
  - pose proof (startTunnelOnce_spec (m <| m_tunnelWanted := true |>)) as (_ & _ & _ & _ & Ho).
    destruct (startTunnelOnce (m <| m_tunnelWanted := true |>)) as [[[]|] m']; cbn [fst snd] in Ho; try done.
    + change (m_tunnel m = None) in Ho. congruence.
    + destruct Ho as [Ho1 Ho2]. change (m_pausedBy m = Some by_) in Ho1. change (m_tunnel m' = m_tunnel m) in Ho2.
      split; [intros t'; rewrite Ho2, Ht; by intros [= <-]|congruence].
    + destruct Ho as (Ho1 & Ho2 & _). change (m_pausedBy m = None) in Ho1. split; [done|congruence].
Qed.
End Runtime.

Section Pipe.
Context {T P N : Type} `{TO : !TunnelOps T} `{TL : !TunnelLaws T} `{PO : !ProxyOps P N} `{PL : !ProxyLaws P N}.
Context (endpoint_String : Peer -> string) (quote : string -> string) (GoVersion : string).
Context (app_text : app_err -> string) (load_text : load_err -> string).

Abbreviation Manager := (Manager (T := T) (P := P) (N := N)).

(** A command that arrives over the pipe. *)
Definition command (env : Env) (c : string) (m : Manager) : Response warning * Manager :=
  dispatch (H := manager_handler endpoint_String quote GoVersion app_text load_text env) quote (MkRequest c) m.

(** What happens to a manager, one operation after the other, with the event it is.  The
    tunnel and the server also move by themselves, which does not start, stop or
    reconfigure them. *)
Inductive op_step : event -> Manager -> Manager -> Prop :=
| op_Start env m : op_step EvStart m (Start_mgr env m).2
| op_Stop m : op_step EvStop m (Stop_mgr m)
| op_retry d m : m_retry m = Some d -> op_step EvRetry m (retry_round m)
| op_changed env m : m_watching m = true -> op_step EvAdapters m (checkConflict env m).2
| op_settled env m : m_watching m = true -> op_step EvAdapters m (networkSettled env m)
| op_power m : op_step EvResume m (OnPowerResume m)
| op_command env c m : m_serving m = true -> op_step (EvCommand c) m (command env c m).2
| op_tunnel t t' m : m_tunnel m = Some t -> tun_Config t' = tun_Config t -> tun_Running t' = tun_Running t ->
    op_step EvOwn m (m <| m_tunnel := Some t' |>)
| op_proxy p p' m : m_socks m = Some p -> px_Listening p' = px_Listening p ->
    op_step EvOwn m (m <| m_socks := Some p' |>).

(** A sequence of them. *)
Inductive op_run : list event -> Manager -> Manager -> Prop :=
| op_nil m : op_run [] m m
| op_cons e es m1 m2 m3 : op_step e m1 m2 -> op_run es m2 m3 -> op_run (e :: es) m1 m3.

(** A command leaves the manager where the operation it names does, if it names one. *)
Lemma command_state env c (m : Manager) : (command env c m).2 = m \/ (command env c m).2 = (Reload_mgr env m).2 \/
  (command env c m).2 = (Reconnect_mgr m).2 \/ (command env c m).2 = (StartTunnel m).2 \/ (command env c m).2 = (StopTunnel m).2.
Proof.
  unfold command, dispatch. cbn [Command]. repeat case_bool_decide; cbn; auto.
  - destruct (Reload_mgr env m) as [[rep|e] m']; auto.
  - destruct (Reconnect_mgr m) as [[e|] m']; auto.
  - destruct (StartTunnel m) as [[e|] m']; auto.
  - destruct (StopTunnel m) as [[e|] m']; auto 6.
Qed.

Lemma inv_op e m m' : mgr_inv m -> op_step e m m' -> mgr_inv m'.
Proof.
  intros I. destruct 1 as [env m|m|d m Hd|env m Hw|env m Hw|m|env c m Hs|t t' m Ht Hc Hr|p p' m Hp Hl].
  - by apply Start_outcomes.
  - by apply mgr_Stop.
  - by apply inv_retry_round.
  - by apply checkConflict_spec.
  - by apply inv_networkSettled.
  - by apply inv_OnPowerResume.
  - apply serving_running in Hs; [|done].
    destruct (command_state env c m) as [->|[->|[->|[->| ->]]]]; [done|by apply mgr_Reload|by apply inv_Reconnect
      |by apply inv_StartTunnel|by apply inv_StopTunnel].
  - apply (inv_set_tunnel m t); congruence.
  - destruct I as [I1 I2 I3 I4 I5 I6]. split; try done.
    + intros Hr. destruct (I4 Hr) as (? & ? & ? & ? & ? & H6). split_and!; try done.
      intros p1 [= <-]. rewrite Hl. by apply H6.
    + intros Hr. destruct (I5 Hr) as (? & ? & ? & ? & ?). by split_and!.
Qed.

Lemma inv_new log net : mgr_inv (NewManager log net : Manager).
Proof. by split. Qed.

(** C6: in every sequence of operations of the service (start, stop, retries, adapter
    changes, resume from sleep, commands over the pipe), whatever files and adapters each
    of them finds: a tunnel that is paused for a conflict, or that nobody wants up, is
    down with no retry pending; a service that is stopped has its tunnel down, its pipe,
    watcher and retries ended and its proxy not listening; one that runs has all its
    parts; the configuration it reports and checks for conflicts is the one its tunnel
    holds; and a retry waits between a second and a minute. *)
Theorem manager_invariant log net es m : op_run es (NewManager log net) m -> mgr_inv m.
Proof.
  intros Hs. remember (NewManager log net) as m0 eqn:Hm. assert (mgr_inv m0) as I by (subst; apply inv_new).
  clear Hm. induction Hs as [m|e es m1 m2 m3 H12 _ IH]; [done|]. apply IH. by apply (inv_op e m1).
Qed.


(** What a command over the pipe of a running service means.  A stop always works: the
    tunnel is down, unwanted, with nothing pending that would bring it back, and the proxy
    is as it was.  A start or a reconnect says it worked exactly when the tunnel runs
    afterwards; while the tunnel is paused it fails with the reason, and the tunnel stays
    down; a reconnect of a running tunnel asks it for a handshake. *)
Theorem command_meaning env c m : mgr_inv m -> m_serving m = true ->
  let '(r, m') := command env c m in
  (c = CmdStop -> r_OK r = true /\ down m' /\ m_retry m' = None /\ m_tunnelWanted m' = false /\ m_socks m' = m_socks m) /\
  (c = CmdStart \/ c = CmdReconnect ->
     (r_OK r = true <-> exists t, m_tunnel m' = Some t /\ tun_Running t = true) /\
     (forall h, m_pausedBy m = Some h -> r = failed (paused_text quote h) /\ down m')) /\
  (c = CmdReconnect -> forall t, m_tunnel m = Some t -> tun_Running t = true ->
     r_OK r = true /\ exists t', m_tunnel m' = Some t' /\ tun_kicked t' = true).
Proof.
  intros I Hs. apply serving_running in Hs; [|done]. destruct (mi_running _ I Hs) as (_ & _ & [t Ht] & _ & _).
  pose proof (StartTunnel_spec m t I Hs Ht) as Hst.
  destruct (command env c m) as [r m'] eqn:Hc. unfold command, dispatch in Hc. cbn [Command] in Hc.
  split; [|split].
  - intros ->. cbn in Hc. unfold StopTunnel in Hc. rewrite Ht in Hc. cbn in Hc. injection Hc as <- <-.
    set (m1 := cancelRetry (m <| m_tunnelWanted := false |>)).
    destruct (stop_tunnel_spec m1) as (R & Hd & Hr & _). apply rest_fields in R as (_ & _ & Rs & _ & _ & _ & _ & Rw & _).
    split_and!; try done.
  - assert (forall msg, acknowledge msg (told quote app_text load_text (StartTunnel m)) = (r, m') ->
      (r_OK r = true <-> exists t, m_tunnel m' = Some t /\ tun_Running t = true) /\
      (forall h, m_pausedBy m = Some h -> r = failed (paused_text quote h) /\ down m')) as Hstart.
    { intros msg. destruct (StartTunnel m) as [[e|] m1]; cbn; intros [= <- <-].
      - destruct Hst as [Hd He]. split; [|intros h Hh; by rewrite (He h Hh)].
        split; [done|]. intros (t1 & Ht1 & Hr1). specialize (Hd t1 Ht1). congruence.
      - destruct Hst as [Hp Hr]. split; [done|]. congruence. }
    intros [->| ->]; cbn in Hc; [by apply (Hstart "tunnel started")|].
    unfold Reconnect_mgr in Hc. rewrite Ht in Hc. destruct (tun_Running t) eqn:Hr; cbn [negb] in Hc.
    + cbn in Hc. injection Hc as <- <-. destruct (tl_Reconnect t) as (Hrc & _). split.
      * split; [|done]. intros _. exists (tun_Reconnect t). split; [done|congruence].
      * intros h Hh. destruct (mi_paused _ I) as [Hd _]; [by rewrite Hh|]. specialize (Hd t Ht). congruence.
    + by apply (Hstart "reconnect triggered").
  - intros -> t1 Ht1 Hr. cbn in Hc. unfold Reconnect_mgr in Hc. rewrite Ht1, Hr in Hc. cbn in Hc. injection Hc as <- <-.
    split; [done|]. exists (tun_Reconnect t1). split; [done|]. by destruct (tl_Reconnect t1) as (_ & _ & _ & ?).
Qed.

Lemma hostAddress_String_shown h : hostAddress_String quote h <> "".
Proof. unfold hostAddress_String. by destruct (quote (Adapter h)). Qed.

(** The status that a running service answers over the pipe tells what is there, and
    asking changes nothing: whether the tunnel is paused, its state, the addresses and MTU
    of the configuration that it holds itself, the bind it was built with, and whether the
    proxy listens and with which limits. *)
Theorem status_truthful env m : mgr_inv m -> m_serving m = true ->
  let '(r, m') := command env CmdStatus m in
  m' = m /\ exists st t p c, r_Status r = Some st /\ st_Service st = "running" /\
    m_tunnel m = Some t /\ m_socks m = Some p /\ tun_Config t = Some c /\
    (ts_PausedBy (st_Tunnel st) = "" <-> m_pausedBy m = None) /\
    ts_State (st_Tunnel st) = State_String (tun_State t) /\ ts_MTU (st_Tunnel st) = t_MTU c /\
    ts_Addresses (st_Tunnel st) = Prefix_String <$> t_AddressPrefixes c /\
    vs_UDPBind (st_Versions st) = bindDescription (tun_BindMode t) /\
    ss_Listening (st_Socks5 st) = px_Listening p /\ ss_Listen (st_Socks5 st) = px_Addr p.
Proof.
  intros I Hs. apply serving_running in Hs; [|done].
  destruct (mi_running _ I Hs) as ([app Ha] & [c Hc] & [t Ht] & [p Hp] & _).
  pose proof (mi_config _ I t Ht) as Hcfg. rewrite Hc in Hcfg.
  destruct (command env CmdStatus m) as [r m'] eqn:Hcmd. cbn in Hcmd. injection Hcmd as <- <-.
  split; [done|]. exists (Status_mgr endpoint_String quote GoVersion (e_now env) m), t, p, c.
  split; [done|]. unfold Status_mgr. rewrite Hs, Ht, Hp, Hc, Ha. cbn [st_Service st_Tunnel st_Versions st_Socks5].
  split_and!; try done; unfold tunnel_status; destruct (tun_Stats t); try done; cbn.
  all: destruct (m_pausedBy m) as [h|]; [|done]; split; [intros Hn; by apply hostAddress_String_shown in Hn|done].
Qed.
End Pipe.

(** ** A concrete runtime

    The tunnel and the server of this library, on a machine where one configuration can be
    read; [files] is the object of the application configuration. *)

Import ToyDevice.

Module ToyRuntime.
Abbreviation runtime := (Manager (T := BindMode * AWG world nat string) (P := Server) (N := gset string)).

#[export] Instance toy_tunnel : TunnelOps (BindMode * AWG world nat string) := awg_ops empty_world 0.
#[export] Instance toy_tunnel_laws : TunnelLaws (BindMode * AWG world nat string) := awg_ops_laws empty_world 0.

Definition toy_app (bind : string) (conns : Z) : App :=
  MkApp "C:\client.conf" "127.0.0.1:10808" true "info" conns 0 0 (Some true) bind "C:\config.json".

Definition toy_env (a : App) (host : list hostAddress) : Env :=
  MkEnv "" "C:\client.conf" "C:\config.json" abs_of (fun _ => Ok (Some one_raw)) (fun _ => Some (encode_app a))
    one_config any_name id (Some host) 7 true true.

Definition rival : list hostAddress := [MkHostAddress "AmneziaVPN" (Addr4 168296450)].

Definition usual : Env := toy_env (toy_app "std" 4) [].
Definition fresh_runtime : runtime := NewManager some_logger ∅.
Definition up : runtime := (Start_mgr usual fresh_runtime).2.
Definition paused : runtime := (checkConflict (toy_env (toy_app "std" 4) rival) up).2.

Definition show (m : runtime) : bool * bool * option bool * option Z * bool :=
  (m_running m, bool_decide (is_Some (m_pausedBy m)), tun_Running <$> m_tunnel m, m_retry m,
   match m_socks m with Some p => px_Listening (N := gset string) p | None => false end).
End ToyRuntime.

Import ToyRuntime.

Example toy_shown : (show up, show paused, (resume paused).(m_retry)) =
  ((true, false, Some true, None, true), (true, true, Some false, None, true), Some startRetryMin).
Proof. by vm_compute. Qed.

Lemma up_inv : mgr_inv up.
Proof. apply Start_outcomes, inv_new. Qed.

Lemma paused_inv : mgr_inv paused.
Proof. apply checkConflict_spec, up_inv. Qed.

Definition no_text {A} (_ : A) : string := "".

Lemma manager_invariant_witness : mgr_inv paused /\ show paused = (true, true, Some false, None, true).
Proof.
  split; [|by vm_compute].
  apply (manager_invariant no_text id "go" no_text no_text some_logger ∅ [EvStart; EvAdapters]).
  apply (op_cons _ _ _ _ _ _ _ _ up); [apply op_Start|].
  apply (op_cons _ _ _ _ _ _ _ _ paused); [apply op_changed; by vm_compute|apply op_nil].
Defined.

Lemma Start_mgr_outcomes_witness : exists cfg, started_as usual (toy_app "std" 4) cfg up.
Proof.
  pose proof (Start_mgr_outcomes usual fresh_runtime (inv_new _ _)) as H. unfold up.
  assert ((Start_mgr usual fresh_runtime).1 = None) as Hn by (by vm_compute).
  destruct (Start_mgr usual fresh_runtime) as [[e|] m'].
  - discriminate Hn.
  - destruct H as (app & cfg & H). exists cfg. cbn [snd]. replace (toy_app "std" 4) with app; [done|].
    destruct H as (Ha & _). vm_compute in Ha. by injection Ha as <-.
Defined.

Lemma checkConflict_follows_adapters_witness :
  m_pausedBy paused = Some (MkHostAddress "AmneziaVPN" (Addr4 168296450)) /\ down paused.
Proof.
  destruct (m_tunCfg up) as [c|] eqn:Hc; [|by vm_compute in Hc].
  pose proof (checkConflict_follows_adapters (toy_env (toy_app "std" 4) rival) up c up_inv eq_refl Hc) as H.
  unfold paused. destruct (checkConflict (toy_env (toy_app "std" 4) rival) up) as [b m']. destruct H as (H1 & _ & H2 & _).
  assert (configConflict (t_AddressPrefixes c) rival = Some (MkHostAddress "AmneziaVPN" (Addr4 168296450))) as Hh.
  { vm_compute in Hc. injection Hc as <-. by vm_compute. }
  cbn [e_addresses toy_env] in H1, H2. rewrite Hh in H1, H2. split; [done|]. by apply H2.
Defined.

(** The reloads of the running and of the paused runtime, and two in a row. *)
Abbreviation to_rio := (toy_env (toy_app "rio" 9) []).
Abbreviation with_rival := (toy_env (toy_app "std" 4) rival).

Definition report_of (r : result manager_err reloadReport) : option (list string * list string) :=
  (fun rep => (applied rep, needsRestart rep)) <$> ok_opt r.

Lemma report_of_Ok r a n : report_of r = Some (a, n) -> exists rep, r = Ok rep /\ applied rep = a /\ needsRestart rep = n.
Proof. destruct r as [rep|e]; intros [= <- <-]. by exists rep. Qed.

Lemma some_tunnel (m : runtime) b bind :
  (fun t => (tun_Running t, tun_BindMode t)) <$> m_tunnel m = Some (b, bind) ->
  exists t, m_tunnel m = Some t /\ tun_Running t = b /\ tun_BindMode t = bind.
Proof. destruct (m_tunnel m) as [t|]; intros [= <- <-]. by exists t. Qed.

Lemma first_reload : exists rep, (Reload_mgr to_rio up).1 = Ok rep /\ applied rep = ["max_connections 4 -> 9"] /\
  needsRestart rep = ["udp_bind std -> rio"].
Proof. apply report_of_Ok. by vm_compute. Qed.

Lemma second_reload : exists rep, (Reload_mgr to_rio (Reload_mgr to_rio up).2).1 = Ok rep /\ applied rep = [] /\
  needsRestart rep = [].
Proof. apply report_of_Ok. by vm_compute. Qed.

Lemma paused_reload : exists rep, (Reload_mgr with_rival paused).1 = Ok rep /\ applied rep = [] /\ needsRestart rep = [].
Proof. apply report_of_Ok. by vm_compute. Qed.

Lemma up_tunnel : exists t, m_tunnel up = Some t /\ tun_Running t = true /\ tun_BindMode t = BindStd.
Proof. apply some_tunnel. by vm_compute. Qed.

Lemma paused_tunnel : exists t, m_tunnel paused = Some t /\ tun_Running t = false /\ tun_BindMode t = BindStd.
Proof. apply some_tunnel. by vm_compute. Qed.


Lemma Reload_claims_handshake_witness :
  exists rep m' t, Reload_mgr with_rival paused = (Ok rep, m') /\ m_tunnel m' = Some t /\ tun_Running t = false.
Proof.
  destruct paused_reload as (rep & Hok & _). destruct paused_tunnel as (t & Ht & Hr & _).
  destruct (Reload_mgr with_rival paused) as [r m'] eqn:He. cbn [fst] in Hok. subst r.
  destruct (Reload_claims_handshake _ paused rep m' t paused_inv eq_refl Ht Hr He) as [_ (t' & Ht' & Hr' & _)].
  exists rep, m', t'. split; [reflexivity|exact (conj Ht' Hr')].
Defined.

Lemma Reload_forgets_restart_witness :
  exists rep2 m2 t, Reload_mgr to_rio (Reload_mgr to_rio up).2 = (Ok rep2, m2) /\
    needsRestart rep2 = [] /\ m_tunnel m2 = Some t /\ tun_BindMode t = BindStd.
Proof.
  destruct first_reload as (rep1 & H1 & _ & Hn), second_reload as (rep2 & H2 & _).
  destruct up_tunnel as (t & Ht & _ & Hb). destruct (Reload_mgr to_rio up) as [r1 m1] eqn:He1. cbn [fst snd] in *. subst r1.
  destruct (Reload_mgr to_rio m1) as [r2 m2] eqn:He2. cbn [fst] in *. subst r2.
  destruct (Reload_forgets_restart _ _ up rep1 m1 rep2 m2 t up_inv eq_refl Ht He1 He2 eq_refl) as (Hf & t' & Ht' & Hb').
  { by rewrite Hn. }
  exists rep2, m2, t'. split; [reflexivity|]. split; [exact Hf|]. split; [exact Ht'|]. congruence.
Defined.

(** At the end of a pause the first attempt works. *)
Definition resumed : runtime := resume paused.

Lemma resumed_inv : mgr_inv resumed.
Proof. apply inv_resume; [apply paused_inv|]. vm_compute. by eexists. Qed.

Lemma resumed_tunnel : exists t, m_tunnel resumed = Some t /\ tun_Running t = false /\ tun_BindMode t = BindStd.
Proof. apply some_tunnel. by vm_compute. Qed.

Lemma resumed_starts : (fun t => (tun_Start t).1) <$> m_tunnel resumed = Some None.
Proof. by vm_compute. Qed.

Lemma retry_backoff_witness :
  m_retry resumed = Some startRetryMin /\ exists t, m_tunnel (retry_round resumed) = Some t /\ tun_Running t = true.
Proof.
  destruct resumed_tunnel as (t & Ht & Hr & _). pose proof resumed_starts as Hs. pose proof resumed_inv as I.
  assert (m_retry resumed = Some startRetryMin) as Hm by (by vm_compute).
  revert I Hm Ht Hs. generalize resumed. intros m I Hm Ht Hs. rewrite Ht in Hs. injection Hs as Hs. split; [exact Hm|].
  apply (retry_backoff m 0 I Hm) with (t := t); [|lia|exact Ht|exact Hs]. intros t' Ht'. congruence.
Defined.

Lemma command_meaning_witness :
  r_OK (command no_text id "go" no_text no_text usual CmdStop up).1 = true /\
  down (command no_text id "go" no_text no_text usual CmdStop up).2.
Proof.
  pose proof (command_meaning no_text id "go" no_text no_text usual CmdStop up up_inv eq_refl) as H.
  destruct (command no_text id "go" no_text no_text usual CmdStop up) as [r m']. destruct H as (H & _).
  by destruct (H eq_refl) as (? & ? & _).
Defined.

Lemma status_truthful_witness :
  exists st, r_Status (command no_text id "go" no_text no_text usual CmdStatus paused).1 = Some st /\
    ts_PausedBy (st_Tunnel st) <> "" /\ ts_Addresses (st_Tunnel st) = ["10.8.0.2/32"].
Proof.
  pose proof (status_truthful no_text id "go" no_text no_text usual paused paused_inv eq_refl) as H.
  destruct (command no_text id "go" no_text no_text usual CmdStatus paused) as [r m'].
  destruct H as (_ & st & t & p & c & Hr & _ & Ht & _ & Hc & Hp & _ & _ & Ha & _).
  exists st. split; [done|]. split; [intros Hn; apply Hp in Hn; assert (is_Some (m_pausedBy paused)) as [h Hh] by (vm_compute; by eexists); congruence|].
  rewrite Ha. assert (Prefix_String <$> from_option t_AddressPrefixes [] (m_tunnel paused ≫= tun_Config) = ["10.8.0.2/32"]) as Hx
    by (by vm_compute).
  rewrite Ht in Hx. change (Some t ≫= tun_Config) with (tun_Config t) in Hx. rewrite Hc in Hx. exact Hx.
Defined.
