(* ===== verification/ManagerRefines.v ===== *)
(** The runtime of Manager.v is the machine of ManagerSpec.v: every operation is one of its
    steps, so what holds of its runs holds of the runtime. *)

From S2P Require Import Prelude GoErrors ConfScan TunnelConf AppConf BatchTun Logging Ipc HostConflict Manager ManagerParts ManagerInv ManagerSpec ManagerProps.

#[local] Set Default Proof Using "Type*".

Section Refinement.
Context {T P N : Type} `{TO : !TunnelOps T} `{TL : !TunnelLaws T} `{PO : !ProxyOps P N} `{PL : !ProxyLaws P N}.

Abbreviation Manager := (Manager (T := T) (P := P) (N := N)).

(** What a manager is in the machine. *)
Definition up_of (m : Manager) : bool := match m_tunnel m with Some t => tun_Running t | None => false end.

Definition phase_of (m : Manager) : phase :=
  match m_pausedBy m with
  | Some _ => PPaused
  | None => if up_of m then PUp else if bool_decide (is_Some (m_retry m)) then PRetrying else PIdle
  end.

Definition view (m : Manager) : service :=
  if m_running m then MkService (phase_of m) (m_tunnelWanted m) else MkService POff false.

Lemma view_running m : m_running m = true -> view m = MkService (phase_of m) (m_tunnelWanted m).
Proof. unfold view. by intros ->. Qed.

(** Two managers that differ in what the machine does not see. *)
Lemma view_same m m' :
  m_running m' = m_running m -> m_tunnelWanted m' = m_tunnelWanted m -> m_pausedBy m' = m_pausedBy m ->
  m_retry m' = m_retry m -> up_of m' = up_of m -> view m' = view m.
Proof. unfold view, phase_of. by intros -> -> -> -> ->. Qed.

Lemma down_up m : down m -> up_of m = false.
Proof. unfold down, up_of. intros Hd. destruct (m_tunnel m) as [t|]; [by apply Hd|done]. Qed.

Lemma phase_not_off m : phase_of m <> POff.
Proof. unfold phase_of. by repeat case_match. Qed.

Lemma phase_paused m h : m_pausedBy m = Some h -> phase_of m = PPaused.
Proof. unfold phase_of. by intros ->. Qed.

Lemma phase_up m : mgr_inv m -> up_of m = true -> phase_of m = PUp /\ m_tunnelWanted m = true /\ m_pausedBy m = None.
Proof.
  intros I Hu. assert (m_pausedBy m = None) as Hp.
  { destruct (m_pausedBy m) eqn:Hp; [|done]. destruct (mi_paused _ I) as [Hd _]; [by rewrite Hp|].
    apply down_up in Hd. congruence. }
  unfold phase_of. rewrite Hp, Hu. split_and!; try done. destruct (m_tunnelWanted m) eqn:Hw; [done|].
  destruct (mi_wanted _ I Hw) as [Hd _]. apply down_up in Hd. congruence.
Qed.

Lemma phase_down m : up_of m = false -> m_pausedBy m = None ->
  phase_of m = if bool_decide (is_Some (m_retry m)) then PRetrying else PIdle.
Proof. unfold phase_of. by intros -> ->. Qed.

(** ** Looks *)

Lemma look_check env m : mgr_inv m -> m_running m = true -> look (view m) (view (checkConflict env m).2).
Proof.
  intros I Hr. destruct (checkConflict_spec env m) as (R & _ & Hs). set (m' := (checkConflict env m).2) in *. clearbody m'.
  apply rest_fields in R as (_ & _ & _ & _ & _ & Rr & _ & Rw & _).
  destruct (conflict_seen env m) as [[h|]|]; [|destruct Hs as (_ & _ & ->)|rewrite Hs; apply look_same].
  - destruct Hs as (Hp & _). rewrite (view_running m), (view_running m'), Rw, (phase_paused m' h Hp) by congruence.
    apply look_pause, phase_not_off.
  - destruct (m_pausedBy m) as [h|] eqn:Hp; [|apply look_same]. destruct (mi_paused _ I) as [Hd Hn]; [by rewrite Hp|].
    destruct (resume_spec m) as (R & Ht & Hpn & Hrt). apply rest_fields in R as (_ & _ & _ & _ & _ & Rr' & _ & Rw' & _).
    destruct (mi_running _ I Hr) as (_ & _ & _ & _ & Hx).
    rewrite (view_running m), (view_running (resume m)), Rw', (phase_paused m h Hp) by congruence.
    rewrite (phase_down (resume m)) by (done || (unfold up_of; rewrite Ht; exact (down_up m Hd))).
    rewrite Hrt, Hx, Hn. destruct (m_tunnelWanted m); apply look_resume.
Qed.

Lemma up_reconnect (m : Manager) t : m_tunnel m = Some t ->
  view (m <| m_tunnel := Some (tun_Reconnect t) |>) = view m.
Proof.
  intros Ht. apply view_same; try done. unfold up_of. rewrite Ht. by destruct (tl_Reconnect t) as (H & _).
Qed.

Lemma view_settled env m : view (networkSettled env m) = view (checkConflict env m).2.
Proof.
  unfold networkSettled. destruct (checkConflict env m) as [paused m1]. cbn [snd]. destruct paused; [done|].
  destruct (m_tunnel m1) as [t|] eqn:Ht; [|done]. destruct (tun_Running t); [by apply up_reconnect|done].
Qed.

Lemma view_power m : view (OnPowerResume m) = view m.
Proof.
  unfold OnPowerResume. destruct (m_tunnel m) as [t|] eqn:Ht; [|done]. destruct (tun_Running t); [by apply up_reconnect|done].
Qed.

(** ** Attempts *)

Lemma ask_StartTunnel m : mgr_inv m -> m_running m = true -> ask (view m) (view (StartTunnel m).2).
Proof.
  intros I Hr. destruct (mi_running _ I Hr) as (_ & _ & [t Ht] & _). unfold StartTunnel. rewrite Ht.
  assert (view (m <| m_tunnelWanted := true |>) = MkService (phase_of m) true) as Hv by (by rewrite view_running).
  rewrite (view_running m Hr). destruct (tun_Running t) eqn:Hrun; cbn [snd].
  { rewrite Hv. destruct (phase_up m I) as (-> & _); [unfold up_of; by rewrite Ht|]. by apply ask_works. }
  set (m1 := m <| m_tunnelWanted := true |>) in *. pose proof (startTunnelOnce_spec m1) as (R & Hrt & Hp & _ & Ho).
  destruct (startTunnelOnce m1) as [e m']. cbn [fst snd] in *. apply rest_fields in R as (_ & _ & _ & _ & _ & Rr & _ & Rw & _).
  rewrite (view_running m') by (rewrite Rr; exact Hr). rewrite Rw. change (m_tunnelWanted m1) with true.
  change (m_pausedBy m1) with (m_pausedBy m) in *. change (m_retry m1) with (m_retry m) in *.
  change (m_tunnel m1) with (m_tunnel m) in *. clear Rr Rw.
  destruct e as [[]|]; try done; cbn in Ho.
  - congruence.
  - destruct Ho as [Ho _]. rewrite (phase_paused m by_ Ho), (phase_paused m' by_) by congruence. apply ask_paused.
  - destruct Ho as (Ho & Hd & _). rewrite (phase_down m), (phase_down m'), Hrt
      by (congruence || (by apply down_up) || (unfold up_of; by rewrite Ht)).
    apply ask_fails. destruct (bool_decide _); auto.
  - destruct Ho as (Ho & t' & Ht' & Hr'). assert (phase_of m' = PUp) as ->.
    { unfold phase_of, up_of. by rewrite Hp, Ho, Ht', Hr'. }
    apply ask_works; [apply phase_not_off|]. unfold phase_of. rewrite Ho. by repeat case_match.
Qed.

Lemma ask_Reconnect m : mgr_inv m -> m_running m = true -> ask (view m) (view (Reconnect_mgr m).2).
Proof.
  intros I Hr. destruct (mi_running _ I Hr) as (_ & _ & [t Ht] & _). unfold Reconnect_mgr. rewrite Ht.
  destruct (tun_Running t) eqn:Hrun; cbn [negb snd]; [|by apply ask_StartTunnel].
  rewrite up_reconnect, (view_running m Hr) by done.
  destruct (phase_up m I) as (-> & -> & _); [unfold up_of; by rewrite Ht|]. by apply ask_works.
Qed.

Lemma view_StopTunnel m : mgr_inv m -> m_running m = true ->
  view (StopTunnel m).2 = MkService (if decide (phase_of m = PPaused) then PPaused else PIdle) false.
Proof.
  intros I Hr. destruct (mi_running _ I Hr) as (_ & _ & [t Ht] & _). unfold StopTunnel. rewrite Ht. cbn [snd].
  set (m1 := cancelRetry (m <| m_tunnelWanted := false |>)).
  destruct (stop_tunnel_spec m1) as (R & Hd & Hrt & Hp & _). apply rest_fields in R as (_ & _ & _ & _ & _ & Rr & _ & Rw & _).
  rewrite view_running, Rw by (rewrite Rr; exact Hr). f_equal. apply down_up in Hd.
  change (m_pausedBy m1) with (m_pausedBy m) in Hp. change (m_retry m1) with (@None Z) in Hrt.
  unfold phase_of. rewrite Hp, Hd, Hrt. destruct (m_pausedBy m); [done|]. destruct (up_of m); [done|].
  by destruct (bool_decide (is_Some (m_retry m))).
Qed.

Lemma retry_view m d : mgr_inv m -> m_retry m = Some d -> spec_step EvRetry (view m) (view (retry_round m)).
Proof.
  intros I Hd. destruct (inv_wanted_of_retry _ _ I Hd) as (Hw & Hr & Hp). unfold retry_round. rewrite Hd.
  assert (view m = MkService (if up_of m then PUp else PRetrying) true) as ->.
  { rewrite view_running, Hw by done. unfold phase_of. rewrite Hp, Hd. by destruct (up_of m). }
  change (match m_tunnel (m <| m_wake := false |>) with Some t => tun_Running t | None => false end) with (up_of m).
  destruct (up_of m) eqn:Hu.
  { assert (view ((m <| m_wake := false |>) <| m_retry := None |>) = MkService PUp true) as ->.
    { rewrite view_running by done. change (MkService (phase_of (m <| m_retry := None |>)) (m_tunnelWanted m) = MkService PUp true).
      rewrite Hw. f_equal. unfold phase_of. change (m_pausedBy (m <| m_retry := None |>)) with (m_pausedBy m).
      change (up_of (m <| m_retry := None |>)) with (up_of m). by rewrite Hp, Hu. }
    apply spec_retry_works. by right. }
  set (m1 := m <| m_wake := false |>). pose proof (startTunnelOnce_spec m1) as (R & _ & Hpp & _ & Ho).
  destruct (startTunnelOnce m1) as [e m']. cbn [fst snd] in *. apply rest_fields in R as (_ & _ & _ & _ & _ & Rr & _ & Rw & _).
  change (m_running m1) with (m_running m) in Rr. change (m_tunnelWanted m1) with (m_tunnelWanted m) in Rw.
  change (m_pausedBy m1) with (m_pausedBy m) in *.
  assert (forall r, view (m' <| m_retry := r |>) =
    MkService (if up_of m' then PUp else if bool_decide (is_Some r) then PRetrying else PIdle) true) as Hv.
  { intros r. rewrite view_running by (change (m_running m' = true); congruence).
    change (m_tunnelWanted (m' <| m_retry := r |>)) with (m_tunnelWanted m'). rewrite Rw, Hw. f_equal.
    unfold phase_of. change (m_pausedBy (m' <| m_retry := r |>)) with (m_pausedBy m'). by rewrite Hpp, Hp. }
  destruct e as [[]|]; try done; cbn in Ho.
  - destruct (mi_running _ I Hr) as (_ & _ & [t Ht] & _). change (m_tunnel m = None) in Ho. congruence.
  - destruct Ho as [Ho _]. congruence.
  - destruct Ho as (_ & Hd' & _). rewrite Hv, (down_up m' Hd'). apply spec_retry_fails.
  - destruct Ho as (_ & t' & Ht' & Hr'). rewrite Hv. unfold up_of. rewrite Ht', Hr'. apply spec_retry_works. by left.
Qed.

(** ** Reload, start and stop *)

Lemma view_listener app new p m : view (reload_listener app new p m).2 = view m.
Proof.
  unfold reload_listener. destruct (bool_decide _); [done|]. destruct (negb _).
  - destruct (px_Start _ _) as [[p'|e] n]; [|done]. by destruct (px_Stop p n).
  - destruct (px_Stop p (m_net m)) as [? n]. by destruct (px_Start _ _) as [[p'|e] n'].
Qed.

(** The tunnel went down, or kept running as it was. *)
Lemma view_tunnel_lost m t t' : mgr_inv m -> m_running m = true -> m_tunnel m = Some t ->
  (tun_Running t' = true -> tun_Running t = true) ->
  spec_step (EvCommand CmdReload) (view m) (view (m <| m_tunnel := Some t' |>)).
Proof.
  intros I Hr Ht Hdn. destruct (tun_Running t) eqn:Hrun, (tun_Running t') eqn:Hrun'; try (by specialize (Hdn eq_refl)).
  1,3: replace (view (m <| m_tunnel := Some t' |>)) with (view m); [apply spec_reload, look_same|];
    symmetry; apply view_same; try done; unfold up_of; rewrite Ht; transitivity (tun_Running t'); [done|congruence].
  rewrite (view_running m Hr), (view_running (m <| m_tunnel := Some t' |>)) by done.
  change (m_tunnelWanted (m <| m_tunnel := Some t' |>)) with (m_tunnelWanted m).
  destruct (phase_up m I) as (-> & _ & Hp); [unfold up_of; by rewrite Ht|].
  rewrite (phase_down (m <| m_tunnel := Some t' |>)) by done. apply spec_reload_lost.
  destruct (bool_decide _); auto.
Qed.

Lemma reload_view env m : mgr_inv m -> m_running m = true ->
  spec_step (EvCommand CmdReload) (view m) (view (Reload_mgr env m).2).
Proof.
  intros I Hr. assert (spec_step (EvCommand CmdReload) (view m) (view m)) as Hsame by apply spec_reload, look_same.
  unfold Reload_mgr. destruct (m_tunnel m) as [t|] eqn:Ht; [|done].
  destruct (load_app env) as [new|]; [|done]. destruct (LoadTunnel env (ConfigPath new)) as [c|]; [|done].
  destruct (reload_log_spec (m_app m) new m) as [l Hl]. destruct (reload_log (m_app m) new m) as [lines m1].
  cbn [snd] in Hl. subst m1. apply (inv_set_log m l) in I. change (view m) with (view (m <| m_log := l |>)).
  pose proof (tl_Reload c t) as [Ho _]. destruct (tun_Reload c t) as [[u|e] t'].
  - destruct Ho as [H1 H2]. pose proof (inv_adopted (m <| m_log := l |>) t t' c I Ht H2 H1) as I1.
    fold (adopted t' c (m <| m_log := l |>)). set (m1 := adopted t' c (m <| m_log := l |>)) in *.
    assert (view (m <| m_log := l |>) = view m1) as ->.
    { symmetry. apply view_same; try done. unfold up_of. change (m_tunnel (m <| m_log := l |>)) with (m_tunnel m). by rewrite Ht. }
    pose proof (look_check env m1 I1 Hr) as Hk. destruct (checkConflict env m1) as [b m2]. cbn [snd] in *.
    destruct (m_app m) as [app|], (m_socks m) as [p|]; try (by apply spec_reload).
    pose proof (view_listener app new p m2) as Hv. destruct (reload_listener app new p m2) as [[why|e] m3]; cbn [snd] in *;
      rewrite <-Hv in Hk; apply spec_reload; exact Hk.
  - destruct Ho as [H1 _]. by apply (view_tunnel_lost (m <| m_log := l |>) t).
Qed.

Lemma start_view env m : mgr_inv m -> spec_step EvStart (view m) (view (Start_mgr env m).2).
Proof.
  intros I. destruct (m_running m) eqn:Hr.
  { assert ((Start_mgr env m).2 = m) as -> by (unfold Start_mgr; by rewrite Hr). apply spec_start_again.
    rewrite view_running by done. apply phase_not_off. }
  assert (view m = MkService POff false) as -> by (unfold view; by rewrite Hr).
  destruct (Start_outcomes env m I) as [I' Ho]. destruct (Start_mgr env m) as [e m']. cbn [snd] in *.
  assert (m_running m' = false -> spec_step EvStart (MkService POff false) (view m')) as Hoff.
  { intros H. unfold view. rewrite H. apply spec_start_fails. }
  destruct e as [e|].
  - apply Hoff. destruct e; try (destruct Ho as [_ [l ->]]; exact Hr); try (by destruct Ho as [_ ?]). by destruct Ho as [? ->].
  - destruct Ho as (app & cfg & _ & _ & Hr' & _ & _ & _ & _ & Hw & _ & Hup). rewrite view_running, Hw by done.
    destruct (AutoStart app).
    + apply spec_start_auto. destruct Hup as [(t & Ht & Hrun)|[[h Hp]|Hrt]].
      * left. apply phase_up; [done|]. unfold up_of. by rewrite Ht.
      * right. right. by apply (phase_paused m' h).
      * destruct (inv_wanted_of_retry _ _ I' Hrt) as (_ & _ & Hp). unfold phase_of. rewrite Hp, Hrt. destruct (up_of m'); auto.
    + apply spec_start_idle. destruct Hup as [Hd Hn]. apply down_up in Hd. unfold phase_of. rewrite Hd, Hn.
      destruct (m_pausedBy m'); auto.
Qed.

Lemma Stop_mgr_running m : mgr_inv m -> m_running (Stop_mgr m) = false.
Proof.
  intros I. unfold Stop_mgr. destruct (m_running m) eqn:Hr; [|done]. cbn [negb].
  destruct (mi_running _ I Hr) as (_ & _ & _ & [p Hp] & _).
  change (m_socks ((m <| m_running := false |>) <| m_serving := false |>)) with (m_socks m). rewrite Hp. by destruct (px_Stop _ _).
Qed.

Lemma stop_view m : mgr_inv m -> spec_step EvStop (view m) (view (Stop_mgr m)).
Proof.
  intros I. assert (view (Stop_mgr m) = MkService POff false) as -> by (unfold view; by rewrite Stop_mgr_running).
  apply spec_stop.
Qed.

Section Events.
Context (endpoint_String : Peer -> string) (quote : string -> string) (GoVersion : string).
Context (app_text : app_err -> string) (load_text : load_err -> string).

Abbreviation step_of := (op_step endpoint_String quote GoVersion app_text load_text).
Abbreviation run_of := (op_run endpoint_String quote GoVersion app_text load_text).

Lemma command_view env c m : mgr_inv m -> m_running m = true ->
  spec_step (EvCommand c) (view m) (view (command endpoint_String quote GoVersion app_text load_text env c m).2).
Proof.
  intros I Hr. unfold command, dispatch. cbn [Command]. repeat case_bool_decide; subst; cbn.
  - apply spec_other. set_solver.
  - apply spec_other. set_solver.
  - pose proof (reload_view env m I Hr) as Hv. by destruct (Reload_mgr env m) as [[rep|e] m'].
  - pose proof (ask_Reconnect m I Hr) as Hv. apply spec_ask; [by right|]. by destruct (Reconnect_mgr m) as [[e|] m'].
  - pose proof (ask_StartTunnel m I Hr) as Hv. apply spec_ask; [by left|]. by destruct (StartTunnel m) as [[e|] m'].
  - pose proof (view_StopTunnel m I Hr) as Hv. rewrite (view_running m Hr).
    destruct (StopTunnel m) as [[e|] m']; cbn [fst snd fmap option_fmap option_map] in *; rewrite Hv; apply spec_cmd_stop, phase_not_off.
  - apply spec_other. set_solver.
Qed.

Lemma step_view e m m' : mgr_inv m -> step_of e m m' -> spec_step e (view m) (view m').
Proof.
  intros I. assert (m_watching m = true \/ m_serving m = true -> m_running m = true) as Hrun.
  { intros H. destruct (m_running m) eqn:Hr; [done|]. destruct (mi_stopped _ I Hr) as (_ & _ & ? & ? & _).
    destruct H; congruence. }
  destruct 1 as [env m|m|d m Hd|env m Hw|env m Hw|m|env c m Hs|t t' m Ht Hc Hr|p p' m Hp Hl].
  - by apply start_view.
  - by apply stop_view.
  - by apply (retry_view m d).
  - apply spec_adapters, look_check; auto.
  - apply spec_adapters. rewrite view_settled. apply look_check; auto.
  - rewrite view_power. apply spec_resume.
  - apply command_view; auto.
  - replace (view (m <| m_tunnel := Some t' |>)) with (view m); [apply spec_own|]. symmetry. apply view_same; try done.
    unfold up_of. by rewrite Ht.
  - apply spec_own.
Qed.

Lemma step_running e m m' : mgr_inv m -> step_of e m m' -> e <> EvStart -> e <> EvStop -> m_running m' = m_running m.
Proof.
  intros I Hs H1 H2. pose proof (spec_off _ _ _ (step_view e m m' I Hs) H1 H2) as Ho. unfold view in Ho.
  pose proof (phase_not_off m). pose proof (phase_not_off m'). destruct (m_running m), (m_running m'); naive_solver.
Qed.

Lemma run_view es m m' : run_of es m m' -> mgr_inv m -> spec_run es (view m) (view m') /\ mgr_inv m'.
Proof.
  induction 1 as [m|e es m1 m2 m3 H12 _ IH]; intros I; [split; [apply spec_nil|done]|].
  destruct IH as [H23 I3]; [by eapply inv_op|]. split; [|done]. eapply spec_cons; [by apply step_view|done].
Qed.

(** C4: the runtime refines its specification: every sequence of operations of a service
    that was just made, whatever files, adapters and outcomes it meets, is a run of the
    machine of ManagerSpec.v with the same events, from off to what the manager then is.
    So a pause is only left for another attempt or for rest, only a retry or somebody
    asking brings the tunnel up, and a reload never does. *)
Theorem manager_refines_spec log net es m :
  run_of es (NewManager log net) m -> spec_run es (MkService POff false) (view m).
Proof. intros Hr. by destruct (run_view es _ m Hr (inv_new log net)). Qed.

(** C5: a stop over the pipe is respected: whatever happens afterwards, one operation after
    the other, the tunnel is not up and nothing is pending that would bring it up, until
    the service is started or a start or reconnect asks for it. *)
Theorem stop_respected env es m m' : mgr_inv m -> m_serving m = true ->
  run_of es (command endpoint_String quote GoVersion app_text load_text env CmdStop m).2 m' ->
  Forall (fun e => asks e = false) es -> down m' /\ m_retry m' = None.
Proof.
  intros I Hs Hrun Hes. set (m1 := (command endpoint_String quote GoVersion app_text load_text env CmdStop m).2) in *.
  assert (m_running m = true) as Hr by (by apply serving_running).
  assert (view m1 = MkService (if decide (phase_of m = PPaused) then PPaused else PIdle) false) as Hv.
  { rewrite <-(view_StopTunnel m I Hr). unfold m1, command, dispatch. cbn. by destruct (StopTunnel m) as [[e|] ?]. }
  assert (mgr_inv m1) as I1 by (apply (inv_op endpoint_String quote GoVersion app_text load_text (EvCommand CmdStop) m); [done|by apply op_command]).
  destruct (run_view es m1 m' Hrun I1) as [Hspec I']. apply at_rest_run in Hspec as (Hw & _ & _).
  - destruct (m_running m') eqn:Hr'; [|by apply (inv_idle _ I'); right]. apply (inv_idle _ I'). left.
    rewrite <-Hw. by rewrite view_running.
  - rewrite Hv. by destruct (decide _).
  - done.
Qed.
End Events.
End Refinement.

Import ToyRuntime.

Lemma manager_refines_spec_witness :
  spec_run [EvStart; EvAdapters] (MkService POff false) (view paused) /\ view paused = MkService PPaused true.
Proof.
  split; [|by vm_compute].
  apply (manager_refines_spec no_text id "go" no_text no_text some_logger ∅).
  apply (op_cons _ _ _ _ _ _ _ _ up); [apply op_Start|].
  apply (op_cons _ _ _ _ _ _ _ _ paused); [apply op_changed; by vm_compute|apply op_nil].
Defined.

(** The service whose tunnel was stopped over the pipe stays that way through a look at
    the adapters. *)
Abbreviation stopped_up := (command no_text id "go" no_text no_text usual CmdStop up).2.

Lemma stop_respected_witness :
  down (checkConflict usual stopped_up).2 /\ m_retry (checkConflict usual stopped_up).2 = None.
Proof.
  apply (stop_respected no_text id "go" no_text no_text usual [EvAdapters] up); [apply up_inv|by vm_compute| |by repeat constructor].
  apply (op_cons _ _ _ _ _ EvAdapters [] stopped_up (checkConflict usual stopped_up).2); [|apply op_nil].
  apply op_changed. by vm_compute.
Defined.
