(* ===== verification/ServiceControl.v ===== *)
(** src/internal/service/service_windows.go: the program as a Windows service.  [Execute]
    answers the requests of the service control manager and reports its state to it,
    while the runtime goes on by itself between the requests. *)

From S2P Require Import Prelude GoErrors ConfScan TunnelConf AppConf BatchTun Logging Ipc HostConflict Manager ManagerParts ManagerInv ManagerSpec ManagerProps ManagerRefines.

#[local] Set Default Proof Using "Type*".

(** What is reported: [svc.Status] with the fields that are set.  [Current] is the status
    that a request to interrogate carries, sent back as it came. *)
Inductive report := StartPending (checkpoint : nat) | RunningReport | StopPending | Current (id : nat).

Inductive power_event := Suspend | ResumeSuspend | ResumeAutomatic | PowerStatusChange | OtherPower (code : Z).

Definition power_of (code : Z) : power_event :=
  if code =? 0x0004 then Suspend else if code =? 0x0007 then ResumeSuspend else if code =? 0x0012 then ResumeAutomatic
  else if code =? 0x000A then PowerStatusChange else OtherPower code.

(** Where [Execute] is: the runtime is starting; the requests are served; the shutdown has
    been reported; it has returned. *)
Inductive exec_pc := XStarting | XServing | XClosing | XDone (specific : bool) (code : Z).

Section Execute.
Context {T P N : Type} `{TO : !TunnelOps T} `{TL : !TunnelLaws T} `{PO : !ProxyOps P N} `{PL : !ProxyLaws P N}.
Context (endpoint_String : Peer -> string) (quote : string -> string) (GoVersion : string).
Context (app_text : app_err -> string) (load_text : load_err -> string).

Abbreviation Manager := (Manager (T := T) (P := P) (N := N)).

Record exec := MkExec { x_pc : exec_pc; x_reports : list report; x_mgr : Manager }.

Definition execute (m : Manager) : exec := MkExec XStarting [StartPending 0] m.

Definition on_power (e : power_event) (m : Manager) : Manager :=
  match e with
  | ResumeSuspend | ResumeAutomatic => OnPowerResume m
  | _ => m
  end.

(** The steps of [Execute], and the runtime's own between them. *)
Inductive exec_step : exec -> exec -> Prop :=
| x_progress n r m : exec_step (MkExec XStarting (r ++ [StartPending n]) m)
    (MkExec XStarting ((r ++ [StartPending n]) ++ [StartPending (S n)]) m)
| x_started env r m m' : Start_mgr env m = (None, m') ->
    exec_step (MkExec XStarting r m) (MkExec XServing (r ++ [RunningReport]) m')
| x_failed env e r m m' : Start_mgr env m = (Some e, m') -> exec_step (MkExec XStarting r m) (MkExec (XDone true 1) r m')
| x_interrogate id r m : exec_step (MkExec XServing r m) (MkExec XServing (r ++ [Current id]) m)
| x_param env r m : exec_step (MkExec XServing r m) (MkExec XServing r (Reload_mgr env m).2)
| x_power code r m : exec_step (MkExec XServing r m) (MkExec XServing r (on_power (power_of code) m))
| x_unexpected r m : exec_step (MkExec XServing r m) (MkExec XServing r m)
| x_stop r m : exec_step (MkExec XServing r m) (MkExec XClosing (r ++ [StopPending]) m)
| x_shutdown r m : exec_step (MkExec XClosing r m) (MkExec (XDone false 0) r (Stop_mgr m))
| x_runtime pc e r m m' : pc = XServing \/ pc = XClosing -> e <> EvStart -> e <> EvStop ->
    op_step endpoint_String quote GoVersion app_text load_text e m m' -> exec_step (MkExec pc r m) (MkExec pc r m').

Definition starting (l : list report) : Prop := exists n, l = StartPending <$> seq 0 (S n).

Definition echoes (l : list report) : Prop := forall x, x ∈ l -> exists id, x = Current id.

(** The reports so far, and the runtime that goes with them. *)
Definition exec_inv (x : exec) : Prop :=
  mgr_inv (x_mgr x) /\
  match x_pc x with
  | XStarting => starting (x_reports x) /\ m_running (x_mgr x) = false
  | XServing => m_running (x_mgr x) = true /\ exists a b, x_reports x = a ++ RunningReport :: b /\ starting a /\ echoes b
  | XClosing => m_running (x_mgr x) = true /\
      exists a b, x_reports x = a ++ RunningReport :: b ++ [StopPending] /\ starting a /\ echoes b
  | XDone true code => code = 1 /\ starting (x_reports x) /\ m_running (x_mgr x) = false
  | XDone false code => code = 0 /\ m_running (x_mgr x) = false /\
      exists a b, x_reports x = a ++ RunningReport :: b ++ [StopPending] /\ starting a /\ echoes b
  end.

Lemma starting_more a n : starting (a ++ [StartPending n]) -> starting ((a ++ [StartPending n]) ++ [StartPending (S n)]).
Proof.
  intros [k Hk]. exists (S k). rewrite Hk. assert (n = k) as ->.
  { rewrite seq_S, fmap_app in Hk. apply app_inj_tail in Hk as [_ Hk]. simpl in Hk. by injection Hk. }
  change (seq 0 (S (S k))) with (seq 0 (S k + 1)) || rewrite (seq_S (S k)). by rewrite fmap_app.
Qed.

Lemma echoes_more b id : echoes b -> echoes (b ++ [Current id]).
Proof. intros Hb x [Hx|Hx]%elem_of_app; [by apply Hb|]. apply list_elem_of_singleton in Hx as ->. by exists id. Qed.

Lemma exec_step_inv x x' : exec_inv x -> exec_step x x' -> exec_inv x'.
Proof.
  intros [I Hx] Hs. destruct Hs; simpl in *.
  - destruct Hx as [Hx Hr]. split; [done|]. split; [by apply starting_more|done].
  - destruct Hx as [Hx Hr]. destruct (Start_outcomes env m I) as [I' Ho]. rewrite H in *. split; [exact I'|].
    destruct Ho as (app & cfg & Ho). split; [apply Ho|]. exists r, []. split; [done|]. split; [done|]. by intros ? ?%elem_of_nil.
  - destruct Hx as [Hx Hr]. destruct (Start_outcomes env m I) as [I' Ho]. rewrite H in *. split; [exact I'|].
    split_and!; try done. simpl. destruct e; try (by destruct Ho as [_ [l ->]]); try (by destruct Ho as [_ ?]).
    destruct Ho as [? ->]. done.
  - destruct Hx as (Hr & a & b & -> & Ha & Hb). split; [done|]. split; [done|]. exists a, (b ++ [Current id]).
    split; [by rewrite <-app_assoc|]. split; [done|by apply echoes_more].
  - destruct Hx as (Hr & Hx). split; [by apply mgr_Reload|]. split; [|done]. simpl. by rewrite Reload_running.
  - destruct Hx as (Hr & Hx). assert (mgr_inv (on_power (power_of code) m) /\ m_running (on_power (power_of code) m) = true) as [I' Hr'].
    { destruct (power_of code); try done; (split; [by apply inv_OnPowerResume|]); unfold on_power, OnPowerResume;
        destruct (m_tunnel m) as [t|]; try done; by destruct (tun_Running t). }
    by split.
  - by split.
  - destruct Hx as (Hr & a & b & -> & Ha & Hb). split; [done|]. split; [done|]. exists a, b. split; [|by split].
    by rewrite <-app_assoc.
  - destruct Hx as (Hr & Hx). split; [by apply mgr_Stop|]. split; [done|]. split; [|done].
    by apply Stop_mgr_running.
  - assert (mgr_inv m') as I' by (by eapply inv_op). pose proof (step_running _ _ _ _ _ e m m' I H2 H0 H1) as Hrun.
    split; [done|]. destruct H as [-> | ->]; simpl in *; by rewrite Hrun.
Qed.

(** C16: the service as Windows sees it.  In every run the reports are pending starts
    numbered one after the other, then, when the runtime has started, running, answers to
    interrogations and, once a stop was asked, one report that it is stopping; the runtime
    runs whenever running was reported last, and it has been shut down, with its tunnel
    down, its proxy closed and no retry pending, when [Execute] returns; the exit code is
    an error exactly when running was never reported. *)
Theorem Execute_protocol log net x : rtc exec_step (execute (NewManager log net)) x ->
  match x_pc x with
  | XStarting => starting (x_reports x)
  | XServing => m_running (x_mgr x) = true /\ exists a b, x_reports x = a ++ RunningReport :: b /\ starting a /\ echoes b
  | XClosing => exists a b, x_reports x = a ++ RunningReport :: b ++ [StopPending] /\ starting a /\ echoes b
  | XDone specific code =>
      down (x_mgr x) /\ m_retry (x_mgr x) = None /\ m_serving (x_mgr x) = false /\
      (forall p, m_socks (x_mgr x) = Some p -> px_Listening p = false) /\
      if specific then code = 1 /\ starting (x_reports x)
      else code = 0 /\ exists a b, x_reports x = a ++ RunningReport :: b ++ [StopPending] /\ starting a /\ echoes b
  end.
Proof.
  intros Hs. assert (exec_inv x) as [I Hx].
  { assert (exec_inv (execute (NewManager log net))) as I0 by (split; [apply inv_new|split; [by exists 0%nat|done]]).
    induction Hs as [x|x y z Hxy _ IH]; [done|]. apply IH. by eapply exec_step_inv. }
  destruct (x_pc x) as [| | |specific code]; [by destruct Hx|done|by destruct Hx|].
  assert (m_running (x_mgr x) = false) as Hr by (by destruct specific, Hx as (? & ? & ?)).
  destruct (mi_stopped _ I Hr) as (? & ? & ? & ? & ? & ?). split_and!; try done.
  by destruct specific, Hx as (? & ? & ?).
Qed.
End Execute.

Import ToyRuntime.

(** A start that took two reports, a resume from sleep, and a stop. *)
Lemma Execute_protocol_witness :
  down (Stop_mgr (OnPowerResume up)) /\ m_retry (Stop_mgr (OnPowerResume up)) = None.
Proof.
  assert (Start_mgr usual fresh_runtime = (None, up)) as Hup.
  { unfold up. rewrite (surjective_pairing (Start_mgr usual fresh_runtime)) at 1. f_equal; vm_compute; reflexivity. }
  revert Hup. generalize up. intros m Hup.
  pose proof (Execute_protocol no_text id "go" no_text no_text some_logger ∅
    (MkExec (XDone false 0) [StartPending 0; StartPending 1; RunningReport; StopPending] (Stop_mgr (OnPowerResume m)))) as H.
  destruct H as (H1 & H2 & _); [|exact (conj H1 H2)].
  eapply rtc_l; [apply (x_progress _ _ _ _ _ 0 [])|]. eapply rtc_l; [by apply (x_started _ _ _ _ _ usual _ _ m)|].
  eapply rtc_l; [apply (x_power _ _ _ _ _ 0x0012)|]. eapply rtc_l; [apply x_stop|]. apply rtc_once, x_shutdown.
Defined.
