(* ===== verification/Installer.v ===== *)
(** src/internal/service/control_windows.go: installing, repairing and removing the
    service.  What these commands do to the machine is a trace of effects, each of which
    the machine may refuse; what they find on it is a [Host], whose answers may depend on
    what was done so far.  Lines for the terminal are left out. *)

From S2P Require Import Prelude GoStrings GoErrors Acl ConfScan TextDecode TunnelConf AppConf Version Manager.

(** ** Effects *)

(** [EnsureDir] is [os.MkdirAll] followed by the descriptor, in two effects; [Copy] is
    [copyFile]. *)
Inductive effect :=
| MkdirAll (path : string)
| SetDACL (path sddl : string)
| Copy (src dst : string)
| WriteSettings (path : string) (a : App)
| CreateSvc (path : string)
| LimitPrivileges
| DeleteSvc
| SetRecovery
| StartSvc
| StopSvc
| WaitRunning
| WaitStopped
| RemoveAll (path : string)
| RemoveFile (path : string).

(** What was attempted, and whether it worked. *)
Abbreviation trace := (list (effect * bool)).

Inductive install_err :=
| INotElevated
| INoConfig
| IPath (e : error)
| IConfig (e : load_err)
| IConnect
| IAlreadyInstalled
| INotInstalled
| INoProgramFiles
| ISettings (e : app_err)
| INoExecutable
| INoRoot
| IPurgeKeep
| IFailed (e : effect) (err : error).

(** ** The machine *)

(** The states of a service. *)
Inductive svc_state := Stopped_svc | StartPending_svc | StopPending_svc | Running_svc | ContinuePending_svc | PausePending_svc
  | Paused_svc | Other_svc (code : Z).

#[global] Instance svc_state_eq_dec : EqDecision svc_state.
Proof. solve_decision. Defined.

Definition stateName (s : svc_state) : string :=
  match s with
  | Stopped_svc => "stopped"
  | StartPending_svc => "starting"
  | StopPending_svc => "stopping"
  | Running_svc => "running"
  | ContinuePending_svc => "continuing"
  | PausePending_svc => "pausing"
  | Paused_svc => "paused"
  | Other_svc _ => "unknown"
  end.

(** [h_query] is what the service says of its state, when it says something. *)
Record Host := MkHost {
  h_elevated : bool;
  h_Abs : string -> result error string;
  h_LoadTunnel : string -> result load_err Tunnel;
  h_connect : bool;
  h_installed : bool;
  h_query : trace -> option svc_state;
  h_programDir : option string;
  h_root : string;
  h_logDir : string;
  h_confPath : string;
  h_appPath : string;
  h_Executable : option string;
  h_Join : string -> string -> string;
  h_Dir : string -> string;
  h_Clean : string -> string;
  h_exists : trace -> string -> bool;
  h_LoadApp : trace -> result app_err App;
  h_ReadDir : trace -> string -> option (list (string * bool));
  h_accepts : trace -> effect -> option error;
}.

(** [QueryState], over whether the service manager and the service can be opened and what
    the service answers. *)
Inductive query_err := QConnect (e : error) | QState (e : error).

Definition QueryState (connect : result error unit) (service : option (result error svc_state)) : result query_err string :=
  _ ← map_err QConnect connect;
  match service with
  | None => Ok "not installed"
  | Some answer => s ← map_err QState answer; Ok (stateName s)
  end.

(** ** The registration

    [mgr.Config], as far as it is filled in, and the privileges that are asked for, as a
    list of UTF-16 strings that end with a zero, ended by another; a string is its
    runes. *)
Record Registration := MkRegistration {
  DisplayName : string;
  StartAutomatic : bool;
  DelayedAutoStart : bool;
  OwnProcess : bool;
  ErrorNormal : bool;
  ServiceStartName : string;
  SidUnrestricted : bool;
  Dependencies : list string;
}.

Definition serviceConfig : Registration :=
  MkRegistration ServiceDisplayName true false true true (ServiceAccount ServiceName) true ["Tcpip"].

Definition multiSZ (items : list (list Z)) : list Z := concat ((fun s => utf16_runes s ++ [0]) <$> items) ++ [0].

(** What Windows reads back: strings up to the first that is empty. *)
Fixpoint read_multiSZ (fuel : nat) (l : list Z) : list (list Z) :=
  match fuel with
  | O => []
  | S fuel =>
      match list_find (fun u => u = 0) l with
      | None | Some (O, _) => []
      | Some (n, _) => utf16_Decode (take n l) :: read_multiSZ fuel (drop (S n) l)
      end
  end.

(** ** Commands *)

Definition IO (A : Type) : Type := trace -> result install_err A * trace.

#[global] Instance io_ret : MRet IO := fun A a tr => (Ok a, tr).
#[global] Instance io_bind : MBind IO := fun A B f m tr =>
  match m tr with
  | (Ok a, tr) => f a tr
  | (Err e, tr) => (Err e, tr)
  end.

Definition fail {A} (e : install_err) : IO A := fun tr => (Err e, tr).
Definition guard_io (c : bool) (e : install_err) : IO unit := fun tr => (if c then Err e else Ok tt, tr).
Definition get_trace : IO trace := fun tr => (Ok tr, tr).
Definition lift_io {A} (r : result install_err A) : IO A := fun tr => (r, tr).

(** What is done when a command fails. *)
Definition on_error {A} (m : IO A) (h : install_err -> IO A) : IO A := fun tr =>
  match m tr with
  | (Ok a, tr) => (Ok a, tr)
  | (Err e, tr) => h e tr
  end.

Section Commands.
Variable H : Host.

(** An effect whose error ends the command, and one whose error is only reported. *)
Definition act (e : effect) : IO unit := fun tr =>
  match h_accepts H tr e with
  | None => (Ok tt, tr ++ [(e, true)])
  | Some err => (Err (IFailed e err), tr ++ [(e, false)])
  end.

Definition attempt (e : effect) : IO bool := fun tr =>
  match h_accepts H tr e with
  | None => (Ok true, tr ++ [(e, true)])
  | Some _ => (Ok false, tr ++ [(e, false)])
  end.

Definition ensureDir (path sddl : string) : IO unit := _ ← act (MkdirAll path); act (SetDACL path sddl).

Definition sid : string := ServiceSID ServiceName.

Fixpoint each {A} (f : A -> IO unit) (l : list A) : IO unit :=
  match l with
  | [] => mret tt
  | x :: l => _ ← f x; each f l
  end.

(** *** Install *)

Record InstallOptions := MkInstallOptions {
  o_ConfigPath : string;
  o_InPlace : bool;
  o_Socks5Listen : string;
  o_LogLevel : string;
  o_AutoStartTunnel : bool;
  o_StartService : bool;
  o_Scripts : list string;
}.

Definition installApp (dest : string) (o : InstallOptions) : IO (App * bool) := fun tr =>
  let '(app, kept) :=
    if h_exists H tr (h_appPath H)
    then match h_LoadApp H tr with
         | Ok existing => (existing, true)
         | Err _ => (DefaultApp (h_confPath H), false)
         end
    else (DefaultApp (h_confPath H), false) in
  let app := app <| ConfigPath := dest |> in
  let app := if o_AutoStartTunnel o then app else app <| AutoStart := false |> in
  let app := if bool_decide (o_Socks5Listen o = "") then app else app <| Socks5Listen := o_Socks5Listen o |> in
  let app := if bool_decide (o_LogLevel o = "") then app else app <| LogLevel := o_LogLevel o |> in
  (match Normalize (h_confPath H) (h_Abs H) app with
   | Ok app => Ok (app, kept)
   | Err e => Err (ISettings e)
   end, tr).

(** [copyWhenReleased]: twenty attempts. *)
Fixpoint copy_attempts (n : nat) (src dst : string) (last : option install_err) : IO unit :=
  match n with
  | O => match last with Some e => fail e | None => mret tt end
  | S n => on_error (act (Copy src dst)) (fun e => copy_attempts n src dst (Some e))
  end.

Definition copyWhenReleased (src dst : string) : IO unit := copy_attempts 20 src dst None.

Definition install_file (job : string * string) : IO unit :=
  let '(src, dst) := job in
  _ ← (if EqualFold (h_Clean H src) (h_Clean H dst) then mret tt else copyWhenReleased src dst);
  act (SetDACL dst (programFileSDDL sid)).

Definition installProgram (exe dir : string) (scripts : list string) : IO string :=
  _ ← ensureDir dir (programDirSDDL sid);
  let path := h_Join H dir "awgsocks.exe" in
  tr ← get_trace;
  let jobs := (exe, path) ::
    omap (fun name => let src := h_Join H (h_Dir H exe) name in
                      if h_exists H tr src then Some (src, h_Join H dir name) else None) scripts in
  _ ← each install_file jobs;
  mret path.

(** Something that is done only when a path is there. *)
Definition if_exists (path : string) (m : IO unit) : IO unit :=
  tr ← get_trace; if h_exists H tr path then m else mret tt.

Definition legacy : string := h_Join H (h_root H) "awgsocks.exe".

Definition removeLegacyBinary : IO unit := if_exists legacy (_ ← attempt (RemoveFile legacy); mret tt).

Definition CreateService (path : string) : IO unit :=
  _ ← act (CreateSvc path);
  on_error (act LimitPrivileges) (fun e => _ ← attempt DeleteSvc; fail e).

Definition dest_of (o : InstallOptions) (src : string) : string := if o_InPlace o then src else h_confPath H.

Definition Install (o : InstallOptions) : IO unit :=
  _ ← guard_io (negb (h_elevated H)) INotElevated;
  _ ← guard_io (bool_decide (TrimSpace (o_ConfigPath o) = "")) INoConfig;
  src ← lift_io (map_err IPath (h_Abs H (o_ConfigPath o)));
  _ ← lift_io (map_err IConfig (h_LoadTunnel H src));
  _ ← guard_io (negb (h_connect H)) IConnect;
  _ ← guard_io (h_installed H) IAlreadyInstalled;
  dir ← lift_io (match h_programDir H with Some d => Ok d | None => Err INoProgramFiles end);
  _ ← ensureDir (h_root H) (dataDirSDDL sid);
  _ ← ensureDir (h_logDir H) (logDirSDDL sid);
  let dest := dest_of o src in
  _ ← (if o_InPlace o || EqualFold src dest then mret tt else act (Copy src dest));
  _ ← act (SetDACL dest (secretSDDL sid));
  '(app, _) ← installApp dest o;
  _ ← act (WriteSettings (h_appPath H) app);
  _ ← act (SetDACL (h_appPath H) (userReadableSDDL sid));
  exe ← lift_io (match h_Executable H with Some e => Ok e | None => Err INoExecutable end);
  path ← installProgram exe dir (o_Scripts o);
  _ ← removeLegacyBinary;
  _ ← CreateService path;
  _ ← attempt SetRecovery;
  if o_StartService o then _ ← act StartSvc; act WaitRunning else mret tt.

(** *** Uninstall *)

Definition removeInstalledData (keepSettings : bool) : IO unit :=
  if keepSettings then mret tt
  else _ ← attempt (RemoveAll (h_logDir H)); _ ← attempt (RemoveFile (h_appPath H)); mret tt.

(** Stopping it is best effort; deleting it is not. *)
Definition remove_service : IO unit :=
  if h_installed H then
    tr ← get_trace;
    _ ← match h_query H tr with
        | Some s =>
            if decide (s = Stopped_svc) then mret tt
            else stopped ← attempt StopSvc;
                 if stopped : bool then _ ← attempt WaitStopped; mret tt else mret tt
        | None => mret tt
        end;
    act DeleteSvc
  else mret tt.

Definition Uninstall (purge keepSettings : bool) : IO unit :=
  _ ← guard_io (purge && keepSettings) IPurgeKeep;
  _ ← guard_io (negb (h_elevated H)) INotElevated;
  _ ← guard_io (negb (h_connect H)) IConnect;
  _ ← remove_service;
  _ ← removeInstalledData keepSettings;
  _ ← removeLegacyBinary;
  if purge then act (RemoveAll (h_root H))
  else tr ← get_trace;
       if h_exists H tr (h_confPath H) then mret tt else _ ← attempt (RemoveFile (h_root H)); mret tt.

(** *** Start, stop, restart *)

Definition withService (m : IO unit) : IO unit :=
  _ ← guard_io (negb (h_elevated H)) INotElevated;
  _ ← guard_io (negb (h_connect H)) IConnect;
  _ ← guard_io (negb (h_installed H)) INotInstalled;
  m.

Definition unless_in (want : svc_state) (m : IO unit) : IO unit :=
  tr ← get_trace; if decide (h_query H tr = Some want) then mret tt else m.

Definition StartService : IO unit := withService (unless_in Running_svc (_ ← act StartSvc; act WaitRunning)).
Definition StopService : IO unit := withService (unless_in Stopped_svc (_ ← act StopSvc; act WaitStopped)).
Definition RestartService : IO unit := _ ← StopService; StartService.

(** *** Repair *)

Definition repair_program : IO unit :=
  tr ← get_trace;
  match h_programDir H with
  | None => mret tt
  | Some dir =>
      match h_ReadDir H tr dir with
      | None => mret tt
      | Some entries =>
          _ ← ensureDir dir (programDirSDDL sid);
          each (fun e : string * bool =>
            if e.2 then mret tt else act (SetDACL (h_Join H dir e.1) (programFileSDDL sid))) entries
      end
  end.

Definition repairPermissions : IO unit :=
  tr ← get_trace;
  _ ← guard_io (negb (h_exists H tr (h_root H))) INoRoot;
  _ ← ensureDir (h_root H) (dataDirSDDL sid);
  _ ← if_exists (h_logDir H) (ensureDir (h_logDir H) (logDirSDDL sid));
  tr ← get_trace;
  _ ← (match h_LoadApp H tr with
       | Ok app => if bool_decide (ConfigPath app = "") then mret tt
                   else if_exists (ConfigPath app) (act (SetDACL (ConfigPath app) (secretSDDL sid)))
       | Err _ => mret tt
       end);
  _ ← if_exists legacy (act (SetDACL legacy secureSDDL));
  _ ← if_exists (h_appPath H) (act (SetDACL (h_appPath H) (userReadableSDDL sid)));
  repair_program.

Definition RepairPermissions : IO unit :=
  _ ← guard_io (negb (h_elevated H)) INotElevated;
  repairPermissions.
End Commands.

(** ** Waiting for a state

    [waitForState] over the clock, in nanoseconds, at the start and before each query, and
    the answers to the queries. *)
Definition stateWaitTimeout : Z := 30 * 10 ^ 9.

Inductive wait_result := Reached | QueryFailed | TimedOut.

Section Wait.
Variable want : svc_state.
Variable query : nat -> option svc_state.
Variable clock : nat -> Z.

Fixpoint wait_polls (fuel i : nat) (deadline : Z) : option wait_result :=
  match fuel with
  | O => None
  | S fuel =>
      if clock i <? deadline then
        match query i with
        | None => Some QueryFailed
        | Some s => if decide (s = want) then Some Reached else wait_polls fuel (S i) deadline
        end
      else Some TimedOut
  end.

Definition waitForState (fuel : nat) : option wait_result := wait_polls fuel 1 (clock 0 + stateWaitTimeout).
End Wait.
