(* ===== verification/InstallerRules.v ===== *)
(** How the commands of the installer are reasoned about: what a trace of effects says of
    a path's descriptor, rules that every effect of a trace obeys given what was done
    before it, and Hoare-style lemmas, one per construct of the commands, that a command
    keeps to the rules. *)

From S2P Require Import Prelude GoStrings GoErrors Acl ConfScan TunnelConf AppConf Version Manager Installer.

#[local] Set Default Proof Using "Type*".

(** ** Traces *)

(** The descriptor that a path has, if it was set after its content was last written. *)
Definition status_step (path : string) (st : option string) (x : effect * bool) : option string :=
  match x.1 with
  | SetDACL p s => if bool_decide (p = path) then (if x.2 then Some s else st) else st
  | Copy _ p => if bool_decide (p = path) then None else st
  | _ => st
  end.

Definition status (path : string) (tr : trace) : option string := foldl (status_step path) None tr.

Lemma status_snoc path tr x : status path (tr ++ [x]) = status_step path (status path tr) x.
Proof. unfold status. by rewrite foldl_app. Qed.

Definition touches (path : string) (e : effect) : bool :=
  match e with SetDACL p _ | Copy _ p => bool_decide (p = path) | _ => false end.

Lemma status_other path tr e b : touches path e = false -> status path (tr ++ [(e, b)]) = status path tr.
Proof. rewrite status_snoc. unfold status_step, touches. destruct e; simpl; try done; by intros ->. Qed.

Lemma status_set path s tr : status path (tr ++ [(SetDACL path s, true)]) = Some s.
Proof. rewrite status_snoc. unfold status_step. simpl. by rewrite bool_decide_true. Qed.

(** A rule for every effect of a trace, about what was done before it. *)
Definition obeys (R : trace -> effect -> Prop) (tr : trace) : Prop :=
  forall pre e b post, tr = pre ++ (e, b) :: post -> R pre e.

Lemma obeys_nil R : obeys R [].
Proof. intros [|? ?] e b post He; done. Qed.

Lemma obeys_snoc R tr e b : obeys R tr -> R tr e -> obeys R (tr ++ [(e, b)]).
Proof.
  intros Ho Hr pre e' b' post He. destruct post as [|x post _] using rev_ind.
  - by apply app_inj_tail in He as [-> [= -> ->]].
  - rewrite app_comm_cons, app_assoc in He. apply app_inj_tail in He as [-> _]. by eapply Ho.
Qed.

Lemma obeys_before R tr e b : obeys R (tr ++ [(e, b)]) -> obeys R tr /\ R tr e.
Proof.
  intros Ho. split; [|by apply (Ho tr e b [])]. intros pre e' b' post ->.
  apply (Ho pre e' b' (post ++ [(e, b)])). by rewrite <-app_assoc.
Qed.

(** Under rules that give a path one descriptor only and write its content only before
    that, it keeps the descriptor. *)
Lemma stays_closed (R : trace -> effect -> Prop) path s tr :
  (forall pre s', R pre (SetDACL path s') -> s' = s) ->
  (forall pre src, R pre (Copy src path) -> (SetDACL path s, true) ∉ pre) ->
  obeys R tr -> (SetDACL path s, true) ∈ tr -> status path tr = Some s.
Proof.
  intros HS HC. induction tr as [|[e b] tr IH] using rev_ind; [by intros _ ?%elem_of_nil|].
  intros [Ho He]%obeys_before Hin. apply elem_of_app in Hin as [Hin|Hin].
  - specialize (IH Ho Hin). rewrite status_snoc, IH. unfold status_step. destruct e; try done; cbn [fst snd].
    + case_bool_decide as Hp; [subst|done]. destruct b; [|done]. f_equal. by eapply HS.
    + case_bool_decide as Hp; [subst|done]. by destruct (HC _ _ He).
  - apply list_elem_of_singleton in Hin as [= <- <-]. apply status_set.
Qed.

(** ** Commands and rules *)

Section Rules.
Variable H : Host.
Variable R : trace -> effect -> Prop.

(** From a trace that obeys the rules and has [P], the command keeps to the rules, and
    leaves [Q] when it succeeds. *)
Definition runs {A} (P : trace -> Prop) (m : IO A) (Q : A -> trace -> Prop) : Prop :=
  forall tr, obeys R tr -> P tr ->
  obeys R (m tr).2 /\ match (m tr).1 with Ok a => Q a (m tr).2 | Err _ => True end.

Lemma runs_ret {A} (P : trace -> Prop) (a : A) : runs P (mret a) (fun _ => P).
Proof. by intros tr Ho HP. Qed.

Lemma runs_bind {A B} P (m : IO A) Q (f : A -> IO B) S :
  runs P m Q -> (forall a, runs (Q a) (f a) S) -> runs P (m ≫= f) S.
Proof.
  intros Hm Hf tr Ho HP. destruct (Hm tr Ho HP) as [Ho' HQ]. unfold mbind, io_bind.
  destruct (m tr) as [[a|e] tr']; cbn [fst snd] in *; [by apply (Hf a)|by split].
Qed.

Lemma runs_seq {A B} P (m : IO A) Q (k : IO B) S :
  runs P m (fun _ => Q) -> runs Q k S -> runs P (m ≫= fun _ => k) S.
Proof. intros Hm Hk. by apply (runs_bind P m (fun _ => Q)). Qed.

Lemma runs_weaken {A} (P P' : trace -> Prop) (m : IO A) (Q Q' : A -> trace -> Prop) :
  runs P m Q -> (forall tr, P' tr -> P tr) -> (forall a tr, Q a tr -> Q' a tr) -> runs P' m Q'.
Proof.
  intros Hm HP HQ tr Ho Ht. destruct (Hm tr Ho (HP tr Ht)) as [Ho' Hr]. split; [done|].
  destruct (m tr).1; [by apply HQ|done].
Qed.

Lemma runs_act P e Q : (forall tr, P tr -> R tr e /\ Q (tr ++ [(e, true)])) -> runs P (act H e) (fun _ => Q).
Proof.
  intros Hr tr Ho HP. destruct (Hr tr HP) as [H1 H2]. unfold act.
  destruct (h_accepts H tr e); cbn [fst snd]; (split; [by apply obeys_snoc|done]).
Qed.

Lemma runs_attempt_result P e Q : (forall tr b, P tr -> R tr e /\ Q b (tr ++ [(e, b)])) -> runs P (attempt H e) Q.
Proof.
  intros Hr tr Ho HP. unfold attempt. destruct (h_accepts H tr e); cbn [fst snd];
    (split; [apply obeys_snoc; [done|by apply (Hr tr true)]|by apply Hr]).
Qed.

Lemma runs_attempt P e Q : (forall tr b, P tr -> R tr e /\ Q (tr ++ [(e, b)])) -> runs P (attempt H e) (fun _ => Q).
Proof. apply (runs_attempt_result P e (fun _ => Q)). Qed.

Lemma runs_guard (P : trace -> Prop) c e : runs P (guard_io c e) (fun _ => P).
Proof. intros tr Ho HP. unfold guard_io. by destruct c. Qed.

(** What is known of a value is known of what follows. *)
Lemma runs_known {A} (P : trace -> Prop) (K : Prop) (m : IO A) Q : (K -> runs P m Q) -> runs (fun tr => P tr /\ K) m Q.
Proof. intros Hm tr Ho [HP HK]. by apply Hm. Qed.

Lemma runs_lift {A} P (r : result install_err A) : runs P (lift_io r) (fun a tr => P tr /\ r = Ok a).
Proof. intros tr Ho HP. unfold lift_io. by destruct r. Qed.

Lemma runs_trace (P : trace -> Prop) : runs P get_trace (fun t tr => P tr /\ t = tr).
Proof. by intros tr Ho HP. Qed.

Lemma runs_fail {A} P e (Q : A -> trace -> Prop) : runs P (fail (A := A) e) Q.
Proof. by intros tr Ho HP. Qed.

Lemma runs_each {A} (P : trace -> Prop) (f : A -> IO unit) l :
  (forall x, x ∈ l -> runs P (f x) (fun _ => P)) -> runs P (each f l) (fun _ => P).
Proof.
  induction l as [|x l IH]; intros Hf; [apply runs_ret|]. simpl. apply (runs_seq P _ P); [apply Hf; by left|].
  apply IH. intros y Hy. apply Hf. by right.
Qed.

(** The first command may fail after one effect, [e]. *)
Lemma runs_on_error (P P' : trace -> Prop) e (h : install_err -> IO unit) (Q : trace -> Prop) :
  (forall tr, P tr -> R tr e /\ Q (tr ++ [(e, true)]) /\ P' (tr ++ [(e, false)])) ->
  (forall err, runs P' (h err) (fun _ => Q)) -> runs P (on_error (act H e) h) (fun _ => Q).
Proof.
  intros He Hh tr Ho HP. destruct (He tr HP) as (H1 & H2 & H3). unfold on_error, act.
  destruct (h_accepts H tr e) as [err|]; cbn [fst snd].
  - apply Hh; [by apply obeys_snoc|done].
  - split; [by apply obeys_snoc|done].
Qed.

Lemma runs_if_exists (P : trace -> Prop) path m : runs P m (fun _ => P) -> runs P (if_exists H path m) (fun _ => P).
Proof.
  intros Hm. apply (runs_bind P _ (fun t tr => P tr /\ t = tr)); [apply runs_trace|]. intros t.
  destruct (h_exists H t path); [|eapply runs_weaken; [apply (runs_ret P tt)|by intros ? [? _]|done]].
  eapply runs_weaken; [exact Hm|by intros ? [? _]|done].
Qed.

(** A directory that is created and closed. *)
Lemma runs_ensureDir (P Q : trace -> Prop) path sddl :
  (forall tr, P tr -> R tr (MkdirAll path) /\ R (tr ++ [(MkdirAll path, true)]) (SetDACL path sddl) /\
     Q ((tr ++ [(MkdirAll path, true)]) ++ [(SetDACL path sddl, true)])) -> runs P (ensureDir H path sddl) (fun _ => Q).
Proof.
  intros Hr. apply (runs_seq P _ (fun tr => exists tr0, tr = tr0 ++ [(MkdirAll path, true)] /\ P tr0)).
  - apply runs_act. intros tr HP. split; [by apply Hr|]. by exists tr.
  - apply runs_act. intros tr (tr0 & -> & HP). destruct (Hr tr0 HP) as (_ & ? & ?). done.
Qed.
End Rules.
