(* ===== verification/InstallerSafety.v ===== *)
(** What an installation guarantees: nothing is touched before everything is checked, the
    private key is closed to everybody else before the service exists and stays so, and
    the service is only registered for a program that users cannot replace. *)

From S2P Require Import Prelude GoStrings GoErrors Acl ConfScan TunnelConf AppConf Version AwgTunnel Manager Installer InstallerRules.

#[local] Set Default Proof Using "Type*".
#[local] Opaque sid dataDirSDDL logDirSDDL secretSDDL userReadableSDDL programDirSDDL programFileSDDL.

(** ** Install *)

Section Install.
Variables (H : Host) (o : InstallOptions) (src dir : string).

Abbreviation dest := (dest_of H o src).
Abbreviation binary := (h_Join H dir "awgsocks.exe").

(** The paths are different files. *)
Record distinct_paths : Prop := {
  dp_dest : dest ∉ [h_root H; h_logDir H; h_appPath H; dir];
  dp_files n : n ∈ "awgsocks.exe" :: o_Scripts o -> h_Join H dir n <> dest /\ h_Join H dir n <> dir;
  dp_scripts n : n ∈ o_Scripts o -> h_Join H dir n <> binary;
  dp_log : h_logDir H <> h_root H;
}.

(** The rules of an installation. *)
Definition install_rule (pre : trace) (e : effect) : Prop :=
  match e with
  | Copy _ p => p = dest -> status (h_root H) pre = Some (dataDirSDDL sid) /\ (SetDACL dest (secretSDDL sid), true) ∉ pre
  | SetDACL p s => p = dest -> s = secretSDDL sid
  | CreateSvc p => p = binary /\ status dest pre = Some (secretSDDL sid) /\
      status dir pre = Some (programDirSDDL sid) /\ status binary pre = Some (programFileSDDL sid)
  | SetRecovery | StartSvc => (CreateSvc binary, true) ∈ pre /\ (LimitPrivileges, true) ∈ pre
  | _ => True
  end.

Abbreviation runs := (runs install_rule).

Context (Hd : distinct_paths).

(** How far the installation is. *)
Definition closed_root (tr : trace) : Prop :=
  status (h_root H) tr = Some (dataDirSDDL sid) /\ (SetDACL dest (secretSDDL sid), true) ∉ tr.
Definition closed_key (tr : trace) : Prop := status dest tr = Some (secretSDDL sid).
Definition closed_dir (tr : trace) : Prop := closed_key tr /\ status dir tr = Some (programDirSDDL sid).
Definition closed_all (tr : trace) : Prop := closed_dir tr /\ status binary tr = Some (programFileSDDL sid).
Definition created (tr : trace) : Prop := closed_key tr /\ (CreateSvc binary, true) ∈ tr /\ (LimitPrivileges, true) ∈ tr.

Lemma dest_not p : p ∈ [h_root H; h_logDir H; h_appPath H; dir] -> p <> dest.
Proof. intros Hp ->. by apply (dp_dest Hd). Qed.

Lemma touches_ne p q s : q <> p -> touches p (SetDACL q s) = false.
Proof. intros Hne. simpl. by rewrite bool_decide_false. Qed.

Lemma copies_ne p q s : q <> p -> touches p (Copy s q) = false.
Proof. intros Hne. simpl. by rewrite bool_decide_false. Qed.

(** Effects elsewhere keep what is closed. *)
Lemma closed_dir_other tr e b : touches dest e = false -> touches dir e = false -> closed_dir tr -> closed_dir (tr ++ [(e, b)]).
Proof. intros H1 H2 [Hk Hp]. unfold closed_dir, closed_key. by rewrite !status_other. Qed.

Lemma closed_all_other tr e b : touches dest e = false -> touches dir e = false -> touches binary e = false ->
  closed_all tr -> closed_all (tr ++ [(e, b)]).
Proof. intros H1 H2 H3 [Hk Hp]. split; [by apply closed_dir_other|]. by rewrite status_other. Qed.

Lemma runs_copies (P : trace -> Prop) n s p last : p <> dest ->
  (forall tr e b, (exists s, e = Copy s p) -> P tr -> P (tr ++ [(e, b)])) ->
  runs P (copy_attempts H n s p last) (fun _ => P).
Proof.
  intros Hp HP. revert last. induction n as [|n IH]; intros last; simpl.
  - destruct last; [apply runs_fail|apply runs_ret].
  - apply (runs_on_error H _ P P); [|intros err; apply IH]. intros tr Ht.
    split; [by intros ->|]. split; (apply HP; [by exists s|done]).
Qed.

(** One file of the program: it is copied, if it has to be, and then closed. *)
Lemma runs_install_file (P Q : trace -> Prop) s p : p <> dest ->
  (forall tr e b, (exists s, e = Copy s p) -> P tr -> P (tr ++ [(e, b)])) ->
  (forall tr, P tr -> Q (tr ++ [(SetDACL p (programFileSDDL sid), true)])) ->
  runs P (install_file H (s, p)) (fun _ => Q).
Proof.
  intros Hp HP HQ. unfold install_file. apply (runs_seq _ P _ P).
  - destruct (EqualFold _ _); [apply runs_ret|by apply runs_copies].
  - apply runs_act. intros tr Ht. split; [by intros ->|by apply HQ].
Qed.

Lemma runs_installProgram exe : runs closed_key (installProgram H exe dir (o_Scripts o)) (fun p tr => p = binary /\ closed_all tr).
Proof.
  destruct (dp_files Hd "awgsocks.exe") as [Hbd Hbdir]; [by left|]. unfold installProgram.
  apply (runs_seq _ _ _ closed_dir).
  { apply runs_ensureDir. intros tr Ht. split; [done|]. split; [by intros He; apply dest_not in He; [|set_solver]|].
    split; [|apply status_set]. unfold closed_key. rewrite !status_other; [done|done|].
    apply touches_ne, dest_not. set_solver. }
  apply (runs_bind _ _ _ (fun t tr => closed_dir tr /\ t = tr)); [apply runs_trace|]. intros t.
  set (scripts := omap _ _). simpl each. apply (runs_seq _ _ _ closed_all).
  - apply (runs_seq _ _ _ closed_all).
    + eapply runs_weaken; [apply (runs_install_file closed_dir closed_all)|by intros ? [? _]|done].
      * done.
      * intros tr e b [s ->] Ht. by apply closed_dir_other; [apply copies_ne|apply copies_ne|].
      * intros tr Ht. split; [|apply status_set]. by apply closed_dir_other; [apply touches_ne|apply touches_ne|].
    + apply runs_each. intros [s p] Hin. apply list_elem_of_omap in Hin as (n & Hn & He).
      destruct (h_exists H t _); [|done]. injection He as <- <-.
      destruct (dp_files Hd n) as [Hnd Hndir]; [by right|]. pose proof (dp_scripts Hd n Hn) as Hnb.
      apply runs_install_file; [done| |].
      * intros tr e b [s ->] Ht. by apply closed_all_other; [apply copies_ne|apply copies_ne|apply copies_ne|].
      * intros tr Ht. by apply closed_all_other; [apply touches_ne|apply touches_ne|apply touches_ne|].
  - by intros tr Ho Ht.
Qed.

Lemma runs_CreateService : runs closed_all (CreateService H binary) (fun _ => created).
Proof.
  unfold CreateService. apply (runs_seq _ _ _ (fun tr => closed_key tr /\ (CreateSvc binary, true) ∈ tr)).
  - apply runs_act. intros tr [[Hk Hdir] Hx]. split; [by split_and!|]. unfold closed_key. rewrite status_other by done.
    split; [done|]. apply elem_of_app. right. by left.
  - apply (runs_on_error H _ _ (fun _ => True)).
    + intros tr [Hk Hc]. split; [done|]. split; [|done]. unfold created, closed_key. rewrite status_other by done.
      rewrite !elem_of_app. split; [done|]. split; [by left|right; by left].
    + intros err. apply (runs_seq _ _ _ (fun _ => True)); [by apply runs_attempt|apply runs_fail].
Qed.

Lemma created_more tr e b : touches dest e = false -> created tr -> created (tr ++ [(e, b)]).
Proof.
  intros He (H1 & H2 & H3). unfold created, closed_key. rewrite status_other by done. rewrite !elem_of_app. auto.
Qed.

Lemma runs_installApp P d : runs P (installApp H d o) (fun _ => P).
Proof.
  intros tr Ho HP. unfold installApp. destruct (if h_exists H tr (h_appPath H) then _ else _) as [app kept].
  cbn [fst snd]. by destruct (Normalize _ _ _).
Qed.

Lemma runs_Install (Hs : h_Abs H (o_ConfigPath o) = Ok src) (Hp : h_programDir H = Some dir) :
  runs (fun tr => tr = []) (Install H o) (fun _ => created).
Proof.
  pose proof (dest_not (h_root H) ltac:(set_solver)) as Hroot. pose proof (dest_not (h_logDir H) ltac:(set_solver)) as Hlog.
  pose proof (dest_not (h_appPath H) ltac:(set_solver)) as Happ.
  unfold Install. rewrite Hs, Hp. simpl map_err.
  do 2 (apply (runs_seq _ _ _ (fun tr => tr = [])); [apply runs_guard|]).
  apply (runs_bind _ _ _ (fun a tr => tr = [] /\ (Ok src : result install_err string) = Ok a)); [apply runs_lift|]. intros a. apply runs_known. intros [= <-].
  apply (runs_bind _ _ _ (fun _ tr => tr = [])); [eapply runs_weaken; [apply (runs_lift _ (fun tr => tr = []))|done|by intros ? ? [? _]]|]. intros _.
  do 2 (apply (runs_seq _ _ _ (fun tr => tr = [])); [apply runs_guard|]).
  apply (runs_bind _ _ _ (fun a tr => tr = [] /\ (Ok dir : result install_err string) = Ok a)); [apply runs_lift|]. intros a. apply runs_known. intros [= <-].
  apply (runs_seq _ _ _ closed_root).
  { apply runs_ensureDir. intros tr ->. split; [done|]. split; [by intros E|]. split; [apply status_set|].
    rewrite !elem_of_app, !elem_of_cons. intros [[E|[E|E]]|[E|E]]; first [by apply elem_of_nil in E|done|(injection E as E _; done)]. }
  apply (runs_seq _ _ _ closed_root).
  { apply runs_ensureDir. intros tr [Hst Hn]. split; [done|]. split; [by intros E|]. unfold closed_root. rewrite !status_other;
      [|done|by apply touches_ne, (dp_log Hd)]. split; [done|].
    rewrite !elem_of_app, !elem_of_cons. intros [[E|[E|E]]|[E|E]]; first [by apply elem_of_nil in E|done|(injection E as E _; done)]. }
  apply (runs_seq _ _ _ (fun _ => True)).
  { destruct (o_InPlace o || _); [eapply runs_weaken; [apply (runs_ret _ (fun _ => True))|done|done]|].
    apply runs_act. intros tr Ht. split; [by intros _|done]. }
  apply (runs_seq _ _ _ closed_key); [apply runs_act; intros tr _; split; [done|apply status_set]|].
  apply (runs_bind _ _ _ (fun _ => closed_key)); [apply runs_installApp|]. intros [app kept].
  apply (runs_seq _ _ _ closed_key); [by apply runs_act; intros tr Ht; split; [|unfold closed_key; rewrite status_other]|].
  apply (runs_seq _ _ _ closed_key).
  { apply runs_act. intros tr Ht. split; [by intros E|]. unfold closed_key. rewrite status_other; [done|by apply touches_ne]. }
  apply (runs_bind _ _ _ (fun _ => closed_key)).
  { eapply runs_weaken; [apply (runs_lift _ closed_key)|done|by intros ? ? [? _]]. }
  intros exe.
  apply (runs_bind _ _ _ (fun p tr => closed_all tr /\ p = binary)).
  { eapply runs_weaken; [apply runs_installProgram|done|by intros p tr [? ?]]. }
  intros p. apply runs_known. intros ->.
  apply (runs_seq _ _ _ closed_all).
  { apply runs_if_exists. apply (runs_seq _ _ _ closed_all); [|apply runs_ret].
    apply runs_attempt. intros tr b Ht. split; [done|by apply closed_all_other]. }
  apply (runs_seq _ _ _ created); [apply runs_CreateService|].
  apply (runs_seq _ _ _ created).
  { apply runs_attempt. intros tr b Ht. split; [apply Ht|by apply created_more]. }
  destruct (o_StartService o); [|apply runs_ret].
  apply (runs_seq _ _ _ created); apply runs_act; intros tr Ht; (split; [apply Ht || done|by apply created_more]).
Qed.

(** Once closed, the key stays closed. *)
Lemma key_stays tr : obeys install_rule tr -> (SetDACL dest (secretSDDL sid), true) ∈ tr -> status dest tr = Some (secretSDDL sid).
Proof. apply stays_closed; [intros pre s Hr; by apply Hr|intros pre p Hr; by apply Hr]. Qed.
End Install.

(** C10: an installation.  Nothing is touched unless the command is elevated, names a
    configuration that is valid, and no service is installed.  Whatever fails on the way:
    a copy of the configuration is only written into a data directory that is closed to
    users, its own descriptor is the closed one and is never replaced by another; the
    service is created only for the installed binary, when the configuration, the program
    directory and the binary have their descriptors; and an installation that succeeds has
    created it and limited its privileges, with the configuration closed. *)
Theorem Install_safe H o :
  let '(r, tr) := Install H o [] in
  (tr <> [] -> h_elevated H = true /\ TrimSpace (o_ConfigPath o) <> "" /\ h_installed H = false /\
     exists src, h_Abs H (o_ConfigPath o) = Ok src /\ is_ok (h_LoadTunnel H src) = true) /\
  (forall src dir, h_Abs H (o_ConfigPath o) = Ok src -> h_programDir H = Some dir -> distinct_paths H o src dir ->
     obeys (install_rule H o src dir) tr /\
     ((SetDACL (dest_of H o src) (secretSDDL sid), true) ∈ tr -> status (dest_of H o src) tr = Some (secretSDDL sid)) /\
     (r = Ok tt -> status (dest_of H o src) tr = Some (secretSDDL sid) /\ (CreateSvc (h_Join H dir "awgsocks.exe"), true) ∈ tr /\ (LimitPrivileges, true) ∈ tr)).
Proof.
  destruct (Install H o []) as [r tr] eqn:He. split.
  - intros Hne. unfold Install, mbind, io_bind, guard_io, lift_io in He.
    destruct (h_elevated H); cbn [negb] in He; [|by injection He as _ <-].
    destruct (bool_decide_reflect (TrimSpace (o_ConfigPath o) = "")); [by injection He as _ <-|].
    destruct (h_Abs H (o_ConfigPath o)) as [src|]; simpl in He; [|by injection He as _ <-].
    destruct (h_LoadTunnel H src) as [t|] eqn:Ht; simpl in He; [|by injection He as _ <-].
    destruct (h_connect H); simpl in He; [|by injection He as _ <-].
    destruct (h_installed H); simpl in He; [by injection He as _ <-|]. split_and!; try done. exists src. by rewrite Ht.
  - intros src dir Hs Hp Hd. destruct (runs_Install H o src dir Hd Hs Hp [] (obeys_nil _) eq_refl) as [Ho HQ].
    rewrite He in *. cbn [fst snd] in *. split; [done|]. split; [by apply (key_stays H o src dir Hd)|]. intros ->. by destruct HQ as (? & ? & ?).
Qed.

(** *** A machine to install on *)

Module ToyMachine.

Definition join (d n : string) : string := d +:+ "\" +:+ n.

Definition data : string := "C:\ProgramData\AWGSocks".
Definition programs : string := "C:\Program Files\AWGSocks".

(** A machine that accepts everything, without the service. *)
Definition machine (app : App) (files : list string) : Host :=
  MkHost true Ok (fun _ => Ok (ToyDevice.config "203.0.113.5" 1280)) true false (fun _ => None) (Some programs) data
    (join data "logs") (join data "client.conf") (join data "config.json") (Some "C:\awgsocks.exe") join (fun _ => "C:")
    (fun p => p) (fun _ p => bool_decide (p ∈ files)) (fun _ => Ok app)
    (fun _ _ => Some (map (fun n => (n, false)) ["awgsocks.exe"; "client.conf"])) (fun _ _ => None).

Definition options (start : bool) : InstallOptions := MkInstallOptions "C:\my.conf" false "" "" true start ["service-start.bat"].
End ToyMachine.

Import ToyMachine.

Lemma Install_safe_witness :
  let H := machine (DefaultApp (join data "client.conf")) [] in
  let o := options false in
  (Install H o []).1 = Ok tt /\
  (CreateSvc (join programs "awgsocks.exe"), true) ∈ (Install H o []).2 /\
  status (dest_of H o "C:\my.conf") (Install H o []).2 = Some (secretSDDL sid).
Proof.
  intros H o. pose proof (Install_safe H o) as Hs. destruct (Install H o []) as [r tr] eqn:He.
  destruct Hs as [_ Hs]. destruct (Hs "C:\my.conf" programs eq_refl eq_refl) as (_ & Hk & Hc).
  { split.
    - by intros [E|[E|[E|[E|E%elem_of_nil]%elem_of_cons]%elem_of_cons]%elem_of_cons]%elem_of_cons.
    - intros n Hn. apply elem_of_cons in Hn as [->|Hn]; [done|]. apply list_elem_of_singleton in Hn as ->. done.
    - intros n Hn. apply list_elem_of_singleton in Hn as ->. done.
    - done. }
  assert (r = Ok tt) as -> by (change r with (r, tr).1; rewrite <-He; by vm_compute).
  destruct (Hc eq_refl) as (H1 & H2 & _). by split_and!.
Defined.

(** Not everything is checked first: a log level that is refused is only found when the
    settings are written, when the configuration has been copied already. *)
Lemma Install_late_refusal :
  let H := machine (DefaultApp (join data "client.conf")) [] in
  let '(r, tr) := Install H (MkInstallOptions "C:\my.conf" false "" "loud" true false []) [] in
  r = Err (ISettings (AppLogLevel "loud")) /\ (Copy "C:\my.conf" (join data "client.conf"), true) ∈ tr.
Proof.
  intros H. destruct (Install H _ []) as [r tr] eqn:He. vm_compute in He. injection He as <- <-.
  split; [done|]. apply list_elem_of_lookup. by exists 4%nat.
Qed.
