(* ===== verification/InstallerRepair.v ===== *)
(** What removing the service, repairing its permissions and waiting for it guarantee:
    removal never takes the configuration along unless it is asked to, a repair closes the
    private key where the settings say it is, and waiting ends. *)

From S2P Require Import Prelude GoStrings GoErrors Acl ConfScan TextDecode TunnelConf AppConf Version AwgTunnel Manager Installer InstallerRules InstallerSafety.

#[local] Set Default Proof Using "Type*".
#[local] Opaque sid dataDirSDDL logDirSDDL secretSDDL userReadableSDDL programDirSDDL programFileSDDL.

(** ** Uninstall *)

Section Uninstall.
Variables (H : Host) (purge keep : bool).

(** The service is gone, if there was one. *)
Definition removed (tr : trace) : Prop := h_installed H = true -> (DeleteSvc, true) ∈ tr.

(** What may be done, and when. *)
Definition uninstall_rule (pre : trace) (e : effect) : Prop :=
  match e with
  | StopSvc => h_installed H = true /\ pre = []
  | WaitStopped => (StopSvc, true) ∈ pre
  | DeleteSvc => h_installed H = true
  | RemoveAll p => removed pre /\ ((p = h_logDir H /\ keep = false) \/ (p = h_root H /\ purge = true))
  | RemoveFile p => removed pre /\
      ((p = h_appPath H /\ keep = false) \/ p = legacy H \/
       (p = h_root H /\ purge = false /\ h_exists H pre (h_confPath H) = false))
  | _ => False
  end.

Abbreviation runs := (runs uninstall_rule).

Lemma removed_more tr x : removed tr -> removed (tr ++ [x]).
Proof. intros Hr Hi. apply elem_of_app. left. by apply Hr. Qed.

(** An attempt whose outcome is only reported. *)
Lemma runs_reported (P Q : trace -> Prop) e : (forall tr b, P tr -> uninstall_rule tr e /\ Q (tr ++ [(e, b)])) ->
  runs P (_ ← attempt H e; mret tt) (fun _ => Q).
Proof. intros Hr. apply (runs_seq _ _ _ Q); [by apply runs_attempt|apply runs_ret]. Qed.

Lemma runs_remove_service : runs (fun tr => tr = []) (remove_service H) (fun _ => removed).
Proof.
  unfold remove_service. destruct (h_installed H) eqn:Hi.
  2:{ eapply runs_weaken; [apply (runs_ret _ removed)| |done]. intros tr _ [=]. congruence. }
  apply (runs_bind _ _ _ (fun t tr => tr = [] /\ t = tr)); [apply runs_trace|]. intros t.
  apply (runs_seq _ _ _ (fun _ => True)).
  - destruct (h_query H t) as [s|]; [|eapply runs_weaken; [apply (runs_ret _ (fun _ => True))|done|done]].
    destruct (decide (s = _)); [eapply runs_weaken; [apply (runs_ret _ (fun _ => True))|done|done]|].
    apply (runs_bind _ _ _ (fun stopped tr => (StopSvc, stopped : bool) ∈ tr)).
    + apply runs_attempt_result. intros tr b [-> _]. split; [done|by left].
    + intros [|]; [|eapply runs_weaken; [apply (runs_ret _ (fun _ => True))|done|done]].
      by apply runs_reported.
  - apply runs_act. intros tr _. split; [done|]. intros _. apply elem_of_app. right. by left.
Qed.

Lemma runs_Uninstall :
  runs (fun tr => tr = []) (Uninstall H purge keep)
    (fun _ tr => removed tr /\ (purge = true -> (RemoveAll (h_root H), true) ∈ tr)).
Proof.
  unfold Uninstall. do 3 (apply (runs_seq _ _ _ (fun tr => tr = [])); [apply runs_guard|]).
  apply (runs_seq _ _ _ removed); [apply runs_remove_service|].
  apply (runs_seq _ _ _ removed).
  { unfold removeInstalledData. destruct keep eqn:Hk; [apply runs_ret|]. apply (runs_seq _ _ _ removed).
    - apply runs_attempt. intros tr b Hr. split; [|by apply removed_more]. by split; [|left].
    - apply runs_reported. intros tr b Hr. split; [|by apply removed_more]. by split; [|left]. }
  apply (runs_seq _ _ _ removed).
  { apply runs_if_exists, runs_reported. intros tr b Hr. split; [|by apply removed_more]. split; [done|]. right. by left. }
  destruct purge eqn:Hp.
  - apply runs_act. intros tr Hr. split; [by split; [|right]|]. split; [by apply removed_more|].
    intros _. apply elem_of_app. right. by left.
  - apply (runs_bind _ _ _ (fun t tr => removed tr /\ t = tr)); [apply runs_trace|]. intros t.
    destruct (h_exists H t (h_confPath H)) eqn:He; [eapply runs_weaken; [apply (runs_ret _ removed)|by intros ? [? _]|by intros ? tr Hr; split]|].
    apply runs_reported. intros tr b [Hr ->]. split; [|by split; [apply removed_more|]]. split; [done|]. by do 2 right.
Qed.
End Uninstall.

(** C11: removing the service.  Whatever the machine refuses on the way: nothing is done
    without elevation or when both [--purge] and [--keep-settings] are given; nothing is
    created, copied or opened; nothing is deleted before the service is gone; the log
    directory and the settings are only deleted without [--keep-settings], the data
    directory with what is in it only with [--purge], and otherwise only the directory
    itself, when there is no configuration in it. *)
Theorem Uninstall_keeps_config H purge keep :
  let '(r, tr) := Uninstall H purge keep [] in
  (tr <> [] -> h_elevated H = true /\ purge && keep = false) /\
  obeys (uninstall_rule H purge keep) tr /\
  (r = Ok tt -> (h_installed H = true -> (DeleteSvc, true) ∈ tr) /\ (purge = true -> (RemoveAll (h_root H), true) ∈ tr)) /\
  (h_confPath H ∉ [h_logDir H; h_appPath H; legacy H; h_root H] ->
     forall b, ((RemoveAll (h_confPath H), b) ∉ tr) /\ ((RemoveFile (h_confPath H), b) ∉ tr)) /\
  (forall b, (RemoveAll (h_root H), b) ∈ tr -> h_root H <> h_logDir H -> purge = true).
Proof.
  destruct (runs_Uninstall H purge keep [] (obeys_nil _) eq_refl) as [Ho HQ].
  destruct (Uninstall H purge keep []) as [r tr] eqn:He. cbn [fst snd] in *. split_and!.
  - intros Hne. unfold Uninstall, mbind, io_bind, guard_io in He.
    destruct (purge && keep); [by injection He as _ <-|]. by destruct (h_elevated H); [|injection He as _ <-].
  - done.
  - by intros ->.
  - intros Hd b. rewrite !not_elem_of_cons in Hd. destruct Hd as (H1 & H2 & H3 & H4 & _).
    by split; intros (pre & post & ->)%list_elem_of_split; destruct (Ho pre _ _ _ eq_refl) as [_ ?]; naive_solver.
  - intros b (pre & post & ->)%list_elem_of_split Hl. by destruct (Ho pre _ _ _ eq_refl) as [_ [[? _]|[_ ?]]].
Qed.

(** ** Repair *)

Section Repair.
Variable H : Host.

(** What a repair may do: give a path the descriptor that belongs to it.  The files are
    there when they are given one; the configuration is the one that the settings name as
    they are read just before. *)
Definition repair_rule (pre : trace) (e : effect) : Prop :=
  match e with
  | MkdirAll p => p = h_root H \/ p = h_logDir H \/ h_programDir H = Some p
  | SetDACL p s =>
      (p = h_root H /\ s = dataDirSDDL sid) \/ (p = h_logDir H /\ s = logDirSDDL sid) \/
      ((exists app, h_LoadApp H pre = Ok app /\ p = ConfigPath app) /\ h_exists H pre p = true /\ s = secretSDDL sid) \/
      (p = legacy H /\ h_exists H pre p = true /\ s = secureSDDL) \/
      (p = h_appPath H /\ h_exists H pre p = true /\ s = userReadableSDDL sid) \/
      (exists dir, h_programDir H = Some dir /\
         ((p = dir /\ s = programDirSDDL sid) \/ exists n, p = h_Join H dir n /\ s = programFileSDDL sid))
  | _ => False
  end.

Abbreviation runs := (runs repair_rule).

Lemma runs_dir (P : trace -> Prop) path sddl : (forall pre, repair_rule pre (MkdirAll path)) ->
  (forall pre, repair_rule pre (SetDACL path sddl)) ->
  (forall tr e b, e = MkdirAll path \/ e = SetDACL path sddl -> P tr -> P (tr ++ [(e, b)])) ->
  runs P (ensureDir H path sddl) (fun _ => P).
Proof. intros H1 H2 HP. apply runs_ensureDir. auto 6. Qed.

(** An effect on a file, when the file is there. *)
Lemma runs_on_file (P : trace -> Prop) path e :
  (forall tr, P tr -> h_exists H tr path = true -> repair_rule tr e /\ P (tr ++ [(e, true)])) ->
  runs P (if_exists H path (act H e)) (fun _ => P).
Proof.
  intros He tr Ho HP. unfold if_exists, mbind, io_bind, get_trace.
  destruct (h_exists H tr path) eqn:Hx; [|done]. apply (runs_act H repair_rule (fun t => P t /\ t = tr)); [|done..].
  intros t [Ht ->]. by apply He.
Qed.

(** The directories only. *)
Definition on_dirs (e : effect) : Prop :=
  match e with MkdirAll p | SetDACL p _ => p = h_root H \/ p = h_logDir H | _ => False end.

Definition opened (tr : trace) : Prop :=
  (SetDACL (h_root H) (dataDirSDDL sid), true) ∈ tr /\ Forall (fun x => on_dirs x.1) tr.

(** The settings were read after the directories were closed and before anything else; if
    they named a configuration that was there, it has been given its descriptor. *)
Definition settled (tr : trace) : Prop :=
  exists pre post, tr = pre ++ post /\ opened pre /\
    forall app, h_LoadApp H pre = Ok app -> ConfigPath app <> "" -> h_exists H pre (ConfigPath app) = true ->
      (SetDACL (ConfigPath app) (secretSDDL sid), true) ∈ post.

Lemma opened_more tr e b : on_dirs e -> opened tr -> opened (tr ++ [(e, b)]).
Proof.
  intros He [H1 H2]. split; [apply elem_of_app; by left|]. apply Forall_app. split; [done|]. by apply Forall_singleton.
Qed.

Lemma settled_more tr e b : settled tr -> settled (tr ++ [(e, b)]).
Proof.
  intros (pre & post & -> & Ho & Ha). exists pre, (post ++ [(e, b)]). split; [by rewrite app_assoc|]. split; [done|].
  intros app H1 H2 H3. apply elem_of_app. left. by apply Ha.
Qed.

Lemma runs_repair_program : runs settled (repair_program H) (fun _ => settled).
Proof.
  unfold repair_program. apply (runs_bind _ _ _ (fun t tr => settled tr /\ t = tr)); [apply runs_trace|]. intros t.
  apply (runs_weaken _ settled _ _ (fun _ => settled)); [|by intros ? [? _]|done].
  destruct (h_programDir H) as [dir|] eqn:Hd; [|apply runs_ret]. destruct (h_ReadDir H t dir) as [es|]; [|apply runs_ret].
  apply (runs_seq _ _ _ settled).
  - apply runs_dir; [simpl; auto|intros pre; do 5 right; eauto|by intros; apply settled_more].
  - apply runs_each. intros [n d] _. simpl. destruct d; [apply runs_ret|].
    apply runs_act. intros tr Ht. split; [do 5 right; eauto 6|by apply settled_more].
Qed.

(** The step that reads the settings. *)
Lemma runs_secret :
  runs opened (t ← get_trace;
    match h_LoadApp H t with
    | Ok app => if bool_decide (ConfigPath app = "") then mret tt
                else if_exists H (ConfigPath app) (act H (SetDACL (ConfigPath app) (secretSDDL sid)))
    | Err _ => mret tt
    end) (fun _ => settled).
Proof.
  intros tr Hobs Ho. unfold mbind, io_bind, get_trace.
  assert ((forall app, h_LoadApp H tr = Ok app -> ConfigPath app <> "" -> h_exists H tr (ConfigPath app) = true -> False) ->
    settled tr) as Hnone.
  { intros Hn. exists tr, []. rewrite app_nil_r. split_and!; [done|done|]. intros app H1 H2 H3. by destruct (Hn app). }
  destruct (h_LoadApp H tr) as [app|e] eqn:Hl; [|split; [done|]; apply Hnone; congruence].
  case_bool_decide as Hc; [split; [done|]; apply Hnone; congruence|].
  unfold if_exists, mbind, io_bind, get_trace.
  destruct (h_exists H tr (ConfigPath app)) eqn:Hx; [|split; [done|]; apply Hnone; congruence].
  apply (runs_act H repair_rule (fun t => t = tr)); [|done..]. intros t ->. split.
  - do 2 right. left. split; [by exists app|done].
  - exists tr, [(SetDACL (ConfigPath app) (secretSDDL sid), true)]. split_and!; [done|done|].
    intros app' H1 _ _. rewrite Hl in H1. injection H1 as <-. by left.
Qed.

Lemma runs_RepairPermissions : runs (fun tr => tr = []) (RepairPermissions H) (fun _ => settled).
Proof.
  unfold RepairPermissions, repairPermissions. apply (runs_seq _ _ _ (fun tr => tr = [])); [apply runs_guard|].
  apply (runs_bind _ _ _ (fun _ tr => tr = [])); [by intros tr|]. intros t.
  apply (runs_seq _ _ _ (fun tr => tr = [])); [apply runs_guard|].
  apply (runs_seq _ _ _ opened).
  { apply runs_ensureDir. intros tr ->. split; [by left|]. split; [by left|]. split; [right; by left|].
    repeat constructor. }
  apply (runs_seq _ _ _ opened).
  { apply runs_if_exists, runs_dir; [simpl; auto|simpl; auto|].
    intros tr e b [->| ->] Ho; apply opened_more; simpl; auto. }
  apply (runs_bind _ _ _ (fun t tr => opened tr /\ t = tr)); [apply runs_trace|]. intros t2.
  apply (runs_seq _ _ _ settled).
  { intros tr Ho [Hop ->]. exact (runs_secret tr Ho Hop). }
  apply (runs_seq _ _ _ settled).
  { apply runs_on_file. intros tr Ht Hx. split; [do 3 right; by left|by apply settled_more]. }
  apply (runs_seq _ _ _ settled); [|apply runs_repair_program].
  apply runs_on_file. intros tr Ht Hx. split; [do 4 right; by left|by apply settled_more].
Qed.
End Repair.

(** The paths that a repair opens to users, or gives another descriptor. *)
Definition repaired_paths (H : Host) : list string :=
  [h_root H; h_logDir H; legacy H; h_appPath H] ++ match h_programDir H with Some d => [d] | None => [] end.

(** C12: a repair puts descriptors back and does nothing else, each path gets the one that
    belongs to it, and nothing happens without elevation, whatever the settings are and
    whether or not they can be read.  When it succeeds, the data directory has been closed;
    and if the settings could be read then, and named a configuration that was there, that
    one has got the descriptor that closes it, and has it at the end, provided that it does
    not lie in the program directory and is none of the other repaired paths. *)
Theorem Repair_closes_key H :
  let '(r, tr) := RepairPermissions H [] in
  obeys (repair_rule H) tr /\ (tr <> [] -> h_elevated H = true /\ h_exists H [] (h_root H) = true) /\
  (r = Ok tt -> exists pre post, tr = pre ++ post /\
     (SetDACL (h_root H) (dataDirSDDL sid), true) ∈ pre /\ Forall (fun x => on_dirs H x.1) pre /\
     forall app, h_LoadApp H pre = Ok app -> ConfigPath app <> "" -> h_exists H pre (ConfigPath app) = true ->
       (SetDACL (ConfigPath app) (secretSDDL sid), true) ∈ post /\
       (ConfigPath app ∉ repaired_paths H ->
        (forall dir n, h_programDir H = Some dir -> h_Join H dir n <> ConfigPath app) ->
        status (ConfigPath app) tr = Some (secretSDDL sid))).
Proof.
  pose proof (runs_RepairPermissions H [] (obeys_nil _) eq_refl) as [Ho HQ].
  destruct (RepairPermissions H []) as [r tr] eqn:He. cbn [fst snd] in *. split_and!.
  - done.
  - intros Ht. unfold RepairPermissions, repairPermissions, mbind, io_bind, guard_io, get_trace in He.
    destruct (h_elevated H); [|by injection He as _ <-].
    cbn [negb] in He. destruct (h_exists H [] (h_root H)); [done|by injection He as _ <-].
  - intros ->. destruct HQ as (pre & post & -> & [H1 H2] & Ha). exists pre, post. split_and!; [done..|].
    intros app Hl Hne Hx. specialize (Ha app Hl Hne Hx). split; [done|]. intros Hp Hj.
    unfold repaired_paths in Hp. rewrite elem_of_app, !elem_of_cons in Hp.
    apply (stays_closed (repair_rule H)); [|by intros|done|apply elem_of_app; by right].
    intros pre' s [[E _]|[[E _]|[(_ & _ & ->)|[(E & _)|[(E & _)|(dir & Hd & [[E _]|(n & E & _)])]]]]]; try done.
    1-4: by destruct Hp; left; auto.
    + rewrite Hd in Hp. destruct Hp. right. rewrite E. by left.
    + by destruct (Hj dir n Hd).
Qed.

Import ToyMachine.

(** A repair closes the key where an installation puts it. *)
Lemma Repair_closes_key_witness :
  let H := machine (DefaultApp (join data "client.conf")) [data; join data "client.conf"] in
  let '(r, tr) := RepairPermissions H [] in
  r = Ok tt /\ status (join data "client.conf") tr = Some (secretSDDL sid).
Proof.
  intros H. pose proof (Repair_closes_key H) as Hr. destruct (RepairPermissions H []) as [r tr] eqn:He.
  assert (r = Ok tt) as -> by (change r with (r, tr).1; rewrite <-He; by vm_compute).
  destruct Hr as (_ & _ & Hr). split; [done|].
  destruct (Hr eq_refl) as (pre & post & _ & _ & _ & Ha).
  destruct (Ha (DefaultApp (join data "client.conf")) eq_refl) as [_ Hs]; [done|done|]. apply Hs.
  - by intros [E|[E|[E|[E|[E|E%elem_of_nil]%elem_of_cons]%elem_of_cons]%elem_of_cons]%elem_of_cons]%elem_of_cons.
  - by intros dir n [= <-].
Defined.

(** The proviso matters: a configuration that an in-place installation left in the program
    directory, among its files, ends with the descriptor that every user may read. *)
Lemma Repair_publishes_key :
  let key := join programs "client.conf" in
  let '(r, tr) := RepairPermissions (machine (DefaultApp key) [data; key]) [] in
  r = Ok tt /\ (SetDACL key (secretSDDL sid), true) ∈ tr /\ status key tr = Some (programFileSDDL sid).
Proof.
  intros key. destruct (RepairPermissions _ _) as [r tr] eqn:He. vm_compute in He.
  injection He as <- <-. split; [done|]. split; [|by vm_compute].
  apply list_elem_of_lookup. exists 2%nat. by vm_compute.
Qed.

(** ** Waiting *)

Section Waiting.
Variables (want : svc_state) (query : nat -> option svc_state) (clock : nat -> Z) (deadline : Z).

(** What a wait that ends says. *)
Definition wait_meaning (w : wait_result) : Prop :=
  match w with
  | Reached => exists i, (1 <= i <= 100)%nat /\ query i = Some want /\ clock i < deadline
  | QueryFailed => exists i, (1 <= i <= 100)%nat /\ query i = None
  | TimedOut => exists i, (1 <= i <= 101)%nat /\ deadline <= clock i /\
                  forall j, (1 <= j < i)%nat -> exists s, query j = Some s /\ s <> want
  end.

Context (Hdead : forall i, (101 <= i)%nat -> deadline <= clock i).

Lemma wait_polls_ends fuel i : (1 <= i)%nat -> (fuel + i = 102)%nat ->
  (forall j, (1 <= j < i)%nat -> clock j < deadline /\ exists s, query j = Some s /\ s <> want) ->
  exists w, wait_polls want query clock fuel i deadline = Some w /\ wait_meaning w.
Proof.
  revert i. induction fuel as [|fuel IH]; intros i Hi Hf Hseen.
  - destruct (Hseen 101%nat ltac:(lia)) as [Hl _]. specialize (Hdead 101%nat ltac:(lia)). lia.
  - simpl. destruct (Z.ltb_spec (clock i) deadline) as [Hl|Hl].
    2:{ exists TimedOut. split; [done|]. exists i. split_and!; [lia|lia|done|]. intros j Hj. by destruct (Hseen j Hj). }
    assert (i <= 100)%nat. { destruct (decide (101 <= i)%nat) as [Hb|]; [|lia]. specialize (Hdead i Hb). lia. }
    destruct (query i) as [s|] eqn:Hq; [|exists QueryFailed; split; [done|]; by exists i].
    destruct (decide (s = want)) as [->|Hne]; [exists Reached; split; [done|]; by exists i|].
    apply IH; [lia|lia|]. intros j Hj. destruct (decide (j = i)) as [->|]; [split; [done|]; by exists s|].
    apply Hseen. lia.
Qed.
End Waiting.

(** Waiting for a state of the service ends.  With a clock that advances by at least
    the pause between two queries, a hundred and one rounds are enough; the state is only
    reported as reached when the service answered with it in time, and the wait is only
    given up after its thirty seconds, without having seen the state. *)
Theorem waitForState_ends want query clock :
  clock 0%nat <= clock 1%nat -> (forall i, clock (S i) + 300000000 <= clock (S (S i))) ->
  exists w, waitForState want query clock 101 = Some w /\
    wait_meaning want query clock (clock 0%nat + stateWaitTimeout) w.
Proof.
  intros H0 Hs. apply wait_polls_ends; [|lia|lia|lia].
  assert (Hc : forall i, clock 0%nat + Z.of_nat i * 300000000 <= clock (S i)).
  { induction i as [|i IH]; [lia|]. specialize (Hs i). lia. }
  intros i Hi. unfold stateWaitTimeout. destruct i as [|i]; [lia|]. specialize (Hc i). lia.
Qed.

(** A service that needs three queries to start. *)
Lemma waitForState_ends_witness :
  let query := fun i => Some (if (i <? 3)%nat then StartPending_svc else Running_svc) in
  exists w, waitForState Running_svc query (fun i => Z.of_nat i * 300000000) 101 = Some w /\
    wait_meaning Running_svc query (fun i => Z.of_nat i * 300000000) (0 + stateWaitTimeout) w /\ w = Reached.
Proof.
  intros query. destruct (waitForState_ends Running_svc query (fun i => Z.of_nat i * 300000000)) as (w & Hw & Hm); [lia|lia|].
  exists w. split_and!; [done|exact Hm|]. vm_compute in Hw. by injection Hw as <-.
Defined.

(** ** The privileges *)

(** A string of a list: it has runes, and none of them is zero. *)
Definition sz_item (s : list Z) : Prop := s <> [] /\ Forall (fun r => scalar r /\ r <> 0) s.

Lemma utf16_runes_no_zero s : Forall (fun r => scalar r /\ r <> 0) s -> Forall (fun u => u <> 0) (utf16_runes s).
Proof.
  intros Hs. apply Forall_concat, Forall_fmap. eapply Forall_impl; [exact Hs|]. intros r [Hr Hne]. simpl. unfold utf16_rune.
  unfold scalar in Hr. destruct (Z.ltb_spec r 65536); rewrite ?Forall_cons; split_and?; try done; lia.
Qed.

Lemma utf16_runes_nonempty s : s <> [] -> utf16_runes s <> [].
Proof. destruct s as [|r s]; [done|]. intros _. unfold utf16_runes. cbn [fmap list_fmap concat]. unfold utf16_rune. by destruct (r <? 65536). Qed.

Lemma find_zero l rest : Forall (fun u : Z => u <> 0) l -> list_find (fun u => u = 0) (l ++ 0 :: rest) = Some (length l, 0).
Proof.
  induction 1 as [|u l Hu _ IH]; simpl; [done|]. rewrite decide_False by done. by rewrite IH.
Qed.

(** The list of privileges is read back as it was written. *)
Lemma multiSZ_roundtrip items : Forall sz_item items -> read_multiSZ (S (length items)) (multiSZ items) = items.
Proof.
  induction 1 as [|s items [Hne Hs] Hi IH]; [done|].
  assert (multiSZ (s :: items) = utf16_runes s ++ 0 :: multiSZ items) as ->.
  { unfold multiSZ. simpl. by rewrite <-!app_assoc. }
  cbn [length read_multiSZ]. rewrite (find_zero _ _ (utf16_runes_no_zero _ Hs)).
  destruct (length (utf16_runes s)) as [|n] eqn:Hn; [by apply nil_length_inv, utf16_runes_nonempty in Hn|].
  rewrite <-Hn, take_app_length. replace (S (length (utf16_runes s))) with (length (utf16_runes s) + 1)%nat by lia.
  rewrite drop_app_add. simpl drop. rewrite drop_0. f_equal; [|exact IH].
  apply utf16_Decode_runes. eapply Forall_impl; [exact Hs|]. by intros r [].
Qed.
