(* ===== verification/InstallerDisk.v ===== *)
(** The installer on a disk: its effects (Installer.v) are carried out by the system calls
    of HostDisk.v.  An installation that copies the configuration never lets anybody else
    read the copy, not between two calls either, and ends with a complete one. *)

From S2P Require Import Prelude GoStrings GoErrors Acl AppConf AppSave TunnelConf Version HostDisk DiskRules Manager Installer InstallerRules InstallerSafety.

#[local] Set Default Proof Using "Type*".
Lemma sid_is_text : sid_text sid.
Proof. apply ServiceSID_text. Qed.

(** ** Effects on the disk *)

Section Perform.
Context {SD : Type} `{WI : !Windows SD} (ask : nat -> answer).

(** [json.MarshalIndent] of the settings, with its newline. *)
Variable json : App -> list byte.

Definition lies_in (p q : string) : bool := bool_decide (q = p) || win_below p q.

Definition os_RemoveAll (path : string) : HostDisk.D unit :=
  call ask (fun d => Ok (tt, filter (fun x => lies_in (win_file path) x.1 = false) d))
    (fun n d => filter (fun x => x.1 ∉ take n (filter (fun q => lies_in (win_file path) q = true) (map_to_list d).*1)) d).

(** The calls of an effect, if it is one on files. *)
Definition perform (e : effect) : option (HostDisk.D unit) :=
  match e with
  | MkdirAll p => Some (os_MkdirAll ask p)
  | SetDACL p s => Some (applyDACL ask p s)
  | Copy s p => Some (copyFile ask s p)
  | WriteSettings p a => Some (save_file ask p (json a))
  | RemoveAll p => Some (os_RemoveAll p)
  | RemoveFile p => Some (os_Remove ask p)
  | _ => None
  end.

(** The disk after a trace, when each effect works or not as its calls do. *)
Fixpoint carry (tr : trace) (st : state) : option state :=
  match tr with
  | [] => Some st
  | (e, b) :: tr =>
      match perform e with
      | Some m => let '(r, st) := m st in if Bool.eqb (is_ok r) b then carry tr st else None
      | None => carry tr st
      end
  end.

(** The operations that the repair is given do to the disk what its effects say: each kind
    of path gets the descriptor made for it. *)
Lemma realACLs_route p :
  let ops := realACLs ask in
  perform (SetDACL p (secretSDDL sid)) = Some (secret ops p) /\
  perform (SetDACL p (userReadableSDDL sid)) = Some (readable ops p) /\
  perform (SetDACL p (programFileSDDL sid)) = Some (program ops p) /\
  perform (SetDACL p secureSDDL) = Some (protect ops p) /\
  dataDir ops p = winsys_ensureDir ask p (dataDirSDDL sid) /\ logDir ops p = winsys_ensureDir ask p (logDirSDDL sid) /\
  programDir ops p = winsys_ensureDir ask p (programDirSDDL sid).
Proof.
  unfold realACLs, sid. cbv zeta. generalize (ServiceSID ServiceName). intros s. cbn [dataDir logDir secret readable programDir program protect perform].
  unfold ProtectSecret, ProtectUserReadable, ProtectProgram, Protect, EnsureDataDir, EnsureLogDir, EnsureProgramDir.
  repeat split.
Qed.
End Perform.

#[local] Opaque sid dataDirSDDL logDirSDDL secretSDDL userReadableSDDL programDirSDDL programFileSDDL.

(** ** What an installation does at all *)

Section Allowed.
Variables (H : Host) (o : InstallOptions) (src dir : string).

Abbreviation dest := (dest_of H o src).
Abbreviation names := ("awgsocks.exe" :: o_Scripts o).

Definition allowed (e : effect) : Prop :=
  match e with
  | MkdirAll p => p ∈ [h_root H; h_logDir H; dir]
  | SetDACL p s =>
      (p = h_root H /\ s = dataDirSDDL sid) \/ (p = h_logDir H /\ s = logDirSDDL sid) \/
      (p = dest /\ s = secretSDDL sid) \/ (p = h_appPath H /\ s = userReadableSDDL sid) \/
      (p = dir /\ s = programDirSDDL sid) \/ (exists n, n ∈ names /\ p = h_Join H dir n /\ s = programFileSDDL sid)
  | Copy s p => (s = src /\ p = dest) \/ exists n, n ∈ names /\ p = h_Join H dir n
  | WriteSettings p _ => p = h_appPath H
  | RemoveFile p => p = legacy H
  | RemoveAll _ => False
  | _ => True
  end.

(** The effects that decide who may read the copy while it is written. *)
Definition opens_up (e : effect) : Prop :=
  match e with Copy _ p => p = dest | SetDACL p _ => p = h_root H | _ => False end.

(** Nothing else is done; the configuration is copied once, and the directory it is copied
    into is closed before and then left alone. *)
Definition once_rule (pre : trace) (e : effect) : Prop :=
  allowed e /\ (opens_up e -> forall e' b, (e', b) ∈ pre -> touches dest e' = false).

Abbreviation runs := (runs once_rule).

Context (Hd : distinct_paths H o src dir) (Hcopy : o_InPlace o || EqualFold src dest = false).
Context (Hroot : h_root H ∉ dest :: h_appPath H :: dir :: (h_Join H dir <$> names)).

Definition uncopied (tr : trace) : Prop := forall e b, (e, b) ∈ tr -> touches dest e = false.
Definition copied (tr : trace) : Prop := (Copy src dest, true) ∈ tr.

Lemma copied_act e : allowed e -> ~ opens_up e -> runs copied (act H e) (fun _ => copied).
Proof. intros Ha Hc. apply runs_act. intros tr Ht. split; [by split|]. apply elem_of_app. by left. Qed.

Lemma copied_attempt e : allowed e -> ~ opens_up e -> runs copied (_ ← attempt H e; mret tt) (fun _ => copied).
Proof.
  intros Ha Hc. apply (runs_seq _ _ _ copied); [|apply runs_ret]. apply runs_attempt. intros tr b Ht.
  split; [by split|]. apply elem_of_app. by left.
Qed.

Lemma uncopied_act e : allowed e -> touches dest e = false -> runs uncopied (act H e) (fun _ => uncopied).
Proof.
  intros Ha Hc. apply runs_act. intros tr Ht. split; [by split|].
  intros e' b [Hin|[= -> ->]%list_elem_of_singleton]%elem_of_app; [by eapply Ht|done].
Qed.

Lemma uncopied_dir p s : p ∈ [h_root H; h_logDir H] -> touches dest (SetDACL p s) = false.
Proof. intros Hp. apply touches_ne. eapply (dest_not H o src dir Hd). set_solver. Qed.

(** The other descriptors are not the data directory's. *)
Lemma set_other p s : p ∈ dest :: h_appPath H :: dir :: (h_Join H dir <$> names) -> ~ opens_up (SetDACL p s).
Proof. by intros Hp ->. Qed.

Lemma uncopied_ensureDir p s : p ∈ [h_root H; h_logDir H] -> allowed (SetDACL p s) ->
  runs uncopied (ensureDir H p s) (fun _ => uncopied).
Proof.
  intros H1 H2. apply (runs_seq _ _ _ uncopied); apply uncopied_act; [simpl; set_solver|done|done|by apply uncopied_dir].
Qed.

Lemma copied_program n s : n ∈ names -> runs copied (install_file H (s, h_Join H dir n)) (fun _ => copied).
Proof.
  intros Hn. destruct (dp_files _ _ _ _ Hd n Hn) as [Hne _]. unfold install_file.
  assert (allowed (Copy s (h_Join H dir n))) as Ha by (right; by exists n).
  apply (runs_seq _ _ _ copied).
  - destruct (EqualFold (h_Clean H s) _); [apply runs_ret|]. unfold copyWhenReleased. generalize (@None install_err).
    generalize 20%nat. intros k. induction k as [|k IH]; intros last; simpl; [destruct last; [apply runs_fail|apply runs_ret]|].
    apply (runs_on_error H _ copied copied); [|intros err; apply IH]. intros tr Ht.
    split; [by split|]. split; apply elem_of_app; by left.
  - apply copied_act; [|apply set_other; set_solver]. simpl. do 5 right. by exists n.
Qed.

Lemma copied_installProgram exe : runs copied (installProgram H exe dir (o_Scripts o)) (fun _ => copied).
Proof.
  unfold installProgram. apply (runs_seq _ _ _ copied).
  { apply (runs_seq _ _ _ copied); apply copied_act; [simpl; set_solver|by intros []|do 4 right; by left|apply set_other; set_solver]. }
  apply (runs_bind _ _ _ (fun _ => copied)); [eapply runs_weaken; [apply runs_trace|done|by intros t tr [? _]]|]. intros t.
  apply (runs_seq _ _ _ copied); [|by intros tr Ho Ht].
  apply runs_each. intros [s p] [[= -> ->]|Hin]%elem_of_cons.
  - apply copied_program. by left.
  - apply list_elem_of_omap in Hin as (n & Hn & He). destruct (h_exists H t _); [|done]. injection He as <- <-.
    apply copied_program. by right.
Qed.

Lemma copied_CreateService p : runs copied (CreateService H p) (fun _ => copied).
Proof.
  unfold CreateService. apply (runs_seq _ _ _ copied); [by apply copied_act; [|intros []]|].
  apply (runs_on_error H _ _ copied).
  - intros tr Ht. split; [by split|]. split; apply elem_of_app; by left.
  - intros err. apply (runs_seq _ _ _ copied); [|apply runs_fail]. apply runs_attempt. intros tr b Ht.
    split; [by split|]. apply elem_of_app. by left.
Qed.

Lemma runs_once (Hs : h_Abs H (o_ConfigPath o) = Ok src) (Hp : h_programDir H = Some dir) :
  runs (fun tr => tr = []) (Install H o) (fun _ => copied).
Proof.
  unfold Install. rewrite Hs, Hp. simpl map_err.
  assert (forall tr, tr = [] -> uncopied tr) as Hnil by (intros tr -> e b E; by apply elem_of_nil in E).
  eapply runs_weaken; [|exact Hnil|by intros a tr Ht; exact Ht].
  do 2 (apply (runs_seq _ _ _ uncopied); [apply runs_guard|]).
  apply (runs_bind _ _ _ (fun a tr => uncopied tr /\ (Ok src : result install_err string) = Ok a)); [apply runs_lift|].
  intros a. apply runs_known. intros [= <-].
  apply (runs_bind _ _ _ (fun _ => uncopied)); [eapply runs_weaken; [apply (runs_lift _ uncopied)|done|by intros ? ? [? _]]|].
  intros _. do 2 (apply (runs_seq _ _ _ uncopied); [apply runs_guard|]).
  apply (runs_bind _ _ _ (fun a tr => uncopied tr /\ (Ok dir : result install_err string) = Ok a)); [apply runs_lift|].
  intros a. apply runs_known. intros [= <-].
  apply (runs_seq _ _ _ uncopied); [apply uncopied_ensureDir; [set_solver|by left]|].
  apply (runs_seq _ _ _ uncopied); [apply uncopied_ensureDir; [set_solver|right; by left]|].
  apply (runs_seq _ _ _ copied).
  { rewrite Hcopy. apply runs_act. intros tr Ht. split; [|apply elem_of_app; right; by left].
    split; [by left|]. intros _. exact Ht. }
  apply (runs_seq _ _ _ copied); [apply copied_act; [do 2 right; by left|apply set_other; set_solver]|].
  apply (runs_bind _ _ _ (fun _ => copied)).
  { intros tr Ho Ht. unfold installApp. destruct (if h_exists H tr (h_appPath H) then _ else _) as [app kept].
    by destruct (Normalize _ _ _). }
  intros [app kept].
  apply (runs_seq _ _ _ copied); [by apply copied_act; [|intros []]|].
  apply (runs_seq _ _ _ copied); [apply copied_act; [do 3 right; by left|apply set_other; set_solver]|].
  apply (runs_bind _ _ _ (fun _ => copied)); [eapply runs_weaken; [apply (runs_lift _ copied)|done|by intros ? ? [? _]]|].
  intros exe. apply (runs_bind _ _ _ (fun _ => copied)); [apply copied_installProgram|]. intros p.
  apply (runs_seq _ _ _ copied); [apply runs_if_exists; by apply copied_attempt; [|intros []]|].
  apply (runs_seq _ _ _ copied); [apply copied_CreateService|].
  apply (runs_bind _ _ _ (fun _ => copied)).
  { apply runs_attempt. intros tr b Ht. split; [by split|]. apply elem_of_app. by left. }
  intros _. destruct (o_StartService o); [|apply runs_ret].
  apply (runs_seq _ _ _ copied); by apply copied_act; [|intros []].
Qed.
End Allowed.

(** ** What it comes to on the disk *)

(** Who is to read the configuration. *)
Definition intended : list principal := [LocalSystem; Administrators; Sid sid].

(** Who may read a file as it is. *)
Definition readers_of (f : option node) : list principal :=
  match f with Some n => a_who <$> filter (fun a => can read_bits (a_rights a) = true) (n_acl n) | None => [] end.

Section OnDisk.
Context {SD : Type} `{WI : !Windows SD} `{WL : !WindowsLaws SD} (ask : nat -> answer) (json : App -> list byte).
Variables (H : Host) (o : InstallOptions) (src dir : string) (data : list byte).

(** Who else may read a file that is at the destination already. *)
Variable others : list principal.

Abbreviation dest := (dest_of H o src).
Abbreviation names := ("awgsocks.exe" :: o_Scripts o).

(** The files that are written beside the configuration. *)
Definition written : list string := h_appPath H :: tmp_of (h_appPath H) :: legacy H :: (h_Join H dir <$> names).

(** The paths name different files; the copy goes into the data directory, is a file, and
    neither it nor that directory lies below another of them. *)
Record disk_paths : Prop := {
  dk_parent : win_file (win_Dir dest) = win_file (h_root H);
  dk_key : win_file dest ∉ win_file <$> src :: h_root H :: h_logDir H :: dir :: written ++ (win_Dir <$> written);
  dk_src : win_file src ∉ win_file <$> written;
  dk_root : win_file (h_root H) ∉ win_file <$> h_logDir H :: dir :: written;
  dk_leaf q : win_below (win_file dest) q = false;
  dk_below p : p ∈ h_logDir H :: dir :: written ->
    win_below (win_file p) (win_file dest) = false /\ win_below (win_file p) (win_file (h_root H)) = false;
}.

Context (Hk : disk_paths).

Abbreviation key := (win_file dest).
Abbreviation readers := (intended ++ others).

(** Nobody but these may read it. *)
Definition guarded (d : files) (q : string) : Prop := forall n, d !! q = Some n -> only read_bits (n_acl n) readers.

(** Whatever happens elsewhere: the data directory is no wider, the source keeps its
    content, and nothing happens to the copy. *)
Definition calm (d d' : files) : Prop :=
  (forall n, d !! win_file (h_root H) = Some n -> d' !! win_file (h_root H) = Some n) /\
  (forall n, d !! win_file src = Some n -> exists n', d' !! win_file src = Some n' /\ n_data n' = n_data n) /\
  d' !! key = d !! key.

Lemma calm_refl d : calm d d.
Proof. split_and!; try done. intros n Hn. by exists n. Qed.

Lemma calm_trans d1 d2 d3 : calm d1 d2 -> calm d2 d3 -> calm d1 d3.
Proof.
  intros (R1 & S1 & K1) (R2 & S2 & K2). split_and!; [auto| |congruence].
  intros n Hn. destruct (S1 n Hn) as (n1 & H1 & <-). by apply S2.
Qed.

(** A change of the files that are written beside it. *)
Lemma calm_change d d' p : p ∈ written -> (forall q, q <> win_file p -> d' !! q = d !! q) -> calm d d'.
Proof.
  intros Hp Hd. pose proof (list_elem_of_fmap_2 win_file _ _ Hp) as Hw.
  assert (win_file (h_root H) <> win_file p) as H1.
  { intros E. apply (dk_root Hk). rewrite E. cbn [fmap list_fmap]. do 2 right. done. }
  assert (win_file src <> win_file p) as H2 by (intros E; apply (dk_src Hk); by rewrite E).
  assert (key <> win_file p) as H3.
  { intros E. apply (dk_key Hk). rewrite E. cbn [fmap list_fmap]. do 4 right. rewrite fmap_app. apply elem_of_app. by left. }
  split_and!; [intros n Hn; by rewrite Hd| |by rewrite Hd]. intros n Hn. exists n. by rewrite Hd.
Qed.

Lemma calm_mkdir j d p : key <> win_file p -> calm d (win_mkdir j d (win_file p)).
Proof.
  intros Hp. split_and!; [intros n; apply wl_mkdir| |apply mkdir_other; [done|apply (dk_leaf Hk)]].
  intros n Hn. exists n. by rewrite (wl_mkdir _ _ _ _ _ Hn).
Qed.

Lemma key_dir p : p ∈ written -> key <> win_file (win_Dir p).
Proof.
  intros Hp E. apply (dk_key Hk). rewrite E. cbn [fmap list_fmap]. do 4 right. rewrite fmap_app. apply elem_of_app. right.
  by apply list_elem_of_fmap_2, list_elem_of_fmap_2.
Qed.

Lemma calm_set d p l : p ∈ h_logDir H :: dir :: written -> calm d (win_set d (win_file p) l).
Proof.
  intros Hp. destruct (dk_below Hk p Hp) as [B1 B2].
  assert (win_file (h_root H) <> win_file p) as H1.
  { intros E. apply (dk_root Hk). rewrite E. by apply list_elem_of_fmap_2. }
  assert (key <> win_file p) as H2.
  { intros E. apply (dk_key Hk). rewrite E. apply list_elem_of_fmap_2. do 2 right. rewrite !app_comm_cons.
    apply elem_of_app. by left. }
  split_and!.
  - intros n Hn. pose proof (wl_set_other d (win_file p) l _ n Hn H1) as Hs. by rewrite B2 in Hs.
  - intros n Hn. destruct (decide (win_file src = win_file p)) as [E|E].
    + eexists. rewrite E in *. by rewrite (wl_set _ _ _ _ Hn).
    + pose proof (wl_set_other d (win_file p) l _ n Hn E) as Hs. destruct (win_below (win_file p) (win_file src)); [|by exists n].
      destruct Hs as (acl & Hs & _). eexists. by rewrite Hs.
  - destruct (d !! key) as [n|] eqn:Hn; [|by apply wl_set_absent].
    pose proof (wl_set_other d (win_file p) l _ n Hn H2) as Hs. by rewrite B1 in Hs.
Qed.

(** *** Effects elsewhere *)

Definition calmly {A} (m : HostDisk.D A) : Prop :=
  forall d, triple (calm d) (fun _ => True) m (fun _ _ => True) (fun _ => True).

Lemma calmly_ret {A} (a : A) : calmly (mret a).
Proof. intros d. apply (triple_ret _ (fun _ => True)). Qed.

Lemma calmly_bind {A B} (m : HostDisk.D A) (f : A -> HostDisk.D B) : calmly m -> (forall a, calmly (f a)) -> calmly (m ≫= f).
Proof. intros Hm Hf d. apply (triple_bind _ _ _ (fun _ _ => True)); [apply Hm|]. intros a. apply Hf. Qed.

Lemma calmly_wrap {A} msg (m : HostDisk.D A) : calmly m -> calmly (wrap msg m).
Proof. intros Hm d. apply triple_wrap, Hm. Qed.

Lemma calmly_call {A} (all : files -> result error (A * files)) some :
  (forall d, match all d with Ok (_, d') => calm d d' | Err _ => True end) -> (forall n d, calm d (some n d)) ->
  calmly (call ask all some).
Proof.
  intros Ha Hs d0. apply triple_call. intros d Hd _. split; [done|]. split.
  - specialize (Ha d). destruct (all d) as [[a d']|]; [|done]. split; [by eapply calm_trans|done].
  - intros n. split; [by eapply calm_trans|done].
Qed.

Lemma calmly_whole {A} (all : files -> result error (A * files)) :
  (forall d, match all d with Ok (_, d') => calm d d' | Err _ => True end) -> calmly (call ask all nothing).
Proof. intros Ha. apply calmly_call; [done|]. intros n d. apply calm_refl. Qed.

Lemma calmly_MkdirAll p : key <> win_file p -> calmly (os_MkdirAll ask p).
Proof. intros Hp. apply calmly_call; intros; by apply calm_mkdir. Qed.

Lemma calmly_Create p : p ∈ written ->
  forall d, triple (calm d) (fun _ => True) (os_Create ask p) (fun f _ => f = win_file p) (fun _ => True).
Proof.
  intros Hp d0. apply triple_call_whole. intros d Hd _. split; [done|]. cbv zeta.
  assert (forall n, calm d0 (<[win_file p := n]> d)) as Hi.
  { intros n. eapply calm_trans; [exact Hd|]. apply (calm_change _ _ p Hp). intros q Hq. by rewrite lookup_insert_ne. }
  destruct (d !! win_file p) as [n|]; [by destruct (n_dir n)|].
  destruct (d !! win_file (win_Dir p)) as [n|]; [|done]. by destruct (n_dir n).
Qed.

Lemma calmly_write p bytes : p ∈ written -> calmly (file_write ask (win_file p) bytes).
Proof.
  intros Hp. apply calmly_call; [intros d|intros n d]; apply (calm_change _ _ p Hp); intros q Hq; unfold append_to; by rewrite lookup_alter_ne.
Qed.

Lemma calmly_close m : calmly m -> calmly (then_close ask m).
Proof. intros Hm d. by apply triple_close. Qed.

Lemma calmly_io_Copy fuel s p off : p ∈ written -> calmly (io_Copy ask fuel s (win_file p) off).
Proof.
  intros Hp. revert off. induction fuel as [|fuel IH]; intros off; cbn [io_Copy].
  - intros d. eapply triple_weaken; [apply (triple_lift _ (fun _ => True))|done..].
  - apply calmly_bind; [apply calmly_whole; intros d; destruct (d !! s); [apply calm_refl|done]|].
    intros [|b chunk]; [apply calmly_ret|]. apply calmly_bind; [by apply calmly_write|]. intros _. apply IH.
Qed.

Lemma calmly_copyFile s p : p ∈ written -> calmly (copyFile ask s p).
Proof.
  intros Hp. apply calmly_bind.
  { apply calmly_whole. intros d. destruct (d !! win_file s) as [n|]; [|done]. destruct (n_dir n); [done|apply calm_refl]. }
  intros i. apply calmly_bind; [by apply calmly_MkdirAll, key_dir|]. intros _ d.
  apply (triple_bind _ _ _ (fun f _ => f = win_file p)); [by apply calmly_Create|].
  intros f st HI ->. apply (calmly_close (copy_contents ask i (win_file p))); [|done|done].
  intros d' st' HI' _. unfold copy_contents. by apply calmly_io_Copy.
Qed.

Lemma calmly_Remove p : p ∈ written -> calmly (os_Remove ask p).
Proof.
  intros Hp. apply calmly_whole. intros d. destruct (d !! win_file p) as [n|]; [|done].
  destruct (n_dir n && _); [done|]. apply (calm_change _ _ p Hp). intros q Hq. by rewrite lookup_delete_ne.
Qed.

Lemma calmly_save raw : calmly (save_file ask (h_appPath H) raw).
Proof.
  assert (h_appPath H ∈ written) as Hp by by left. assert (tmp_of (h_appPath H) ∈ written) as Ht by (right; by left).
  apply calmly_bind; [by apply calmly_wrap, calmly_MkdirAll, key_dir|]. intros _.
  apply calmly_bind.
  { apply calmly_wrap. intros d. apply (triple_bind _ _ _ (fun f _ => f = win_file (tmp_of (h_appPath H)))); [by apply calmly_Create|].
    intros f st HI ->. by apply (calmly_close (file_write ask (win_file (tmp_of (h_appPath H))) raw)); [apply calmly_write| |]. }
  intros _ d st HI _. unfold rename_or_remove.
  assert (calmly (os_Rename ask (tmp_of (h_appPath H)) (h_appPath H))) as Hr.
  { apply calmly_whole. intros d'. destruct (d' !! win_file (tmp_of _)) as [n|]; [|done].
    destruct (match d' !! win_file (h_appPath H) with Some m => n_dir m | None => false end); [done|].
    eapply calm_trans; [|apply (calm_change _ _ _ Hp); intros q Hq; by rewrite lookup_insert_ne].
    apply (calm_change _ _ _ Ht). intros q Hq. by rewrite lookup_delete_ne. }
  specialize (Hr d st HI I). destruct (os_Rename ask _ _ st) as [[u|e] st1]; destruct Hr as [H1 _]; [by split|].
  pose proof (calmly_Remove _ Ht d st1 (through_now _ _ _ H1) I) as H2.
  destruct (os_Remove ask _ st1) as [r st2]. destruct H2 as [H2 _]. split; [by eapply through_trans|done].
Qed.

Lemma calmly_applyDACL p l : Forall ace_ok l -> p ∈ h_logDir H :: dir :: written -> calmly (applyDACL ask p (dacl_text l)).
Proof.
  intros Hl Hp d0. apply triple_applyDACL; [done|]. intros d n Hd _ Hn. split; [|done].
  eapply calm_trans; [exact Hd|]. by apply calm_set.
Qed.

(** *** The invariant of an installation *)

Definition secret_acl : list ace := full false ++ [MkAce false FileRead (Sid sid)].

Definition data_acl : list ace := full true ++ [MkAce true FileRead (Sid sid)].

(** What the trace so far says of the disk. *)
Record disk_inv (pre : trace) (d : files) : Prop := {
  di_root : status (h_root H) pre = Some (dataDirSDDL sid) ->
    exists n, d !! win_file (h_root H) = Some n /\ n_acl n = data_acl;
  di_src : exists n, d !! win_file src = Some n /\ n_data n = data;
  di_copied : (Copy src dest, true) ∈ pre -> exists n, d !! key = Some n /\ n_data n = data;
  di_key : status dest pre = Some (secretSDDL sid) -> exists n, d !! key = Some n /\ n_acl n = secret_acl;
}.

Abbreviation closed := (fun d => guarded d key).

Lemma closed_calm d d' : closed d -> calm d d' -> closed d'.
Proof. intros Hc (_ & _ & K) n. rewrite K. apply Hc. Qed.

Lemma disk_inv_calm pre d d' e b : touches (h_root H) e = false -> touches dest e = false ->
  disk_inv pre d -> calm d d' -> disk_inv (pre ++ [(e, b)]) d'.
Proof.
  intros Hr He [I1 I2 I3 I4] (R & S & K). split.
  - rewrite status_other by done. intros Hs. destruct (I1 Hs) as (n & Hn & Ho). exists n. auto.
  - destruct I2 as (n & Hn & <-). by apply S.
  - intros [Hin|[= <- <-]%list_elem_of_singleton]%elem_of_app; [by rewrite K; auto|].
    simpl in He. by rewrite bool_decide_true in He.
  - rewrite status_other by done. rewrite K. auto.
Qed.

Lemma triple_calmly e pre (m : HostDisk.D unit) : calmly m -> touches (h_root H) e = false -> touches dest e = false ->
  triple closed (disk_inv pre) m (fun _ => disk_inv (pre ++ [(e, true)])) (disk_inv (pre ++ [(e, false)])).
Proof.
  intros Hm Hr He. apply triple_from. intros d Hc Hd.
  assert (triple (fun d' => closed d' /\ calm d d') (fun d' => d' = d) m (fun _ _ => True) (fun _ => True)) as Ht.
  { intros st [_ HI] _. specialize (Hm d st HI Logic.I).
    destruct (m st) as [r st']. destruct Hm as [H1 H2]. split; [|by destruct r]. eapply through_impl; [|exact H1].
    intros d' Hd'. split; [by eapply closed_calm|done]. }
  eapply triple_weaken; [apply (triple_stronger _ _ _ _ _ _ Ht)|done| |].
  - intros d' -> _. split; [done|apply calm_refl].
  - by intros d' [? _].
  - intros u d' (_ & _ & ?). by eapply disk_inv_calm.
  - intros d' (_ & _ & ?). by eapply disk_inv_calm.
Qed.

(** *** The effects on the copy and its directory *)

Lemma data_acl_text : dataDirSDDL sid = dacl_text data_acl.
Proof. exact (proj1 (proj2 (descriptors_read sid))). Qed.

Lemma secret_acl_text : secretSDDL sid = dacl_text secret_acl.
Proof. exact (proj1 (proj2 (proj2 (proj2 (descriptors_read sid))))). Qed.

Lemma sid_ok : ace_ok (MkAce true FileRead (Sid sid)) /\ ace_ok (MkAce false FileRead (Sid sid)).
Proof. split; apply sid_is_text. Qed.

Lemma data_acl_ok : Forall ace_ok data_acl.
Proof. apply Forall_app. split; [apply full_ok|]. repeat constructor. apply sid_ok. Qed.

Lemma secret_acl_ok : Forall ace_ok secret_acl.
Proof. apply Forall_app. split; [apply full_ok|]. repeat constructor. apply sid_ok. Qed.

Lemma only_more bits l ps qs : only bits l ps -> only bits l (ps ++ qs).
Proof. intros Ho. eapply Forall_impl; [exact Ho|]. intros a Ha Hc. apply elem_of_app. left. by apply Ha. Qed.

Lemma data_acl_only : only read_bits data_acl readers.
Proof. apply only_more. clear. unfold data_acl, intended. only_listed. Qed.

Lemma secret_acl_only : only read_bits secret_acl readers.
Proof. apply only_more. clear. unfold secret_acl, intended. only_listed. Qed.

(** Who reads a list that has no other entries than these. *)
Lemma only_from (bits : Z) (l l1 l2 : list ace) (ps : list principal) :
  only bits l1 ps -> only bits l2 ps ->
  (forall a, a ∈ l -> a ∈ l1 \/ exists b, b ∈ l2 /\ a_inherit b = true /\ a_who b = a_who a /\ a_rights b = a_rights a) ->
  only bits l ps.
Proof.
  unfold only. rewrite !Forall_forall. intros H1 H2 Hl a Ha Hc.
  destruct (Hl a Ha) as [Hin|(b & Hb & _ & <- & Hr)]; [by apply H1|]. apply H2; [done|by rewrite Hr].
Qed.

Lemma closed_set_data d p l : only read_bits l readers -> closed d -> closed (win_set d p l).
Proof.
  intros Hl Hc n Hn. destruct (d !! key) as [n0|] eqn:Hk0; [|by rewrite (wl_set_absent _ _ _ _ Hk0) in Hn].
  destruct (decide (key = p)) as [<-|Hp].
  - rewrite (wl_set _ _ _ _ Hk0) in Hn. by injection Hn as <-.
  - pose proof (wl_set_other d p l key n0 Hk0 Hp) as Hs. destruct (win_below p key).
    + destruct Hs as (acl & Hs & Ha). rewrite Hs in Hn. injection Hn as <-. apply (only_from _ _ _ _ _ (Hc _ Hk0) Hl Ha).
    + rewrite Hs in Hn. injection Hn as <-. by apply Hc.
Qed.

Lemma set_data d p l q n : d !! q = Some n -> exists n', win_set d p l !! q = Some n' /\ n_data n' = n_data n.
Proof.
  intros Hn. destruct (decide (q = p)) as [->|Hq]; [eexists; by rewrite (wl_set _ _ _ _ Hn)|].
  pose proof (wl_set_other d p l q n Hn Hq) as Hs. destruct (win_below p q); [|by exists n].
  destruct Hs as (acl & Hs & _). eexists. by rewrite Hs.
Qed.

Lemma untouched_status pre : (forall e b, (e, b) ∈ pre -> touches dest e = false) -> status dest pre = None.
Proof.
  induction pre as [|[e b] pre IH] using rev_ind; intros Hp; [done|]. rewrite status_other.
  - apply IH. intros e' b' Hin. apply (Hp e' b'), elem_of_app. by left.
  - apply (Hp e b), elem_of_app. right. by left.
Qed.

(** The path [p] of an effect that fails is as it was. *)
Lemma disk_inv_failed pre d p s : disk_inv pre d -> disk_inv (pre ++ [(SetDACL p s, false)]) d.
Proof.
  intros [I1 I2 I3 I4]. split; [|done| |]; try (rewrite status_snoc; unfold status_step; cbn [fst snd]; case_bool_decide; done).
  intros [Hin|[=]%list_elem_of_singleton]%elem_of_app. auto.
Qed.

Lemma triple_root pre : (forall e b, (e, b) ∈ pre -> touches dest e = false) -> h_root H <> dest ->
  let e := SetDACL (h_root H) (dataDirSDDL sid) in
  triple closed (disk_inv pre) (applyDACL ask (h_root H) (dataDirSDDL sid))
    (fun _ => disk_inv (pre ++ [(e, true)])) (disk_inv (pre ++ [(e, false)])).
Proof.
  intros Hpre Hne e. subst e. apply (triple_error _ _ (disk_inv pre)); [|intros d; apply disk_inv_failed].
  rewrite data_acl_text. apply triple_applyDACL; [apply data_acl_ok|]. intros d n Hc [I1 I2 I3 I4] Hn.
  split; [apply closed_set_data; [apply data_acl_only|done]|]. split.
  - intros _. eexists. by rewrite (wl_set _ _ _ _ Hn).
  - destruct I2 as (ns & Hs & <-). by apply set_data.
  - intros [Hin|[=]%list_elem_of_singleton]%elem_of_app. apply Hpre in Hin. simpl in Hin.
    by rewrite bool_decide_true in Hin.
  - rewrite status_other by (by apply touches_ne). by rewrite untouched_status.
Qed.

Lemma triple_secret pre : h_root H <> dest ->
  let e := SetDACL dest (secretSDDL sid) in
  triple closed (disk_inv pre) (applyDACL ask dest (secretSDDL sid))
    (fun _ => disk_inv (pre ++ [(e, true)])) (disk_inv (pre ++ [(e, false)])).
Proof.
  intros Hne e. subst e. apply (triple_error _ _ (disk_inv pre)); [|intros d; apply disk_inv_failed].
  rewrite secret_acl_text. apply triple_applyDACL; [apply secret_acl_ok|]. intros d n Hc [I1 I2 I3 I4] Hn.
  split; [apply closed_set_data; [apply secret_acl_only|done]|]. split.
  - rewrite status_other by (apply touches_ne; congruence). intros Hs. destruct (I1 Hs) as (r & Hr & Ho). exists r.
    split; [|done]. assert (win_file (h_root H) <> key) as Hrk by (intros E; apply (dk_key Hk); rewrite <-E; right; by left).
    pose proof (wl_set_other d key secret_acl _ r Hr Hrk) as Ht. by rewrite (dk_leaf Hk) in Ht.
  - destruct I2 as (ns & Hs & <-). by apply set_data.
  - intros [Hin|[=]%list_elem_of_singleton]%elem_of_app. destruct (I3 Hin) as (n1 & H1 & <-). by apply set_data.
  - intros _. eexists. by rewrite (wl_set _ _ _ _ Hn).
Qed.

Lemma in_key_list p : p ∈ src :: h_root H :: h_logDir H :: dir :: written -> key <> win_file p.
Proof.
  intros Hp E. apply (dk_key Hk). rewrite E. apply list_elem_of_fmap_2. rewrite !app_comm_cons. apply elem_of_app. by left.
Qed.

Lemma triple_key_copy pre : (forall e b, (e, b) ∈ pre -> touches dest e = false) ->
  status (h_root H) pre = Some (dataDirSDDL sid) -> h_root H <> dest ->
  let e := Copy src dest in
  triple closed (disk_inv pre) (copyFile ask src dest)
    (fun _ => disk_inv (pre ++ [(e, true)])) (disk_inv (pre ++ [(e, false)])).
Proof.
  intros Hpre Hst Hne e. subst e. apply triple_from. intros d0 Hc [I1 I2 I3 I4].
  destruct (I1 Hst) as (r & Hr & Hro). destruct I2 as (ns & Hs & Hdata).
  assert (win_file src <> key) as Hsk by (intros E; by apply (in_key_list src); [left|]).
  assert (win_file (h_root H) <> key) as Hrk by (intros E; by apply (in_key_list (h_root H)); [right; left|]).
  assert (key <> win_file (win_Dir dest)) as Hpk by (rewrite (dk_parent Hk); congruence).
  pose proof (triple_copyFile ask src dest d0 Hsk Hpk (dk_leaf Hk _)) as Ht.
  assert (content src d0 = data) as Hcontent by (unfold content; by rewrite Hs).
  assert (forall d, copying src dest d0 d -> kept key d0 d) as Hkept by (intros d [[? _]|(j & ? & _)]; done).
  assert (forall d, copying src dest d0 d -> closed d) as Hcl.
  { intros d [[_ Hd]|(j & [Hkp _] & n & Hn & _ & _ & Ha)] n' Hn'.
    - rewrite Hd in Hn'. by apply Hc.
    - rewrite Hn in Hn'. injection Hn' as <-. unfold copy_acl in Ha. destruct (d0 !! key) as [n0|] eqn:H0.
      + destruct Ha as [-> _]. by apply Hc.
      + destruct Ha as (p & Hp & ->). rewrite (dk_parent Hk), (Hkp _ _ Hrk Hr) in Hp. injection Hp as <-.
        apply (only_from _ _ [] (n_acl r)); [by apply Forall_nil|rewrite Hro; apply data_acl_only|].
        intros a Ha. right. apply wl_new; [|done]. rewrite Hro. by constructor. }
  assert (forall d b, copying src dest d0 d -> (b = true -> exists n, d !! key = Some n /\ n_data n = data) ->
            disk_inv (pre ++ [(Copy src dest, b)]) d) as Hinv.
  { intros d b [Hd _]%Hkept Hb. split.
    - intros _. exists r. split; [by apply Hd|done].
    - exists ns. split; [by apply Hd|done].
    - intros [Hin%Hpre|[= <-]%list_elem_of_singleton]%elem_of_app; [|by apply Hb].
      simpl in Hin. by rewrite bool_decide_true in Hin.
    - rewrite status_snoc. unfold status_step. cbn [fst snd]. by rewrite bool_decide_true. }
  eapply triple_weaken; [apply (triple_stronger _ _ _ _ _ _ Ht)|done| |].
  - intros d -> _. left. by split; [apply kept_refl|].
  - done.
  - intros u d [[_ (n & Hn & _ & Hnd & _)] Hcp]. apply Hinv; [done|]. intros _. exists n. split; [done|].
    by rewrite Hnd, firstn_all, Hcontent.
  - intros d [_ Hcp]. by apply Hinv.
Qed.

(** *** Every effect *)

Abbreviation once_rule := (once_rule H o src dir).
Abbreviation install_rule := (install_rule H o src dir).

Lemma root_ne_dest : h_root H <> dest.
Proof. intros E. apply (in_key_list (h_root H)); [right; by left|]. by rewrite E. Qed.

Lemma apart p s : p ∈ h_logDir H :: dir :: written ->
  touches (h_root H) (SetDACL p s) = false /\ touches dest (SetDACL p s) = false /\
  touches (h_root H) (Copy s p) = false /\ touches dest (Copy s p) = false.
Proof.
  intros Hp. assert (p <> h_root H) as H1.
  { intros E. apply (dk_root Hk). rewrite <-E. by apply list_elem_of_fmap_2. }
  assert (p <> dest) as H2.
  { intros E. apply (in_key_list p); [do 2 right; exact Hp|]. by rewrite E. }
  split_and!; apply bool_decide_eq_false; done.
Qed.

Lemma program_written n : n ∈ names -> h_Join H dir n ∈ written.
Proof. intros Hn. do 3 right. by apply list_elem_of_fmap_2. Qed.

(** The other descriptors. *)
Lemma full_and i l : Forall ace_ok l -> Forall ace_ok (full i ++ l).
Proof. intros Hl. apply Forall_app. split; [apply full_ok|done]. Qed.

Lemma calmly_sets p s : p ∈ h_logDir H :: dir :: written ->
  s ∈ [logDirSDDL sid; userReadableSDDL sid; programDirSDDL sid; programFileSDDL sid] -> calmly (applyDACL ask p s).
Proof.
  intros Hp Hs. assert (exists l, s = dacl_text l /\ Forall ace_ok l) as (l & -> & Hl); [|by apply calmly_applyDACL].
  destruct (descriptors_read sid) as (_ & _ & R1 & _ & R2 & R3 & R4). pose proof sid_is_text as Hsid.
  rewrite !elem_of_cons in Hs. destruct Hs as [->|[->|[->|[->|Hs%elem_of_nil]]]]; [| | | |destruct Hs];
    eexists; (split; [first [exact R1|exact R2|exact R3|exact R4]|]); apply full_and; repeat (apply Forall_cons_2; [first [exact Hsid|exact Logic.I]|]); apply Forall_nil_2.
Qed.

Lemma triple_set_other pre p s : p ∈ h_logDir H :: dir :: written ->
  s ∈ [logDirSDDL sid; userReadableSDDL sid; programDirSDDL sid; programFileSDDL sid] ->
  triple closed (disk_inv pre) (applyDACL ask p s)
    (fun _ => disk_inv (pre ++ [(SetDACL p s, true)])) (disk_inv (pre ++ [(SetDACL p s, false)])).
Proof. intros Hp Hs. destruct (apart p s Hp) as (H1 & H2 & _). apply triple_calmly; [by apply calmly_sets|exact H1|exact H2]. Qed.

Lemma triple_perform pre e m : perform ask json e = Some m -> once_rule pre e -> install_rule pre e ->
  triple closed (disk_inv pre) m (fun _ => disk_inv (pre ++ [(e, true)])) (disk_inv (pre ++ [(e, false)])).
Proof.
  intros Hm [Ha Ho] Hi. pose proof root_ne_dest as Hrd. destruct e; simpl in Hm; try discriminate Hm; injection Hm as <-.
  - apply triple_calmly; [|done|done]. apply calmly_MkdirAll, in_key_list. simpl in Ha. right. unfold written. set_solver.
  - destruct Ha as [[-> ->]|[[-> ->]|[[-> ->]|[[-> ->]|[[-> ->]|(n & Hn & -> & ->)]]]]].
    + apply triple_root; [by apply Ho|assumption].
    + apply triple_set_other; [left|left].
    + apply triple_secret. assumption.
    + apply triple_set_other; [right; right; left|right; left].
    + apply triple_set_other; [right; left|right; right; left].
    + apply triple_set_other; [right; right; by apply program_written|right; right; right; left].
  - destruct Ha as [[-> ->]|(n & Hn & ->)].
    + apply triple_key_copy; [by apply Ho|by apply Hi|done].
    + assert (h_Join H dir n ∈ h_logDir H :: dir :: written) as Hp by (do 2 right; by apply program_written).
      destruct (apart _ src0 Hp) as (_ & _ & H1 & H2).
      apply triple_calmly; [apply calmly_copyFile; by apply program_written|exact H1|exact H2].
  - simpl in Ha. subst path. apply triple_calmly; [apply calmly_save|done..].
  - done.
  - simpl in Ha. subst path. apply triple_calmly; [apply calmly_Remove; do 2 right; by left|done..].
Qed.

(** What is not done to the disk leaves it as it is. *)
Lemma disk_inv_quiet pre d e b : perform ask json e = None -> disk_inv pre d -> disk_inv (pre ++ [(e, b)]) d.
Proof. intros He Hd. eapply disk_inv_calm; [..|exact Hd|apply calm_refl]; by destruct e. Qed.

Lemma carry_inv tr pre st st' : obeys once_rule (pre ++ tr) -> obeys install_rule (pre ++ tr) ->
  carry ask json tr st = Some st' -> closed (now st) -> disk_inv pre (now st) ->
  through closed st st' /\ disk_inv (pre ++ tr) (now st').
Proof.
  revert pre st. induction tr as [|[e b] tr IH]; intros pre st Ho Hi Hc Hcl Hd.
  - rewrite app_nil_r. simpl in Hc. injection Hc as <-. split; [by apply through_refl|done].
  - simpl in Hc. pose proof (Ho pre e b tr eq_refl) as Ho1. pose proof (Hi pre e b tr eq_refl) as Hi1.
    assert (pre ++ (e, b) :: tr = (pre ++ [(e, b)]) ++ tr) as Happ by (by rewrite <-app_assoc).
    rewrite Happ in Ho, Hi |- *. destruct (perform ask json e) as [m|] eqn:Hm.
    + pose proof (triple_perform pre e m Hm Ho1 Hi1 st Hcl Hd) as Ht. destruct (m st) as [r st1].
      destruct Ht as [Ht Hr]. destruct (Bool.eqb_spec (is_ok r) b) as [<-|]; [|discriminate Hc].
      assert (disk_inv (pre ++ [(e, is_ok r)]) (now st1)) as Hd1 by (by destruct r).
      destruct (IH _ _ Ho Hi Hc (through_now _ _ _ Ht) Hd1) as [H1 H2]. split; [by eapply through_trans|done].
    + by apply (IH _ st Ho Hi Hc Hcl), disk_inv_quiet.
Qed.
End OnDisk.

Lemma guarded_before (d0 : files) q : guarded (readers_of (d0 !! q)) d0 q.
Proof.
  intros n ->. unfold only. apply Forall_forall. intros a Ha Hc. apply elem_of_app. right.
  by apply list_elem_of_fmap_2, list_elem_of_filter.
Qed.


(** *** A disk to install on *)

Module ToyWindows.
Import ToyMachine.

Definition short : string := "C:\PROGRA~3\AWGSocks\client.conf".

(** The directory of a path: what is before its last backslash. *)
Fixpoint dir_of (p : string) : option string :=
  match p with
  | EmptyString => None
  | String c r =>
      match dir_of r with
      | Some d => Some (String c d)
      | None => if bool_decide (c = "\"%char) then Some EmptyString else None
      end
  end.

(** The lists whose texts it understands. *)
Definition known : list (list ace) :=
  [full true; data_acl; secret_acl; full true ++ [MkAce true FileModify (Sid sid)];
   full false ++ [MkAce false FileRead Users; MkAce false FileRead (Sid sid)];
   full true ++ [MkAce true FileReadExecute Users; MkAce true FileReadExecute (Sid sid)];
   full false ++ [MkAce false FileReadExecute Users; MkAce false FileReadExecute (Sid sid)]].

Definition understand (s : string) : result error (list ace) :=
  match list_find (fun l => dacl_text l = s) known with Some (_, l) => Ok l | None => Err (EMsg "not understood") end.

Lemma known_ok : Forall (Forall ace_ok) known.
Proof.
  pose proof sid_is_text as Hsid. unfold known, data_acl, secret_acl, full, app.
  repeat (apply Forall_cons_2; [repeat (apply Forall_cons_2; [first [exact Hsid|exact Logic.I]|]); apply Forall_nil_2|]).
  apply Forall_nil_2.
Qed.

Lemma understand_ok s l : understand s = Ok l -> Forall ace_ok l /\ s = dacl_text l.
Proof.
  unfold understand. destruct (list_find _ known) as [[i l']|] eqn:Hf; [|done]. intros [= <-].
  apply list_find_Some in Hf as (Hi & <- & _). pose proof known_ok as Hk. rewrite Forall_lookup in Hk. by split; [eapply Hk|].
Qed.

#[global] Instance windows : Windows (list ace) := {|
  win_file p := if bool_decide (p = short) then join data "client.conf" else p;
  win_Dir p := default p (dir_of p);
  win_Join := join;
  win_sd := understand;
  win_dacl := Ok;
  win_mkdir all d p := match all, d !! p with None, None => <[p := MkNode true [] []]> d | _, _ => d end;
  win_set d p l := alter (set_field n_acl (fun _ => l)) p d;
  win_new l := filter (fun a => a_inherit a = true) l;
  win_below p q := false;
  win_ReadDir d p := Ok [];
  win_elevated := true;
|}.

#[global] Instance windows_laws : WindowsLaws (list ace).
Proof.
  split.
  - intros s sd l Hs [= <-]. by apply understand_ok.
  - intros k d p q n Hn. cbn. destruct k; [done|]. destruct (d !! p) eqn:Hp; [done|]. rewrite lookup_insert_ne; [done|congruence].
  - intros k d p q n Hq. cbn. destruct k; [congruence|]. destruct (d !! p) eqn:Hp; [congruence|].
    destruct (decide (p = q)) as [->|]; [|rewrite lookup_insert_ne by done; congruence].
    rewrite lookup_insert_eq. intros [= <-]. split; [done|by left].
  - intros d p l n Hn. cbn. by rewrite lookup_alter_eq, Hn.
  - intros d p l q Hq. cbn. destruct (decide (p = q)) as [->|]; [by rewrite lookup_alter_eq, Hq|by rewrite lookup_alter_ne].
  - intros d p l q n Hn Hq. cbn. by rewrite lookup_alter_ne.
  - intros l a _ [Ha Hl]%list_elem_of_filter. by exists a.
Qed.

(** The files before: the user's configuration, the program, and the two system directories. *)
Definition disk0 : files := list_to_map [
  ("C:\my.conf", MkNode false [MkAce false FileAll Users] [Byte.x01; Byte.x02]);
  ("C:\awgsocks.exe", MkNode false [MkAce false FileAll Users] [Byte.x4d]);
  ("C:", MkNode true [MkAce true FileAll Users] [])].

Definition ok (i : nat) : answer := Accepted.
End ToyWindows.

Import ToyMachine ToyWindows.

(** The machine of InstallerSafety.v, on this disk. *)
Definition toy_run (path : string) (d : files) : result install_err unit * option state :=
  let H := machine (DefaultApp (join data "client.conf")) [] in
  let '(r, tr) := Install H (MkInstallOptions path false "" "" true false []) [] in
  (r, carry ok (fun _ => [Byte.x00]) tr (MkState d [] 0)).

Example toy_run_ok :
  (n_data <$> ((toy_run "C:\my.conf" disk0).2 ≫= fun st => now st !! join data "client.conf")) = Some [Byte.x01; Byte.x02].
Proof. by vm_compute. Qed.

(** The configuration that is in place already, named by another of its paths, is emptied:
    the comparison of the paths does not see that they name one file. *)
Lemma Install_alias_loses :
  let conf := join data "client.conf" in
  let d := <[conf := MkNode false secret_acl [Byte.x01; Byte.x02]]> (<[data := MkNode true data_acl []]> disk0) in
  win_file short = win_file conf /\
  (toy_run short d).1 = Ok tt /\
  (n_data <$> ((toy_run short d).2 ≫= fun st => now st !! conf)) = Some [].
Proof. by vm_compute. Qed.

(** The example of [toy_run], on [disk0]. *)
Definition toy_options : InstallOptions := MkInstallOptions "C:\my.conf" false "" "" true false [].

(** A file of the name that is there already, with entries of its own that let users read,
    still has them when the new content, with the key, is in it. *)
Lemma Install_exposes_existing :
  let conf := join data "client.conf" in
  let d := <[conf := MkNode false [MkAce false FileAll Users] []]> (<[data := MkNode true data_acl []]> disk0) in
  (toy_run "C:\my.conf" d).1 = Ok tt /\
  exists st, (toy_run "C:\my.conf" d).2 = Some st /\
    Exists (fun d => exists f, d !! conf = Some f /\ n_data f = [Byte.x01; Byte.x02] /\ allows read_bits (n_acl f) Users = true)
      (states_of st).
Proof.
  cbv zeta. split; [by vm_compute|].
  set (conf := join data "client.conf"). set (d := <[conf := _]> _).
  assert (match (toy_run "C:\my.conf" d).2 with
          | Some st => existsb (fun d => match d !! conf with
              | Some f => bool_decide (n_data f = [Byte.x01; Byte.x02]) && allows read_bits (n_acl f) Users | None => false end) (states_of st)
          | None => false end = true) as Hx by (by vm_compute).
  destruct (toy_run "C:\my.conf" d).2 as [st|]; [|done]. exists st. split; [done|].
  apply existsb_exists in Hx as (d' & Hin & Hf). apply Exists_exists. exists d'. split; [by apply list_elem_of_In|].
  destruct (d' !! conf) as [f|]; [|done]. apply andb_true_iff in Hf as [Hd Ha]. apply bool_decide_eq_true in Hd. by exists f.
Qed.

