(* ===== verification/GoFlags.v ===== *)
(** Go's package flag, as far as src/cmd/awgsocks/main.go uses it: the [Parse] of a flag
    set that continues on errors, with string and boolean flags. *)

From S2P Require Import Prelude GoStrings.

(** The flags of a set, by their names: whether each is boolean. *)
Abbreviation flag_set := (list (string * bool)).

(** What was given, in order, with the text of the value, and the other arguments. *)
Record parsed := MkParsed { given : list (string * string); args_left : list string }.

Inductive flag_error := BadSyntax (s : string) | NotDefined (name : string) | HelpAsked | BadBool (name value : string) | NeedsArgument (name : string).

(** [strconv.ParseBool]. *)
Definition ParseBool (s : string) : option bool :=
  if bool_decide (s ∈ ["1"; "t"; "T"; "true"; "TRUE"; "True"]) then Some true
  else if bool_decide (s ∈ ["0"; "f"; "F"; "false"; "FALSE"; "False"]) then Some false
  else None.

Definition flag_of (fs : flag_set) (name : string) : option bool := snd <$> List.find (fun f => bool_decide (f.1 = name)) fs.

(** The name of a flag argument, without its dashes; [None] where the flags end. *)
Definition flag_name (s : string) : option string :=
  match s with
  | String "-" (String "-" "") => None
  | String "-" (String "-" r) => Some r
  | String "-" (String c r) => Some (String c r)
  | _ => None
  end.

(** [name=value]; an equals sign at the start is part of the name. *)
Definition split_value (s : string) : string * option string :=
  match s with
  | EmptyString => ("", None)
  | String c r => match Cut "=" r with Some (n, v) => (String c n, Some v) | None => (s, None) end
  end.

Definition starts_with (c : ascii) (s : string) : bool := match s with String d _ => bool_decide (d = c) | EmptyString => false end.

(** [FlagSet.Parse], one flag after the other. *)
Fixpoint Parse (fs : flag_set) (acc : list (string * string)) (args : list string) : result flag_error parsed :=
  match args with
  | [] => Ok (MkParsed acc [])
  | s :: rest =>
      match flag_name s with
      | None => Ok (MkParsed acc (if bool_decide (s = "--") then rest else s :: rest))
      | Some body =>
          if starts_with "-" body || starts_with "=" body then Err (BadSyntax s)
          else
            let '(name, value) := split_value body in
            match flag_of fs name, value with
            | None, _ => Err (if bool_decide (name = "help" \/ name = "h") then HelpAsked else NotDefined name)
            | Some true, None => Parse fs (acc ++ [(name, "true")]) rest
            | Some true, Some v =>
                match ParseBool v with
                | Some _ => Parse fs (acc ++ [(name, v)]) rest
                | None => Err (BadBool name v)
                end
            | Some false, Some v => Parse fs (acc ++ [(name, v)]) rest
            | Some false, None =>
                match rest with
                | [] => Err (NeedsArgument name)
                | v :: rest => Parse fs (acc ++ [(name, v)]) rest
                end
            end
      end
  end.

(** The value of a flag: the last one given. *)
Definition last_given (l : list (string * string)) (name : string) : option string :=
  foldl (fun v x => if bool_decide (x.1 = name) then Some x.2 else v) None l.

Definition String_flag (p : parsed) (name : string) : string := default "" (last_given (given p) name).
Definition Bool_flag (p : parsed) (name : string) : bool := default false (last_given (given p) name ≫= ParseBool).
Definition Arg0 (p : parsed) : string := match args_left p with a :: _ => a | [] => "" end.

(** ** Lemmas *)

Lemma last_given_snoc l n v name :
  last_given (l ++ [(n, v)]) name = if bool_decide (n = name) then Some v else last_given l name.
Proof. unfold last_given. by rewrite foldl_app. Qed.

(** A name that can be written after two dashes. *)
Definition plain_name (n : string) : Prop := n <> "" /\ starts_with "-" n = false /\ starts_with "=" n = false /\ split_value n = (n, None).

Lemma flag_name_long n : n <> "" -> flag_name ("--" +:+ n) = Some n.
Proof. by destruct n. Qed.

Lemma Parse_flag fs acc n rest : plain_name n ->
  Parse fs acc (("--" +:+ n) :: rest) =
  match flag_of fs n, rest with
  | None, _ => Err (if bool_decide (n = "help" \/ n = "h") then HelpAsked else NotDefined n)
  | Some true, _ => Parse fs (acc ++ [(n, "true")]) rest
  | Some false, [] => Err (NeedsArgument n)
  | Some false, v :: rest => Parse fs (acc ++ [(n, v)]) rest
  end.
Proof.
  intros (Hn & Hd & He & Hs). set (s := "--" +:+ n). pose proof (flag_name_long n Hn : flag_name s = Some n) as Hf.
  clearbody s. cbn [Parse]. rewrite Hf, Hd, He, Hs. cbn [orb]. destruct (flag_of fs n) as [[|]|]; [done| |done]. by destruct rest.
Qed.

(** An argument that is not a flag ends them. *)
Lemma Parse_positional fs acc a rest : flag_name a = None -> a <> "--" -> Parse fs acc (a :: rest) = Ok (MkParsed acc (a :: rest)).
Proof. intros Ha Hne. simpl. by rewrite Ha, bool_decide_false. Qed.
