(* ===== verification/StatusText.v ===== *)
(** src/cmd/awgsocks/status.go: the status report as text, line by line.

    Counts are the machine integers of the report.  Where the code computes with float64,
    the values are rationals: [fl] rounds one to 53 significant bits, to nearest and ties
    to even, and [fixed] is the verb [%.kf] on the result. *)

From stdpp Require Import sorting.
From S2P Require Import Prelude GoStrings AwgStats Logging Ipc.

(** ** Numbers as text *)

(** [%d] of a signed integer. *)
Definition Ztoa (n : Z) : string := if n <? 0 then "-" +:+ Itoa (- n) else Itoa n.

(** The integer nearest to [p / q], ties to even. *)
Definition round_half_even (p q : Z) : Z :=
  let d := p / q in
  let r := p mod q in
  if 2 * r <? q then d else if q <? 2 * r then d + 1 else if Z.even d then d else d + 1.

(** The exponent of the last of 53 bits of [p / q]. *)
Definition ulp (p q : Z) : Z :=
  let e := Z.log2 p - Z.log2 q in
  (if (if 0 <=? e then q * 2 ^ e <=? p else q <=? p * 2 ^ (- e)) then e else e - 1) - 52.

(** The float64 nearest to the positive rational [p / q], as a rational. *)
Definition fl (p q : Z) : Z * Z :=
  if p =? 0 then (0, 1) else
  let u := ulp p q in
  if 0 <=? u then (round_half_even p (q * 2 ^ u) * 2 ^ u, 1) else (round_half_even (p * 2 ^ (- u)) q, 2 ^ (- u)).

Definition fl_mul (x y : Z * Z) : Z * Z := fl (x.1 * y.1) (x.2 * y.2).
Definition fl_div (x y : Z * Z) : Z * Z := fl (x.1 * y.2) (x.2 * y.1).

(** [%.1f] and [%.0f] of a non-negative number. *)
Definition tenths (x : Z * Z) : Z := round_half_even (x.1 * 10) x.2.
Definition fixed1 (x : Z * Z) : string := Itoa (tenths x / 10) +:+ "." +:+ Itoa (tenths x mod 10).
Definition fixed0 (x : Z * Z) : string := Itoa (round_half_even x.1 x.2).

(** ** The values of the report *)

Definition yesNo (b : bool) : string := if b then "yes" else "no".

Definition orDash (s : string) : string := if bool_decide (TrimSpace s = "") then "-" else s.

Definition shortCommit (c : string) : string := if 12 <? len c then String.substring 0 12 c else c.

(** [humanBytes].  The loop is [unit_of]: the divisor, which is a uint64, and the exponent.
    The quotient of a float64 by a power of two that is not tiny is exact, so only the
    conversion of the count rounds.  [None] is an index out of range. *)
Fixpoint unit_of (fuel : nat) (v div : Z) (exp : nat) : option (Z * nat) :=
  match fuel with
  | O => None
  | S fuel => if 1024 <=? v then unit_of fuel (v / 1024) ((div * 1024) mod 2 ^ 64) (S exp) else Some (div, exp)
  end.

Definition unit_chars : list string := ["K"; "M"; "G"; "T"; "P"; "E"].

Definition humanBytes (n : Z) : option string :=
  if n <? 1024 then Some (Itoa n +:+ " B") else
  '(div, exp) ← unit_of 7 (n / 1024) 1024 0;
  c ← unit_chars !! exp;
  let x := fl n 1 in
  Some (fixed1 (x.1, x.2 * div) +:+ " " +:+ c +:+ "iB").

Definition human (n : Z) : string := default "panic" (humanBytes n).

Definition resolvesItselfAfter : Z := 20.

Definition formatFailed (s : SocksStatus) : string :=
  if ss_Failed s =? 0 then "0"
  else Ztoa (ss_Failed s) +:+ " (" +:+ Ztoa (ss_Unresolved s) +:+ " names not resolved, " +:+
       Ztoa (ss_Failed s - ss_Unresolved s) +:+ " could not connect)".

Definition formatUDP (s : SocksStatus) : string :=
  if negb (ss_UDPEnabled s) then "disabled (UDP cannot pass through the proxy)"
  else if (ss_UDPAssociations s =? 0) && (ss_UDPDatagramsUp s =? 0) && (ss_UDPDatagramsDown s =? 0)
  then "enabled, not used yet"
  else "enabled, " +:+ Ztoa (ss_UDPAssociations s) +:+ " active associations, " +:+ Itoa (ss_UDPDatagramsUp s) +:+
       " sent / " +:+ Itoa (ss_UDPDatagramsDown s) +:+ " received datagrams (" +:+ human (ss_UDPBytesUp s) +:+ " / " +:+
       human (ss_UDPBytesDown s) +:+ ")" +:+
       (if 0 <? ss_UDPDropped s then ", " +:+ Itoa (ss_UDPDropped s) +:+ " dropped" else "").

(** The sums are those of uint64. *)
Definition formatDNSCache (c : DNSCacheStatus) (local : bool) : string :=
  let total := (dc_Hits c + dc_Misses c + dc_Coalesced c) mod 2 ^ 64 in
  if total =? 0 then "no lookups yet"
  else
    let where_ := if local then "local" else "tunnel" in
    let saved := (dc_Hits c + dc_Coalesced c) mod 2 ^ 64 in
    Ztoa (dc_Entries c) +:+ " entries, " +:+ Itoa (dc_Hits c) +:+ " hits, " +:+ Itoa (dc_Coalesced c) +:+ " coalesced, " +:+
    Itoa (dc_Misses c) +:+ " " +:+ where_ +:+ " queries (" +:+
    fixed0 (fl_div (fl_mul (fl saved 1) (100, 1)) (fl total 1)) +:+ "% saved)".

(** [time.Duration.Round(time.Second)], in seconds, and the text of whole seconds. *)
Definition round_seconds (d : Z) : Z := if d <? 0 then - ((- d + 5 * 10 ^ 8) / 10 ^ 9) else (d + 5 * 10 ^ 8) / 10 ^ 9.

Definition seconds_String (s : Z) : string :=
  let a := Z.abs s in
  let sec := Itoa (a mod 60) +:+ "s" in
  let m := Itoa (a / 60 mod 60) +:+ "m" +:+ sec in
  (if s <? 0 then "-" else "") +:+
  (if a <? 60 then sec else if a <? 3600 then m else Itoa (a / 3600) +:+ "h" +:+ m).

Definition duration_text (d : Z) : string := seconds_String (round_seconds d).

Section Report.
(** The local time as text, the time of the report, and the text of a warning. *)
Variable Format : Z -> string.
Variable now : Z.
Context {w : Type}.
Variable warning_text : w -> string.

Definition formatTime (t : Z) : string :=
  if IsZero t then "never" else Format t +:+ " (" +:+ duration_text (now - t) +:+ " ago)".

(** The parameters in force, sorted, over the keys in the order the map gave them. *)
Definition params_line (keys : list string) (m : gmap string string) : string :=
  Join ((fun k => ToUpper k +:+ "=" +:+ default "" (m !! k)) <$> merge_sort name_le keys) " ".

Definition socks_lines (s : SocksStatus) : list string :=
  [""; "== SOCKS5 ==";
   "Listen address    : " +:+ ss_Listen s;
   "Listening         : " +:+ yesNo (ss_Listening s);
   "Active sessions   : " +:+ Ztoa (ss_Active s);
   "Total sessions    : " +:+ Ztoa (ss_Total s);
   "Rejected          : " +:+ Ztoa (ss_Rejected s) +:+ " (non-loopback or over the limit)";
   "Failed requests   : " +:+ formatFailed s;
   "Hostname requests : " +:+ Ztoa (ss_Hostnames s)] ++
  (if (resolvesItselfAfter <=? ss_Total s) && (ss_Hostnames s =? 0)
   then ["                    no program sent a hostname: they resolve names themselves,";
         "                    outside the proxy and its DNS. Turn on remote DNS in them";
         "                    (Firefox: Proxy DNS when using SOCKS v5)"]
   else []) ++
  ["Relayed           : " +:+ human (ss_BytesUp s) +:+ " sent / " +:+ human (ss_BytesDown s) +:+ " received";
   "UDP ASSOCIATE     : " +:+ formatUDP s].

Definition is_nil {A} (l : list A) : bool := match l with [] => true | _ => false end.

Definition tunnel_lines (keys : list string) (t : TunnelStatus) : list string :=
  [""; "== AmneziaWG tunnel =="; "State             : " +:+ orDash (ts_State t)] ++
  (if bool_decide (ts_PausedBy t = "") then []
   else ["Paused            : this configuration is connected on the Windows adapter " +:+ ts_PausedBy t +:+ ",";
         "                    resumes when that adapter disconnects"]) ++
  ["Endpoint          : " +:+ orDash (ts_Endpoint t);
   "Last handshake    : " +:+ formatTime (ts_LastHandshake t);
   "Sent              : " +:+ human (ts_TxBytes t);
   "Received          : " +:+ human (ts_RxBytes t);
   "Reconnects        : " +:+ Ztoa (ts_Reconnects t);
   "Last error        : " +:+ orDash (ts_LastError t);
   "Tunnel addresses  : " +:+ orDash (Join (ts_Addresses t) ", ");
   (if is_nil (ts_LocalDNS t) then "In-tunnel DNS     : " +:+ orDash (Join (ts_DNS t) ", ")
    else "Local DNS         : " +:+ Join (ts_LocalDNS t) ", " +:+ " (this PC, outside the tunnel)");
   "MTU               : " +:+ Ztoa (ts_MTU t);
   "AllowedIPs        : " +:+ orDash (Join (ts_AllowedIPs t) ", ");
   "DNS cache         : " +:+ formatDNSCache (ts_DNSCache t) (negb (is_nil (ts_LocalDNS t)));
   "AWG generation    : " +:+ orDash (ts_Generation t)] ++
  (if is_nil keys then [] else ["Active AWG params : " +:+ params_line keys (ts_AWGParams t)]).

Definition version_lines (v : VersionStatus) : list string :=
  [""; "== Versions ==";
   "AWGSocks          : " +:+ vs_AWGSocks v;
   "AmneziaWG         : " +:+ vs_AmneziaWGGo v +:+ " (commit " +:+ shortCommit (vs_AmneziaWGCommit v) +:+ ")";
   "AWG conf parser   : " +:+ vs_AWGParser v +:+ " (commit " +:+ shortCommit (vs_AWGParserCommit v) +:+ ")";
   "Wintun            : " +:+ vs_Wintun v;
   "Go                : " +:+ vs_GoVersion v;
   "UDP bind          : " +:+ orDash (vs_UDPBind v);
   "Windows routes    : " +:+ vs_SystemRouteState v].

(** [printStatus], with the keys of the parameters in the order the map gives them. *)
Definition printStatus (keys : list string) (st : Status w) : list string :=
  ["== AWGSocks =="; "Service state     : " +:+ st_Service st] ++
  (match st_Uptime st with Some d => ["Uptime            : " +:+ duration_text d] | None => [] end) ++
  ["Configuration     : " +:+ st_ConfigPath st] ++
  socks_lines (st_Socks5 st) ++ tunnel_lines keys (st_Tunnel st) ++ version_lines (st_Versions st) ++
  (if is_nil (st_Warnings st) then []
   else [""; "== Warnings =="] ++ ((fun x => "- " +:+ warning_text x) <$> st_Warnings st)).
End Report.

Example humanBytes_ex :
  human 1023 = "1023 B" /\ human 1536 = "1.5 KiB" /\ human 5000000000 = "4.7 GiB" /\ human (2 ^ 64 - 1) = "16.0 EiB".
Proof. by vm_compute. Qed.

Example formatDNSCache_ex : formatDNSCache (MkDNSCacheStatus 2 3 0 3) true = "3 entries, 2 hits, 0 coalesced, 3 local queries (40% saved)".
Proof. by vm_compute. Qed.

Example duration_text_ex : duration_text 3661400000000 = "1h1m1s" /\ duration_text 59600000000 = "1m0s" /\ duration_text 0 = "0s".
Proof. by vm_compute. Qed.
