(* ===== verification/StatusProps.v ===== *)
(** What the status report promises of its text: units and percentages that are right for
    every count, and a text that does not depend on the order of a Go map. *)

From stdpp Require Import sorting.
From S2P Require Import Prelude GoStrings AwgStats Logging Ipc StatusText.

(** ** Rounding *)

Lemma round_half_even_err p q : 0 < q -> 2 * Z.abs (round_half_even p q * q - p) <= q.
Proof.
  intros Hq. unfold round_half_even. pose proof (Z.div_mod p q ltac:(lia)) as Hd. pose proof (Z.mod_pos_bound p q Hq).
  set (d := p / q) in *. set (r := p mod q) in *.
  destruct (Z.ltb_spec (2 * r) q); [nia|]. destruct (Z.ltb_spec q (2 * r)); [nia|]. destruct (Z.even d); nia.
Qed.

Lemma round_half_even_nonneg p q : 0 <= p -> 0 < q -> 0 <= round_half_even p q.
Proof.
  intros Hp Hq. unfold round_half_even. pose proof (Z.div_pos p q Hp Hq).
  repeat case_match; lia.
Qed.

(** The leading bit is where [ulp] says. *)
Lemma ulp_lower p q : 0 < p -> 0 < q ->
  let e := ulp p q + 52 in if 0 <=? e then q * 2 ^ e <= p else q <= p * 2 ^ (- e).
Proof.
  intros Hp Hq. unfold ulp. pose proof (Z.log2_spec p Hp) as [Hp1 Hp2]. pose proof (Z.log2_spec q Hq) as [Hq1 Hq2].
  pose proof (Z.log2_nonneg p). pose proof (Z.log2_nonneg q).
  set (lp := Z.log2 p) in *. set (lq := Z.log2 q) in *. rewrite Z.sub_add.
  destruct (Z.leb_spec 0 (lp - lq)) as [He|He].
  - destruct (Z.leb_spec (q * 2 ^ (lp - lq)) p) as [Hc|Hc]; [by rewrite (proj2 (Z.leb_le _ _) He)|].
    destruct (Z.leb_spec 0 (lp - lq - 1)) as [He1|He1].
    + replace (Z.succ lq) with (lq + 1) in Hq2 by lia. rewrite Z.pow_add_r, Z.pow_1_r in Hq2 by lia.
      replace lp with (lq + (lp - lq - 1) + 1) in Hp1 by lia. rewrite !Z.pow_add_r, Z.pow_1_r in Hp1 by lia.
      pose proof (Z.pow_pos_nonneg 2 (lp - lq - 1) ltac:(lia) He1). nia.
    + replace (- (lp - lq - 1)) with 1 by lia. rewrite Z.pow_1_r. replace lp with lq in Hp1 by lia.
      replace (Z.succ lq) with (lq + 1) in Hq2 by lia. rewrite Z.pow_add_r, Z.pow_1_r in Hq2 by lia. lia.
  - destruct (Z.leb_spec q (p * 2 ^ (- (lp - lq)))) as [Hc|Hc].
    + by rewrite (proj2 (Z.leb_gt 0 (lp - lq)) He).
    + rewrite (proj2 (Z.leb_gt 0 (lp - lq - 1))) by lia.
      replace (- (lp - lq - 1)) with (lq - lp + 1) by lia. replace (- (lp - lq)) with (lq - lp) in Hc by lia.
      rewrite Z.pow_add_r, Z.pow_1_r by lia. replace (Z.succ lq) with (lp + (lq - lp) + 1) in Hq2 by lia.
      rewrite !Z.pow_add_r, Z.pow_1_r in Hq2 by lia.
      pose proof (Z.pow_pos_nonneg 2 (lq - lp) ltac:(lia) ltac:(lia)). nia.
Qed.

(** A float64 is within one part in 2^53 of what it stands for. *)
Lemma fl_error p q : 0 <= p -> 0 < q ->
  let x := fl p q in 0 <= x.1 /\ 0 < x.2 /\ Z.abs (x.1 * q - p * x.2) * 2 ^ 53 <= p * x.2.
Proof.
  intros Hp Hq. unfold fl. destruct (Z.eqb_spec p 0) as [->|Hne]; [simpl; lia|].
  pose proof (ulp_lower p q ltac:(lia) Hq) as Hu. set (u := ulp p q) in *. simpl in Hu.
  destruct (Z.leb_spec 0 u) as [H0|H0]; cbn [fst snd].
  - rewrite (proj2 (Z.leb_le 0 (u + 52))), Z.pow_add_r in Hu by lia.
    pose proof (Z.pow_pos_nonneg 2 u ltac:(lia) H0).
    pose proof (round_half_even_err p (q * 2 ^ u) ltac:(nia)) as He.
    pose proof (round_half_even_nonneg p (q * 2 ^ u) Hp ltac:(nia)).
    set (m := round_half_even _ _) in *. split_and!; [nia|lia|].
    replace (m * 2 ^ u * q - p * 1) with (m * (q * 2 ^ u) - p) by ring. change (2 ^ 53) with (2 * 2 ^ 52). nia.
  - pose proof (Z.pow_pos_nonneg 2 (- u) ltac:(lia) ltac:(lia)).
    pose proof (round_half_even_err (p * 2 ^ (- u)) q Hq) as He.
    pose proof (round_half_even_nonneg (p * 2 ^ (- u)) q ltac:(nia) Hq).
    set (m := round_half_even _ _) in *. split_and!; [lia|lia|].
    assert (q * 2 ^ 52 <= p * 2 ^ (- u)) as Hl.
    { destruct (Z.leb_spec 0 (u + 52)) as [H52|H52].
      - replace (2 ^ 52) with (2 ^ (u + 52) * 2 ^ (- u)) by (rewrite <-Z.pow_add_r by lia; f_equal; lia). nia.
      - replace (- u) with (- (u + 52) + 52) by lia. rewrite Z.pow_add_r by lia. nia. }
    change (2 ^ 53) with (2 * 2 ^ 52). nia.
Qed.

(** ** Units *)

Definition unit_size (e : nat) : Z := 1024 ^ Z.of_nat (S e).

Lemma unit_size_S e : unit_size (S e) = unit_size e * 1024.
Proof. unfold unit_size. rewrite (Nat2Z.inj_succ (S e)), Z.pow_succ_r by lia. lia. Qed.

Lemma unit_size_pos e : 0 < unit_size e.
Proof. unfold unit_size. lia. Qed.

Lemma unit_size_fits e n : unit_size e <= n -> n < 2 ^ 64 -> (e <= 5)%nat.
Proof.
  intros H1 H2. destruct (decide (e <= 5)%nat) as [|Hn]; [done|]. exfalso.
  assert (1024 ^ 7 <= unit_size e) by (apply Z.pow_le_mono_r; lia). lia.
Qed.

Lemma unit_of_spec n fuel e : unit_size e <= n < 2 ^ 64 -> n < 1024 ^ Z.of_nat fuel * unit_size e ->
  exists e', unit_of fuel (n / unit_size e) (unit_size e) e = Some (unit_size e', e') /\
    unit_size e' <= n < unit_size (S e') /\ (e' <= 5)%nat.
Proof.
  revert e. induction fuel as [|fuel IH]; intros e Hn Hf; [simpl in Hf; lia|].
  simpl. pose proof (unit_size_pos e) as Hpos. destruct (Z.leb_spec 1024 (n / unit_size e)) as [Hc|Hc].
  - assert (unit_size (S e) <= n) as Hs.
    { rewrite unit_size_S. pose proof (Z.mul_div_le n (unit_size e) Hpos). nia. }
    rewrite Z.div_div, <-unit_size_S by lia. rewrite Z.mod_small by (pose proof (unit_size_pos (S e)); lia).
    apply IH; [lia|]. rewrite unit_size_S. rewrite Nat2Z.inj_succ, Z.pow_succ_r in Hf by lia. lia.
  - exists e. split; [done|]. split; [|apply (unit_size_fits e n); lia]. split; [lia|].
    rewrite unit_size_S. pose proof (Z.mul_succ_div_gt n (unit_size e) Hpos). nia.
Qed.

(** A count of bytes is shown in the right unit.  For every 64-bit count the loop ends
    in seven rounds with a unit that exists, and the divisor has not wrapped around; below
    1024 the count is shown as it is, and otherwise the number shown, with one decimal, is
    within 0.051 of the unit of the true value, the rounding of float64 included. *)
Theorem humanBytes_spec n :
  0 <= n < 2 ^ 64 ->
  (n < 1024 -> humanBytes n = Some (Itoa n +:+ " B")) /\
  (1024 <= n -> exists e c t, unit_chars !! e = Some c /\ unit_size e <= n < unit_size (S e) /\
     humanBytes n = Some ((Itoa (t / 10) +:+ "." +:+ Itoa (t mod 10)) +:+ " " +:+ c +:+ "iB") /\
     1000 * Z.abs (t * unit_size e - 10 * n) <= 510 * unit_size e).
Proof.
  intros Hn. unfold humanBytes. destruct (Z.ltb_spec n 1024) as [Hlt|Hge]; [by split; [|lia]|].
  split; [lia|]. intros _. change 1024 with (unit_size 0) in Hge.
  destruct (unit_of_spec n 7 0) as (e & Hu & He & H5); [lia|by apply (Z.lt_trans _ (2 ^ 64)); [lia|]|].
  change (unit_of 7 (n / 1024) 1024 0) with (unit_of 7 (n / unit_size 0) (unit_size 0) 0). rewrite Hu. simpl mbind.
  destruct (unit_chars !! e) as [c|] eqn:Hc.
  2:{ apply lookup_ge_None in Hc. simpl in Hc. lia. }
  exists e, c. simpl. pose proof (fl_error n 1 ltac:(lia) ltac:(lia)) as (Hf1 & Hf2 & Hf3).
  destruct (fl n 1) as [p q]. cbn [fst snd] in *. unfold fixed1.
  exists (tenths (p, q * unit_size e)). unfold tenths. cbn [fst snd]. split; [done|]. split; [done|]. split; [done|].
  pose proof (unit_size_pos e) as Hd. set (d := unit_size e) in *. rewrite unit_size_S in He. fold d in He.
  pose proof (round_half_even_err (p * 10) (q * d) ltac:(nia)) as Hr. set (t := round_half_even _ _) in *.
  apply (Z.mul_le_mono_pos_r _ _ q Hf2).
  assert (Hb : Z.abs (p - n * q) * 2 ^ 53 <= n * q) by (by rewrite Z.mul_1_r in Hf3).
  assert (Hk : Z.abs (p - n * q) * 2 ^ 43 <= d * q) by nia.
  assert (Ht : Z.abs (t * d - 10 * n) * q <= Z.abs (t * (q * d) - p * 10) + 10 * Z.abs (p - n * q)).
  { replace (Z.abs (t * d - 10 * n) * q) with (Z.abs ((t * d - 10 * n) * q)) by (rewrite Z.abs_mul, (Z.abs_eq q); lia).
    replace ((t * d - 10 * n) * q) with ((t * (q * d) - p * 10) + 10 * (p - n * q)) by ring. lia. }
  clear -Hr Hk Ht Hf2 Hd. set (x := d * q) in *. replace (q * d) with x in * by (unfold x; ring). nia.
Qed.

Lemma humanBytes_spec_witness :
  exists e c t, unit_chars !! e = Some c /\ unit_size e <= 1048575 < unit_size (S e) /\
     humanBytes 1048575 = Some ((Itoa (t / 10) +:+ "." +:+ Itoa (t mod 10)) +:+ " " +:+ c +:+ "iB") /\
     1000 * Z.abs (t * unit_size e - 10 * 1048575) <= 510 * unit_size e.
Proof. apply (humanBytes_spec 1048575); lia. Defined.

(** ** The share of lookups that were saved *)

(** What [formatDNSCache] prints. *)
Definition saved_percent (c : DNSCacheStatus) : Z :=
  let x := fl_div (fl_mul (fl (dc_Hits c + dc_Coalesced c) 1) (100, 1)) (fl (dc_Hits c + dc_Misses c + dc_Coalesced c) 1) in
  round_half_even x.1 x.2.

Lemma fl_bounds p q : 0 <= p -> 0 < q ->
  let x := fl p q in 0 <= x.1 /\ 0 < x.2 /\
    x.1 * q * 2 ^ 53 <= p * x.2 * (2 ^ 53 + 1) /\ p * x.2 * (2 ^ 53 - 1) <= x.1 * q * 2 ^ 53.
Proof. intros Hp Hq. destruct (fl_error p q Hp Hq) as (H1 & H2 & H3). split_and!; [done|done|lia|lia]. Qed.

(** Four roundings of a ratio that is at most one hundred stay below one hundred and a
    half. *)
Lemma ratio_bound (N s T a1 a2 b1 b2 t1 t2 c1 c2 : Z) :
  N = 2 ^ 53 -> 0 <= s <= T -> 0 < T -> 0 < a2 -> 0 < b2 -> 0 < t2 -> 0 < c2 -> 0 <= c1 ->
  a1 * N <= s * a2 * (N + 1) -> b1 * a2 * N <= 100 * a1 * b2 * (N + 1) ->
  T * t2 * (N - 1) <= t1 * N -> c1 * (b2 * t1) * N <= b1 * t2 * c2 * (N + 1) -> 2 * c1 < 201 * c2.
Proof.
  intros HN Hs HT Ha Hb Ht Hc Hc1 H1 H2 H3 H4.
  assert (H5 : b1 * (N * N) <= 100 * b2 * ((N + 1) * (N + 1)) * s).
  { apply (Z.mul_le_mono_pos_r _ _ a2 Ha). transitivity (100 * b2 * (N + 1) * (a1 * N)); [nia|].
    assert (0 <= 100 * b2 * (N + 1)) by nia. nia. }
  assert (H6 : c1 * t1 * (N * N * N) <= 100 * ((N + 1) * (N + 1) * (N + 1)) * (s * t2 * c2)).
  { apply (Z.mul_le_mono_pos_r _ _ b2 Hb). transitivity (b1 * (N * N) * (t2 * c2 * (N + 1))); [nia|].
    assert (0 <= t2 * c2 * (N + 1)) by nia. nia. }
  assert (H7 : s * t2 * c2 <= T * t2 * c2) by nia.
  assert (H8 : c1 * ((N - 1) * (N * N)) <= 100 * ((N + 1) * (N + 1) * (N + 1)) * c2).
  { apply (Z.mul_le_mono_pos_r _ _ (T * t2)); [nia|].
    transitivity (c1 * (N * N) * (t1 * N)); [|].
    - assert (0 <= c1 * (N * N)) by nia. nia.
    - assert (0 <= 100 * ((N + 1) * (N + 1) * (N + 1))) by nia. nia. }
  subst N. lia.
Qed.

(** The share of saved lookups is a percentage.  As long as the counters do not
    overflow together, what is printed is between 0 and 100, whatever float64 rounds on
    the way. *)
Theorem formatDNSCache_percent c local :
  0 <= dc_Hits c -> 0 <= dc_Misses c -> 0 <= dc_Coalesced c ->
  0 < dc_Hits c + dc_Misses c + dc_Coalesced c < 2 ^ 64 ->
  formatDNSCache c local =
    Ztoa (dc_Entries c) +:+ " entries, " +:+ Itoa (dc_Hits c) +:+ " hits, " +:+ Itoa (dc_Coalesced c) +:+ " coalesced, " +:+
    Itoa (dc_Misses c) +:+ " " +:+ (if local then "local" else "tunnel") +:+ " queries (" +:+
    Itoa (saved_percent c) +:+ "% saved)" /\
  0 <= saved_percent c <= 100.
Proof.
  intros Hh Hm Hc Ht. split.
  - unfold formatDNSCache. rewrite !Z.mod_small by lia. destruct (Z.eqb_spec (dc_Hits c + dc_Misses c + dc_Coalesced c) 0); [lia|done].
  - unfold saved_percent, fl_div, fl_mul.
    set (s := dc_Hits c + dc_Coalesced c). set (T := dc_Hits c + dc_Misses c + dc_Coalesced c) in *.
    destruct (fl_bounds s 1 ltac:(lia) ltac:(lia)) as (Ha1 & Ha2 & Ha3 & _). destruct (fl s 1) as [a1 a2]. cbn [fst snd] in *.
    destruct (fl_bounds (a1 * 100) (a2 * 1) ltac:(lia) ltac:(lia)) as (Hb1 & Hb2 & Hb3 & _).
    destruct (fl (a1 * 100) (a2 * 1)) as [b1 b2]. cbn [fst snd] in *.
    destruct (fl_bounds T 1 ltac:(lia) ltac:(lia)) as (Ht1 & Ht2 & _ & Ht4). destruct (fl T 1) as [t1 t2]. cbn [fst snd] in *.
    assert (0 < t1) by nia.
    destruct (fl_bounds (b1 * t2) (b2 * t1) ltac:(nia) ltac:(nia)) as (Hc1 & Hc2 & Hc3 & _).
    destruct (fl (b1 * t2) (b2 * t1)) as [c1 c2]. cbn [fst snd] in *.
    assert (2 * c1 < 201 * c2) as Hb by (apply (ratio_bound (2 ^ 53) s T a1 a2 b1 b2 t1 t2 c1 c2); lia).
    pose proof (round_half_even_err c1 c2 Hc2). pose proof (round_half_even_nonneg c1 c2 Hc1 Hc2).
    split; [done|]. set (r := round_half_even c1 c2) in *. nia.
Qed.

(** ** The order of a map *)

#[local] Instance name_le_antisymm : AntiSymm (=) name_le.
Proof.
  intros a b. unfold name_le, String.leb. rewrite (String.compare_antisym b a).
  destruct (String.compare a b) eqn:He; simpl; [|done|done]. intros _ _. by apply String.compare_eq_iff.
Qed.

(** A sorted list is determined by its elements. *)
Lemma merge_sort_order (l l' : list string) : l ≡ₚ l' -> merge_sort name_le l = merge_sort name_le l'.
Proof.
  intros Hp. apply (StronglySorted_unique name_le); [apply (StronglySorted_merge_sort _ _)..|].
  by rewrite !merge_sort_Permutation.
Qed.

(** The report does not depend on the order in which Go enumerates the map of the
    parameters, and shows every parameter in force exactly once, in the order of their
    names. *)
Theorem printStatus_deterministic Format now {w} (text : w -> string) keys keys' (st : Status w) :
  keys ≡ₚ keys' -> keys ≡ₚ (map_to_list (ts_AWGParams (st_Tunnel st))).*1 ->
  printStatus Format now text keys st = printStatus Format now text keys' st /\
  exists names, NoDup names /\ StronglySorted name_le names /\
    (forall k, k ∈ names <-> is_Some (ts_AWGParams (st_Tunnel st) !! k)) /\
    params_line keys (ts_AWGParams (st_Tunnel st)) =
      Join ((fun k => ToUpper k +:+ "=" +:+ default "" (ts_AWGParams (st_Tunnel st) !! k)) <$> names) " ".
Proof.
  intros Hp Hk. split.
  - assert (is_nil keys = is_nil keys') as Hn.
    { destruct keys, keys'; [done|by apply Permutation_nil_l in Hp|by apply Permutation_nil_r in Hp|done]. }
    unfold printStatus, tunnel_lines, params_line. by rewrite Hn, (merge_sort_order keys keys' Hp).
  - exists (merge_sort name_le keys). split_and!.
    + rewrite merge_sort_Permutation, Hk. apply NoDup_fst_map_to_list.
    + apply (StronglySorted_merge_sort _ _).
    + intros k. rewrite merge_sort_Permutation, Hk, list_elem_of_fmap. split.
      * intros ([k' v] & -> & Hin%elem_of_map_to_list). by exists v.
      * intros [v Hv]. exists (k, v). split; [done|]. by apply elem_of_map_to_list.
    + done.
Qed.

Lemma formatDNSCache_percent_witness :
  let c := MkDNSCacheStatus 2 1 0 3 in
  formatDNSCache c false = "3 entries, 2 hits, 0 coalesced, 1 tunnel queries (67% saved)" /\ 0 <= saved_percent c <= 100.
Proof.
  intros c. destruct (formatDNSCache_percent c false) as [_ H]; [simpl; lia..|]. split; [by vm_compute|exact H].
Defined.

(** A report with two parameters. *)
Definition sample_status : Status string :=
  MkStatus "running" "C:\client.conf"
    (MkTunnelStatus "connected" "" 0 0 0 0 "" None {["s1" := "15"; "jc" := "4"]} "" [] [] [] 1280 []
       (MkDNSCacheStatus 0 0 0 0) "")
    (MkSocksStatus "127.0.0.1:10808" true 1 30 0 0 0 0 0 0 false 0 0 0 0 0 0) (MkVersionStatus "" "" "" "" "" "" "" "" "") [] None.

Lemma printStatus_deterministic_witness :
  printStatus (fun _ => "") 0 id ["s1"; "jc"] sample_status = printStatus (fun _ => "") 0 id ["jc"; "s1"] sample_status /\
  params_line ["s1"; "jc"] (ts_AWGParams (st_Tunnel sample_status)) = "JC=4 S1=15".
Proof.
  split; [|by vm_compute]. apply (printStatus_deterministic (fun _ => "") 0 id); [apply Permutation_swap|].
  vm_compute. first [reflexivity|apply Permutation_swap].
Defined.

(** A report that is taken when a session has counted its unresolved name, and not yet its
    failure. *)
Lemma formatFailed_between :
  formatFailed ((st_Socks5 sample_status) <| ss_Failed := 1 |> <| ss_Unresolved := 2 |>) =
    "1 (2 names not resolved, -1 could not connect)" /\
  formatFailed ((st_Socks5 sample_status) <| ss_Failed := 0 |> <| ss_Unresolved := 1 |>) = "0".
Proof. by vm_compute. Qed.
