(* ===== verification/CommandLine.v ===== *)
(** src/cmd/awgsocks/main.go: the commands, from the arguments to the exit code.

    What a command does is threaded through one state: the trace of the installer, the
    running service behind the management pipe, the upstream devices of a dry run, the
    temporary settings of a foreground run, the runtimes that ran in this process (with
    their tunnel, listener, pipe, watcher and log) as each ended, and what was written to
    the terminal.  The texts of errors of other packages are arguments; the usage text,
    the lines that the installer prints and those of a foreground run are left out. *)

From S2P Require Import Prelude GoStrings GoNetip GoErrors SocksDial SocksServer ConfScan TunnelConf AppConf AwgTunnel BatchTun Logging Version Ipc HostConflict Manager Installer GoFlags StatusText.

Definition helperScripts : list string :=
  ["service-install.bat"; "service-start.bat"; "service-stop.bat"; "service-status.bat"; "service-config.bat";
   "service-uninstall.bat"].

Definition selfInvocation : string := ".\awgsocks.exe".

(** ** The terminal *)

Inductive line (w : Type) :=
| Out (s : string)
| ErrOut (s : string)
| Usage (to_stderr : bool)
| Json (st : Status w)
| JsonError (service error : string).
Arguments Out {w}.
Arguments ErrOut {w}.
Arguments Usage {w}.
Arguments Json {w}.
Arguments JsonError {w}.

Definition doubleClickHelp : list string :=
  ["awgsocks.exe: This is a command line program, so double clicking it does nothing on its own."; "";
   "To drive it by hand, open an Administrator prompt in this folder"; "and run:"; "";
   "  " +:+ selfInvocation +:+ " --help"; ""].

(** [waitForEnter]: what is left to read.  A read fails, gives nothing, or gives a byte. *)
Inductive read := ReadErr | ReadNone | ReadByte (c : ascii).

Fixpoint waitForEnter (reads : list read) : list read :=
  match reads with
  | [] => []
  | ReadByte c :: rest => if bool_decide (c = nl) then rest else waitForEnter rest
  | _ :: rest => rest
  end.

(** [report], of an error or none. *)
Definition report_code {E A} (r : result E A) : Z := if is_ok r then 0 else 1.

(** ** The values printed by check *)

Section Check.
(** [netip.Prefix] of the upstream configuration as text, and whether a peer's preshared
    key is zero. *)
Variable cidr_String : IPCidr -> string.
Variable psk_zero : Peer -> bool.
Variable endpoint_String : Peer -> string.
Variable warning_text : warning -> string.

Definition joinPrefixes (t : Tunnel) : string := Join (Prefix_String <$> t_AddressPrefixes t) ", ".

Definition joinAddrs (t : Tunnel) : string :=
  let '(addrs, suffix) := if is_nil (t_LocalDNS t) then (t_DNS t, "") else (t_LocalDNS t, " (this PC, outside the tunnel)") in
  if is_nil addrs then "none" else Join (Addr_String <$> addrs) ", " +:+ suffix.

Definition peer_line (i : nat) (p : Peer) : string :=
  "Peer #" +:+ Itoa (Z.of_nat i + 1) +:+ "        : AllowedIPs=" +:+ Join (cidr_String <$> peer_allowed p) "," +:+
  ", PresharedKey=" +:+ (if psk_zero p then "false" else "true").

Definition check_lines (t : Tunnel) : list string :=
  ["File           : " +:+ t_Path t;
   "AWG generation : " +:+ t_Generation t;
   "Tunnel address : " +:+ joinPrefixes t;
   "DNS            : " +:+ joinAddrs t;
   "MTU            : " +:+ Ztoa (t_MTU t);
   "Endpoint       : " +:+ Endpoint_String endpoint_String t;
   (if is_nil (t_AWGParams t) then "AWG parameters : none (plain WireGuard)"
    else "AWG parameters : " +:+ Join (t_AWGParams t) ", ")] ++
  imap peer_line (cfg_Peers (t_Config t)) ++
  ((fun x => "WARNING        : " +:+ warning_text x) <$> t_Warnings t).
End Check.

(** ** Foreground runs *)

(** The temporary settings file: created, written, deleted. *)
Inductive temp_effect := CreateTemp (path : string) | SaveTemp (path : string) (a : App) | RemoveTemp (path : string).

Inductive temp_err := TSettings (e : app_err) | TCreate | TSave.

Section TempConfig.
(** [TunnelConfigPath()], [filepath.Abs], the name that [os.CreateTemp] gives, if it
    works, and whether the settings can be written there. *)
Variable TunnelConfigPath : string.
Variable Abs : string -> result error string.
Variable temp : option string.
Variable saves : bool.

Definition writeTempAppConfig (confPath level : string) : result temp_err string * list temp_effect :=
  let app := (DefaultApp TunnelConfigPath) <| ConfigPath := confPath |> in
  let app := if bool_decide (level = "") then app else app <| LogLevel := level |> in
  match Normalize TunnelConfigPath Abs app with
  | Err e => (Err (TSettings e), [])
  | Ok app =>
      match temp with
      | None => (Err TCreate, [])
      | Some path =>
          if saves then (Ok path, [CreateTemp path; SaveTemp path app]) else (Err TSave, [CreateTemp path; RemoveTemp path])
      end
  end.

Section CmdRun.
Context {T P N : Type} `{TO : !TunnelOps T} `{PO : !ProxyOps P N}.

(** What a manager with that settings path finds when it starts, and the log and the
    addresses of the machine. *)
Variable env : string -> Env.
Variable log : Level -> Logger.
Variable net : N.

Definition run_flags : flag_set := [("config", false); ("app-config", false); ("log-level", false)].

(** [cmdRun]: the exit code, the manager at the end, if there was one, and what was done to
    the temporary file.  The interrupt that ends it is waited for without a limit. *)
Definition cmdRun (args : list string) : Z * option (Manager (T := T) (P := P) (N := N)) * list temp_effect :=
  match Parse run_flags [] args with
  | Err _ => (2, None, [])
  | Ok p =>
      let conf := String_flag p "config" in
      let name := String_flag p "log-level" in
      match (if bool_decide (name = "") then Some LevelInfo else ParseLevel name) with
      | None => (1, None, [])
      | Some level =>
          let '(path, made) := if bool_decide (conf = "") then (Ok (String_flag p "app-config"), [])
                               else writeTempAppConfig conf name in
          match path with
          | Err _ => (1, None, made)
          | Ok path =>
              let removed := if bool_decide (conf = "") then [] else [RemoveTemp path] in
              match Start_mgr (env path) (NewManager (log level) net) with
              | (Some _, m) => (1, Some m, made ++ removed)
              | (None, m) => (0, Some (Stop_mgr m), made ++ removed)
              end
          end
      end
  end.
End CmdRun.
End TempConfig.

(** ** The service *)

(** The level that [runService] starts with. *)
Definition service_level (app : result app_err App) : Level :=
  match app with Ok a => default LevelInfo (ParseLevel (LogLevel a)) | Err _ => LevelInfo end.

(** [RunService]: [svc_run] is what [svc.Run] does with the handler of ServiceControl.v
    over a new manager: whether it works, and the manager when it returns. *)
Definition RunService {T P N : Type} (svc_run : Manager (T := T) (P := P) (N := N) -> bool * Manager (T := T) (P := P) (N := N))
    (log : Logger) (net : N) : bool * Manager (T := T) (P := P) (N := N) :=
  svc_run (NewManager log net).

Definition runService {T P N : Type} (app : result app_err App)
    (svc_run : Manager (T := T) (P := P) (N := N) -> bool * Manager (T := T) (P := P) (N := N))
    (log : Level -> Logger) (net : N) : Z * Manager (T := T) (P := P) (N := N) :=
  let '(ok, m) := RunService svc_run (log (service_level app)) net in (if ok then 0 else 1, m).

(** ** The commands *)

Section Cli.
Context {M w W Dev Sock Key : Type} `{Hd : !Handler M w} `{U : !Upstream W Dev Sock Key}.
Context {T P N : Type} `{TO : !TunnelOps T} `{PO : !ProxyOps P N}.

(** The state that commands share. *)
Record cli := MkCli {
  c_trace : trace;
  c_service : M;
  c_device : W;
  c_temp : list temp_effect;
  c_runtimes : list (Manager (T := T) (P := P) (N := N));
  c_out : list (line w);
}.

#[export] Instance cli_fields : Fields cli := fun r =>
  MkCli (c_trace r) (c_service r) (c_device r) (c_temp r) (c_runtimes r) (c_out r).

Definition print (l : list (line w)) (s : cli) : cli := s <| c_out ::= (fun o => o ++ l) |>.

(** What the commands find: the machine of the installer; the call over the pipe with the
    text of its errors; the state of the service for the service manager; the settings and
    the configurations; the console; what a service and a foreground run start from. *)
Variable H : Host.
Variable call : string -> M -> result call_error (Response w) * M.
Variable call_text : call_error -> string.
Variable scm : result string string.
Variable LoadApp0 : result app_err App.
Variable load_tunnel : string -> result load_err Tunnel.
Variable load_text : load_err -> string.
Variables (cidr_String : IPCidr -> string) (psk_zero : Peer -> bool) (endpoint_String : Peer -> string).
Variable conf_warning_text : warning -> string.
Variable warning_text : w -> string.
Variable Format : Z -> string.
Variable now : Z.
Variable param_keys : Status w -> list string.
Variables (isService ownsConsole : bool).
Variable svc_run : Manager (T := T) (P := P) (N := N) -> bool * Manager (T := T) (P := P) (N := N).
Variable svc_log : Level -> Logger.
Variable temp : option string.
Variable saves : bool.
Variable env : string -> Env.
Variable log : Level -> Logger.
Variable net : N.

(** *** check *)

Definition check_path (p : parsed) : string :=
  let path := String_flag p "config" in
  let path := if bool_decide (path = "") then Arg0 p else path in
  if bool_decide (path = "")
  then match LoadApp0 with Ok app => ConfigPath app | Err _ => h_confPath H end
  else path.

Definition cmdCheck (args : list string) (s : cli) : Z * cli :=
  match Parse [("config", false)] [] args with
  | Err _ => (2, s)
  | Ok p =>
      match load_tunnel (check_path p) with
      | Err e => (1, print [ErrOut ("Invalid configuration: " +:+ load_text e)] s)
      | Ok tun =>
          let s := print (Out <$> check_lines cidr_String psk_zero endpoint_String conf_warning_text tun) s in
          match DryRun (Some tun) (c_device s) with
          | (Some e, d) => (1, print [ErrOut ("Upstream validation failed: " +:+ Error e)] (s <| c_device := d |>))
          | (None, d) =>
              (0, print [Out ("Result         : valid. Accepted by " +:+ AmneziaWGGoVersion +:+ ".");
                         Out "AllowedIPs note: 0.0.0.0/0 and ::/0 are accepted but are NEVER installed as Windows routes."]
                    (s <| c_device := d |>))
          end
      end
  end.

(** *** install and uninstall *)

(** A command of the installer, over the trace. *)
Definition installer (m : IO unit) (s : cli) : Z * cli :=
  let '(r, tr) := m (c_trace s) in (report_code r, s <| c_trace := tr |>).

Definition install_flags : flag_set :=
  [("config", false); ("in-place", true); ("socks", false); ("log-level", false); ("no-autostart", true); ("start", true)].

Definition install_options (p : parsed) : InstallOptions :=
  let path := String_flag p "config" in
  MkInstallOptions (if bool_decide (path = "") then Arg0 p else path) (Bool_flag p "in-place") (String_flag p "socks")
    (String_flag p "log-level") (negb (Bool_flag p "no-autostart")) (Bool_flag p "start") helperScripts.

Definition cmdInstall (args : list string) (s : cli) : Z * cli :=
  match Parse install_flags [] args with
  | Err _ => (2, s)
  | Ok p =>
      let o := install_options p in
      let valid := if bool_decide (o_Socks5Listen o = "") then Ok tt else ValidateLoopbackListen (o_Socks5Listen o) in
      match valid with
      | Err e => (1, s)
      | Ok _ => installer (Install H o) s
      end
  end.

Definition uninstall_flags : flag_set := [("purge", true); ("keep-settings", true)].

Definition cmdUninstall (args : list string) (s : cli) : Z * cli :=
  match Parse uninstall_flags [] args with
  | Err _ => (2, s)
  | Ok p => installer (Uninstall H (Bool_flag p "purge") (Bool_flag p "keep-settings")) s
  end.

(** *** The pipe *)

Definition cmdPipe (cmd : string) (s : cli) : Z * cli :=
  let '(answer, m) := call cmd (c_service s) in
  let s := s <| c_service := m |> in
  match answer with
  | Err ErrNotRunning => (1, print [ErrOut "Error: the AWGSocks service is not running."] s)
  | Err e => (1, print [ErrOut ("Error: " +:+ call_text e)] s)
  | Ok r =>
      if negb (r_OK r) then (1, print [ErrOut ("Error: " +:+ r_Error r)] s)
      else (0, if bool_decide (r_Message r = "") then s else print [Out (r_Message r)] s)
  end.

Definition errString (answer : result call_error (Response w)) : string :=
  match answer with
  | Err e => call_text e
  | Ok r => if bool_decide (r_Error r = "") then "unknown error" else r_Error r
  end.

Definition scm_state : string :=
  match scm with
  | Ok st => if bool_decide (TrimSpace st = "") then "SCM unreadable" else st
  | Err _ => "SCM unreadable"
  end.

Definition unreadable_status (answer : result call_error (Response w)) : list (line w) :=
  [Out ("Service state  : " +:+ scm_state)] ++
  match scm with Err e => [Out ("SCM error      : " +:+ e)] | Ok _ => [] end ++
  [Out "Tunnel state   : unknown (the management pipe could not be reached)"] ++
  match answer with Err e => [Out ("Detail         : " +:+ call_text e)] | Ok _ => [] end ++
  [Out "Note           : the status command requires Administrator privileges."].

Definition cmdStatus (args : list string) (s : cli) : Z * cli :=
  match Parse [("json", true)] [] args with
  | Err _ => (2, s)
  | Ok p =>
      let asJSON := Bool_flag p "json" in
      let '(answer, m) := call CmdStatus (c_service s) in
      let s := s <| c_service := m |> in
      let report := match answer with Ok r => if r_OK r then r_Status r else None | Err _ => None end in
      match report with
      | None => (1, print (if asJSON then [JsonError scm_state (errString answer)] else unreadable_status answer) s)
      | Some st =>
          let st := MkStatus scm_state (st_ConfigPath st) (st_Tunnel st) (st_Socks5 st) (st_Versions st) (st_Warnings st) (st_Uptime st) in
          (0, print (if asJSON then [Json st] else Out <$> printStatus Format now warning_text (param_keys st) st) s)
      end
  end.

(** *** The dispatch *)

(** A runtime that ran in this process, as it ended. *)
Definition ran (m : option (Manager (T := T) (P := P) (N := N))) (s : cli) : cli :=
  s <| c_runtimes ::= (fun l => l ++ option_list m) |>.

Definition service_branch (s : cli) : Z * cli :=
  let '(code, m) := runService LoadApp0 svc_run svc_log net in (code, ran (Some m) s).

Definition foreground (args : list string) (s : cli) : Z * cli :=
  let '(code, m, t) := cmdRun (h_confPath H) (h_Abs H) temp saves env log net args in
  (code, ran m (s <| c_temp ::= (fun l => l ++ t) |>)).

Definition run (args : list string) (s : cli) : Z * cli :=
  if isService then service_branch s else
  match args with
  | [] => (0, print (if ownsConsole then Out <$> doubleClickHelp else [Usage false]) s)
  | cmd :: rest =>
      if bool_decide (cmd ∈ ["-h"; "--help"; "help"]) then (0, print [Usage false] s)
      else if bool_decide (cmd ∈ ["version"; "--version"; "-v"]) then (0, print [Out (Version_String Version Commit BuildDate)] s)
      else if bool_decide (cmd = "service") then service_branch s
      else if bool_decide (cmd = "run") then foreground rest s
      else if bool_decide (cmd = "check") then cmdCheck rest s
      else if bool_decide (cmd = "install") then cmdInstall rest s
      else if bool_decide (cmd = "uninstall") then cmdUninstall rest s
      else if bool_decide (cmd = "repair") then
        installer (RepairPermissions H) (print [Out "Repairing the permissions under the AWGSocks data directory:"] s)
      else if bool_decide (cmd = "start") then installer (StartService H) s
      else if bool_decide (cmd = "stop") then installer (StopService H) s
      else if bool_decide (cmd = "restart") then installer (RestartService H) s
      else if bool_decide (cmd = "status") then cmdStatus rest s
      else if bool_decide (cmd = "reload") then cmdPipe CmdReload s
      else if bool_decide (cmd = "reconnect") then cmdPipe CmdReconnect s
      else (2, print [ErrOut ("Unknown command: " +:+ cmd); Usage true] s)
  end.
End Cli.
