(* ===== verification/CommandProps.v ===== *)
(** What the command line guarantees: exit codes that say what happened, options that
    reach the installer as they were given, commands that touch only what they are for,
    and command lines, a service and a foreground run among them, that leave nothing
    running behind. *)

From S2P Require Import Prelude GoStrings GoNetip GoErrors SocksDial SocksServer ConfScan TunnelConf AppConf AwgTunnel BatchTun Logging Version Ipc HostConflict Manager ManagerParts ManagerInv ManagerProps ManagerRefines ServiceControl Installer InstallerRules GoFlags StatusText InstallerSafety CommandLine.

(** ** Options *)

Definition flag_if (b : bool) (n : string) : list string := if b then ["--" +:+ n] else [].

(** A command line for the options of an installation. *)
Definition install_line (o : InstallOptions) : list string :=
  ["--config"; o_ConfigPath o] ++ flag_if (o_InPlace o) "in-place" ++ ["--socks"; o_Socks5Listen o] ++
  ["--log-level"; o_LogLevel o] ++ flag_if (negb (o_AutoStartTunnel o)) "no-autostart" ++ flag_if (o_StartService o) "start".

Lemma Parse_flag_if fs acc b n rest : plain_name n -> flag_of fs n = Some true ->
  Parse fs acc (flag_if b n ++ rest) = Parse fs (acc ++ if b then [(n, "true")] else []) rest.
Proof.
  intros Hn Hf. destruct b; simpl app; [|by rewrite app_nil_r]. by rewrite Parse_flag, Hf.
Qed.

Lemma Parse_string fs acc n v rest : plain_name n -> flag_of fs n = Some false ->
  Parse fs acc (["--" +:+ n; v] ++ rest) = Parse fs (acc ++ [(n, v)]) rest.
Proof. intros Hn Hf. simpl app. by rewrite Parse_flag, Hf. Qed.

Lemma Parse_install_line o :
  Parse install_flags [] (install_line o) =
  Ok (MkParsed ([("config", o_ConfigPath o)] ++ (if o_InPlace o then [("in-place", "true")] else []) ++
        [("socks", o_Socks5Listen o); ("log-level", o_LogLevel o)] ++
        (if o_AutoStartTunnel o then [] else [("no-autostart", "true")]) ++
        (if o_StartService o then [("start", "true")] else [])) []).
Proof.
  unfold install_line. change ["--config"; o_ConfigPath o] with ["--" +:+ "config"; o_ConfigPath o].
  change ["--socks"; o_Socks5Listen o] with ["--" +:+ "socks"; o_Socks5Listen o].
  change ["--log-level"; o_LogLevel o] with ["--" +:+ "log-level"; o_LogLevel o].
  rewrite <-(app_nil_r (flag_if (o_StartService o) _)).
  rewrite Parse_string, Parse_flag_if, !Parse_string, !Parse_flag_if by first [reflexivity|unfold plain_name; by split_and!].
  simpl. by destruct (o_AutoStartTunnel o), (o_InPlace o), (o_StartService o).
Qed.

(** The options of an installation reach it exactly as they were given, whatever text
    they hold, also text that looks like a flag: the command line that spells them out
    runs that installation, and one whose listener is not a loopback address touches
    nothing and fails. *)
Theorem cmdInstall_exact {M w W T P N : Type} H path inplace socks level auto start
    (s : cli (M := M) (w := w) (W := W) (T := T) (P := P) (N := N)) :
  let o := MkInstallOptions path inplace socks level auto start helperScripts in
  (socks = "" \/ ValidateLoopbackListen socks = Ok tt -> cmdInstall H (install_line o) s = installer (Install H o) s) /\
  (socks <> "" -> is_ok (ValidateLoopbackListen socks) = false -> cmdInstall H (install_line o) s = (1, s)).
Proof.
  intros o. assert (exists l, Parse install_flags [] (install_line o) = Ok l /\ install_options l = o) as (l & Hl & Ho).
  { eexists. split; [apply Parse_install_line|]. unfold install_options, String_flag, Bool_flag, Arg0. unfold o. simpl.
    by destruct inplace, auto, start; simpl; case_bool_decide; subst. }
  unfold cmdInstall. rewrite Hl, Ho. simpl. split.
  - intros [->| ->]; [done|]. by destruct (bool_decide _).
  - intros Hne Hv. rewrite bool_decide_false by done. by destruct (ValidateLoopbackListen socks).
Qed.

(** Without elevation a command of the installer does nothing. *)
Lemma not_elevated H tr : h_elevated H = false ->
  (forall o, (Install H o tr).2 = tr) /\ (forall purge keep, (Uninstall H purge keep tr).2 = tr) /\ (RepairPermissions H tr).2 = tr /\
  (StartService H tr).2 = tr /\ (StopService H tr).2 = tr /\ (RestartService H tr).2 = tr.
Proof.
  intros He. unfold Install, Uninstall, RepairPermissions, RestartService, StopService, StartService, withService,
    mbind, io_bind, guard_io. rewrite He. split_and!; try done. intros purge keep. by destruct (purge && keep).
Qed.

(** ** Frames *)

Section Frames.
Context {M w W Dev Sock Key T P N : Type} `{U : !Upstream W Dev Sock Key}.

Variable H : Host.

Abbreviation cli := (cli (M := M) (w := w) (W := W) (T := T) (P := P) (N := N)).

(** The parts of the state. *)
Inductive part := PTrace | PService | PDevice | PTemp | PRuntime.

#[local] Instance part_eq_dec : EqDecision part.
Proof. solve_decision. Defined.

(** Only these parts may differ, and what was printed stays. *)
Record only (ps : list part) (s s' : cli) : Prop := {
  on_trace : PTrace ∉ ps -> c_trace s' = c_trace s;
  on_service : PService ∉ ps -> c_service s' = c_service s;
  on_device : PDevice ∉ ps -> c_device s' = c_device s;
  on_temp : PTemp ∉ ps -> c_temp s' = c_temp s;
  on_runtime : PRuntime ∉ ps -> c_runtimes s' = c_runtimes s;
  on_out : exists l, c_out s' = c_out s ++ l;
}.

Lemma only_refl ps s : only ps s s.
Proof. split; try done. exists []. by rewrite app_nil_r. Qed.

Lemma only_print ps l s s' : only ps s s' -> only ps s (print l s').
Proof. intros [H1 H2 H3 H4 H5 [o Ho]]. split; try done. exists (o ++ l). simpl. by rewrite Ho, app_assoc. Qed.

Lemma only_service s m : only [PService] s (s <| c_service := m |>).
Proof. split; try done; [set_solver|]. exists []. by rewrite app_nil_r. Qed.

Lemma only_device s d : only [PDevice] s (s <| c_device := d |>).
Proof. split; try done; [set_solver|]. exists []. by rewrite app_nil_r. Qed.

(** What a command does, by the parts it may change: its exit code, that an exit code of
    two means that only something was printed, and that the installer needs elevation. *)
Record tidy (ps : list part) (s : cli) (r : Z * cli) : Prop := {
  ty_code : r.1 ∈ [0; 1; 2];
  ty_only : only ps s r.2;
  ty_usage : r.1 = 2 -> only [] s r.2;
  ty_elevated : h_elevated H = false -> c_trace r.2 = c_trace s;
}.

Lemma tidy_same ps s c : c ∈ [0; 1; 2] -> tidy ps s (c, s).
Proof. intros Hc. split; [done|apply only_refl|intros _; apply only_refl|done]. Qed.

Lemma tidy_done ps s s' c : c = 0 \/ c = 1 -> only ps s s' -> (PTrace ∈ ps -> h_elevated H = false -> c_trace s' = c_trace s) ->
  tidy ps s (c, s').
Proof.
  intros Hc Ho He. split; [destruct Hc as [->| ->]; set_solver|done|destruct Hc as [->| ->]; done|].
  intros Hn. destruct (decide (PTrace ∈ ps)) as [Hp|Hp]; [by apply He|by apply (on_trace _ _ _ Ho)].
Qed.

Lemma tidy_print s c l : c ∈ [0; 1; 2] -> tidy [] s (c, print l s).
Proof. intros Hc. split; [done| | |done]; intros; apply only_print, only_refl. Qed.

Lemma tidy_installer m s l : (forall tr, h_elevated H = false -> (m tr).2 = tr) -> tidy [PTrace] s (installer m (print l s)).
Proof.
  intros Hm. unfold installer. change (c_trace (print l s)) with (c_trace s). specialize (Hm (c_trace s)).
  destruct (m (c_trace s)) as [r tr]. apply tidy_done; [unfold report_code; destruct (is_ok r); auto| |by intros _].
  split; try done; [set_solver|]. by eexists.
Qed.

Lemma print_nil (s : cli) : print [] s = s.
Proof. destruct s. unfold print. cbn. by rewrite app_nil_r. Qed.

Lemma tidy_installer_silent m s : (forall tr, h_elevated H = false -> (m tr).2 = tr) -> tidy [PTrace] s (installer m s).
Proof. intros Hm. pose proof (tidy_installer m s [] Hm) as Ht. by rewrite print_nil in Ht. Qed.

Lemma tidy_install args s : tidy [PTrace] s (cmdInstall H args s).
Proof.
  unfold cmdInstall. destruct (Parse _ _ _) as [p|e]; [|apply tidy_same; set_solver].
  destruct (if bool_decide _ then _ else _); [|apply tidy_same; set_solver].
  apply tidy_installer_silent. intros tr He. by apply not_elevated.
Qed.

Lemma tidy_uninstall args s : tidy [PTrace] s (cmdUninstall H args s).
Proof.
  unfold cmdUninstall. destruct (Parse _ _ _) as [p|e]; [|apply tidy_same; set_solver].
  apply tidy_installer_silent. intros tr He. by apply not_elevated.
Qed.

Lemma tidy_pipe call text cmd s : tidy [PService] s (cmdPipe call text cmd s).
Proof.
  unfold cmdPipe. destruct (call cmd (c_service s)) as [[r|e] m].
  - destruct (r_OK r); cbn [negb]; [|apply tidy_done; [auto|apply only_print, only_service|set_solver]].
    destruct (bool_decide _); (apply tidy_done; [auto| |set_solver]); [apply only_service|apply only_print, only_service].
  - destruct e; (apply tidy_done; [auto|apply only_print, only_service|set_solver]).
Qed.

Lemma tidy_status call text scm wt F now keys args s : tidy [PService] s (cmdStatus call text scm wt F now keys args s).
Proof.
  unfold cmdStatus. destruct (Parse _ _ _) as [p|e]; [|apply tidy_same; set_solver].
  destruct (call CmdStatus (c_service s)) as [answer m]. destruct (match answer with Ok r => _ | Err _ => _ end);
    (apply tidy_done; [auto|apply only_print, only_service|set_solver]).
Qed.

Lemma tidy_check app load lt cs pz es wt args s : tidy [PDevice] s (cmdCheck H app load lt cs pz es wt args s).
Proof.
  unfold cmdCheck. destruct (Parse _ _ _) as [p|e]; [|apply tidy_same; set_solver].
  destruct (load _) as [tun|e]; [|apply tidy_done; [auto|apply only_print, only_refl|set_solver]].
  destruct (DryRun _ _) as [[e|] d]; (apply tidy_done; [auto| |set_solver]); apply only_print; split; try done;
    try set_solver; cbn; eexists; reflexivity.
Qed.

(** A dry run leaves the devices that were there. *)
Lemma live_check `{UL : !UpstreamLaws W Dev Sock Key} app load lt cs pz es wt args (s : cli) :
  live (c_device (cmdCheck H app load lt cs pz es wt args s).2) = live (c_device s).
Proof.
  unfold cmdCheck. destruct (Parse _ _ _) as [p|e]; [|done]. destruct (load _) as [tun|e]; [|done].
  match goal with |- context [DryRun ?c ?d] => change d with (c_device s); pose proof (live_DryRun c (c_device s)) as Hl end.
  by destruct (DryRun _ _) as [[e|] d].
Qed.
End Frames.

(** ** The pipe *)

(** C21: reload and reconnect, from the command line through the pipe to the service.  The
    exit code is zero exactly when the request got through, the service carried it out
    and its answer arrived; whether or not the answer arrives, the service is as the
    operation left it once the request got through, and as it was otherwise; and the
    report of a reload is printed as the service gave it. *)
Theorem cmdPipe_truthful {M w W T P N} `{Hd : !Handler M w} quote mq uq mr ur connects writes arrives text cmd
    (s : cli (M := M) (w := w) (W := W) (T := T) (P := P) (N := N)) :
  cmd = CmdReload \/ cmd = CmdReconnect ->
  uq (mq (MkRequest cmd)) = Ok (MkRequest cmd) ->
  (exists t, mr (dispatch quote (MkRequest cmd) (c_service s)).1 = Some t /\
     ur t = Some (dispatch quote (MkRequest cmd) (c_service s)).1) ->
  let m := c_service s in
  let worked := if bool_decide (cmd = CmdReload) then is_ok (h_Reload m).1 else bool_decide ((h_Reconnect m).1 = None) in
  let '(code, s') := cmdPipe (Call quote mq uq mr ur connects writes arrives) text cmd s in
  (connects && writes = false -> code = 1 /\ c_service s' = m) /\
  (connects && writes = true ->
     c_service s' = (if bool_decide (cmd = CmdReload) then (h_Reload m).2 else (h_Reconnect m).2) /\
     (code = 0 <-> arrives = true /\ worked = true)) /\
  (forall msg, cmd = CmdReload -> code = 0 -> (h_Reload m).1 = Ok msg -> msg <> "" -> c_out s' = c_out s ++ [Out msg]).
Proof.
  intros Hc Hq Hr m. pose proof (Call_spec quote mq uq mr ur connects writes arrives cmd m Hq Hr) as Hcall.
  unfold cmdPipe. fold m. destruct (Call quote mq uq mr ur connects writes arrives cmd m) as [answer m'].
  unfold dispatch in *. cbn [Command] in *. destruct Hc as [-> | ->].
  - simpl in *. destruct (h_Reload m) as [[msg|e] m1]; cbn [fst snd is_ok] in *.
    + destruct (connects && writes).
      * destruct Hcall as [-> ->]. destruct arrives; cbn; [|by split_and!; naive_solver].
        destruct (bool_decide_reflect (msg = "")) as [->|Hne]; cbn; [split_and!; naive_solver|].
        rewrite bool_decide_false by done. split_and!; naive_solver.
      * destruct Hcall as [-> Ha]. destruct answer as [r|e]; [done|]. destruct e; cbn; split_and!; naive_solver.
    + destruct (connects && writes).
      * destruct Hcall as [-> ->]. destruct arrives; cbn; split_and!; naive_solver.
      * destruct Hcall as [-> Ha]. destruct answer as [r|e']; [done|]. destruct e'; cbn; split_and!; naive_solver.
  - simpl in *. destruct (h_Reconnect m) as [[e|] m1]; cbn [fst snd acknowledge] in *;
      (destruct (connects && writes);
       [destruct Hcall as [-> ->]; destruct arrives; cbn; split_and!; naive_solver
       |destruct Hcall as [-> Ha]; destruct answer as [r|e']; [done|]; destruct e'; cbn; split_and!; naive_solver]).
Qed.

(** ** check *)

(** A dry run.  The exit code is zero exactly when the file is a valid configuration
    that the upstream device accepts, no device is left open, and nothing else on the
    machine changes; without arguments it is the configuration of the settings. *)
Theorem cmdCheck_verdict {M w W Dev Sock Key T P N} `{U : !Upstream W Dev Sock Key} `{UL : !UpstreamLaws W Dev Sock Key}
    H app load text cidr psk endpoint warnings args
    (s : cli (M := M) (w := w) (W := W) (T := T) (P := P) (N := N)) :
  let '(code, s') := cmdCheck H app load text cidr psk endpoint warnings args s in
  only [PDevice] s s' /\ live (c_device s') = live (c_device s) /\
  match Parse [("config", false)] [] args with
  | Err _ => code = 2 /\ s' = s
  | Ok p => (code = 0 <-> exists tun, load (check_path H app p) = Ok tun /\ (DryRun (Some tun) (c_device s)).1 = None) /\
      (args = [] -> check_path H app p = match app with Ok a => ConfigPath a | Err _ => h_confPath H end)
  end.
Proof.
  pose proof (tidy_check (M := M) (w := w) (T := T) (P := P) (N := N) H app load text cidr psk endpoint warnings args s) as Ht.
  destruct (cmdCheck H app load text cidr psk endpoint warnings args s) as [code s'] eqn:Hc.
  split; [apply Ht|]. unfold cmdCheck in Hc. destruct (Parse _ _ _) as [p|e] eqn:Hp.
  2:{ by injection Hc as <- <-. }
  assert (args = [] -> check_path H app p = match app with Ok a => ConfigPath a | Err _ => h_confPath H end) as Hpath.
  { intros ->. simpl in Hp. by injection Hp as <-. }
  destruct (load (check_path H app p)) as [tun|e].
  - match type of Hc with context [c_device (print ?l ?x)] => change (c_device (print l x)) with (c_device x) in Hc end.
    pose proof (live_DryRun (Some tun) (c_device s)) as Hl. destruct (DryRun (Some tun) (c_device s)) as [[e|] d] eqn:Hdry;
      injection Hc as <- <-; (split; [exact Hl|]); (split; [|done]).
    + split; [done|]. intros (t & [= <-] & Hn). by rewrite Hdry in Hn.
    + split; [|done]. intros _. exists tun. by rewrite Hdry.
  - injection Hc as <- <-. split; [done|]. split; [|done]. split; [done|]. by intros (t & ? & _).
Qed.

(** ** Foreground runs *)

Lemma Normalize_path T Abs a a' : Normalize T Abs a = Ok a' -> Abs (or_default T (ConfigPath a)) = Ok (ConfigPath a').
Proof.
  unfold Normalize. intros (abs & Habs%map_err_Ok & Hn)%bind_Ok. apply bind_Ok in Hn as ([] & _ & Hn). simpl in Hn.
  destruct (negb _); [done|]. destruct (bool_decide (_ ∉ _)); [done|].
  destruct (MaxConnections a <? 0); [done|]. destruct (_ || _); [done|]. by injection Hn as <-.
Qed.

Lemma writeTemp_spec Tp Abs temp saves conf level :
  let '(r, t) := writeTempAppConfig Tp Abs temp saves conf level in
  match r with
  | Ok path => temp = Some path /\ exists a, t = [CreateTemp path; SaveTemp path a] /\ normalized a /\
      (TrimSpace conf <> "" -> Abs conf = Ok (ConfigPath a))
  | Err _ => t = [] \/ exists path, t = [CreateTemp path; RemoveTemp path]
  end.
Proof.
  unfold writeTempAppConfig. set (app := if bool_decide (level = "") then _ else _).
  assert (ConfigPath app = conf) as Hc by (unfold app; by destruct (bool_decide _)).
  destruct (Normalize Tp Abs app) as [a|e] eqn:Hn; [|by left].
  destruct temp as [path|]; [|by left]. destruct saves; [|by right; exists path].
  split; [done|]. exists a. split; [done|]. split; [by eapply Normalize_normalized|].
  intros Hne. apply Normalize_path in Hn. rewrite Hc in Hn. unfold or_default in Hn. by rewrite bool_decide_false in Hn.
Qed.

#[local] Set Default Proof Using "Type*".

Section Foreground.
Context {T P N : Type} `{TO : !TunnelOps T} `{TL : !TunnelLaws T} `{PO : !ProxyOps P N} `{PL : !ProxyLaws P N}.


(** A manager that is stopped altogether. *)
Definition stopped_mgr (m : Manager (T := T) (P := P) (N := N)) : Prop :=
  m_running m = false /\ down m /\ m_retry m = None /\ forall p, m_socks m = Some p -> px_Listening p = false.

Lemma inv_stopped (m : Manager (T := T) (P := P) (N := N)) : mgr_inv m -> m_running m = false -> stopped_mgr m.
Proof. intros I Hr. destruct (mi_stopped _ I Hr) as (? & ? & _ & _ & _ & ?). done. Qed.

Lemma started_or_not env (m : Manager (T := T) (P := P) (N := N)) : mgr_inv m -> m_running m = false ->
  match Start_mgr env m with (Some _, m') => stopped_mgr m' | (None, m') => stopped_mgr (Stop_mgr m') end.
Proof.
  intros I Hr. destruct (Start_outcomes env m I) as [I' Ho]. destruct (Start_mgr env m) as [[e|] m']; cbn [snd] in I'.
  - apply inv_stopped; [done|]. destruct e; destruct Ho as [H1 H2]; try done; try (by subst); by destruct H2 as [l ->].
  - apply inv_stopped; [by apply mgr_Stop|by apply Stop_mgr_running].
Qed.

(** The manager of a foreground run is stopped, and its temporary file gone. *)
Lemma cmdRun_stops Tp Abs temp saves env log (net : N) args :
  let '(_, m, t) := cmdRun (T := T) (P := P) Tp Abs temp saves env log net args in
  (forall m', m = Some m' -> stopped_mgr m') /\ (forall path, RemoveTemp path ∈ t <-> CreateTemp path ∈ t).
Proof.
  unfold cmdRun. destruct (Parse run_flags [] args) as [p|e]; [|split; [done|set_solver]].
  destruct (if bool_decide (String_flag p "log-level" = "") then _ else _) as [level|]; [|split; [done|set_solver]].
  set (conf := String_flag p "config"). set (name := String_flag p "log-level").
  pose proof (writeTemp_spec Tp Abs temp saves conf name) as Hw.
  pose proof (fun path => started_or_not (env path) (NewManager (log level) net) (inv_new (log level) net) eq_refl) as Hst.
  destruct (bool_decide (conf = "")).
  - specialize (Hst (String_flag p "app-config")).
    destruct (Start_mgr _ _) as [[e|] m]; (split; [by intros m' [= <-]|set_solver]).
  - destruct (writeTempAppConfig Tp Abs temp saves conf name) as [[path|e] t].
    + destruct Hw as (_ & a & -> & _). specialize (Hst path). destruct (Start_mgr _ _) as [[e|] m];
        (split; [by intros m' [= <-]|intros q; simpl; rewrite !elem_of_cons; naive_solver set_solver]).
    + split; [done|]. destruct Hw as [->|[path ->]]; [set_solver|]. intros q. rewrite !elem_of_cons. naive_solver set_solver.
Qed.

(** C22: a foreground run.  Whatever happens, it ends with the service stopped: no tunnel
    up, none about to be tried, no listener; it deletes the temporary settings that it
    made and nothing else; with [--config], those settings are valid and name that
    configuration; and an exit code of zero means that the service had started, with
    these settings or with the ones that [--app-config] names. *)
Theorem cmdRun_leaves_nothing Tp Abs temp saves env log (net : N) args :
  let '(code, m, t) := cmdRun (T := T) (P := P) Tp Abs temp saves env log net args in
  (forall m', m = Some m' -> stopped_mgr m') /\
  (forall path, RemoveTemp path ∈ t <-> CreateTemp path ∈ t) /\
  (forall path a, SaveTemp path a ∈ t -> exists p, Parse run_flags [] args = Ok p /\ temp = Some path /\
     normalized a /\ (TrimSpace (String_flag p "config") <> "" -> Abs (String_flag p "config") = Ok (ConfigPath a))) /\
  (code = 0 -> exists p level path, Parse run_flags [] args = Ok p /\
     (Start_mgr (env path) (NewManager (log level) net : Manager (T := T) (P := P) (N := N))).1 = None /\
     (if bool_decide (String_flag p "config" = "") then path = String_flag p "app-config" else temp = Some path)).
Proof.
  pose proof (cmdRun_stops Tp Abs temp saves env log net args) as Hs. unfold cmdRun in *.
  destruct (Parse run_flags [] args) as [p|e] eqn:Hp; [|destruct Hs; split_and!; try done; intros; set_solver].
  destruct (if bool_decide (String_flag p "log-level" = "") then _ else _) as [level|];
    [|destruct Hs; split_and!; try done; intros; set_solver].
  set (conf := String_flag p "config") in *. set (name := String_flag p "log-level") in *.
  pose proof (writeTemp_spec Tp Abs temp saves conf name) as Hw.
  destruct (bool_decide_reflect (conf = "")) as [Hc|Hc].
  - destruct (Start_mgr _ _) as [[e|] m] eqn:Hm; destruct Hs; split_and!; try done; [set_solver..|].
    intros _. exists p, level, (String_flag p "app-config"). fold conf. rewrite bool_decide_true by done. by rewrite Hm.
  - destruct (writeTempAppConfig Tp Abs temp saves conf name) as [[path|e] t].
    + destruct Hw as (Ht & a & -> & Ha & Hpath).
      assert (forall q b, SaveTemp q b ∈ [CreateTemp path; SaveTemp path a] ++ [RemoveTemp path] -> q = path /\ b = a) as H2
        by (intros q b; simpl; rewrite !elem_of_cons; naive_solver set_solver).
      destruct (Start_mgr _ _) as [[e|] m] eqn:Hm; destruct Hs; split_and!; try done; [intros q b [-> ->]%H2; by exists p..|].
      intros _. exists p, level, path. fold conf. rewrite bool_decide_false by done. by rewrite Hm.
    + destruct Hs. split_and!; try done. intros q b. destruct Hw as [->|[path ->]]; rewrite ?elem_of_cons; naive_solver set_solver.
Qed.
End Foreground.

(** ** The whole command line *)

(** The parts of the state that a command is for. *)
Definition parts_of (cmd : string) : list part :=
  if bool_decide (cmd ∈ ["install"; "uninstall"; "repair"; "start"; "stop"; "restart"]) then [PTrace]
  else if bool_decide (cmd ∈ ["status"; "reload"; "reconnect"]) then [PService]
  else if bool_decide (cmd = "check") then [PDevice]
  else if bool_decide (cmd = "run") then [PTemp; PRuntime]
  else if bool_decide (cmd = "service") then [PRuntime]
  else [].

(** The parts that a command line is for: started by the service manager, its arguments do
    not matter. *)
Definition line_parts (isService : bool) (args : list string) : list part :=
  if isService then [PRuntime] else match args with [] => [] | cmd :: _ => parts_of cmd end.

Lemma parts_of_other cmd : cmd ∉ ["install"; "uninstall"; "repair"; "start"; "stop"; "restart"; "status"; "reload"; "reconnect"; "check"; "run"; "service"] ->
  parts_of cmd = [].
Proof. intros Hn. unfold parts_of. by rewrite !bool_decide_false by set_solver. Qed.

Lemma parts_of_plain cmd : cmd ∈ ["-h"; "--help"; "help"] ++ ["version"; "--version"; "-v"] -> parts_of cmd = [].
Proof. simpl. intros Hc. repeat (apply elem_of_cons in Hc as [->|Hc]; [by vm_compute|]). by apply elem_of_nil in Hc. Qed.

Lemma run_codes {T P N} `{TO : !TunnelOps T} `{PO : !ProxyOps P N} path Abs temp saves env log (net : N) args :
  let '(code, m, t) := cmdRun (T := T) (P := P) path Abs temp saves env log net args in
  code ∈ [0; 1; 2] /\ (code = 2 -> t = [] /\ m = None).
Proof.
  unfold cmdRun. destruct (Parse _ _ _) as [p|e]; [|by split; [set_solver|]].
  destruct (if bool_decide _ then _ else _); [|by split; [set_solver|]].
  destruct (if bool_decide _ then _ else _) as [[pt|e] made]; [|by split; [set_solver|]].
  destruct (Start_mgr _ _) as [[e|] m]; by split; [set_solver|].
Qed.

#[local] Set Default Proof Using "All".

Section Run.
Context {M w W Dev Sock Key : Type} `{U : !Upstream W Dev Sock Key} `{UL : !UpstreamLaws W Dev Sock Key}.
Context {T P N : Type} `{TO : !TunnelOps T} `{TL : !TunnelLaws T} `{PO : !ProxyOps P N} `{PL : !ProxyLaws P N}.
Variable H : Host.
Variable call : string -> M -> result call_error (Response w) * M.
Variable call_text : call_error -> string.
Variable scm : result string string.
Variable LoadApp0 : result app_err App.
Variable load_tunnel : string -> result load_err Tunnel.
Variable load_text : load_err -> string.
Variables (cidr_String : IPCidr -> string) (psk_zero : Peer -> bool) (endpoint_String : Peer -> string).
Variable conf_warning_text : warning -> string.
Variable warning_text : w -> string.
Variable Format : Z -> string.
Variable now : Z.
Variable param_keys : Status w -> list string.
Variables (isService ownsConsole : bool).
Variable svc_run : Manager (T := T) (P := P) (N := N) -> bool * Manager (T := T) (P := P) (N := N).
Variable svc_log : Level -> Logger.
Variable temp : option string.
Variable saves : bool.
Variable env : string -> Env.
Variable log : Level -> Logger.
Variable net : N.
Variables (quote : string -> string) (GoVersion : string) (app_text : app_err -> string).

Abbreviation cli := (cli (M := M) (w := w) (W := W) (T := T) (P := P) (N := N)).
Abbreviation run := (run (M := M) (W := W) (T := T) H call call_text scm LoadApp0 load_tunnel load_text cidr_String psk_zero endpoint_String
  conf_warning_text warning_text Format now param_keys isService ownsConsole svc_run svc_log temp saves env log net).

(** [svc.Run] fails before it calls the handler, or calls its [Execute] and returns when
    that has returned. *)
Definition svc_law : Prop := forall m,
  svc_run m = (false, m) \/
  exists x specific code, rtc (exec_step endpoint_String quote GoVersion app_text load_text) (execute m) x /\
    x_pc x = XDone specific code /\ x_mgr x = (svc_run m).2.

(** Nothing that a command line made is left: devices are as they were, the temporary
    files that were made are deleted, and the runtime that ran, if one did, is stopped. *)
Record leaves_nothing (s s' : cli) : Prop := {
  ln_device : live (c_device s') = live (c_device s);
  ln_temp : exists t, c_temp s' = c_temp s ++ t /\ forall path, RemoveTemp path ∈ t <-> CreateTemp path ∈ t;
  ln_runtime : exists rs, c_runtimes s' = c_runtimes s ++ rs /\ (length rs <= 1)%nat /\ forall m, m ∈ rs -> stopped_mgr m;
}.

Lemma only_leaves ps (s s' : cli) : only ps s s' -> PDevice ∉ ps -> PTemp ∉ ps -> PRuntime ∉ ps -> leaves_nothing s s'.
Proof.
  intros Ho H1 H2 H3. split.
  - by rewrite (on_device _ _ _ Ho).
  - exists []. rewrite (on_temp _ _ _ Ho) by done. split; [by rewrite app_nil_r|set_solver].
  - exists []. rewrite (on_runtime _ _ _ Ho) by done. split; [by rewrite app_nil_r|]. split; [simpl; lia|set_solver].
Qed.

Lemma svc_stopped m : mgr_inv m -> m_running m = false -> svc_law -> stopped_mgr (svc_run m).2.
Proof.
  intros I Hr Hl. destruct (Hl m) as [->|(x & specific & code & Hx & Hd & <-)]; [by apply inv_stopped|].
  assert (exec_inv x) as [Ix Hi].
  { assert (exec_inv (execute m)) as I0 by (split; [done|split; [by exists 0%nat|done]]). clear Hd.
    induction Hx as [x|x y z Hxy _ IH]; [done|]. apply IH. by eapply exec_step_inv. }
  apply inv_stopped; [done|]. rewrite Hd in Hi. by destruct specific, Hi as (? & ? & ?).
Qed.

Lemma service_tidy s : svc_law ->
  let r := service_branch LoadApp0 svc_run svc_log net s in tidy H [PRuntime] s r /\ r.1 <> 2 /\ leaves_nothing s r.2.
Proof.
  intros Hl. unfold service_branch, runService, RunService.
  pose proof (svc_stopped (NewManager (svc_log (service_level LoadApp0)) net) (inv_new _ _) eq_refl Hl) as Hs.
  destruct (svc_run _) as [ok m]. cbn [snd fst] in *. split_and!.
  - apply tidy_done; [destruct ok; auto| |set_solver]. split; try done; [set_solver|]. exists []. by rewrite app_nil_r.
  - by destruct ok.
  - split; [done|exists []; split; [by rewrite app_nil_r|set_solver]|].
    exists [m]. split; [done|]. split; [simpl; lia|]. by intros m' ->%list_elem_of_singleton.
Qed.

Lemma foreground_tidy args s :
  let r := foreground H temp saves env log net args s in tidy H [PTemp; PRuntime] s r /\ leaves_nothing s r.2.
Proof.
  unfold foreground. pose proof (run_codes (T := T) (P := P) (h_confPath H) (h_Abs H) temp saves env log net args) as Hr.
  pose proof (cmdRun_stops (h_confPath H) (h_Abs H) temp saves env log net args) as Hs.
  destruct (cmdRun _ _ _ _ _ _ _ _) as [[code m] t]. destruct Hr as [Hc Hu], Hs as [Hm Ht]. split; [split|split]; cbn [fst snd].
  - done.
  - split; try done; [set_solver..|]. exists []. by rewrite app_nil_r.
  - intros E. destruct (Hu E) as [-> ->]. split; try done; [intros _; apply app_nil_r..|]. exists []. by rewrite app_nil_r.
  - done.
  - done.
  - by exists t.
  - exists (option_list m). split; [done|]. split; [by destruct m; simpl; lia|]. intros m' Hm'. apply Hm.
    destruct m; cbn in Hm'; [by apply list_elem_of_singleton in Hm' as ->|by apply elem_of_nil in Hm'].
Qed.

Lemma tidy_leaves ps s r : tidy H ps s r -> ps = [] \/ ps = [PTrace] \/ ps = [PService] -> tidy H ps s r /\ leaves_nothing s r.2.
Proof.
  intros Ht Hp. split; [done|]. apply (only_leaves ps); [apply Ht|..];
    clear -Hp; destruct Hp as [->|[->| ->]]; set_solver.
Qed.

Lemma run_behaves cmd rest s : isService = false -> svc_law ->
  tidy H (parts_of cmd) s (run (cmd :: rest) s) /\ leaves_nothing s (run (cmd :: rest) s).2.
Proof.
  intros Hs Hl. unfold CommandLine.run. rewrite Hs.
  destruct (bool_decide_reflect (cmd ∈ ["-h"; "--help"; "help"])) as [Hc|H1].
  { rewrite parts_of_plain by (apply elem_of_app; by left). apply tidy_leaves; [apply tidy_print; by left|auto]. }
  destruct (bool_decide_reflect (cmd ∈ ["version"; "--version"; "-v"])) as [Hc|H2].
  { rewrite parts_of_plain by (apply elem_of_app; by right). apply tidy_leaves; [apply tidy_print; by left|auto]. }
  destruct (bool_decide_reflect (cmd = "service")) as [->|H3]; [destruct (service_tidy s Hl) as (? & _ & ?); by split|].
  destruct (bool_decide_reflect (cmd = "run")) as [->|H4]; [apply foreground_tidy|].
  destruct (bool_decide_reflect (cmd = "check")) as [->|H5].
  { set (r := cmdCheck _ _ _ _ _ _ _ _ _ _). pose proof (tidy_check H LoadApp0 load_tunnel load_text cidr_String psk_zero
      endpoint_String conf_warning_text rest s : tidy H [PDevice] s r) as Ht. split; [exact Ht|]. destruct Ht as [_ Ho _ _]. split.
    - apply live_check.
    - exists []. rewrite (on_temp _ _ _ Ho) by set_solver. split; [by rewrite app_nil_r|set_solver].
    - exists []. rewrite (on_runtime _ _ _ Ho) by set_solver. split; [by rewrite app_nil_r|]. split; [simpl; lia|set_solver]. }
  destruct (bool_decide_reflect (cmd = "install")) as [->|H6]; [apply tidy_leaves; [apply tidy_install|auto]|].
  destruct (bool_decide_reflect (cmd = "uninstall")) as [->|H7]; [apply tidy_leaves; [apply tidy_uninstall|auto]|].
  destruct (bool_decide_reflect (cmd = "repair")) as [->|H8].
  { apply tidy_leaves; [|auto]. apply tidy_installer. intros tr He. by apply not_elevated. }
  destruct (bool_decide_reflect (cmd = "start")) as [->|H9].
  { apply tidy_leaves; [|auto]. apply tidy_installer_silent. intros tr He. by apply not_elevated. }
  destruct (bool_decide_reflect (cmd = "stop")) as [->|H10].
  { apply tidy_leaves; [|auto]. apply tidy_installer_silent. intros tr He. by apply not_elevated. }
  destruct (bool_decide_reflect (cmd = "restart")) as [->|H11].
  { apply tidy_leaves; [|auto]. apply tidy_installer_silent. intros tr He. by apply not_elevated. }
  destruct (bool_decide_reflect (cmd = "status")) as [->|H12]; [apply tidy_leaves; [apply tidy_status|auto]|].
  destruct (bool_decide_reflect (cmd = "reload")) as [->|H13]; [apply tidy_leaves; [apply tidy_pipe|auto]|].
  destruct (bool_decide_reflect (cmd = "reconnect")) as [->|H14]; [apply tidy_leaves; [apply tidy_pipe|auto]|].
  rewrite parts_of_other by (clear -H3 H4 H5 H6 H7 H8 H9 H10 H11 H12 H13 H14; set_solver).
  apply tidy_leaves; [apply tidy_print; by do 2 right; left|auto].
Qed.

End Run.

(** A reload that a service refuses: the command fails and says why. *)
Lemma cmdPipe_truthful_witness :
  let refused := failed (w := string) "cannot" in
  let s := MkCli (w := string) (W := unit) (T := unit) (P := unit) (N := unit) [] true tt [] [] [] in
  let r := cmdPipe (@Call bool string switch_handler id Command (fun t => Ok (MkRequest t)) (fun _ => Some "no") (fun _ => Some refused)
             true true true) (fun _ => "") CmdReload s in
  r.1 <> 0 /\ c_service r.2 = true.
Proof.
  intros refused s r.
  pose proof (cmdPipe_truthful (Hd := switch_handler) id Command (fun t => Ok (MkRequest t)) (fun _ => Some "no")
    (fun _ => Some refused) true true true (fun _ => "") CmdReload s (or_introl eq_refl) eq_refl
    (ex_intro _ "no" (conj eq_refl eq_refl))) as Hp.
  cbv zeta in Hp. fold r in Hp. destruct r as [code s']. destruct Hp as (_ & Hp & _). destruct (Hp eq_refl) as [Hs Hc]. cbn [fst snd].
  split; [|exact Hs]. intros E. by destruct Hc as [Hc _]; destruct (Hc E).
Defined.

Import ToyRuntime.

(** A run with a configuration of its own, on the concrete runtime. *)
Lemma cmdRun_leaves_nothing_witness :
  let r := cmdRun (T := BindMode * AWG ToyDevice.world nat string) (P := Server) "C:\client.conf" abs_of (Some "C:\t.json") true
             (fun _ => usual) (fun _ => some_logger) (∅ : gset string) ["--config"; "C:\x.conf"] in
  r.1.1 = 0 /\ RemoveTemp "C:\t.json" ∈ r.2 /\ forall m, r.1.2 = Some m -> stopped_mgr m.
Proof.
  intros r. assert (r.1.1 = 0) as H0 by (by vm_compute).
  assert (CreateTemp "C:\t.json" ∈ r.2) as Hc by (vm_compute; by left).
  pose proof (cmdRun_leaves_nothing "C:\client.conf" abs_of (Some "C:\t.json") true (fun _ => usual) (fun _ => some_logger)
    (∅ : gset string) ["--config"; "C:\x.conf"]) as H.
  fold r in H. destruct r as [[code m] t]. destruct H as (Hm & Ht & _). split; [exact H0|]. split; [by apply Ht|exact Hm].
Defined.

(** A service manager that starts the handler and stops it at once. *)
Definition start_stop (m : runtime) : bool * runtime :=
  let '(e, m') := Start_mgr usual m in (true, match e with None => Stop_mgr m' | Some _ => m' end).

Lemma start_stop_law : svc_law no_text no_text start_stop id "go" no_text.
Proof.
  intros m. right. unfold start_stop. destruct (Start_mgr usual m) as [[e|] m'] eqn:Hs.
  - exists (MkExec (XDone true 1) [StartPending 0] m'), true, 1. split; [|done]. by apply rtc_once, (x_failed _ _ _ _ _ usual e).
  - exists (MkExec (XDone false 0) ([StartPending 0; RunningReport] ++ [StopPending]) (Stop_mgr m')), false, 0. split; [|done].
    eapply rtc_l; [by apply (x_started _ _ _ _ _ usual _ _ m')|]. eapply rtc_l; [apply (x_stop _ _ _ _ _ [StartPending 0; RunningReport])|].
    apply rtc_once, x_shutdown.
Qed.

