(* ===== verification/Usage.v ===== *)
(** The usage text of src/cmd/awgsocks/main.go, against what the program understands. *)

From S2P Require Import Prelude GoStrings Version AppConf AwgTunnel Manager GoFlags Installer CommandLine.

(** A double quote. *)
Definition dq : string := String (chr 34) "".

(** The text, line by line, of a version. *)
Definition usage_lines (v : string) : list string :=
  ["AWGSocks " +:+ v +:+ " - an AmneziaWG userspace tunnel exposed as a local SOCKS5 proxy";
   "";
   "Usage:";
   "  awgsocks <command> [options]";
   "";
   "Commands:";
   "  version                      Print the version and the pinned upstream identities";
   "  check --config <file>        Validate a configuration (dry run, sends no packets)";
   "  install --config <file>      Install the Windows service";
   "  uninstall [--purge | --keep-settings]";
   "                               Remove the Windows service";
   "  start | stop | restart       Control the service";
   "  status [--json]              Show service, tunnel and SOCKS5 state";
   "  reload                       Reload the configuration without dropping a healthy tunnel";
   "  reconnect                    Force a fresh AmneziaWG handshake";
   "  repair                       Put the file permissions back as installed";
   "  run [--config <file>]        Run in the foreground, for debugging";
   "";
   "install options:";
   "  --config <file>              AmneziaWG .conf file (required)";
   "  --in-place                   Use the file where it is instead of copying it to ProgramData";
   "  --socks <address>            SOCKS5 listen address (default " +:+ DefaultSocksListen +:+ ")";
   "  --log-level <level>          debug|info|warn|error (default " +:+ DefaultLogLevel +:+ ")";
   "  --no-autostart               Do not bring the tunnel up when the service starts";
   "  --start                      Start the service once it is installed";
   "";
   "Notes:";
   "  - SOCKS5 binds a loopback address only and uses no authentication.";
   "  - The Windows default route, gateway, system DNS and system proxy settings are";
   "    never modified. This is not a system wide VPN.";
   "  - install, uninstall, start, stop, restart, status, reload, reconnect and";
   "    repair all require Administrator privileges.";
   "  - install keeps the settings in an existing config.json and only points it at";
   "    the new .conf, so uninstall --keep-settings followed by install is a reinstall.";
   "  - install copies awgsocks.exe and these scripts to C:\Program Files\AWGSocks,";
   "    and the service runs from there as NT SERVICE\AWGSocks, not LocalSystem.";
   "  - Use repair if Explorer was allowed to " +:+ dq +:+ "grant permanent access" +:+ dq +:+ " to";
   "    C:\ProgramData\AWGSocks. That hands the interactive user Full control of";
   "    the directory holding your private key, which repair undoes.";
   "";
   ""].

Definition usage : string := Join (usage_lines Version) (String nl "").

(** ** What it documents *)

(** The lines under a heading, up to the next empty one. *)
Fixpoint until_empty (l : list string) : list string :=
  match l with
  | [] => []
  | x :: l => if bool_decide (x = "") then [] else x :: until_empty l
  end.

Fixpoint section (heading : string) (l : list string) : list string :=
  match l with
  | [] => []
  | x :: l => if bool_decide (x = heading) then until_empty l else section heading l
  end.

(** The entry that starts on a line: what is indented by two spaces, not more. *)
Definition usage_entry (l : string) : option string :=
  match CutPrefix l "  " with
  | Some r => if HasPrefix r " " then None else Some r
  | None => None
  end.

Definition first_word (s : string) : string := before_byte " " (TrimSpace s).

(** The commands and the options of an installation that the text names. *)
Definition documented_commands : list string :=
  filter (fun c => HasPrefix c "-" = false)
    (omap usage_entry (section "Commands:" (usage_lines Version)) ≫= fun l => first_word <$> Split "|" l).

Definition documented_options : list string :=
  omap (fun l => CutPrefix (first_word l) "--") (omap usage_entry (section "install options:" (usage_lines Version))).

Example documented :
  documented_commands = ["version"; "check"; "install"; "uninstall"; "start"; "stop"; "restart"; "status"; "reload"; "reconnect"; "repair"; "run"] /\
  documented_options = ["config"; "in-place"; "socks"; "log-level"; "no-autostart"; "start"].
Proof. by vm_compute. Qed.

(** ** It is what the program understands *)

(** Other names of what is documented, and the argument that the service is started with. *)
Definition other_commands : list string := ["-h"; "--help"; "help"; "--version"; "-v"; "service"].

(** The usage text is complete: a command that it does not name, nor the texts above, is
    refused with it, exit code 2, and nothing else happens; and the options of an
    installation that it names are those that the program takes. *)
Theorem usage_complete {M w W Dev Sock Key T P N} `{U : !Upstream W Dev Sock Key} `{TO : !TunnelOps T} `{PO : !ProxyOps P N}
    H call call_text scm app load_tunnel load_text cidr psk ep cwt wt Format now keys console svc svc_log temp saves env log net
    cmd rest (s : cli (M := M) (w := w) (W := W) (T := T) (P := P) (N := N)) :
  cmd ∉ documented_commands ++ other_commands ->
  run (T := T) (P := P) (N := N) H call call_text scm app load_tunnel load_text cidr psk ep cwt wt Format now keys false
    console svc svc_log temp saves env log net (cmd :: rest) s
  = (2, print [ErrOut ("Unknown command: " +:+ cmd); Usage true] s) /\
  documented_options = fst <$> install_flags.
Proof.
  destruct documented as [-> ->]. intros Hc. split; [|done]. unfold run, other_commands in *.
  repeat (rewrite bool_decide_false by (first [intros ->; apply Hc; set_solver|intros Hin; apply Hc; set_solver])). done.
Qed.
