(* ===== verification/NetLoop.v ===== *)
(** The goroutine that [startNetworkWatcher] of src/internal/service/manager.go starts: it
    takes address changes from the watcher (NetWatch.v), checks for a conflict at each, and
    lets the tunnel settle once a burst of them has been quiet for two seconds.

    The machine is the select loop with its timer, the watcher and the clock; what else
    happens to the service in between is a step of its own.  A timer of Go holds no stale
    value: after [Reset] its channel is ready at the new deadline and not before. *)

From S2P Require Import Prelude SocksServer AwgTunnel BatchTun HostConflict Manager ManagerParts ManagerProps NetWatch.

#[local] Set Default Proof Using "Type".

Definition networkChangeDebounce : Z := 2 * 10 ^ 9.

(** What the environment sees, the newest first: Windows changed an address while the
    watcher was registered; the loop took the notification; it let the service settle. *)
Inductive observed := Changed | Told (t : Z) | Settled (t : Z).

Section Loop.
Context {T P N : Type} `{TO : !TunnelOps T} `{PO : !ProxyOps P N}.
Variable i : nat.

Abbreviation Manager := (Manager (T := T) (P := P) (N := N)).

(** [timer] is its deadline, if it was made and has not fired, and [timerC] whether the
    loop listens to it. *)
Record loop := MkLoop {
  l_clock : Z;
  l_watch : watching;
  l_timer : option Z;
  l_timerC : bool;
  l_ended : bool;
  l_mgr : Manager;
  l_log : list observed;
}.

#[export] Instance loop_fields : Fields loop := fun r =>
  MkLoop (l_clock r) (l_watch r) (l_timer r) (l_timerC r) (l_ended r) (l_mgr r) (l_log r).

(** [watcher.Start] has succeeded. *)
Definition loop_start (clock : Z) (m : Manager) : loop :=
  MkLoop clock (Start_watcher true true i (NewNetworkWatcher i (MkWatching ∅ None))).2 None false false m [].

(** [networkChanged]. *)
Definition networkChanged (env : Env) (m : Manager) : Manager := (checkConflict env m).2.

(** The branch of a notification: the timer is made or reset. *)
Definition on_event (env : Env) (n : watching) (s : loop) : loop :=
  s <| l_watch := n |> <| l_mgr := networkChanged env (l_mgr s) |>
    <| l_timer := Some (l_clock s + networkChangeDebounce) |> <| l_timerC := true |>
    <| l_log := Told (l_clock s) :: l_log s |>.

(** The branch of the timer. *)
Definition on_timer (env : Env) (s : loop) : loop :=
  s <| l_timer := None |> <| l_timerC := false |> <| l_mgr := networkSettled env (l_mgr s) |>
    <| l_log := Settled (l_clock s) :: l_log s |>.

Definition registered_now (n : watching) : bool :=
  match n_watchers n !! i with Some w => w_started w | None => false end.

Definition timer_ready (s : loop) : bool :=
  l_timerC s && match l_timer s with Some t => t <=? l_clock s | None => false end.

Inductive loop_step : loop -> loop -> Prop :=
| ls_time s t : l_clock s <= t -> loop_step s (s <| l_clock := t |>)
| ls_change s : loop_step s (s <| l_watch := address_change (l_watch s) |>
    <| l_log := if registered_now (l_watch s) then Changed :: l_log s else l_log s |>)
| ls_stop s : loop_step s (s <| l_watch := Stop_watcher i (l_watch s) |>)
| ls_other s m : loop_step s (s <| l_mgr := m |>)
| ls_event s n env : l_ended s = false -> receive i (l_watch s) = Some n -> loop_step s (on_event env n s)
| ls_timer s env : l_ended s = false -> timer_ready s = true -> loop_step s (on_timer env s)
| ls_done s : loop_step s (s <| l_ended := true |>).

(** ** Invariant *)

Definition by_loop (x : observed) : Prop := match x with Changed => False | _ => True end.

#[global] Instance by_loop_dec x : Decision (by_loop x).
Proof. destruct x; simpl; apply _. Defined.

(** What the loop did last, and whether something changed after it was last told. *)
Definition last_done (log : list observed) : option observed := head (filter by_loop log).

Fixpoint untold (log : list observed) : bool :=
  match log with
  | [] => false
  | Changed :: _ => true
  | Told _ :: _ => false
  | Settled _ :: log => untold log
  end.

(** A settling comes two seconds or more after the last notification before it, which no
    other settling answered. *)
Definition in_time (log : list observed) : Prop :=
  forall later t before, log = later ++ Settled t :: before ->
  exists t0, last_done before = Some (Told t0) /\ t0 + networkChangeDebounce <= t.

Record loop_inv (s : loop) : Prop := {
  li_watch : exists w, n_watchers (l_watch s) = {[i := w]} /\
    (w_started w = true -> n_channel (l_watch s) = Some i) /\ (untold (l_log s) = true -> w_token w = true);
  li_timer : match last_done (l_log s) with
    | Some (Told t) => l_timerC s = true /\ l_timer s = Some (t + networkChangeDebounce) /\ t <= l_clock s
    | _ => l_timerC s = false
    end;
  li_log : in_time (l_log s);
}.

Lemma in_time_other x log : (forall t, x <> Settled t) -> in_time log -> in_time (x :: log).
Proof.
  intros Hx Hl [|y later] t before He; simplify_eq/=; [by destruct (Hx t)|]. by eapply Hl.
Qed.

Lemma in_time_settled t t0 log : last_done log = Some (Told t0) -> t0 + networkChangeDebounce <= t -> in_time log ->
  in_time (Settled t :: log).
Proof. intros Hl Ht Hi [|y later] t' before He; simplify_eq/=; [by exists t0|]. by eapply Hi. Qed.

Lemma loop_inv_start clock m : loop_inv (loop_start clock m).
Proof.
  split; [|done|by intros [|? ?] t before He].
  exists (MkWatcher true false). unfold loop_start, Start_watcher, NewNetworkWatcher. simpl.
  rewrite lookup_insert_eq. simpl. split; [|done]. rewrite insert_insert_eq. by rewrite insert_empty.
Qed.

Lemma loop_inv_step s s' : loop_inv s -> loop_step s s' -> loop_inv s'.
Proof.
  intros [(w & Hw & Hc & Hu) Ht Hl] Hs.
  destruct Hs as [s t Hle|s|s|s m|s n env He Hr|s env He Hr|s]; destruct s as [clock n0 ti tc en m0 lg]; simpl in *.
  - split; simpl; [by exists w| |done]. destruct (last_done lg) as [[|t0|t0]|]; try done.
    destruct Ht as (H1 & H2 & H3). split_and!; try done; lia.
  - unfold registered_now. rewrite Hw, lookup_singleton_eq. split; simpl.
    + destruct (w_started w) eqn:Hst.
      * exists (w <| w_token := true |>). rewrite (address_change_own i n0 w) by (done || (intros _; by apply Hc)). rewrite Hst.
        split_and!; [done|intros _; by apply Hc|done].
      * exists w. rewrite (address_change_own i n0 w) by (done || (rewrite Hst; done)). rewrite Hst. by split_and!.
    + by destruct (w_started w).
    + destruct (w_started w); [by apply in_time_other|done].
  - split; simpl; [|done|done]. unfold Stop_watcher. rewrite Hw, lookup_singleton_eq.
    destruct (w_started w) eqn:Hst; cbn [negb]; [|exists w; rewrite Hst; by split_and!].
    exists (w <| w_started := false |>). simpl. rewrite Hw, insert_singleton_eq. by split_and!.
  - by split; [exists w| |].
  - unfold receive in Hr. rewrite Hw, lookup_singleton_eq in Hr. destruct (w_token w); [|done]. injection Hr as <-.
    split; simpl; [|by split_and!|by apply in_time_other].
    exists (w <| w_token := false |>). simpl. by rewrite Hw, insert_singleton_eq.
  - unfold timer_ready in Hr. simpl in Hr. apply andb_true_iff in Hr as [-> Hr].
    destruct (last_done lg) as [[|t0|t0]|] eqn:Hlast; try done. destruct Ht as (_ & -> & _).
    split; simpl; [by exists w|done|]. apply (in_time_settled _ t0); [done|lia|done].
  - by split; [exists w| |].
Qed.

Lemma loop_inv_run s s' : loop_inv s -> rtc loop_step s s' -> loop_inv s'.
Proof. intros Hi Hr. induction Hr as [|s s1 s2 Hs _ IH]; [done|]. by eapply IH, loop_inv_step. Qed.

(** *** What is left to do *)

(** While the loop runs: an address change that it was not told of is in the channel; a
    notification that no settling has answered is answered as soon as the two seconds are
    over. *)
Lemma loop_answers s : loop_inv s -> l_ended s = false ->
  (untold (l_log s) = true -> forall env, exists s', loop_step s s' /\ l_log s' = Told (l_clock s) :: l_log s /\ l_mgr s' = networkChanged env (l_mgr s)) /\
  (forall t, last_done (l_log s) = Some (Told t) -> t + networkChangeDebounce <= l_clock s ->
     forall env, exists s', loop_step s s' /\ l_log s' = Settled (l_clock s) :: l_log s /\ l_mgr s' = networkSettled env (l_mgr s)).
Proof.
  intros [(w & Hw & Hc & Hu) Ht _] He. split.
  - intros Hun env. assert (exists n, receive i (l_watch s) = Some n) as [n Hn].
    { unfold receive. rewrite Hw, lookup_singleton_eq, (Hu Hun). by eexists. }
    exists (on_event env n s). split; [by apply ls_event|by destruct s].
  - intros t Hlast Hle env. rewrite Hlast in Ht. destruct Ht as (H1 & H2 & _).
    exists (on_timer env s). split; [|by destruct s]. apply ls_timer; [done|]. unfold timer_ready. rewrite H1, H2.
    by apply Z.leb_le.
Qed.

(** C27: address changes while the service runs, in every order of changes, notifications,
    the timer, the end of the watcher and of the service, and whatever else happens to it.
    The service settles (where it may reconnect) only when two seconds have passed since
    the last notification, and once for a burst of them; each notification is answered by a
    check for a conflict at once, before that.  No change is lost: while the loop runs and
    it has not been told of one, the notification can be taken; and a burst that is over
    two seconds ago can be settled. *)
Theorem network_debounced clock m s : rtc loop_step (loop_start clock m) s ->
  in_time (l_log s) /\
  (l_ended s = false -> untold (l_log s) = true -> forall env,
     exists s', loop_step s s' /\ l_log s' = Told (l_clock s) :: l_log s /\ l_mgr s' = networkChanged env (l_mgr s)) /\
  (l_ended s = false -> forall t, last_done (l_log s) = Some (Told t) -> t + networkChangeDebounce <= l_clock s ->
     forall env, exists s', loop_step s s' /\ l_log s' = Settled (l_clock s) :: l_log s /\ l_mgr s' = networkSettled env (l_mgr s)) /\
  (l_ended s = true -> forall s', loop_step s s' -> filter by_loop (l_log s') = filter by_loop (l_log s) /\ l_ended s' = true).
Proof.
  intros Hr. assert (loop_inv s) as Hi by (eapply loop_inv_run; [apply loop_inv_start|done]).
  split; [by apply Hi|]. split; [intros He; by apply loop_answers|]. split; [intros He; by apply loop_answers|].
  intros He s' Hs. destruct Hs as [s t|s|s|s m'|s n env He'|s env He'|s]; destruct s; simpl in *; try congruence; try done.
  by destruct (registered_now _).
Qed.
End Loop.

Import ToyDevice ToyRuntime.

(** One change at the start; two seconds later the service may settle. *)
Lemma network_debounced_witness :
  exists s s' : loop (T := BindMode * AWG world nat string) (P := Server) (N := gset string),
    loop_step 0 s s' /\ l_log s' = [Settled (2 * 10 ^ 9); Told 0; Changed].
Proof.
  set (s0 := loop_start 0 0 up).
  set (n := address_change (l_watch s0)).
  set (s1 := s0 <| l_watch := n |> <| l_log := [Changed] |>).
  set (n2 := default n (receive 0 n)).
  set (s2 := on_event usual n2 s1).
  set (s3 := s2 <| l_clock := 2 * 10 ^ 9 |>).
  assert (rtc (loop_step 0) s0 s3) as Hr.
  { eapply rtc_l; [exact (ls_change 0 s0)|]. eapply rtc_l; [apply (ls_event 0 s1 n2 usual); [done|by vm_compute]|].
    eapply rtc_l; [apply (ls_time 0 s2 (2 * 10 ^ 9)); by vm_compute|]. apply rtc_refl. }
  destruct (network_debounced 0 0 up s3 Hr) as (_ & _ & Ht & _).
  destruct (Ht eq_refl 0 eq_refl ltac:(done) usual) as (s' & Hs & Hl & _).
  exists s3, s'. split; [exact Hs|exact Hl].
Defined.
