(* ===== verification/LogText.v ===== *)
(** Texts that only go to the log: the end of src/internal/awg/tunnel.go, and
    [destination.String] of src/internal/socks5/server.go. *)

From S2P Require Import Prelude GoStrings GoNetip SocksProto ConfValues ConfScan TunnelConf AwgStats Manager.

(** ** tunnel.go *)

Definition formatPrefixes (ps : list Prefix) : string := Join (Prefix_String <$> ps) ",".

(** [Format] is the local time with the layout of the code. *)
Definition formatHandshake (Format : Z -> string) (t : Z) : string := if IsZero t then "never" else Format t.

Definition describeParams (cfg : Tunnel) : string :=
  if bool_decide (t_AWGParams cfg = []) then "none (plain WireGuard)"
  else Join (t_AWGParams cfg) ", " +:+ " | " +:+ t_Generation cfg.

(** ** server.go *)

(** [net.JoinHostPort]. *)
Definition JoinHostPort (host port : string) : string :=
  if Contains host ":" then "[" +:+ host +:+ "]:" +:+ port else host +:+ ":" +:+ port.

Definition destination_String (d : destination) : string :=
  if bool_decide (host d = "") then AddrPort_String (AddrPortFrom (addr d) (port d))
  else JoinHostPort (host d) (Itoa (port d)).

(** ** The list of addresses can be read back *)

Definition no_comma (c : ascii) : Prop := c <> ","%char.

Lemma Itoa_no_comma n : 0 <= n -> all_str no_comma (Itoa n).
Proof. intros Hn. eapply all_str_impl; [|by apply Itoa_digits]. by intros c Hc ->. Qed.

Lemma octet_no_comma v i : all_str no_comma (Itoa (Z.land (Z.shiftr v (8 * i)) 255)).
Proof. apply Itoa_no_comma, Z.land_nonneg. by right. Qed.

Lemma dot_no_comma : all_str no_comma ".".
Proof. by split. Qed.

Lemma string4_no_comma v : all_str no_comma (string4 v).
Proof.
  unfold string4. cbv zeta. rewrite !all_str_app.
  exact (conj (octet_no_comma v 3) (conj dot_no_comma (conj (octet_no_comma v 2) (conj dot_no_comma
    (conj (octet_no_comma v 1) (conj dot_no_comma (octet_no_comma v 0))))))).
Qed.

Lemma hex_digit_no_comma n : 0 <= n < 16 -> all_str no_comma (hex_digit n).
Proof.
  intros Hn. split; [|done]. unfold no_comma. rewrite <-(Z2Nat.id n) by lia.
  assert (Z.to_nat n < 16)%nat as Hk by lia. revert Hk. generalize (Z.to_nat n). clear. intros k Hk.
  do 16 (destruct k as [|k]; [done|]). lia.
Qed.

Lemma hex16_no_comma n : all_str no_comma (hex16 n).
Proof.
  assert (forall i, all_str no_comma (hex_digit (Z.land (Z.shiftr n (4 * i)) 15))) as Hd.
  { intros i. apply hex_digit_no_comma. change 15 with (Z.ones 4). rewrite Z.land_ones by lia. by apply Z.mod_pos_bound. }
  unfold hex16. cbv zeta. repeat case_match; rewrite ?all_str_app; split_and?; apply Hd.
Qed.

Lemma string6_no_comma v : all_str no_comma (string6 v).
Proof.
  unfold string6. destruct (longest_zeros v 0 8 (0, 0)%nat) as [zs ze]. generalize 8%nat. generalize 0%nat.
  intros i n. revert i. induction n as [|n IH]; intros i; [done|]. cbn [string6_groups].
  destruct (_ && _); [rewrite !all_str_app; split_and!; [by repeat split|destruct (_ <? _)%nat; [apply hex16_no_comma|done]|apply IH]|].
  destruct (_ && _ && _); [apply IH|]. rewrite !all_str_app. split_and!; [by destruct (0 <? i)%nat; repeat split|apply hex16_no_comma|apply IH].
Qed.

Lemma Addr_no_comma a : has_zone a = false -> all_str no_comma (Addr_String a).
Proof.
  intros Hz. destruct a as [|v|v z]; [by repeat split|apply string4_no_comma|]. cbn [Addr_String].
  simpl in Hz. apply all_str_app. split.
  - destruct (Is4In6 _); [apply all_str_app; split; [by repeat split|apply string4_no_comma]|apply string6_no_comma].
  - destruct (bool_decide_reflect (z = "")) as [|Hne]; [done|]. exfalso. revert Hz. simpl. by destruct z.
Qed.

(** A list of addresses in the log can be told apart again. *)
Theorem formatPrefixes_read ps : ps <> [] -> Forall (fun p => has_zone (p_addr p) = false) ps ->
  Split "," (formatPrefixes ps) = Prefix_String <$> ps.
Proof.
  intros Hne Hz. unfold formatPrefixes. apply (Split_Join ","); [by destruct ps|]. apply Forall_fmap.
  eapply Forall_impl; [exact Hz|]. intros p Hp. simpl. unfold Prefix_String, Prefix_IsValid.
  destruct (Z.leb_spec 0 (p_bits p)) as [Hb|Hb]; simpl; [|by repeat split].
  rewrite !all_str_app. split_and!; [by apply Addr_no_comma|done|by apply Itoa_no_comma].
Qed.
