(* ===== verification/ManagerLocks.v ===== *)
(** The concurrency of src/internal/service/manager.go: who may bring the tunnel up
    and take it down, and when.

    The goroutines of the runtime (the boot sequence, the requests of the management
    pipe, the network watcher, the retry loop) are threads whose steps are the critical
    sections of [m.mu], the acquisitions and releases of [startMu] and [conflictMu], the
    sends and receives, and the calls of the tunnel.  The tunnel is its device, if it
    has one, and the set of devices that are open; what its calls do in detail is in
    AwgTunnel.v. *)

From S2P Require Import Prelude.

(** ** State *)

(** Who calls [startTunnelOnce]: [Start] itself, [StartTunnel], or a retry loop with
    its generation. *)
Inductive caller := Boot | Manual | Retry (g : nat).

(** Who calls [checkConflict]. *)
Inductive origin := OBoot | OPipe | OWatcher.

(** Who stops the tunnel: [StopTunnel], or [pause] within a [checkConflict]. *)
Inductive stopper := ByStop | ByPause (o : origin).

(** What [startTunnelOnce] returns. *)
Inductive start_result := Started | AlreadyUp | PausedError | StartFailed.

(** Where a thread stands: before the action that its name tells. *)
Inductive mpc :=
(* StartTunnel *)
| MWant | MCheck
(* startTunnelOnce *)
| SLock (c : caller) | SRead (c : caller) | SGo (c : caller)
| SBuild (c : caller) (d : nat) | SUnlock (c : caller) (r : start_result)
(* Start, with the result of its first attempt *)
| BGot (r : start_result) | BSpawn
(* the loop of retryStart, and its deferred clearRetry *)
| RWait (g : nat) | RCheck (g : nat) | RGot (g : nat) (r : start_result)
| RCancel (g : nat) | RForget (g : nat)
(* StopTunnel and pause: cancelRetry, then Stop under startMu *)
| XWant | KTake (k : stopper) | KCall (k : stopper) (og : option nat)
| KLock (k : stopper) | KStop (k : stopper) | KUnlock (k : stopper)
(* checkConflict *)
| CLock (o : origin) | CRead (o : origin) | CList (o : origin) (was : option string)
| CPause (o : origin) (hit : string) | CSet (o : origin) (hit : string)
| CResume (o : origin) | CSpawn (o : origin) | CUnlock (o : origin)
(* the loop of startNetworkWatcher, at its select *)
| WLoop
(* the rebuilding branch of Tunnel.Reload *)
| LStop | LStart | LBuild (d : nat).

(** What the threads share: the tunnel ([m_dev], [m_opened]), the fields of [Manager]
    that [m.mu] guards, the contexts of retries that are done and whether the service's
    own is, the wake-up channel, what the watcher's loop can receive (a notification,
    for which its channel has one place, and the expiry of its timer), and the two
    mutexes with their holders. *)
Record Shared := MkShared {
  m_dev : option nat;
  m_opened : gset nat;
  m_wanted : bool;
  m_pausedBy : option string;
  m_retryCancel : option nat;
  m_retryGen : nat;
  m_cancelled : gset nat;
  m_ctx_done : bool;
  m_wake : bool;
  m_event : bool;
  m_timer : bool;
  m_startMu : option nat;
  m_conflictMu : option nat;
}.

#[export] Instance Shared_fields : Fields Shared := fun r =>
  MkShared (m_dev r) (m_opened r) (m_wanted r) (m_pausedBy r) (m_retryCancel r) (m_retryGen r)
    (m_cancelled r) (m_ctx_done r) (m_wake r) (m_event r) (m_timer r)
    (m_startMu r) (m_conflictMu r).

(** ** Actions *)

(** [Tunnel.Stop]. *)
Definition tunnel_stop (s : Shared) : Shared :=
  match m_dev s with
  | None => s
  | Some d => s <| m_dev := None |> <| m_opened ::= (.∖ {[d]}) |>
  end.

(** [ctx.Err() != nil] in the retry loop of generation [g]. *)
Definition ctx_dead (g : nat) (s : Shared) : bool := m_ctx_done s || bool_decide (g ∈ m_cancelled s).

(** [cancel()] of a retry, if there is one. *)
Definition cancel_opt (og : option nat) (s : Shared) : Shared :=
  match og with None => s | Some g => s <| m_cancelled ::= union {[g]} |> end.

(** The critical section of [retryStart]. *)
Definition retry_install (s : Shared) : Shared :=
  (cancel_opt (m_retryCancel s) s) <| m_retryGen ::= S |> <| m_retryCancel := Some (S (m_retryGen s)) |>.

(** That of [clearRetry]. *)
Definition retry_forget (g : nat) (s : Shared) : Shared :=
  if bool_decide (m_retryGen s = g) then s <| m_retryCancel := None |> else s.

(** What follows a [startTunnelOnce] and a [checkConflict]. *)
Definition after_start (c : caller) (r : start_result) : option mpc :=
  match c with Boot => Some (BGot r) | Manual => None | Retry g => Some (RGot g r) end.

Definition after_conflict (o : origin) : option mpc :=
  match o with OBoot => Some (SLock Boot) | OPipe => None | OWatcher => Some WLoop end.

Definition after_stop (k : stopper) : option mpc :=
  match k with ByStop => None | ByPause o => Some (CUnlock o) end.

(** The branches of [checkConflict] on what the adapters hold. *)
Definition conflict_branch (o : origin) (was found : option string) : mpc :=
  match found, was with
  | Some hit, None => CPause o hit
  | Some hit, Some _ => CSet o hit
  | None, Some _ => CResume o
  | None, None => CUnlock o
  end.

(** A step of thread [t]: from a place and a shared state to the next place (if any),
    a goroutine that it starts (if any) and the next shared state. *)
Inductive tstep (t : nat) : mpc -> Shared -> option mpc -> option mpc -> Shared -> Prop :=
| t_want s : tstep t MWant s (Some MCheck) None (s <| m_wanted := true |>)
| t_check_up s : is_Some (m_dev s) -> tstep t MCheck s None None s
| t_check_down s : m_dev s = None -> tstep t MCheck s (Some (SLock Manual)) None s
| t_slock c s : m_startMu s = None ->
    tstep t (SLock c) s (Some (SRead c)) None (s <| m_startMu := Some t |>)
| t_sread_paused c s : is_Some (m_pausedBy s) -> tstep t (SRead c) s (Some (SUnlock c PausedError)) None s
| t_sread c s : m_pausedBy s = None -> tstep t (SRead c) s (Some (SGo c)) None s
| t_sgo_up c s : is_Some (m_dev s) -> tstep t (SGo c) s (Some (SUnlock c AlreadyUp)) None s
| t_sgo c d s : m_dev s = None -> d ∉ m_opened s ->
    tstep t (SGo c) s (Some (SBuild c d)) None (s <| m_opened ::= union {[d]} |>)
| t_sbuild_ok c d s :
    tstep t (SBuild c d) s (Some (SUnlock c Started)) None (s <| m_dev := Some d |>)
| t_sbuild_fail c d s :
    tstep t (SBuild c d) s (Some (SUnlock c StartFailed)) None (s <| m_opened ::= (.∖ {[d]}) |>)
| t_sunlock c r s : tstep t (SUnlock c r) s (after_start c r) None (s <| m_startMu := None |>)
| t_bgot_failed s : tstep t (BGot StartFailed) s (Some BSpawn) None s
| t_bgot r s : r <> StartFailed -> tstep t (BGot r) s None None s
| t_bspawn s : tstep t BSpawn s None (Some (RWait (S (m_retryGen s)))) (retry_install s)
| t_rwait_done g s : ctx_dead g s = true -> tstep t (RWait g) s (Some (RCancel g)) None s
| t_rwait_timer g s : tstep t (RWait g) s (Some (RCheck g)) None s
| t_rwait_wake g s : m_wake s = true ->
    tstep t (RWait g) s (Some (RCheck g)) None (s <| m_wake := false |>)
| t_rcheck_up g s : is_Some (m_dev s) -> tstep t (RCheck g) s (Some (RCancel g)) None s
| t_rcheck g s : m_dev s = None -> tstep t (RCheck g) s (Some (SLock (Retry g))) None s
| t_rgot_done g r s : ctx_dead g s = true \/ r <> StartFailed ->
    tstep t (RGot g r) s (Some (RCancel g)) None s
| t_rgot_again g s : ctx_dead g s = false -> tstep t (RGot g StartFailed) s (Some (RWait g)) None s
| t_rcancel g s : tstep t (RCancel g) s (Some (RForget g)) None (cancel_opt (Some g) s)
| t_rforget g s : tstep t (RForget g) s None None (retry_forget g s)
| t_xwant s : tstep t XWant s (Some (KTake ByStop)) None (s <| m_wanted := false |>)
| t_ktake k s :
    tstep t (KTake k) s (Some (KCall k (m_retryCancel s))) None (s <| m_retryCancel := None |>)
| t_kcall k og s : tstep t (KCall k og) s (Some (KLock k)) None (cancel_opt og s)
| t_klock k s : m_startMu s = None ->
    tstep t (KLock k) s (Some (KStop k)) None (s <| m_startMu := Some t |>)
| t_kstop k s : tstep t (KStop k) s (Some (KUnlock k)) None (tunnel_stop s)
| t_kunlock k s : tstep t (KUnlock k) s (after_stop k) None (s <| m_startMu := None |>)
| t_clock o s : m_conflictMu s = None ->
    tstep t (CLock o) s (Some (CRead o)) None (s <| m_conflictMu := Some t |>)
| t_cread o s : tstep t (CRead o) s (Some (CList o (m_pausedBy s))) None s
| t_clist_error o was s : tstep t (CList o was) s (Some (CUnlock o)) None s
| t_clist o was found s : tstep t (CList o was) s (Some (conflict_branch o was found)) None s
| t_cpause o hit s :
    tstep t (CPause o hit) s (Some (KTake (ByPause o))) None (s <| m_pausedBy := Some hit |>)
| t_cset o hit s : tstep t (CSet o hit) s (Some (CUnlock o)) None (s <| m_pausedBy := Some hit |>)
| t_cresume o s :
    tstep t (CResume o) s (Some (if m_wanted s then CSpawn o else CUnlock o)) None
      (s <| m_pausedBy := None |>)
| t_cspawn o s :
    tstep t (CSpawn o) s (Some (CUnlock o)) (Some (RWait (S (m_retryGen s)))) (retry_install s)
| t_cunlock o s : tstep t (CUnlock o) s (after_conflict o) None (s <| m_conflictMu := None |>)
| t_wloop_done s : m_ctx_done s = true -> tstep t WLoop s None None s
| t_wloop_event s : m_event s = true ->
    tstep t WLoop s (Some (CLock OWatcher)) None (s <| m_event := false |> <| m_timer := true |>)
| t_wloop_timer s : m_timer s = true ->
    tstep t WLoop s (Some (CLock OWatcher)) None (s <| m_timer := false |>).

(** The rebuilding branch of [Tunnel.Reload], which does not take [startMu], followed by
    the [checkConflict] of [Manager.Reload]. *)
Inductive lstep : mpc -> Shared -> option mpc -> Shared -> Prop :=
| l_stop s : lstep LStop s (Some LStart) (tunnel_stop s)
| l_start_up s : is_Some (m_dev s) -> lstep LStart s None s
| l_start d s : m_dev s = None -> d ∉ m_opened s ->
    lstep LStart s (Some (LBuild d)) (s <| m_opened ::= union {[d]} |>)
| l_build_ok d s : lstep (LBuild d) s (Some (CLock OPipe)) (s <| m_dev := Some d |>)
| l_build_fail d s : lstep (LBuild d) s None (s <| m_opened ::= (.∖ {[d]}) |>).

(** ** The service *)

(** [Start] brings the tunnel up; the pipe is open and the service runs; [Stop] waits for
    the requests in flight; it has cancelled the service's context and waits for the
    goroutines (the watcher's loop and the retry loops); it has returned.  [c_watching]
    says whether address notifications are registered. *)
Inductive service_pc := Booting | Serving | Closing | Cancelled | Down.

Record Config := MkConfig {
  c_shared : Shared;
  c_threads : gmap nat mpc;
  c_service : service_pc;
  c_watching : bool;
}.

#[export] Instance Config_fields : Fields Config := fun r =>
  MkConfig (c_shared r) (c_threads r) (c_service r) (c_watching r).

(** Whose thread this is. *)
Inductive kind := KBoot | KPipe | KWatcher | KRetry.

#[global] Instance kind_eq_dec : EqDecision kind.
Proof. solve_decision. Defined.

Definition origin_kind (o : origin) : kind :=
  match o with OBoot => KBoot | OPipe => KPipe | OWatcher => KWatcher end.

Definition caller_kind (c : caller) : kind :=
  match c with Boot => KBoot | Manual => KPipe | Retry _ => KRetry end.

Definition stopper_kind (k : stopper) : kind :=
  match k with ByStop => KPipe | ByPause o => origin_kind o end.

Definition kind_of (p : mpc) : kind :=
  match p with
  | WLoop => KWatcher
  | MWant | MCheck | XWant | LStop | LStart | LBuild _ => KPipe
  | SLock c | SRead c | SGo c | SBuild c _ | SUnlock c _ => caller_kind c
  | BGot _ | BSpawn => KBoot
  | RWait _ | RCheck _ | RGot _ _ | RCancel _ | RForget _ => KRetry
  | KTake k | KCall k _ | KLock k | KStop k | KUnlock k => stopper_kind k
  | CLock o | CRead o | CList o _ | CPause o _ | CSet o _ | CResume o | CSpawn o | CUnlock o =>
      origin_kind o
  end.

Definition none_of (k : kind) (ths : gmap nat mpc) : Prop :=
  forall t p, ths !! t = Some p -> kind_of p <> k.

Definition upd (t : nat) (o : option mpc) (ths : gmap nat mpc) : gmap nat mpc :=
  match o with Some p => <[t := p]> ths | None => delete t ths end.

Definition spawn (u : nat) (o : option mpc) (ths : gmap nat mpc) : gmap nat mpc :=
  match o with Some p => <[u := p]> ths | None => ths end.

(** The requests of the pipe that concern the tunnel. *)
Definition request (reload : bool) (p : mpc) (s : Shared) : Prop :=
  p = MWant \/ p = XWant \/ p = CLock OPipe \/ p = LStop /\ reload = true /\ is_Some (m_dev s).

(** A step of the runtime; [reload] says whether requests may rebuild the tunnel. *)
Inductive mstep (reload : bool) : Config -> Config -> Prop :=
| ms_thread t u p p' sp s' c :
    c_threads c !! t = Some p -> c_threads c !! u = None ->
    tstep t p (c_shared c) p' sp s' ->
    mstep reload c (c <| c_shared := s' |> <| c_threads := spawn u sp (upd t p' (c_threads c)) |>)
| ms_rebuild t p p' s' c :
    c_threads c !! t = Some p -> lstep p (c_shared c) p' s' ->
    mstep reload c (c <| c_shared := s' |> <| c_threads ::= upd t p' |>)
| ms_request t p c :
    c_service c = Serving -> c_threads c !! t = None -> request reload p (c_shared c) ->
    mstep reload c (c <| c_threads ::= insert t p |>)
| ms_watch t c :
    c_service c = Serving -> c_watching c = false -> none_of KWatcher (c_threads c) ->
    c_threads c !! t = None ->
    mstep reload c (c <| c_watching := true |> <| c_threads ::= insert t WLoop |>)
| ms_network c :
    c_watching c = true ->
    mstep reload c (c <| c_shared ::= (fun s => s <| m_event := true |>) |>)
| ms_wake c :
    mstep reload c (c <| c_shared ::= (fun s => s <| m_wake := true |>) |>)
| ms_booted c :
    c_service c = Booting -> none_of KBoot (c_threads c) ->
    mstep reload c (c <| c_service := Serving |>)
| ms_stop c : c_service c = Serving -> mstep reload c (c <| c_service := Closing |>)
| ms_unwatch c :
    c_service c = Closing -> none_of KPipe (c_threads c) ->
    mstep reload c (c <| c_watching := false |>)
| ms_cancel c :
    c_service c = Closing -> none_of KPipe (c_threads c) -> c_watching c = false ->
    mstep reload c (c <| c_service := Cancelled |> <| c_shared ::= (fun s => s <| m_ctx_done := true |>) |>)
| ms_down c :
    c_service c = Cancelled -> none_of KWatcher (c_threads c) -> none_of KRetry (c_threads c) ->
    mstep reload c (c <| c_service := Down |> <| c_shared ::= tunnel_stop |>).

(** [NewManager], and [Start] up to [auto_start]. *)
Definition new_shared (auto_start : bool) : Shared :=
  MkShared None ∅ auto_start None None 0 ∅ false false false false None None.

Definition booting (auto_start : bool) : Config :=
  MkConfig (new_shared auto_start)
    (if auto_start then {[0%nat := CLock OBoot]} else ∅) Booting false.

Abbreviation reach reload auto := (rtc (mstep reload) (booting auto)).
