(* ===== verification/ManagerSafety.v ===== *)
(** What the locks of ManagerLocks.v guarantee: the tunnel stays down during a pause,
    one device is built at a time, one retry loop goes on, [Stop] ends and leaves
    nothing; and two interleavings that they do not exclude.

    Each invariant is local where it can be: what a step may touch is summed up in
    [effect] and [retry_effect], and a thread that does not step keeps what it knows
    because it holds the mutex that guards it. *)

From S2P Require Import Prelude ManagerLocks.
Implicit Types (s : Shared) (ths : gmap nat mpc) (c : Config) (p q : mpc).

(** ** Views of a program counter *)

(** It holds [startMu]; it holds [conflictMu]. *)
Definition hs (p : mpc) : bool :=
  match p with SRead _ | SGo _ | SBuild _ _ | SUnlock _ _ | KStop _ | KUnlock _ => true | _ => false end.

Definition hc (p : mpc) : bool :=
  match p with
  | CRead _ | CList _ _ | CPause _ _ | CSet _ _ | CResume _ | CSpawn _ | CUnlock _
  | KTake (ByPause _) | KCall (ByPause _) _ | KLock (ByPause _) | KStop (ByPause _)
  | KUnlock (ByPause _) => true
  | _ => false
  end.

(** The device that it builds; it has seen that no pause is on and goes on to build;
    it runs [pause] and has yet to stop the tunnel; it rebuilds in a reload. *)
Definition building (p : mpc) : option nat := match p with SBuild _ d => Some d | _ => None end.

Definition going (p : mpc) : bool := match p with SGo _ | SBuild _ _ => true | _ => false end.

Definition pausing (p : mpc) : bool :=
  match p with
  | KTake (ByPause _) | KCall (ByPause _) _ | KLock (ByPause _) | KStop (ByPause _) => true
  | _ => false
  end.

Definition rebuilding (p : mpc) : bool := match p with LStop | LStart | LBuild _ => true | _ => false end.

(** What a check of conflicts has read of [pausedBy] is still so. *)
Definition was_ok (p : mpc) (pb : option string) : Prop :=
  match p with
  | CList _ was => was = pb
  | CPause _ _ | CSpawn _ => pb = None
  | CSet _ _ | CResume _ => is_Some pb
  | KTake (ByPause _) | KCall (ByPause _) _ | KLock (ByPause _) | KStop (ByPause _) => is_Some pb
  | _ => True
  end.

Lemma building_hs p d : building p = Some d -> hs p = true.
Proof. by destruct p. Qed.

Lemma going_hs p : going p = true -> hs p = true.
Proof. by destruct p. Qed.

Lemma pausing_hc p : pausing p = true -> hc p = true.
Proof. destruct p; try done; by destruct k. Qed.

Lemma was_ok_frame p pb : hc p = false -> was_ok p pb.
Proof. destruct p; try done; by destruct k. Qed.

(** ** The threads after a step *)

Lemma lookup_after u t w (sp p' : option mpc) ths p :
  ths !! u = None -> ths !! t = Some p ->
  spawn u sp (upd t p' ths) !! w =
    (if bool_decide (w = t) then p'
     else if bool_decide (w = u) then sp else ths !! w).
Proof.
  intros Hu Ht. assert (u <> t) as Hut by congruence.
  assert (upd t p' ths !! w = if bool_decide (w = t) then p' else ths !! w) as Hupd.
  { destruct (bool_decide_reflect (w = t)) as [->|Hw], p'; simpl;
      by rewrite ?lookup_insert_eq, ?lookup_delete_eq, ?lookup_insert_ne, ?lookup_delete_ne by done. }
  destruct sp as [q|]; simpl.
  - destruct (bool_decide_reflect (w = u)) as [->|Hw].
    + rewrite lookup_insert_eq. by rewrite bool_decide_false.
    + by rewrite lookup_insert_ne.
  - rewrite Hupd. destruct (bool_decide_reflect (w = u)) as [->|Hw]; [|done].
    by rewrite bool_decide_false, Hu.
Qed.

(** ** Who holds what *)

Record own (t : nat) (p : mpc) (s : Shared) : Prop := {
  h_start : hs p = true -> m_startMu s = Some t;
  h_conflict : hc p = true -> m_conflictMu s = Some t;
}.

(** Each mutex is held by the thread that its field names. *)
Record Locks (s : Shared) (ths : gmap nat mpc) : Prop := {
  lk_own : forall t p, ths !! t = Some p -> own t p s;
  lk_start : forall t, m_startMu s = Some t -> exists p, ths !! t = Some p /\ hs p = true;
  lk_conflict : forall t, m_conflictMu s = Some t -> exists p, ths !! t = Some p /\ hc p = true;
}.

(** What a thread knows of the tunnel and of the pause. *)
Record local (p : mpc) (s : Shared) : Prop := {
  h_rebuild : rebuilding p = false;
  h_build : forall d, building p = Some d -> m_dev s = None /\ m_opened s = {[d]};
  h_was : was_ok p (m_pausedBy s);
}.

Record Inv (s : Shared) (ths : gmap nat mpc) : Prop := {
  i_locks : Locks s ths;
  i_local : forall t p, ths !! t = Some p -> local p s;
  i_dev : forall d, m_dev s = Some d -> m_opened s = {[d]};
  i_opened : forall d, d ∈ m_opened s ->
    m_dev s = Some d \/ exists t p, ths !! t = Some p /\ building p = Some d;
  i_pause : is_Some (m_pausedBy s) ->
    (exists t p, ths !! t = Some p /\ pausing p = true) \/
    (m_dev s = None /\ forall t p, ths !! t = Some p -> going p = false);
}.

Lemma no_other_start s ths t p w q :
  Locks s ths -> ths !! t = Some p -> hs p = true -> ths !! w = Some q -> hs q = true -> w = t.
Proof.
  intros HI Ht Hp Hw Hq. pose proof (h_start _ _ _ (lk_own _ _ HI _ _ Ht) Hp).
  pose proof (h_start _ _ _ (lk_own _ _ HI _ _ Hw) Hq). congruence.
Qed.

(** What any step does: it acquires a free mutex or releases its own, starts nothing but
    a retry loop, and stays the thread that it is. *)
Definition after (f : mpc -> bool) (o : option mpc) : bool :=
  match o with Some p => f p | None => false end.

Definition mutex_effect (t : nat) (before now : bool) (mu mu' : option nat) : Prop :=
  match before, now with
  | false, true => mu = None /\ mu' = Some t
  | true, false => mu' = None
  | _, _ => mu' = mu
  end.

Record discipline (t : nat) (p : mpc) (s : Shared) (p' sp : option mpc) (s' : Shared) : Prop := {
  e_start : mutex_effect t (hs p) (after hs p') (m_startMu s) (m_startMu s');
  e_conflict : mutex_effect t (hc p) (after hc p') (m_conflictMu s) (m_conflictMu s');
  e_spawn : sp = None \/ exists g, sp = Some (RWait g);
  e_kind : forall q, p' = Some q -> kind_of q = kind_of p;
  e_ctx : m_ctx_done s' = m_ctx_done s;
}.

(** The rule by which a thread steps, and where it goes. *)
Ltac step_cases Hst :=
  inversion Hst; subst;
  unfold after_start, after_conflict, after_stop, conflict_branch, tunnel_stop, retry_install, retry_forget,
    cancel_opt in *;
  repeat case_match; simplify_eq/=.

Lemma tstep_discipline t p s (p' sp : option mpc) s' : tstep t p s p' sp s' -> discipline t p s p' sp s'.
Proof.
  intros Hst. step_cases Hst; try destruct c; try destruct k; try destruct o; try destruct (m_wanted s);
    constructor; simpl; eauto; intros; by simplify_eq/=.
Qed.

(** The rebuilding branch of a reload touches no mutex; the tunnel it does touch. *)
Lemma lstep_discipline t p s (p' : option mpc) s' : lstep p s p' s' -> discipline t p s p' None s'.
Proof.
  intros Hst. inversion Hst; subst; unfold tunnel_stop; repeat case_match; constructor; simpl; auto;
    intros; by simplify_eq/=.
Qed.

(** What the other steps touch: the tunnel only under [startMu], [pausedBy] only under
    [conflictMu]. *)
Record effect (p : mpc) (s : Shared) (p' : option mpc) (s' : Shared) : Prop := {
  e_tunnel : hs p = false -> m_dev s' = m_dev s /\ m_opened s' = m_opened s;
  e_paused : hc p = false -> m_pausedBy s' = m_pausedBy s;
  e_rebuild : after rebuilding p' = false;
}.

Lemma tstep_effect t p s (p' sp : option mpc) s' : tstep t p s p' sp s' -> effect p s p' s'.
Proof.
  intros Hst. step_cases Hst; try destruct k; try destruct (m_wanted s); constructor; simpl; eauto;
    intros; discriminate.
Qed.

Lemma mutex_frame t w before now mu mu' :
  mutex_effect t before now mu mu' -> (before = true -> mu = Some t) -> w <> t -> mu = Some w ->
  before = false /\ mu' = Some w.
Proof. destruct before, now; simpl; intros He Hb Hw Hmu; try specialize (Hb eq_refl); split; intuition congruence. Qed.

Lemma own_frame t w p (p' sp : option mpc) s s' q :
  discipline t p s p' sp s' -> own t p s -> w <> t -> own w q s ->
  own w q s' /\ (hs q = true -> hs p = false) /\ (hc q = true -> hc p = false).
Proof.
  intros [Es Ec _ _ _] [Hs Hc] Hne [Hs' Hc'].
  assert (hs q = true -> hs p = false /\ m_startMu s' = Some w) as Hqs
    by (intros Hq; by eapply mutex_frame; [| | |apply Hs']).
  assert (hc q = true -> hc p = false /\ m_conflictMu s' = Some w) as Hqc
    by (intros Hq; by eapply mutex_frame; [| | |apply Hc']).
  split_and!; [constructor; [apply Hqs|apply Hqc]|apply Hqs|apply Hqc].
Qed.

Lemma local_frame t w p (p' sp : option mpc) s s' q :
  tstep t p s p' sp s' -> own t p s -> w <> t -> own w q s -> local q s -> local q s'.
Proof.
  intros Hst Hp Hne Hq [Hr' Hb' Hw']. pose proof (tstep_effect _ _ _ _ _ _ Hst) as He.
  destruct (own_frame _ _ _ _ _ _ _ _ (tstep_discipline _ _ _ _ _ _ Hst) Hp Hne Hq) as (_ & Hqs & Hqc).
  constructor; [done| |].
  - intros d Hd. destruct (e_tunnel _ _ _ _ He (Hqs (building_hs _ _ Hd))) as [-> ->]. by apply Hb'.
  - destruct (hc q) eqn:Hh; [|by apply was_ok_frame]. by rewrite (e_paused _ _ _ _ He (Hqc eq_refl)).
Qed.

Lemma own_self t p s q (sp : option mpc) s' : discipline t p s (Some q) sp s' -> own t p s -> own t q s'.
Proof.
  intros [Es Ec _ _ _] [Hs Hc]. simpl in *. constructor; intros Hq.
  - rewrite Hq in Es. destruct (hs p) eqn:Hp; simpl in Es; [rewrite Es; by apply Hs|by destruct Es].
  - rewrite Hq in Ec. destruct (hc p) eqn:Hp; simpl in Ec; [rewrite Ec; by apply Hc|by destruct Ec].
Qed.

Lemma opened_when_idle s ths t p :
  Inv s ths -> ths !! t = Some p -> hs p = true -> building p = None -> m_dev s = None -> m_opened s = ∅.
Proof.
  intros HI Ht Hp Hb Hd. apply set_eq. intros d. split; [|set_solver]. intros He. exfalso.
  destruct (i_opened _ _ HI d He) as [?|(w & q & Hw & Hq)]; [congruence|].
  rewrite (no_other_start _ _ _ _ _ _ (i_locks _ _ HI) Ht Hp Hw (building_hs _ _ Hq)) in Hw. congruence.
Qed.

(** What the thread that steps knows next follows from the rule. *)
Lemma local_self t p sp s s' q ths :
  tstep t p s (Some q) sp s' -> Inv s ths -> ths !! t = Some p -> local q s'.
Proof.
  intros Hst HI Ht. pose proof (e_rebuild _ _ _ _ (tstep_effect _ _ _ _ _ _ Hst)) as Er.
  pose proof (i_local _ _ HI _ _ Ht) as [Hr Hb Hw]. simpl in *.
  constructor; [done| |].
  - clear Er. intros d Hd. step_cases Hst.
    split; [done|]. rewrite (opened_when_idle _ _ _ _ HI Ht) by done. set_solver.
  - clear Er Hb. step_cases Hst; eauto.
Qed.

(** How the threads follow a step of thread [t]. *)
Record stepped (t : nat) (p' sp : option mpc) (ths ths' : gmap nat mpc) : Prop := {
  st_self : ths' !! t = p';
  st_other : forall w q, ths !! w = Some q -> w <> t -> ths' !! w = Some q;
  st_inv : forall w q, ths' !! w = Some q -> w <> t -> sp = Some q /\ ths !! w = None \/ ths !! w = Some q;
  st_one : forall w w' q q', ths !! w = None -> ths !! w' = None ->
    ths' !! w = Some q -> ths' !! w' = Some q' -> w = w';
}.

Lemma stepped_threads t u p (p' sp : option mpc) ths :
  ths !! t = Some p -> ths !! u = None -> stepped t p' sp ths (spawn u sp (upd t p' ths)).
Proof.
  intros Ht Hu. constructor.
  - erewrite lookup_after by done. by rewrite bool_decide_true.
  - intros w q Hw Hne. erewrite lookup_after by done. by rewrite !bool_decide_false by congruence.
  - intros w q Hw Hne. erewrite lookup_after in Hw by done. rewrite bool_decide_false in Hw by done.
    destruct (bool_decide_reflect (w = u)) as [->|]; [by left|by right].
  - assert (forall w q, ths !! w = None -> spawn u sp (upd t p' ths) !! w = Some q -> w = u) as Hone.
    { intros w q Hn. erewrite lookup_after by done. rewrite bool_decide_false by congruence.
      destruct (bool_decide_reflect (w = u)); congruence. }
    intros w w' q q' Hw Hw' Hq Hq'. rewrite (Hone w q), (Hone w' q'); done.
Qed.

Lemma mutex_held (f : mpc -> bool) t p (p' sp : option mpc) ths ths' mu mu' :
  ths !! t = Some p -> stepped t p' sp ths ths' ->
  mutex_effect t (f p) (after f p') mu mu' ->
  (f p = true -> mu = Some t) ->
  (forall w, mu = Some w -> exists q, ths !! w = Some q /\ f q = true) ->
  forall w, mu' = Some w -> exists q, ths' !! w = Some q /\ f q = true.
Proof.
  intros Ht Hs He Hp Hmu w Hw.
  assert (w = t -> after f p' = true -> exists q, ths' !! w = Some q /\ f q = true) as Hself.
  { intros -> Ha. rewrite (st_self _ _ _ _ _ Hs). destruct p' as [q|]; [by exists q|done]. }
  unfold mutex_effect in He. destruct (f p) eqn:Hfp, (after f p') eqn:Hfa.
  - apply Hself; [|done]. specialize (Hp eq_refl). congruence.
  - congruence.
  - apply Hself; [|done]. destruct He. congruence.
  - destruct (Hmu w) as (q & Hq & Hfq); [congruence|]. exists q. split; [|done].
    apply (st_other _ _ _ _ _ Hs); [done|]. intros ->. congruence.
Qed.

(** The discipline keeps the mutexes in order. *)
Lemma Locks_step t p (p' sp : option mpc) s s' ths ths' :
  discipline t p s p' sp s' -> Locks s ths -> ths !! t = Some p -> stepped t p' sp ths ths' -> Locks s' ths'.
Proof.
  intros He HL Ht Hs. pose proof (lk_own _ _ HL _ _ Ht) as Hp. constructor.
  - intros w q Hw. destruct (decide (w = t)) as [->|Hne].
    + rewrite (st_self _ _ _ _ _ Hs) in Hw. subst p'. by eapply own_self.
    + destruct (st_inv _ _ _ _ _ Hs _ _ Hw Hne) as [[Hq _]|Hq].
      * destruct (e_spawn _ _ _ _ _ _ He) as [?|[g Hg]]; [congruence|]. rewrite Hg in Hq. by injection Hq as <-.
      * by eapply own_frame; [| | |apply (lk_own _ _ HL)].
  - apply (mutex_held hs _ _ _ _ _ _ _ _ Ht Hs (e_start _ _ _ _ _ _ He) (h_start _ _ _ Hp) (lk_start _ _ HL)).
  - apply (mutex_held hc _ _ _ _ _ _ _ _ Ht Hs (e_conflict _ _ _ _ _ _ He) (h_conflict _ _ _ Hp) (lk_conflict _ _ HL)).
Qed.

Lemma local_step t p (p' sp : option mpc) s s' ths ths' w q :
  tstep t p s p' sp s' -> Inv s ths -> ths !! t = Some p -> stepped t p' sp ths ths' ->
  ths' !! w = Some q -> local q s'.
Proof.
  intros Hst HI Ht Hs Hw. destruct (decide (w = t)) as [->|Hne].
  - rewrite (st_self _ _ _ _ _ Hs) in Hw. rewrite Hw in Hst. by eapply local_self.
  - destruct (st_inv _ _ _ _ _ Hs _ _ Hw Hne) as [[Hq _]|Hq].
    + destruct (e_spawn _ _ _ _ _ _ (tstep_discipline _ _ _ _ _ _ Hst)) as [?|[g Hg]]; [congruence|]. rewrite Hg in Hq. by injection Hq as <-.
    + pose proof (i_locks _ _ HI) as HL.
      eapply local_frame; [done|by apply (lk_own _ _ HL)|done|by apply (lk_own _ _ HL)|by apply (i_local _ _ HI w)].
Qed.

Lemma dev_step t p (p' sp : option mpc) s s' ths d :
  tstep t p s p' sp s' -> Inv s ths -> ths !! t = Some p -> m_dev s' = Some d -> m_opened s' = {[d]}.
Proof.
  intros Hst HI Ht. pose proof (i_dev _ _ HI) as Hd. pose proof (h_build _ _ (i_local _ _ HI _ _ Ht)) as Hb.
  clear HI. step_cases Hst; eauto; intros Hdev; try congruence; destruct (Hb _ eq_refl); congruence.
Qed.

Lemma opened_step t p (p' sp : option mpc) s s' ths ths' d :
  tstep t p s p' sp s' -> Inv s ths -> ths !! t = Some p -> stepped t p' sp ths ths' ->
  d ∈ m_opened s' -> m_dev s' = Some d \/ exists w q, ths' !! w = Some q /\ building q = Some d.
Proof.
  intros Hst HI Ht Hs Hd.
  assert (building p = None -> d ∈ m_opened s -> m_dev s = m_dev s' -> m_dev s' = Some d \/
    exists w q, ths' !! w = Some q /\ building q = Some d) as Hold.
  { intros Hb Ho Hdev. rewrite <-Hdev. destruct (i_opened _ _ HI d Ho) as [?|(w & q & Hw & Hq)]; [by left|].
    right. exists w, q. split; [|done]. apply (st_other _ _ _ _ _ Hs); [done|]. intros ->. congruence. }
  pose proof (h_build _ _ (i_local _ _ HI _ _ Ht)) as Hb. pose proof (i_dev _ _ HI) as Hdev.
  assert (building p = None -> hs p = true -> m_dev s = None -> m_opened s = ∅) as Hidle
    by (intros; by eapply opened_when_idle).
  pose proof (st_self _ _ _ _ _ Hs) as Hself. clear HI Hs.
  step_cases Hst; try by apply Hold.
  - right. exists t, (SBuild c d0). split; [done|]. rewrite (Hidle eq_refl eq_refl) in Hd by done. set_solver.
  - left. destruct (Hb _ eq_refl) as [_ Ho]. set_solver.
  - destruct (Hb _ eq_refl) as [_ Ho]. set_solver.
  - set_solver.
Qed.

Lemma pause_step t p (p' sp : option mpc) s s' ths ths' :
  tstep t p s p' sp s' -> Inv s ths -> ths !! t = Some p -> stepped t p' sp ths ths' ->
  is_Some (m_pausedBy s') ->
  (exists w q, ths' !! w = Some q /\ pausing q = true) \/
  (m_dev s' = None /\ forall w q, ths' !! w = Some q -> going q = false).
Proof.
  intros Hst HI Ht Hs Hp. pose proof (i_local _ _ HI _ _ Ht) as Hl.
  destruct (after pausing p') eqn:Hpp.
  { left. pose proof (st_self _ _ _ _ _ Hs). destruct p' as [q|]; [|done]. by exists t, q. }
  assert ((pausing p = true /\ hs p = true /\ m_dev s' = None) \/
    (pausing p = false /\ is_Some (m_pausedBy s) /\ 
      (going p = false -> m_dev s = None -> m_dev s' = None /\ after going p' = false))) as Hcase.
  { pose proof (h_was _ _ Hl) as Hw. clear HI Hs Hl. destruct Hp as [b Hb].
    step_cases Hst; try destruct k;
      first [left; by split_and! | right; split_and!; [done|by eauto|done]]. }
  assert (forall w q, w <> t -> ths' !! w = Some q -> hs p = true \/ 
    (forall w q, ths !! w = Some q -> going q = false) -> going q = false) as Hrest.
  { intros w q Hne Hw Hor. destruct (going q) eqn:Hg; [|done].
    destruct (st_inv _ _ _ _ _ Hs _ _ Hw Hne) as [[Hq _]|Hq].
    - destruct (e_spawn _ _ _ _ _ _ (tstep_discipline _ _ _ _ _ _ Hst)) as [?|[g Hs']]; simplify_eq/=.
    - destruct Hor as [Hh|Hall]; [|by rewrite (Hall _ _ Hq) in Hg].
      destruct Hne. exact (no_other_start _ _ _ _ _ _ (i_locks _ _ HI) Ht Hh Hq (going_hs _ Hg)). }
  destruct Hcase as [(Hpa & Hh & Hd)|(Hpa & Hold & Hgo)].
  - right. split; [done|]. intros w q Hw. destruct (decide (w = t)) as [->|Hne]; [|apply (Hrest w q Hne Hw); by left].
    rewrite (st_self _ _ _ _ _ Hs) in Hw. subst p'. clear - Hst Hpa. by step_cases Hst.
  - destruct (i_pause _ _ HI Hold) as [(w & q & Hw & Hq)|[Hd Hall]].
    + left. exists w, q. split; [|done]. apply (st_other _ _ _ _ _ Hs); [done|]. intros ->. congruence.
    + right. destruct (Hgo (Hall _ _ Ht) Hd) as [Hd' Hg]. split; [done|].
      intros w q Hw. destruct (decide (w = t)) as [->|Hne]; [|apply (Hrest w q Hne Hw); by right].
      rewrite (st_self _ _ _ _ _ Hs) in Hw. by subst p'.
Qed.

Lemma tstep_Inv t p (p' sp : option mpc) s s' ths ths' :
  tstep t p s p' sp s' -> Inv s ths -> ths !! t = Some p -> stepped t p' sp ths ths' -> Inv s' ths'.
Proof.
  intros Hst HI Ht Hs. constructor.
  - eapply Locks_step; [by eapply tstep_discipline|by apply (i_locks _ _ HI)|done..].
  - intros w q Hw. by eapply local_step.
  - intros d Hd. by eapply dev_step.
  - intros d Hd. by eapply opened_step.
  - intros Hp. by eapply pause_step.
Qed.

(** ** Reachable states *)

(** Which threads there can be at each point of the service's life, whether or not
    reloads rebuild the tunnel. *)
Record CInv (c : Config) : Prop := {
  c_locks : Locks (c_shared c) (c_threads c);
  c_boot : c_service c <> Booting -> none_of KBoot (c_threads c);
  c_booting : c_service c = Booting -> c_watching c = false /\ none_of KWatcher (c_threads c);
  c_late : c_service c = Cancelled \/ c_service c = Down ->
    m_ctx_done (c_shared c) = true /\ c_watching c = false /\ none_of KPipe (c_threads c);
  c_down : c_service c = Down -> c_threads c = ∅ /\ m_dev (c_shared c) = None;
}.

Lemma none_of_step k t p (p' sp : option mpc) s s' ths ths' :
  discipline t p s p' sp s' -> ths !! t = Some p -> stepped t p' sp ths ths' -> k <> KRetry ->
  none_of k ths -> none_of k ths'.
Proof.
  intros He Ht Hs Hk Hn w q Hw. destruct (decide (w = t)) as [->|Hne].
  - rewrite (st_self _ _ _ _ _ Hs) in Hw. rewrite (e_kind _ _ _ _ _ _ He q Hw). by apply (Hn t).
  - destruct (st_inv _ _ _ _ _ Hs _ _ Hw Hne) as [[Hq _]|Hq]; [|by apply (Hn w)].
    destruct (e_spawn _ _ _ _ _ _ He) as [?|[g Hs']]; simplify_eq/=. done.
Qed.

Lemma none_of_insert k t q ths : none_of k ths -> kind_of q <> k -> none_of k (<[t := q]> ths).
Proof.
  intros Hn Hq w r Hw. destruct (decide (w = t)) as [->|Hne].
  - rewrite lookup_insert_eq in Hw. congruence.
  - rewrite lookup_insert_ne in Hw by done. by apply (Hn w).
Qed.

Lemma none_left ths : (forall k, none_of k ths) -> ths = ∅.
Proof. intros Hn. apply map_eq. intros t. destruct (ths !! t) as [p|] eqn:Ht; [|done]. by destruct (Hn (kind_of p) _ _ Ht). Qed.

(** A thread that starts holds nothing yet. *)
Definition fresh (p : mpc) : Prop :=
  hs p = false /\ hc p = false /\ rebuilding p = false /\ forall pb, was_ok p pb.

Lemma lookup_new t (p : mpc) ths w q :
  <[t := p]> ths !! w = Some q -> w = t /\ q = p \/ w <> t /\ ths !! w = Some q.
Proof.
  intros Hq. destruct (decide (w = t)) as [->|Hne].
  - rewrite lookup_insert_eq in Hq. injection Hq as <-. by left.
  - rewrite lookup_insert_ne in Hq by done. by right.
Qed.

Lemma lookup_kept t (p : mpc) ths w q : ths !! t = None -> ths !! w = Some q -> <[t := p]> ths !! w = Some q.
Proof. intros Ht Hq. by rewrite lookup_insert_ne by congruence. Qed.

Lemma fresh_Locks t p s ths : hs p = false -> hc p = false -> ths !! t = None -> Locks s ths -> Locks s (<[t := p]> ths).
Proof.
  intros Hh Hc Ht HL. constructor.
  - intros w q Hq. destruct (lookup_new _ _ _ _ _ Hq) as [[-> ->]|[_ Hq']]; [|by apply (lk_own _ _ HL)].
    constructor; congruence.
  - intros w Hm. destruct (lk_start _ _ HL w Hm) as (q & Hq & ?). exists q. by split; [apply lookup_kept|].
  - intros w Hm. destruct (lk_conflict _ _ HL w Hm) as (q & Hq & ?). exists q. by split; [apply lookup_kept|].
Qed.

Lemma fresh_Inv t p s ths : fresh p -> ths !! t = None -> Inv s ths -> Inv s (<[t := p]> ths).
Proof.
  intros Hf Ht HI. pose proof Hf as (Hh & Hc & Hr & Hw). constructor.
  - by apply fresh_Locks, HI.
  - intros w q Hq. destruct (lookup_new _ _ _ _ _ Hq) as [[-> ->]|[_ Hq']]; [|by apply (i_local _ _ HI w)].
    constructor; [done| |done]. intros d Hd. apply building_hs in Hd. congruence.
  - apply (i_dev _ _ HI).
  - intros d Hd. destruct (i_opened _ _ HI d Hd) as [?|(w & q & ? & ?)]; [by left|right].
    exists w, q. by split; [apply lookup_kept|].
  - intros Hp. destruct (i_pause _ _ HI Hp) as [(w & q & ? & ?)|[Hd Hall]].
    { left; exists w, q. by split; [apply lookup_kept|]. }
    right. split; [done|]. intros w q Hq.
    destruct (lookup_new _ _ _ _ _ Hq) as [[-> ->]|[_ Hq']]; [|by apply (Hall w)].
    destruct (going p) eqn:Hg; [|done]. apply going_hs in Hg. congruence.
Qed.

(** What the environment changes of the shared state matters to neither, and stopping
    the tunnel when no thread is left is harmless. *)
Lemma same_Locks s s' ths :
  m_startMu s' = m_startMu s -> m_conflictMu s' = m_conflictMu s -> Locks s ths -> Locks s' ths.
Proof.
  intros Hs Hc [Hl ??]. constructor; rewrite ?Hs, ?Hc; try done.
  intros t p Ht. destruct (Hl t p Ht). constructor; by rewrite ?Hs, ?Hc.
Qed.

Lemma same_Inv s s' ths :
  m_dev s' = m_dev s -> m_opened s' = m_opened s -> m_pausedBy s' = m_pausedBy s ->
  m_startMu s' = m_startMu s -> m_conflictMu s' = m_conflictMu s -> Inv s ths -> Inv s' ths.
Proof.
  intros Hd Ho Hp Hs Hc [HL Hl ???]. constructor; rewrite ?Hd, ?Ho, ?Hp; try done.
  - by apply (same_Locks s).
  - intros t p Ht. destruct (Hl t p Ht). constructor; by rewrite ?Hd, ?Ho, ?Hp.
Qed.

Lemma tunnel_stop_frame s :
  m_startMu (tunnel_stop s) = m_startMu s /\ m_conflictMu (tunnel_stop s) = m_conflictMu s /\
  m_ctx_done (tunnel_stop s) = m_ctx_done s /\ m_dev (tunnel_stop s) = None.
Proof. unfold tunnel_stop. by case_match. Qed.

Lemma stop_Inv s : Inv s ∅ -> Inv (tunnel_stop s) ∅.
Proof.
  intros HI. destruct (tunnel_stop_frame s) as (Hs & Hc & _ & Hd). constructor; rewrite ?Hd; try done.
  - by apply (same_Locks s), HI.
  - intros e He. unfold tunnel_stop in *. destruct (m_dev s) as [d|] eqn:Hd'; simpl in *.
    + rewrite (i_dev _ _ HI d Hd') in He. set_solver.
    + destruct (i_opened _ _ HI e He) as [?|(? & ? & ? & _)]; [congruence|done].
  - by right.
Qed.

Lemma request_fresh reload p s :
  request reload p s -> kind_of p = KPipe /\ hs p = false /\ hc p = false /\ (reload = false -> fresh p).
Proof. by intros [->|[->|[->|(-> & -> & _)]]]. Qed.

(** A step of thread [t] keeps the lifecycle in order. *)
Lemma thread_CInv c t p (p' sp : option mpc) s' ths' :
  discipline t p (c_shared c) p' sp s' -> c_threads c !! t = Some p -> stepped t p' sp (c_threads c) ths' ->
  CInv c -> CInv (c <| c_shared := s' |> <| c_threads := ths' |>).
Proof.
  intros He Ht Hs [HL Hb Hbw Hl Hd].
  assert (forall k, k <> KRetry -> none_of k (c_threads c) -> none_of k ths') as Hn
    by (intros; by eapply none_of_step).
  constructor; simpl.
  - by eapply Locks_step.
  - auto.
  - intros Hs'. destruct (Hbw Hs'). auto.
  - intros Hs'. rewrite (e_ctx _ _ _ _ _ _ He). destruct (Hl Hs') as (? & ? & ?). auto.
  - intros Hs'. destruct (Hd Hs') as [Hn' _]. by rewrite Hn', lookup_empty in Ht.
Qed.

Lemma rebuild_stepped t u p (p' : option mpc) ths :
  ths !! t = Some p -> ths !! u = None -> stepped t p' None ths (upd t p' ths).
Proof. intros Ht Hu. exact (stepped_threads t u p p' None ths Ht Hu). Qed.

Lemma mstep_CInv reload c c' : mstep reload c c' -> CInv c -> CInv c'.
Proof.
  intros Hst HI. pose proof HI as [HL Hb Hbw Hl Hd]. destruct Hst.
  - eapply thread_CInv; [by eapply tstep_discipline|done|by eapply stepped_threads|done].
  - eapply (thread_CInv c t p p' None); [by apply lstep_discipline|done| |done].
    apply (rebuild_stepped t (base.fresh (dom (c_threads c))) p); [done|]. apply not_elem_of_dom, is_fresh.
  - destruct (request_fresh _ _ _ H1) as (Hk & Hh & Hc & _).
    constructor; simpl; rewrite ?H in *; try done.
    + by apply fresh_Locks.
    + intros _. apply none_of_insert; [auto|congruence].
    + by intros [].
  - constructor; simpl; rewrite ?H in *; try done.
    + by apply fresh_Locks.
    + intros _. by apply none_of_insert; [auto|].
    + by intros [].
  - constructor; simpl; try done. by apply (same_Locks (c_shared c)).
  - constructor; simpl; try done. by apply (same_Locks (c_shared c)).
  - constructor; simpl; try done. by intros [].
  - constructor; simpl; try done; [by intros _; apply Hb; rewrite H|by intros []].
  - constructor; simpl; rewrite ?H in *; try done. by intros [].
  - constructor; simpl; try done; [by apply (same_Locks (c_shared c))|by intros _; apply Hb; rewrite H].
  - destruct (tunnel_stop_frame (c_shared c)) as (Es & Ec & Ex & Ed).
    destruct Hl as (Hx & Hw & Hp); [by left|].
    assert (c_threads c = ∅) as He.
    { apply none_left. intros []; [apply Hb; by rewrite H|done..]. }
    constructor; simpl; rewrite ?Ex; try done.
    + by apply (same_Locks (c_shared c)).
    + intros _. apply Hb. by rewrite H.
Qed.

Lemma booting_CInv auto : CInv (booting auto).
Proof.
  assert (Locks (new_shared auto) ∅) as HL by by constructor.
  constructor; simpl; try done.
  - destruct auto; [|done]. by apply (fresh_Locks 0%nat (CLock OBoot)).
  - intros _. split; [done|]. destruct auto; [|done]. by apply none_of_insert.
  - by intros [].
Qed.

Lemma steps_CInv reload c c' : rtc (mstep reload) c c' -> CInv c -> CInv c'.
Proof. induction 1 as [|x y z H1 _ IH]; [done|]. intros HI. apply IH. by eapply mstep_CInv. Qed.

Lemma reach_CInv reload auto c : reach reload auto c -> CInv c.
Proof. intros Hr. eapply steps_CInv; [done|apply booting_CInv]. Qed.

(** Without a rebuild, the tunnel is in order too. *)
Lemma mstep_Inv c c' : mstep false c c' -> CInv c -> Inv (c_shared c) (c_threads c) -> Inv (c_shared c') (c_threads c').
Proof.
  intros Hst HC HI. destruct Hst; simpl; try done.
  - eapply tstep_Inv; [done..|]. by apply stepped_threads with (p := p).
  - pose proof (h_rebuild _ _ (i_local _ _ HI _ _ H)) as Hr. by destruct H0.
  - destruct (request_fresh _ _ _ H1) as (_ & _ & _ & Hf). by apply fresh_Inv; [apply Hf|..].
  - by apply fresh_Inv.
  - by apply (same_Inv (c_shared c)).
  - by apply (same_Inv (c_shared c)).
  - by apply (same_Inv (c_shared c)).
  - assert (c_threads c = ∅) as He.
    { destruct (c_late _ HC (or_introl H)) as (_ & _ & ?). apply none_left.
      intros []; [apply (c_boot _ HC); by rewrite H|done..]. }
    rewrite He in *. by apply stop_Inv.
Qed.

Lemma booting_Inv auto : Inv (c_shared (booting auto)) (c_threads (booting auto)).
Proof.
  assert (Inv (new_shared auto) ∅) as HI.
  { constructor; simpl; try done; by constructor || by intros []. }
  destruct auto; [|done]. by apply (fresh_Inv 0%nat (CLock OBoot)).
Qed.

Lemma steps_Inv c c' :
  rtc (mstep false) c c' -> CInv c -> Inv (c_shared c) (c_threads c) -> Inv (c_shared c') (c_threads c').
Proof.
  induction 1 as [|x y z H1 _ IH]; [done|]. intros HC HI. apply IH; [by eapply mstep_CInv|by eapply mstep_Inv].
Qed.

Lemma reach_Inv auto c : reach false auto c -> Inv (c_shared c) (c_threads c).
Proof. intros Hr. eapply steps_Inv; [done|apply booting_CInv|apply booting_Inv]. Qed.

(** ** Progress and termination *)

(** A step of some thread. *)
Definition thread_step (c c' : Config) : Prop :=
  exists t u p (p' sp : option mpc) s', c_threads c !! t = Some p /\ c_threads c !! u = None /\
    tstep t p (c_shared c) p' sp s' /\
    c' = c <| c_shared := s' |> <| c_threads := spawn u sp (upd t p' (c_threads c)) |>.

Lemma thread_mstep reload c c' : thread_step c c' -> mstep reload c c'.
Proof. intros (t & u & p & p' & sp & s' & Ht & Hu & Hst & ->). by eapply ms_thread. Qed.

(** The longest way that a thread has to its end, and those it starts, when no retry
    loop goes round again. *)
Definition caller_rank (c : caller) : nat := match c with Boot => 12 | Manual => 0 | Retry _ => 3 end.

Definition conflict_rank (o : origin) : nat := match o with OBoot => 18 | _ => 0 end.

Definition stopper_rank (k : stopper) : nat := match k with ByStop => 0 | ByPause _ => 19 end.

Definition rank (p : mpc) : nat :=
  match p with
  | RForget _ => 1 | RCancel _ => 2 | RGot _ _ => 3 | RCheck _ => 9 | RWait _ => 10
  | BSpawn => 11 | BGot _ => 12
  | SUnlock c _ => caller_rank c + 1 | SBuild c _ => caller_rank c + 2 | SGo c => caller_rank c + 3
  | SRead c => caller_rank c + 4 | SLock c => caller_rank c + 5
  | MCheck => 6 | MWant => 7
  | KUnlock k => stopper_rank k + 1 | KStop k => stopper_rank k + 2 | KLock k => stopper_rank k + 3
  | KCall k _ => stopper_rank k + 4 | KTake k => stopper_rank k + 5 | XWant => 6
  | CUnlock o => 19 | CSet _ _ => 20 | CPause _ _ => 25 | CSpawn _ => 30 | CResume _ => 31
  | CList _ _ => 32 | CRead _ => 33 | CLock _ => 34
  | WLoop => 1
  | LBuild _ => 35 | LStart => 36 | LStop => 37
  end%nat.

Definition rank_opt (o : option mpc) : nat := match o with Some p => rank p | None => 0 end.

Definition measure (ths : gmap nat mpc) : nat := map_fold (fun _ p n => (rank p + n)%nat) 0%nat ths.

Lemma measure_delete ths t p : ths !! t = Some p -> measure ths = (rank p + measure (delete t ths))%nat.
Proof. intros Ht. unfold measure. rewrite (map_fold_delete_L _ _ t p) by (done || (intros; lia)). done. Qed.

Lemma measure_insert ths t p : ths !! t = None -> measure (<[t := p]> ths) = (rank p + measure ths)%nat.
Proof. intros Ht. unfold measure. by rewrite map_fold_insert_L by (done || (intros; lia)). Qed.

Lemma measure_step t u p (p' sp : option mpc) ths :
  ths !! t = Some p -> ths !! u = None ->
  (measure (spawn u sp (upd t p' ths)) + rank p = measure ths + rank_opt p' + rank_opt sp)%nat.
Proof.
  intros Ht Hu. assert (t <> u) as Hne by congruence.
  assert (measure (upd t p' ths) + rank p = measure ths + rank_opt p')%nat as Hupd.
  { rewrite (measure_delete ths t p Ht). destruct p' as [q|]; simpl; [|lia].
    rewrite <-insert_delete_eq, measure_insert by apply lookup_delete_eq. lia. }
  destruct sp as [q|]; simpl; [|lia]. rewrite measure_insert; [lia|].
  destruct p'; simpl; by rewrite ?lookup_insert_ne, ?lookup_delete_ne.
Qed.

(** What the watcher's loop can still receive: a notification arms its timer, so each
    makes it go round twice. *)
Definition pending (s : Shared) : nat :=
  ((if m_event s then 68 else 0) + (if m_timer s then 34 else 0))%nat.

(** A bound on the steps that the goroutines have left, once the context is done. *)
Definition steps_left (c : Config) : nat := (measure (c_threads c) + pending (c_shared c))%nat.

(** Every step brings its thread nearer to its end, save another attempt of a retry
    loop whose context is not done; going round the watcher's loop uses up what it has
    received. *)
Lemma rank_step t p (p' sp : option mpc) s s' :
  tstep t p s p' sp s' -> m_ctx_done s = true ->
  (rank_opt p' + rank_opt sp + pending s' < rank p + pending s)%nat.
Proof.
  intros Hst Hctx.
  assert (p <> WLoop -> pending s' = pending s) as Hpend.
  { intros Hp. unfold pending. clear Hctx. step_cases Hst; congruence. }
  assert (p = WLoop \/ p <> WLoop) as [->|Hp] by (destruct p; (by left) || by right).
  { clear Hpend. unfold pending. inversion Hst; subst; simpl; repeat case_match; try lia; congruence. }
  rewrite (Hpend Hp). clear Hpend. apply Nat.add_lt_mono_r.
  inversion Hst; subst; simpl; unfold ctx_dead in *; try rewrite Hctx in *; try discriminate; try lia;
    try by destruct Hp.
  all: try (destruct c; simpl; lia); try (destruct k as [|[]]; simpl; lia); try (destruct o; simpl; lia).
  - destruct found, was; simpl; lia.
  - destruct (m_wanted s); simpl; lia.
Qed.

(** Some thread can always step: whoever holds [conflictMu] may wait for [startMu],
    whoever holds [startMu] waits for nothing. *)
Definition blocked (p : mpc) (s : Shared) : Prop :=
  match p with
  | SLock _ | KLock _ => is_Some (m_startMu s)
  | CLock _ => is_Some (m_conflictMu s)
  | _ => False
  end.

#[global] Instance start_result_eq_dec : EqDecision start_result.
Proof. solve_decision. Defined.

Definition waits (p : mpc) (s : Shared) : Prop :=
  blocked p s \/ p = WLoop /\ m_ctx_done s = false.

Lemma unblocked_steps t p s :
  rebuilding p = false -> ~ waits p s -> exists (p' sp : option mpc) s', tstep t p s p' sp s'.
Proof.
  intros Hr Hn. unfold waits in Hn.
  destruct p; simpl in *; try done; try (by eexists _, _, _; econstructor).
  - destruct (m_dev s) eqn:Hd; eexists _, _, _; [by apply t_check_up; rewrite Hd|by apply t_check_down].
  - destruct (m_startMu s) eqn:Hm; [by destruct Hn; left|]. eexists _, _, _. by apply t_slock.
  - destruct (m_pausedBy s) eqn:Hd; eexists _, _, _; [by apply t_sread_paused; rewrite Hd|by apply t_sread].
  - destruct (m_dev s) eqn:Hd; eexists _, _, _; [by apply t_sgo_up; rewrite Hd|].
    apply (t_sgo t c (base.fresh (m_opened s))); [done|apply is_fresh].
  - destruct (decide (r = StartFailed)) as [->|]; eexists _, _, _; [apply t_bgot_failed|by apply t_bgot].
  - destruct (m_dev s) eqn:Hd; eexists _, _, _; [by apply t_rcheck_up; rewrite Hd|by apply t_rcheck].
  - destruct (decide (r = StartFailed)) as [->|]; [|by eexists _, _, _; apply t_rgot_done; right].
    destruct (ctx_dead g s) eqn:Hd; eexists _, _, _; [by apply t_rgot_done; left|by apply t_rgot_again].
  - destruct (m_startMu s) eqn:Hm; [by destruct Hn; left|]. eexists _, _, _. by apply t_klock.
  - destruct (m_conflictMu s) eqn:Hm; [by destruct Hn; left|]. eexists _, _, _. by apply t_clock.
  - destruct (m_ctx_done s) eqn:Hx; [|by destruct Hn; right]. eexists _, _, _. by apply t_wloop_done.
Qed.

Lemma progress c t p :
  Locks (c_shared c) (c_threads c) -> none_of KPipe (c_threads c) -> m_ctx_done (c_shared c) = true ->
  c_threads c !! t = Some p -> exists c', thread_step c c'.
Proof.
  intros HL Hk Hx Ht.
  assert (forall t p, c_threads c !! t = Some p -> ~ blocked p (c_shared c) -> exists c', thread_step c c') as Hfree.
  { clear t p Ht. intros t p Ht Hn.
    destruct (unblocked_steps t p (c_shared c)) as (p' & sp & s' & Hst).
    - destruct (rebuilding p) eqn:Hr; [|done]. destruct (Hk _ _ Ht). by destruct p.
    - intros [?|[_ ?]]; [done|congruence].
    - eexists. exists t, (base.fresh (dom (c_threads c))), p, p', sp, s'. split_and!; [done| |done|done].
      apply not_elem_of_dom, is_fresh. }
  assert (forall t, m_startMu (c_shared c) = Some t -> exists c', thread_step c c') as Hstart.
  { intros w Hm. destruct (lk_start _ _ HL w Hm) as (q & Hq & Hh). apply (Hfree w q Hq). destruct q; try done; by intros []. }
  assert (forall t, m_conflictMu (c_shared c) = Some t -> exists c', thread_step c c') as Hconf.
  { intros w Hm. destruct (lk_conflict _ _ HL w Hm) as (q & Hq & Hh).
    destruct (m_startMu (c_shared c)) as [v|] eqn:Hs; [by apply (Hstart v)|].
    apply (Hfree w q Hq). destruct q; try done; simpl; rewrite ?Hs; by intros []. }
  destruct (m_startMu (c_shared c)) as [v|] eqn:Hs; [by apply (Hstart v)|].
  destruct (m_conflictMu (c_shared c)) as [v|] eqn:Hc; [by apply (Hconf v)|].
  apply (Hfree t p Ht). destruct p; simpl; rewrite ?Hs, ?Hc; by intros [].
Qed.

Lemma thread_step_late c c' :
  thread_step c c' -> m_ctx_done (c_shared c) = true -> (steps_left c' < steps_left c)%nat.
Proof.
  intros (t & u & p & p' & sp & s' & Ht & Hu & Hst & ->) Hctx. unfold steps_left. simpl.
  pose proof (measure_step t u p p' sp _ Ht Hu). pose proof (rank_step _ _ _ _ _ _ Hst Hctx). lia.
Qed.

(** Whatever else happens while [Stop] waits gives the goroutines nothing more to do. *)
Lemma late_step reload c c' :
  mstep reload c c' -> CInv c -> c_service c = Cancelled ->
  (steps_left c' <= steps_left c)%nat /\ (c_service c' = Cancelled \/ c_service c' = Down).
Proof.
  intros Hst HI Hs. destruct (c_late _ HI (or_introl Hs)) as (Hctx & Hw & Hk).
  destruct Hst; simpl in *; try congruence; try by (split; [unfold steps_left, pending; simpl; lia|auto]).
  - split; [|by left]. apply Nat.lt_le_incl, thread_step_late; [|done]. by exists t, u, p, p', sp, s'.
  - destruct (Hk _ _ H). by destruct H0.
  - split; [|by right]. unfold steps_left, pending, tunnel_stop. simpl. by destruct (m_dev (c_shared c)).
Qed.

Lemma down_step reload c c' : mstep reload c c' -> CInv c -> c_service c = Down -> c_service c' = Down.
Proof. intros Hst _ Hs. destruct Hst; simpl; try done; congruence. Qed.

Lemma late_steps reload c c' :
  rtc (mstep reload) c c' -> CInv c -> c_service c = Cancelled -> c_service c' = Cancelled ->
  (steps_left c' <= steps_left c)%nat.
Proof.
  intros Hr HI Hs Hs'. revert HI Hs. induction Hr as [|x y z H1 H2 IH]; intros HI Hs; [done|].
  pose proof (mstep_CInv _ _ _ H1 HI) as HI'.
  destruct (late_step _ _ _ H1 HI Hs) as [Hle [Hy|Hy]]; [specialize (IH Hs' HI' Hy); lia|].
  exfalso. clear - H2 Hy HI' Hs'. induction H2 as [|x y z H1 _ IH]; [congruence|].
  by apply IH; [|by eapply mstep_CInv|by eapply down_step].
Qed.

(** C31: [Stop] does not wait for ever: once it has cancelled the service's context, the
    goroutines it waits for (the loop of the network watcher, which may still have a
    notification and its timer to answer, and the retry loops) take no more than a number
    of steps known in advance, however they are scheduled, whatever else happens in the
    meantime and whatever reloads have done before; and they never wait for each other in
    a circle, so that when none can step there is none left, and [Stop] can return. *)
Theorem Stop_waits_end reload auto c :
  reach reload auto c -> c_service c = Cancelled ->
  (forall n c', nsteps (fun x y => exists m, rtc (mstep reload) x m /\ c_service m = Cancelled /\ thread_step m y) n c c' ->
     (n <= steps_left c)%nat) /\
  (forall c', rtc (mstep reload) c c' -> c_service c' = Cancelled -> (forall c'', ~ thread_step c' c'') ->
     c_threads c' = ∅ /\ exists c'', mstep reload c' c'' /\ c_service c'' = Down).
Proof.
  intros Hr Hs. pose proof (reach_CInv _ _ _ Hr) as HI. clear Hr. split.
  - intros n. revert c Hs HI. induction n as [|n IH]; intros c Hs HI c' Hn; [lia|].
    inversion Hn as [|? ? y ? (m & Hm & Hms & H1) H2]; subst.
    pose proof (late_steps _ _ _ Hm HI Hs Hms). pose proof (steps_CInv _ _ _ Hm HI) as HIm.
    destruct (c_late _ HIm (or_introl Hms)) as [Hctx _].
    pose proof (thread_step_late _ _ H1 Hctx) as Hlt.
    assert (c_service y = Cancelled) as Hy by (by destruct H1 as (? & ? & ? & ? & ? & ? & ? & ? & ? & ->)).
    specialize (IH y Hy (mstep_CInv _ _ _ (thread_mstep reload _ _ H1) HIm) _ H2). lia.
  - intros c' Hsteps Hs' Hend. pose proof (steps_CInv _ _ _ Hsteps HI) as HI'.
    destruct (c_late _ HI' (or_introl Hs')) as (Hctx & _ & Hk).
    assert (c_threads c' = ∅) as He.
    { apply map_eq. intros t. destruct (c_threads c' !! t) as [p|] eqn:Ht; [|done].
      destruct (progress c' t p (c_locks _ HI') Hk Hctx Ht) as [c'' H]. by destruct (Hend c''). }
    split; [done|]. eexists. split; [by apply ms_down; rewrite ?He|done].
Qed.

(** C7: while the configuration is connected through another client the tunnel is down:
    as soon as the [pause] that notices it has stopped the tunnel, and until the
    [resume], no device is up or open and no attempt to bring one up is past its check
    of the pause, whatever the boot sequence, the retry loops, the network watcher and the
    requests to start, to stop, to reconnect and to reload do in the meantime, in every run
    in which no reload goes as far as to rebuild the tunnel.  (A rebuild does not take
    [startMu] and can break this: [reload_rebuild_unserialised].) *)
Theorem pause_holds auto c :
  reach false auto c -> is_Some (m_pausedBy (c_shared c)) ->
  (forall t p, c_threads c !! t = Some p -> pausing p = false) ->
  m_dev (c_shared c) = None /\ m_opened (c_shared c) = ∅ /\
  (forall t p, c_threads c !! t = Some p -> going p = false).
Proof.
  intros Hr Hp Hn. pose proof (reach_Inv _ _ Hr) as HI.
  destruct (i_pause _ _ HI Hp) as [(t & p & Ht & Hq)|[Hd Hg]].
  { rewrite (Hn _ _ Ht) in Hq. done. }
  split_and!; [done| |done]. apply set_eq. intros d. split; [|set_solver]. intros He. exfalso.
  destruct (i_opened _ _ HI d He) as [?|(t & p & Ht & Hb)]; [congruence|].
  pose proof (Hg _ _ Ht). by destruct p.
Qed.

(** C14: the boot sequence, the retry loops and manual starts never build two devices:
    at most one of them is past [Running], at most one device is open, and it is the
    tunnel's or that of the attempt in progress. *)
Theorem one_device auto c :
  reach false auto c ->
  (forall t1 t2 p1 p2, c_threads c !! t1 = Some p1 -> c_threads c !! t2 = Some p2 ->
     going p1 = true -> going p2 = true -> t1 = t2) /\
  (forall d1 d2, d1 ∈ m_opened (c_shared c) -> d2 ∈ m_opened (c_shared c) -> d1 = d2) /\
  (forall d, d ∈ m_opened (c_shared c) <-> m_dev (c_shared c) = Some d \/
     exists t p, c_threads c !! t = Some p /\ building p = Some d).
Proof.
  intros Hr. pose proof (reach_Inv _ _ Hr) as HI.
  assert (forall d, m_dev (c_shared c) = Some d \/ (exists t p, c_threads c !! t = Some p /\ building p = Some d) ->
    m_opened (c_shared c) = {[d]}) as Hone.
  { intros d [Hd|(t & p & Ht & Hb)]; [by apply (i_dev _ _ HI)|]. by apply (i_local _ _ HI _ _ Ht). }
  split_and!.
  - intros t1 t2 p1 p2 H1 H2 Hg1 Hg2. apply (no_other_start _ _ _ _ _ _ (i_locks _ _ HI) H2 (going_hs _ Hg2) H1 (going_hs _ Hg1)).
  - intros d1 d2 H1 H2. rewrite (Hone _ (i_opened _ _ HI d1 H1)) in H2. set_solver.
  - intros d. split; [apply (i_opened _ _ HI)|]. intros Hd. rewrite (Hone d Hd). set_solver.
Qed.

(** When [Stop] has returned, nothing of the runtime is left and nothing comes back:
    no goroutine of it, no device up or open, and no watcher, then and after. *)
Theorem Down_is_final auto c c' :
  reach false auto c -> c_service c = Down -> rtc (mstep false) c c' ->
  c_threads c' = ∅ /\ m_dev (c_shared c') = None /\ m_opened (c_shared c') = ∅ /\
  c_watching c' = false /\ c_service c' = Down.
Proof.
  intros Hr Hs Hsteps.
  assert (c_service c' = Down) as Hs'.
  { clear Hr. induction Hsteps as [|x y z H1 _ IH]; [done|]. apply IH. clear IH.
    destruct H1; simpl; try done; congruence. }
  assert (reach false auto c') as Hr' by (by etransitivity).
  pose proof (reach_CInv _ _ _ Hr') as HC. pose proof (reach_Inv _ _ Hr') as HI.
  destruct (c_down _ HC Hs') as (Ht & Hd). destruct (c_late _ HC (or_intror Hs')) as (_ & Hw & _).
  split_and!; try done.
  apply set_eq. intros d. split; [|set_solver]. intros He. exfalso.
  destruct (i_opened _ _ HI d He) as [?|(t & p & Hp & _)]; [congruence|].
  by rewrite Ht, lookup_empty in Hp.
Qed.

(** ** Retries *)

(** The retry that a thread runs; the one whose cancellation it is about to call. *)
Definition rg (p : mpc) : option nat :=
  match p with
  | RWait g | RCheck g | RGot g _ | RCancel g | RForget g
  | SLock (Retry g) | SRead (Retry g) | SGo (Retry g) | SBuild (Retry g) _ | SUnlock (Retry g) _ => Some g
  | _ => None
  end.

Definition calls (p : mpc) (g : nat) : Prop :=
  match p with KCall _ og => og = Some g | _ => False end.

Definition live (s : Shared) (ths : gmap nat mpc) (g : nat) : Prop :=
  (g ∉ m_cancelled s) /\ forall t p, ths !! t = Some p -> ~ calls p g.

Record RInv (s : Shared) (ths : gmap nat mpc) : Prop := {
  r_gen : forall t p g, ths !! t = Some p -> rg p = Some g -> (g <= m_retryGen s)%nat;
  r_unique : forall t t' p p' g, ths !! t = Some p -> ths !! t' = Some p' ->
    rg p = Some g -> rg p' = Some g -> t = t';
  r_current : forall g, m_retryCancel s = Some g -> g = m_retryGen s;
  r_known : forall t p g, ths !! t = Some p -> rg p = Some g ->
    g ∈ m_cancelled s \/ m_retryCancel s = Some g \/ exists w q, ths !! w = Some q /\ calls q g;
  r_forget : forall t g, ths !! t = Some (RForget g) -> g ∈ m_cancelled s;
}.

(** What a step does to the record of the retry: it leaves it, replaces it by a new
    generation, takes it to cancel it, cancels, or forgets it. *)
Definition special (p : mpc) : bool := match p with RForget _ | KCall _ _ => true | _ => false end.

Definition retry_record (s : Shared) := (m_retryGen s, m_retryCancel s, m_cancelled s).

Inductive retry_effect (p : mpc) (s : Shared) : option mpc -> option mpc -> Shared -> Prop :=
| re_quiet (p' : option mpc) s' : special p = false -> after special p' = false -> p' ≫= rg = rg p ->
    retry_record s' = retry_record s -> retry_effect p s p' None s'
| re_new (p' : option mpc) : special p = false -> after special p' = false -> rg p = None -> p' ≫= rg = None ->
    retry_effect p s p' (Some (RWait (S (m_retryGen s)))) (retry_install s)
| re_cancel g : p = RCancel g -> retry_effect p s (Some (RForget g)) None (cancel_opt (Some g) s)
| re_forget g : p = RForget g -> retry_effect p s None None (retry_forget g s)
| re_take k : p = KTake k -> retry_effect p s (Some (KCall k (m_retryCancel s))) None (s <| m_retryCancel := None |>)
| re_call k og : p = KCall k og -> retry_effect p s (Some (KLock k)) None (cancel_opt og s).

Lemma tstep_retry t p (p' sp : option mpc) s s' : tstep t p s p' sp s' -> retry_effect p s p' sp s'.
Proof.
  intros Hst. inversion Hst; subst; try by constructor.
  all: try by (apply re_quiet; try done; by destruct c).
  - apply re_quiet; try done. unfold tunnel_stop. by case_match.
  - by destruct k; apply re_quiet.
  - by destruct found, was; apply re_quiet.
  - by destruct (m_wanted s); apply re_quiet.
  - by destruct o; apply re_quiet.
Qed.

(** The retries of the threads, once [t] has stepped. *)
Lemma stepped_rg t p (p' sp : option mpc) s s' ths ths' w q g :
  retry_effect p s p' sp s' -> ths !! t = Some p -> stepped t p' sp ths ths' ->
  ths' !! w = Some q -> rg q = Some g ->
  (exists q0, ths !! w = Some q0 /\ rg q0 = Some g) \/
  (sp = Some (RWait g) /\ g = S (m_retryGen s) /\ q = RWait g /\ ths !! w = None).
Proof.
  intros He Ht Hs Hw Hg. destruct (decide (w = t)) as [->|Hne].
  - left. exists p. split; [done|]. rewrite (st_self _ _ _ _ _ Hs) in Hw. subst p'.
    inversion He; subst; simpl in *; congruence.
  - destruct (st_inv _ _ _ _ _ Hs _ _ Hw Hne) as [[Hq Hn]|Hq]; [right|left; by exists q].
    inversion He; subst; simplify_eq/=. done.
Qed.

(** The calls of a cancellation that were about to happen still are, save that of [t]. *)
Lemma stepped_calls t p (p' sp : option mpc) ths ths' w q g :
  ths !! t = Some p -> stepped t p' sp ths ths' -> ths !! w = Some q -> calls q g ->
  calls p g \/ exists w q, ths' !! w = Some q /\ calls q g.
Proof.
  intros Ht Hs Hw Hc. destruct (decide (w = t)) as [->|Hne]; [left; congruence|].
  right. exists w, q. split; [|done]. by apply (st_other _ _ _ _ _ Hs).
Qed.

(** The record of the retry, and what has been cancelled, after a step. *)
Lemma retry_effect_gen p s (p' sp : option mpc) s' :
  retry_effect p s p' sp s' ->
  sp = None /\ m_retryGen s' = m_retryGen s \/
  sp = Some (RWait (S (m_retryGen s))) /\ m_retryGen s' = S (m_retryGen s) /\
    m_retryCancel s' = Some (S (m_retryGen s)).
Proof.
  unfold retry_record. destruct 1; simplify_eq/=; auto; unfold retry_install, retry_forget, cancel_opt;
    repeat case_match; simpl; auto.
Qed.

Lemma retry_effect_cancelled p s (p' sp : option mpc) s' g :
  retry_effect p s p' sp s' -> g ∈ m_cancelled s \/ calls p g -> g ∈ m_cancelled s'.
Proof.
  unfold retry_record. destruct 1; simplify_eq/=; unfold retry_install, retry_forget, cancel_opt;
    repeat case_match; simpl; intros [Hc|Hc]; simplify_eq/=; try done; try set_solver;
    match goal with H : special ?p = false |- _ => by destruct p end.
Qed.

Lemma retry_effect_cancel p s (p' sp : option mpc) s' g :
  retry_effect p s p' sp s' -> m_retryCancel s' = Some g ->
  g = m_retryGen s' /\ sp <> None \/ m_retryCancel s = Some g /\ sp = None.
Proof.
  unfold retry_record. destruct 1; simplify_eq/=; unfold retry_install, retry_forget, cancel_opt;
    repeat case_match; simpl; intros; simplify_eq/=; auto; right; split; congruence.
Qed.

(** A retry that was the current one is still, or is cancelled, or about to be. *)
Lemma retry_effect_lost p s (p' sp : option mpc) s' g :
  retry_effect p s p' sp s' -> m_retryCancel s = Some g ->
  m_retryCancel s' = Some g \/ g ∈ m_cancelled s' \/ (exists q, p' = Some q /\ calls q g) \/
  p = RForget (m_retryGen s).
Proof.
  intros He Hg. destruct He; unfold retry_record, retry_install, retry_forget, cancel_opt in *; rewrite ?Hg;
    repeat case_match; simplify_eq/=.
  all: try (left; congruence); right.
  - set_solver.
  - right; right. match goal with H : bool_decide _ = true |- _ => apply bool_decide_eq_true in H; by rewrite H end.
  - right; left. by eexists.
Qed.

Lemma tstep_RInv t p (p' sp : option mpc) s s' ths ths' :
  tstep t p s p' sp s' -> ths !! t = Some p -> stepped t p' sp ths ths' -> RInv s ths -> RInv s' ths'.
Proof.
  intros Hst Ht Hs [Hg Hu Hc Hk Hf]. apply tstep_retry in Hst.
  pose proof (retry_effect_gen _ _ _ _ _ Hst) as Hgen.
  assert (forall w q g, ths' !! w = Some q -> rg q = Some g ->
    (exists q0, ths !! w = Some q0 /\ rg q0 = Some g) \/
    (sp = Some (RWait g) /\ g = S (m_retryGen s) /\ q = RWait g /\ ths !! w = None)) as Hrg
    by (intros; by eapply stepped_rg).
  assert (forall w q g, ths !! w = Some q -> calls q g ->
    calls p g \/ exists w q, ths' !! w = Some q /\ calls q g) as Hcalls by (intros; by eapply stepped_calls).
  constructor.
  - intros w q g Hw Hq.
    destruct (Hrg _ _ _ Hw Hq) as [(q0 & Hw0 & Hq0)|(-> & -> & _)]; [|destruct Hgen as [[? _]|(_ & -> & _)]; done].
    pose proof (Hg _ _ _ Hw0 Hq0). destruct Hgen as [[_ ->]|(_ & -> & _)]; lia.
  - intros w w' q q' g Hw Hw' Hq Hq'.
    destruct (Hrg _ _ _ Hw Hq) as [(q0 & Hw0 & Hq0)|(_ & -> & -> & Hn)],
      (Hrg _ _ _ Hw' Hq') as [(q0' & Hw0' & Hq0')|(_ & ? & ? & Hn')].
    + by eapply Hu.
    + subst. pose proof (Hg _ _ _ Hw0 Hq0). lia.
    + pose proof (Hg _ _ _ Hw0' Hq0'). lia.
    + by eapply (st_one _ _ _ _ _ Hs).
  - intros g Hg'. destruct (retry_effect_cancel _ _ _ _ _ _ Hst Hg') as [[? _]|[Ho Hsp]]; [done|].
    rewrite (Hc _ Ho). destruct Hgen as [[_ ?]|(? & _)]; congruence.
  - intros w q g Hw Hq. destruct (Hrg _ _ _ Hw Hq) as [(q0 & Hw0 & Hq0)|(-> & -> & _)].
    2: { right; left. destruct Hgen as [[? _]|(_ & _ & ?)]; done. }
    destruct (Hk _ _ _ Hw0 Hq0) as [Hk'|[Hk'|(v & r & Hv & Hr)]].
    + left. eapply retry_effect_cancelled; eauto.
    + destruct (retry_effect_lost _ _ _ _ _ _ Hst Hk') as [?|[?|[(r & Hr & Hcr)|Hp]]]; [by auto..| |].
      * right; right. exists t, r. by rewrite (st_self _ _ _ _ _ Hs).
      * left. eapply retry_effect_cancelled; [done|]. left. apply (Hf t). by rewrite (Hc _ Hk'), <-Hp.
    + destruct (Hcalls _ _ _ Hv Hr) as [Hp|Hp]; [|by right; right].
      left. eapply retry_effect_cancelled; eauto.
  - intros w g Hw. destruct (decide (w = t)) as [->|Hne].
    + rewrite (st_self _ _ _ _ _ Hs) in Hw. subst p'. inversion Hst; subst; simplify_eq/=. set_solver.
    + destruct (st_inv _ _ _ _ _ Hs _ _ Hw Hne) as [[Hq Hn]|Hq].
      * destruct Hgen as [[? _]|(? & _)]; congruence.
      * eapply retry_effect_cancelled; [done|]. left. by apply (Hf w).
Qed.

Lemma same_RInv s s' ths : retry_record s' = retry_record s -> RInv s ths -> RInv s' ths.
Proof.
  intros [= HG HC HD] [Hg Hu Hc Hk Hf]. by constructor; rewrite ?HG, ?HC, ?HD.
Qed.

Lemma fresh_RInv t p s ths :
  rg p = None -> special p = false -> ths !! t = None -> RInv s ths -> RInv s (<[t := p]> ths).
Proof.
  intros Hr Hsp Ht [Hg Hu Hc Hk Hf].
  assert (forall w q g, <[t := p]> ths !! w = Some q -> rg q = Some g -> ths !! w = Some q) as Hinv.
  { intros w q g Hq Hrq. destruct (decide (w = t)) as [->|Hne]; [|by rewrite lookup_insert_ne in Hq].
    rewrite lookup_insert_eq in Hq. congruence. }
  constructor; [eauto..|done| |].
  - intros w q g Hw Hq. destruct (Hk _ _ _ (Hinv _ _ _ Hw Hq) Hq) as [?|[?|(v & r & Hv & Hcr)]]; [by auto..|].
    right; right. exists v, r. split; [|done]. rewrite lookup_insert_ne by congruence. done.
  - intros w g Hw. by apply (Hf w), (Hinv _ _ g).
Qed.

Lemma reach_RInv auto c : reach false auto c -> RInv (c_shared c) (c_threads c).
Proof.
  intros Hr. pose proof (booting_CInv auto) as HC. pose proof (booting_Inv auto) as HI.
  assert (RInv (c_shared (booting auto)) (c_threads (booting auto))) as HR.
  { assert (RInv (new_shared auto) ∅) by by constructor. destruct auto; [|done]. by apply (fresh_RInv 0%nat (CLock OBoot)). }
  induction Hr as [|x y z H1 _ IH]; [done|].
  apply IH; [by eapply mstep_CInv|by eapply mstep_Inv|]. clear z IH HC.
  destruct H1; simpl; try done.
  - eapply tstep_RInv; [done..| |done]. by eapply stepped_threads.
  - pose proof (h_rebuild _ _ (i_local _ _ HI _ _ H)) as Hreb. by destruct H0.
  - destruct H1 as [->|[->|[->|(-> & ? & _)]]]; by apply fresh_RInv.
  - by apply fresh_RInv.
  - by apply (same_RInv (c_shared c)).
  - by apply (same_RInv (c_shared c)).
  - by apply (same_RInv (c_shared c)).
  - apply (same_RInv (c_shared c)); [|done]. unfold tunnel_stop. by case_match.
Qed.

(** At most one retry loop goes on: of all the retry loops that have not ended, the
    only one that is neither cancelled nor about to be is the one that [retryCancel]
    cancels, and no two have the same generation.  A loop that ends never erases the
    record of another. *)
Theorem one_live_retry auto c :
  reach false auto c ->
  (forall t p g, c_threads c !! t = Some p -> rg p = Some g -> live (c_shared c) (c_threads c) g ->
     m_retryCancel (c_shared c) = Some g) /\
  (forall t1 t2 p1 p2 g1 g2, c_threads c !! t1 = Some p1 -> c_threads c !! t2 = Some p2 ->
     rg p1 = Some g1 -> rg p2 = Some g2 ->
     g1 = g2 \/ live (c_shared c) (c_threads c) g1 /\ live (c_shared c) (c_threads c) g2 -> t1 = t2).
Proof.
  intros Hr. pose proof (reach_RInv _ _ Hr) as HR.
  assert (forall t p g, c_threads c !! t = Some p -> rg p = Some g -> live (c_shared c) (c_threads c) g ->
     m_retryCancel (c_shared c) = Some g) as Hcur.
  { intros t p g Ht Hp [Hn Hc]. destruct (r_known _ _ HR _ _ _ Ht Hp) as [?|[?|(w & q & Hw & Hq)]]; [done..|].
    by destruct (Hc w q Hw). }
  split; [done|]. intros t1 t2 p1 p2 g1 g2 H1 H2 Hp1 Hp2 Hor.
  assert (g1 = g2) as -> by (destruct Hor as [?|[L1 L2]];
    [done|pose proof (Hcur _ _ _ H1 Hp1 L1); pose proof (Hcur _ _ _ H2 Hp2 L2); congruence]).
  by eapply (r_unique _ _ HR).
Qed.

(** ** What is not guaranteed *)

Lemma none_of_decide k ths : bool_decide (map_Forall (fun _ p => kind_of p <> k) ths) = true -> none_of k ths.
Proof. intros H. apply bool_decide_eq_true in H. intros t p. apply H. Qed.

Ltac takes rule :=
  eapply rtc_l; [eapply rule; try first [done|apply none_of_decide; vm_compute; reflexivity]|]; vm_compute.

Ltac spawns t u rule :=
  eapply rtc_l; [eapply (ms_thread _ t u); [reflexivity|reflexivity|eapply rule; try first [done|by eexists]]|];
  vm_compute.

Ltac runs t rule := spawns t 9%nat rule.

(** The boot sequence finds the configuration on an adapter, or does not and starts the
    tunnel; it serves. *)
Definition paused_serving : Config :=
  MkConfig ((new_shared true) <| m_pausedBy := Some "wg0" |>) {[8%nat := WLoop]} Serving true.

Definition up_serving : Config :=
  MkConfig ((new_shared true) <| m_dev := Some 0%nat |> <| m_opened := {[0%nat]} |>) {[8%nat := WLoop]} Serving true.

Lemma boots_paused reload : reach reload true paused_serving.
Proof.
  unfold booting.
  runs 0%nat t_clock. runs 0%nat t_cread. runs 0%nat (t_clist 0 OBoot None (Some "wg0")).
  runs 0%nat t_cpause. runs 0%nat t_ktake. runs 0%nat t_kcall. runs 0%nat t_klock. runs 0%nat t_kstop.
  runs 0%nat t_kunlock. runs 0%nat t_cunlock. runs 0%nat t_slock. runs 0%nat t_sread_paused.
  runs 0%nat t_sunlock. runs 0%nat t_bgot. 
  takes (ms_booted reload). takes (ms_watch reload 8%nat). apply rtc_refl.
Qed.

Lemma boots_up reload : reach reload true up_serving.
Proof.
  unfold booting.
  runs 0%nat t_clock. runs 0%nat t_cread. runs 0%nat (t_clist 0 OBoot None None).
  runs 0%nat t_cunlock. runs 0%nat t_slock. runs 0%nat t_sread. runs 0%nat (t_sgo 0 Boot 0).
  runs 0%nat t_sbuild_ok. runs 0%nat t_sunlock. runs 0%nat t_bgot.
  takes (ms_booted reload). takes (ms_watch reload 8%nat). apply rtc_refl.
Qed.

(** The end of a pause can override [StopTunnel].  [resume] decides to bring the
    tunnel back under [m.mu], but starts the retry later: a [StopTunnel] in between, which
    finds no retry to cancel, returns, and the tunnel then comes up although nobody
    wants it. *)
Theorem resume_overrides_stop :
  exists c, reach false true c /\ c_threads c = {[8%nat := WLoop]} /\ c_service c = Serving /\
    m_wanted (c_shared c) = false /\ m_dev (c_shared c) = Some 0%nat.
Proof.
  eexists. split; [etransitivity; [apply boots_paused|]|].
  - takes ms_network. runs 8%nat t_wloop_event.
    runs 8%nat t_clock. runs 8%nat t_cread. runs 8%nat (t_clist 8 OWatcher (Some "wg0") None).
    runs 8%nat t_cresume.
    takes (ms_request false 2%nat XWant); [by right; left|].
    runs 2%nat t_xwant. runs 2%nat t_ktake. runs 2%nat t_kcall. runs 2%nat t_klock. runs 2%nat t_kstop.
    runs 2%nat t_kunlock.
    spawns 8%nat 3%nat t_cspawn. runs 8%nat t_cunlock.
    runs 3%nat t_rwait_timer. runs 3%nat t_rcheck. runs 3%nat t_slock. runs 3%nat t_sread.
    runs 3%nat (t_sgo 3 (Retry 1) 0). runs 3%nat t_sbuild_ok. runs 3%nat t_sunlock.
    runs 3%nat t_rgot_done; [by right|]. runs 3%nat t_rcancel. runs 3%nat t_rforget. apply rtc_refl.
  - done.
Qed.

(** The rebuild of a reload is not one of the attempts that [startMu] serialises,
    and the guarantees above do not extend to it.  A manual start during it builds a
    second device, which [Stop] then leaves open; and a pause during it finds no tunnel
    to stop, so that the tunnel is up while it is paused, and the check of conflicts that
    ends the reload leaves it so. *)
Theorem reload_rebuild_unserialised :
  (exists c, reach true true c /\ c_service c = Down /\ m_opened (c_shared c) <> ∅) /\
  (exists c, reach true true c /\ c_service c = Serving /\ c_threads c = {[8%nat := WLoop]} /\
     is_Some (m_pausedBy (c_shared c)) /\ is_Some (m_dev (c_shared c))).
Proof.
  split; eexists; (split; [etransitivity; [apply boots_up|]|]).
  - takes (ms_request true 1%nat LStop); [by do 3 right; split_and!; [| |eexists]|].
    takes (ms_rebuild true 1%nat); [apply l_stop|].
    takes (ms_rebuild true 1%nat); [by apply (l_start 1)|].
    takes (ms_request true 2%nat MWant); [by left|].
    runs 2%nat t_want. runs 2%nat t_check_down. runs 2%nat t_slock. runs 2%nat t_sread.
    runs 2%nat (t_sgo 2 Manual 2). runs 2%nat t_sbuild_ok. runs 2%nat t_sunlock.
    takes (ms_rebuild true 1%nat); [by apply l_build_ok|].
    runs 1%nat t_clock. runs 1%nat t_cread. runs 1%nat (t_clist 1 OPipe None None). runs 1%nat t_cunlock.
    takes ms_stop. takes ms_unwatch. takes ms_cancel. runs 8%nat t_wloop_done. takes ms_down. apply rtc_refl.
  - done.
  - takes (ms_request true 1%nat LStop); [by do 3 right; split_and!; [| |eexists]|].
    takes (ms_rebuild true 1%nat); [apply l_stop|].
    takes (ms_rebuild true 1%nat); [by apply (l_start 1)|].
    takes ms_network. runs 8%nat t_wloop_event.
    runs 8%nat t_clock. runs 8%nat t_cread. runs 8%nat (t_clist 8 OWatcher None (Some "wg0")).
    runs 8%nat t_cpause. runs 8%nat t_ktake. runs 8%nat t_kcall. runs 8%nat t_klock. runs 8%nat t_kstop.
    runs 8%nat t_kunlock. runs 8%nat t_cunlock.
    takes (ms_rebuild true 1%nat); [by apply l_build_ok|].
    runs 1%nat t_clock. runs 1%nat t_cread. runs 1%nat (t_clist 1 OPipe (Some "wg0") (Some "wg0")).
    runs 1%nat t_cset. runs 1%nat t_cunlock. apply rtc_refl.
  - split_and!; try done; by eexists.
Qed.

(** The witnesses run over the states above. *)
Lemma pause_holds_witness :
  m_dev (c_shared paused_serving) = None /\ m_opened (c_shared paused_serving) = ∅ /\
  (forall t p, c_threads paused_serving !! t = Some p -> going p = false).
Proof.
  apply (pause_holds true); [apply boots_paused|by eexists|].
  intros t p. simpl. by intros [_ <-]%lookup_singleton_Some.
Defined.

Lemma one_device_witness :
  (forall t1 t2 p1 p2, c_threads up_serving !! t1 = Some p1 -> c_threads up_serving !! t2 = Some p2 ->
     going p1 = true -> going p2 = true -> t1 = t2) /\
  (forall d1 d2, d1 ∈ m_opened (c_shared up_serving) -> d2 ∈ m_opened (c_shared up_serving) -> d1 = d2) /\
  (forall d, d ∈ m_opened (c_shared up_serving) <-> m_dev (c_shared up_serving) = Some d \/
     exists t p, c_threads up_serving !! t = Some p /\ building p = Some d).
Proof. apply (one_device true). apply boots_up. Defined.

(** The service with a retry loop, and a notification that its watcher's loop has not
    seen, when [Stop] has cancelled its context. *)
Definition retrying : Config :=
  MkConfig (MkShared None ∅ true None (Some 1%nat) 1 ∅ true false true false None None)
    (<[3%nat := RWait 1]> {[8%nat := WLoop]}) Cancelled false.

Lemma runs_retrying reload : reach reload true retrying.
Proof.
  unfold booting.
  runs 0%nat t_clock. runs 0%nat t_cread. runs 0%nat (t_clist 0 OBoot None None).
  runs 0%nat t_cunlock. runs 0%nat t_slock. runs 0%nat t_sread. runs 0%nat (t_sgo 0 Boot 0).
  runs 0%nat t_sbuild_fail. runs 0%nat t_sunlock. runs 0%nat t_bgot_failed. spawns 0%nat 3%nat t_bspawn.
  takes (ms_booted reload). takes (ms_watch reload 8%nat). takes ms_network.
  takes ms_stop. takes ms_unwatch. takes ms_cancel. apply rtc_refl.
Qed.

Lemma Stop_waits_end_witness :
  (forall n c', nsteps (fun x y => exists m, rtc (mstep true) x m /\ c_service m = Cancelled /\ thread_step m y) n retrying c' ->
     (n <= 79)%nat) /\
  (forall c', rtc (mstep true) retrying c' -> c_service c' = Cancelled -> (forall c'', ~ thread_step c' c'') ->
     c_threads c' = ∅ /\ exists c'', mstep true c' c'' /\ c_service c'' = Down).
Proof. exact (Stop_waits_end true true retrying (runs_retrying true) eq_refl). Defined.

Lemma one_live_retry_witness :
  (forall t p g, c_threads retrying !! t = Some p -> rg p = Some g ->
     live (c_shared retrying) (c_threads retrying) g ->
     m_retryCancel (c_shared retrying) = Some g) /\
  (forall t1 t2 p1 p2 g1 g2, c_threads retrying !! t1 = Some p1 ->
     c_threads retrying !! t2 = Some p2 -> rg p1 = Some g1 -> rg p2 = Some g2 ->
     g1 = g2 \/ live (c_shared retrying) (c_threads retrying) g1 /\
       live (c_shared retrying) (c_threads retrying) g2 -> t1 = t2).
Proof. exact (one_live_retry true retrying (runs_retrying false)). Defined.

Definition down_config : Config :=
  MkConfig (MkShared None ∅ false None None 0 ∅ true false false false None None) ∅ Down false.

Lemma runs_down : reach false false down_config.
Proof. takes (ms_booted false). takes ms_stop. takes ms_cancel. takes ms_down. apply rtc_refl. Qed.

Lemma Down_is_final_witness :
  let c := down_config <| c_shared ::= (fun s => s <| m_wake := true |>) |> in
  c_threads c = ∅ /\ m_dev (c_shared c) = None /\ m_opened (c_shared c) = ∅ /\
  c_watching c = false /\ c_service c = Down.
Proof.
  apply (Down_is_final false down_config); [apply runs_down|done|]. eapply rtc_once, ms_wake.
Defined.
